(** * Data-Quality Intelligence Studio: a shallow embedding of the core

    The development follows the three Python modules that hold the
    analytical core:

    - [modules/reporting_core.py]    : [ScoringService]
    - [modules/data_quality_core.py] : [RuleExecutorEngine]
    - [modules/case_management.py]   : case CRUD, [detect_duplicates],
                                       [identify_golden_record],
                                       [build_golden_records_df]

    Conventions of the embedding.

    - A pandas [DataFrame] is an ordered list of column names with their
      dtype and a list of rows; a row is a finite map from column name to
      cell, and a key that is missing from a row reads as NaN, as it does
      when pandas builds a frame from records.  Row labels are the
      positions [0 .. n-1] of the default [RangeIndex].
    - A cell is [None] (NaN / NaT) or a scalar.  The file loaders of the
      repository read every column with [dtype=str], so scalars are text;
      [datetime64] values are kept as a second kind of scalar because
      [detect_duplicates] inspects that dtype.
    - Text is a Rocq [string]; [str.strip] and [str.lower] act as Python
      does on the ASCII range and leave other bytes alone.
    - Python floats that hold scores and percentages are idealised as exact
      rationals ([Q]); [round(x, n)] rounds half to even at [n] decimals.
    - Python exceptions are values of [exn]; code that can raise lives in
      the error monad [Res], and [try ... except Exception] is
      [try_except].
    - [datetime.now()], [difflib.SequenceMatcher(..).ratio()], [eval], the
      text of a pandas [Timestamp] and the library-backed rule checks
      ([re], [float], [strptime]) are outside the repository: they are
      the fields of the class [Externals], and every statement holds for
      every instance of it. *)

From Stdlib Require Import ZArith QArith Qround Qabs Lqa Ascii DecimalString DecimalNat.
From stdpp Require Import gmap strings list sorting.

Local Open Scope Z_scope.
Local Open Scope stdpp_scope.

(** ** Python exceptions and the error monad *)

Inductive exn : Type :=
  | KeyError (key : string)
  | ValueError (msg : string)
  | TypeError (msg : string)
  | AttributeError (msg : string)
  | ZeroDivisionError (msg : string)
  | OtherError (msg : string).

(** [str(e)] *)
Definition exn_str (e : exn) : string :=
  match e with
  | KeyError k => "'" +:+ k +:+ "'"
  | ValueError m | TypeError m | AttributeError m | ZeroDivisionError m
  | OtherError m => m
  end.

Inductive Res (A : Type) : Type :=
  | Ok (a : A)
  | Raise (e : exn).
Arguments Ok {A} a.
Arguments Raise {A} e.

Global Instance res_ret : MRet Res := fun A a => Ok a.

Global Instance res_bind : MBind Res := fun A B k m =>
  match m with
  | Ok a => k a
  | Raise e => Raise e
  end.

Global Instance res_fmap : FMap Res := fun A B f m =>
  match m with
  | Ok a => Ok (f a)
  | Raise e => Raise e
  end.

(** [try: body except Exception as e: handler e] *)
Definition try_except {A} (body : Res A) (handler : exn → Res A) : Res A :=
  match body with
  | Ok a => Ok a
  | Raise e => handler e
  end.

(** A loop whose body can raise: the first exception ends it. *)
Fixpoint res_foldl {A B} (f : A → B → Res A) (a : A) (l : list B) : Res A :=
  match l with
  | [] => Ok a
  | x :: l' => a' ← f a x; res_foldl f a' l'
  end.

Fixpoint res_mapM {A B} (f : A → Res B) (l : list A) : Res (list B) :=
  match l with
  | [] => Ok []
  | x :: l' => y ← f x; ys ← res_mapM f l'; Ok (y :: ys)
  end.

(** ** The Python [str] methods the sources use *)

Module PyStr.

(** [c.isspace()] on the ASCII range: TAB, LF, VT, FF, CR, the four
    separators FS GS RS US, and the blank. *)
Definition isspace (c : ascii) : bool :=
  match c with
  | "009" | "010" | "011" | "012" | "013"
  | "028" | "029" | "030" | "031" | " " => true
  | _ => false
  end%char.

Fixpoint lstrip (s : string) : string :=
  match s with
  | "" => ""
  | String c s' => if isspace c then lstrip s' else s
  end.

(** Drops the blanks at the end: a character is kept when something
    that is kept follows it, or when it is not a blank. *)
Fixpoint rstrip (s : string) : string :=
  match s with
  | "" => ""
  | String c s' =>
      match rstrip s' with
      | "" => if isspace c then "" else String c ""
      | t => String c t
      end
  end.

(** [s.strip()] *)
Definition strip (s : string) : string := rstrip (lstrip s).

Definition lower_char (c : ascii) : ascii :=
  let n := Ascii.N_of_ascii c in
  if ((65 <=? n) && (n <=? 90))%N then Ascii.ascii_of_N (n + 32) else c.

(** [s.lower()] *)
Fixpoint lower (s : string) : string :=
  match s with
  | "" => ""
  | String c s' => String (lower_char c) (lower s')
  end.

(** [s.startswith(p)] *)
Definition startswith (s p : string) : bool := String.prefix p s.

(** [sub in s] *)
Fixpoint contains (sub s : string) : bool :=
  String.prefix sub s ||
  match s with
  | "" => false
  | String _ s' => contains sub s'
  end.

(** [sep.join(parts)] *)
Definition join (sep : string) (parts : list string) : string :=
  String.concat sep parts.

(** [bool(s)] *)
Definition truthy (s : string) : bool :=
  match s with "" => false | _ => true end.

(** [str(n)] for a non-negative [int] *)
Definition of_nat (n : nat) : string :=
  NilZero.string_of_uint (Nat.to_uint n).

(** [s.rjust(width, "0")]: the padding of the format [{n:04d}] *)
Definition zfill (width : nat) (s : string) : string :=
  String.concat "" (replicate (width - String.length s) "0") +:+ s.

(** [f"{n:04d}"] *)
Definition fmt_04d (n : nat) : string := zfill 4 (of_nat n).

End PyStr.

(** ** Rounding of scores *)

Module PyNum.

Local Open Scope Q_scope.

(** Nearest integer, a tie going to the even neighbour. *)
Definition round_half_even (x : Q) : Z :=
  let f := Qfloor x in
  let r := x - inject_Z f in
  match Qcompare r (1 # 2) with
  | Lt => f
  | Gt => (f + 1)%Z
  | Eq => if Z.even f then f else (f + 1)%Z
  end.

Definition pow10 (n : nat) : Z := (10 ^ Z.of_nat n)%Z.

(** [round(x, ndigits)] *)
Definition round (x : Q) (ndigits : nat) : Q :=
  inject_Z (round_half_even (x * inject_Z (pow10 ndigits)))
    / inject_Z (pow10 ndigits).

(** [a < b] *)
Definition ltb (a b : Q) : bool := negb (Qle_bool b a).

(** [a / b] on Python numbers *)
Definition truediv (a b : Q) : Res Q :=
  if Qeq_bool b 0 then Raise (ZeroDivisionError "division by zero")
  else Ok (a / b).

End PyNum.

(** ** What the sources take from outside the repository *)

(** Scalars of a cell. *)
Inductive Scalar : Type :=
  | Str (s : string)
  | Timestamp (ns : Z).

Global Instance Scalar_eq_dec : EqDecision Scalar.
Proof. solve_decision. Defined.

(** [None] is NaN (NaT in a [datetime64] column). *)
Definition Cell : Type := option Scalar.

Class Externals : Type := {
  (** [str(ts)] for a pandas [Timestamp] *)
  timestamp_str : Z → string;
  (** [SequenceMatcher(None, a, b).ratio()] *)
  ratio : string → string → Q;
  (** [bool(eval(expression, {"__builtins__": {}}, {"value": value, ...}))]:
      the truth value of the result, or the exception that evaluating
      (or taking the truth value) raises *)
  py_eval : string → Cell → Res bool;
  (** the rule types of [_execute_single_rule] that are decided by [re],
      [float], [int] or [strptime]: rule type, value, expression *)
  lib_rule : string → Cell → option string → Res bool
}.

(** * modules/case_management.py: case CRUD *)

Module Cases.

Record HistoryEntry : Type := {
  ts : string;
  action : string;
  by_ : string
}.

Record Case : Type := {
  case_id : string;
  title : string;
  type_ : string;
  priority : string;
  status : string;
  description : string;
  affected_records : nat;
  affected_columns : string;
  source : string;
  created_at : string;
  updated_at : string;
  resolved_at : string;
  assigned_to : string;
  history : list HistoryEntry;
  extra : gmap string string
}.

(** The two keys of [st.session_state] that the CRUD helpers touch. *)
Record SessionState : Type := {
  cases : list Case;
  case_counter : nat
}.

Definition _next_case_id (st : SessionState) : string * SessionState :=
  let n := S (case_counter st) in
  ("CASE-" +:+ PyStr.fmt_04d n, {| cases := cases st; case_counter := n |}).

(** [now] is [datetime.datetime.now().strftime("%Y-%m-%d %H:%M")]. *)
Definition create_case (now : string)
    (title case_type priority description : string)
    (affected_records : nat) (affected_columns source : string)
    (extra : option (gmap string string))
    (st : SessionState) : Case * SessionState :=
  let '(cid, st1) := _next_case_id st in
  let case := {|
    case_id := cid;
    title := title;
    type_ := case_type;
    priority := priority;
    status := "Open";
    description := description;
    affected_records := affected_records;
    affected_columns := affected_columns;
    source := source;
    created_at := now;
    updated_at := now;
    resolved_at := "";
    assigned_to := "";
    history := [ {| ts := now; action := "Case created"; by_ := "System" |} ];
    extra := default ∅ extra
  |} in
  (case, {| cases := cases st1 ++ [case]; case_counter := case_counter st1 |}).

(** [new_status in ("Resolved", "Closed")] *)
Definition is_terminal (new_status : string) : bool :=
  String.eqb new_status "Resolved" || String.eqb new_status "Closed".

(** The body of the [if c["case_id"] == case_id:] branch. *)
Definition apply_status (now new_status note by_who : string) (c : Case) : Case :=
  let old := status c in
  {| case_id := case_id c;
     title := title c;
     type_ := type_ c;
     priority := priority c;
     status := new_status;
     description := description c;
     affected_records := affected_records c;
     affected_columns := affected_columns c;
     source := source c;
     created_at := created_at c;
     updated_at := now;
     resolved_at := if is_terminal new_status then now else resolved_at c;
     assigned_to := assigned_to c;
     history := history c ++
       [ {| ts := now;
            action := "Status changed: " +:+ old +:+ " → " +:+ new_status
                      +:+ (if PyStr.truthy note then " (" +:+ note +:+ ")" else "");
            by_ := by_who |} ];
     extra := extra c |}.

(** The [for c in cases: if ...: ...; break] loop. *)
Fixpoint update_loop (now cid new_status note by_who : string)
    (cs : list Case) : list Case :=
  match cs with
  | [] => []
  | c :: cs' =>
      if String.eqb (case_id c) cid
      then apply_status now new_status note by_who c :: cs'
      else c :: update_loop now cid new_status note by_who cs'
  end.

Definition update_case_status (now cid new_status note by_who : string)
    (st : SessionState) : SessionState :=
  {| cases := update_loop now cid new_status note by_who (cases st);
     case_counter := case_counter st |}.

End Cases.

(** * The slice of pandas the sources use *)

Module Pandas.

Inductive Dtype : Type := object_ | datetime64.

Global Instance Dtype_eq_dec : EqDecision Dtype.
Proof. solve_decision. Defined.

(** A row maps column names to scalars; a column without an entry reads
    as NaN. *)
Abbreviation Row := (gmap string Scalar).

Record DataFrame : Type := {
  columns : list (string * Dtype);
  rows : list Row
}.

(** [df.columns.tolist()] *)
Definition column_names (df : DataFrame) : list string := (columns df).*1.

(** [df[col]] as the list of its cells, in row order *)
Definition column (df : DataFrame) (col : string) : list Cell :=
  (λ r : Row, r !! col) <$> rows df.

(** [str(v)] for a scalar; [astype(str)] turns NaN into the text [nan]. *)
Definition py_str `{Externals} (v : Scalar) : string :=
  match v with
  | Str s => s
  | Timestamp ns => timestamp_str ns
  end.

Definition astype_str `{Externals} (c : Cell) : string :=
  match c with
  | Some v => py_str v
  | None => "nan"
  end.

Section Counting.
Context {A : Type} `{EqDecision A}.

(** Number of positions of [l] that hold [x]. *)
Definition occurrences (x : A) (l : list A) : nat :=
  length (filter (λ y, y = x) l).

(** The distinct values of [l] in order of first appearance: the key
    order of the hash table behind [value_counts]. *)
Definition unique (l : list A) : list A :=
  reverse (remove_dups (reverse l)).

(** One step of a stable insertion sort by descending count. *)
Fixpoint insert_desc (x : A * nat) (l : list (A * nat)) : list (A * nat) :=
  match l with
  | [] => [x]
  | y :: l' =>
      if (y.2 <=? x.2)%nat then x :: l else y :: insert_desc x l'
  end.

(** [Series.sort_values(ascending=False)] on the counts.  pandas sorts
    them with a quicksort that is not stable, and the order among equal
    counts is left to the release and the machine; here equal counts
    keep their order of first appearance. *)
Definition sort_values_desc (l : list (A * nat)) : list (A * nat) :=
  foldr insert_desc [] l.

(** [Series.value_counts()] of a series without missing values: every
    distinct value with its count, most frequent first. *)
Definition value_counts (l : list A) : list (A * nat) :=
  sort_values_desc ((λ x, (x, occurrences x l)) <$> unique l).

(** [vc[vc > 1].index.tolist()] *)
Definition repeated (vc : list (A * nat)) : list A :=
  (filter (λ p : A * nat, 1 < p.2)%nat vc).*1.

(** [s[s == x].index.tolist()]: the positions that hold [x]. *)
Definition index_where (x : A) (l : list A) : list nat :=
  (filter (λ p : nat * A, p.2 = x) (imap (λ i y, (i, y)) l)).*1.
End Counting.

(** [Series.value_counts()] drops the missing values first
    ([dropna=True]). *)
Definition value_counts_dropna (l : list Cell) : list (Scalar * nat) :=
  value_counts (omap id l).

End Pandas.

(** * modules/data_quality_core.py: the rule executor *)

Module DQCore.
Import Pandas.

(** An entry of a rule dictionary that the executor reads with
    [rule.get(key, default)] and later joins as a text: the key is
    absent, or it holds a text, or it holds something that is not a
    text (a JSON null, a number, a list), of which [shown] is the
    [str()]: [None] for a null. *)
Inductive Entry : Type :=
  | NoKey
  | TextValue (s : string)
  | NotText (shown : string).

(** [rule.get(key, dflt)], when the result is a text; [None] stands for
    a result that is not one. *)
Definition get_or (dflt : string) (e : Entry) : option string :=
  match e with
  | NoKey => Some dflt
  | TextValue s => Some s
  | NotText _ => None
  end.

(** [str(rule.get(key, dflt))] *)
Definition shown_or (dflt : string) (e : Entry) : string :=
  match e with
  | NoKey => dflt
  | TextValue s => s
  | NotText shown => shown
  end.

(** A rule dictionary.  For [rule_type], [column] and [expression] a
    field that is [None] is a key the dictionary does not have or has
    with the value [None]: the executor reads the two alike.  For
    [columns], [None] is a key the dictionary does not have.  The
    values of these four keys are texts (a list of texts for
    [columns]).  For [message] and [dimension] the three cases of
    [Entry] are kept apart, because the executor joins them as
    texts. *)
Record Rule : Type := {
  rule_type : option string;
  column : option string;
  rule_columns : option (list string);
  expression : option string;
  message : Entry;
  dimension : Entry;
  severity : option string
}.

Record Rulebook : Type := {
  rules : list Rule
}.

(** The dictionary [_execute_single_rule] returns.  [res_message] and
    [res_dimension] are [None] when the value is not a text. *)
Record RuleResult : Type := {
  passed : bool;
  res_message : option string;
  res_rule_type : option string;
  res_column : option string;
  res_columns : option (list string);
  res_dimension : option string
}.

(** A row of the annotated results table. *)
Record AnnotatedRow : Type := {
  fields : Row;
  Issues : string;
  Count_of_issues : Z;
  _failed_rules_details : list RuleResult
}.

Record Engine : Type := {
  df : DataFrame;
  rulebook : Rulebook;
  duplicate_cache : gmap string (gset nat);
  combination_duplicates : gmap string (list (list nat))
}.

Section WithExternals.
Context `{Externals}.

Definition _is_null_or_empty (value : Cell) : bool :=
  match value with
  | None => true
  | Some v =>
      String.eqb (PyStr.strip (py_str v)) ""
      || String.eqb (PyStr.lower (py_str v)) "nan"
  end.

(** The body of the [for col in self.df.columns] loop of
    [_precompute_duplicates]: the set [dup_indices] of one column. *)
Definition column_dup_indices (frame : DataFrame) (col : string) : gset nat :=
  let dup_vals := repeated (value_counts_dropna (Pandas.column frame col)) in
  foldl (λ (dup_indices : gset nat) (val : Scalar),
           if _is_null_or_empty (Some val) then dup_indices
           else dup_indices ∪ list_to_set (index_where (Some val) (Pandas.column frame col)))
        ∅ dup_vals.

Definition _precompute_duplicates (frame : DataFrame) : gmap string (gset nat) :=
  foldl (λ cache col, <[col := column_dup_indices frame col]> cache)
        ∅ (column_names frame).

(** [self.df[columns].apply(tuple, axis=1)] *)
Definition combo_vals (frame : DataFrame) (cols : list string) : list (list Cell) :=
  (λ r : Row, (λ c, r !! c) <$> cols) <$> rows frame.

Definition combo_dup_groups (frame : DataFrame) (cols : list string) : list (list nat) :=
  let vals := combo_vals frame cols in
  foldl (λ dup_groups val,
           if existsb _is_null_or_empty val then dup_groups
           else
             let indices := index_where val vals in
             if (1 <? length indices)%nat then dup_groups ++ [indices]
             else dup_groups)
        [] (repeated (value_counts vals)).

Definition _precompute_combination_duplicates (frame : DataFrame) (rb : Rulebook)
    : gmap string (list (list nat)) :=
  foldl (λ acc rule,
           if bool_decide (rule_type rule = Some "uniqueness_combination") then
             let cols := default [] (rule_columns rule) in
             if (length cols <? 2)%nat then acc
             else <[PyStr.join " + " cols := combo_dup_groups frame cols]> acc
           else acc)
        ∅ (rules rb).

(** The state [RuleExecutorEngine.__init__] builds when it returns; see
    [new_engine] for the exception. *)
Definition RuleExecutorEngine (frame : DataFrame) (rb : Rulebook) : Engine :=
  {| df := frame;
     rulebook := rb;
     duplicate_cache := _precompute_duplicates frame;
     combination_duplicates := _precompute_combination_duplicates frame rb |}.

Definition forbidden_tokens : list string :=
  ["import"; "exec"; "eval"; "__"; "open"; "file"].

Definition _evaluate_safe_expression (value : Cell) (expr : string) : Res bool :=
  try_except
    (if existsb (λ kw, PyStr.contains kw expr) forbidden_tokens
     then Ok false
     else py_eval expr value)
    (λ _, Ok false).

Definition _execute_combination_uniqueness (self : Engine) (rule : Rule)
    (row_idx : nat) : RuleResult :=
  let cols := default [] (rule_columns rule) in
  let msg := get_or "Duplicate combination found" (message rule) in
  let dim := get_or "Uniqueness" (dimension rule) in
  if (length cols <? 2)%nat then
    {| passed := true; res_message := Some "";
       res_rule_type := Some "uniqueness_combination";
       res_column := None; res_columns := Some cols; res_dimension := dim |}
  else
    let combo_key := PyStr.join " + " cols in
    let dup_groups := default [] (combination_duplicates self !! combo_key) in
    let ok := forallb (λ grp, negb (bool_decide (row_idx ∈ grp))) dup_groups in
    {| passed := ok; res_message := if ok then Some "" else msg;
       res_rule_type := Some "uniqueness_combination";
       res_column := Some combo_key; res_columns := Some cols;
       res_dimension := dim |}.

(** [if expression:] *)
Definition expr_truthy (e : option string) : bool :=
  match e with
  | Some s => PyStr.truthy s
  | None => false
  end.

(** The [if / elif] chain inside the [try] of [_execute_single_rule];
    [passed] starts as [True]. *)
Definition dispatch (self : Engine) (rt : string) (col : string)
    (value : Cell) (expr : option string) (row_idx : nat) : Res bool :=
  if String.eqb rt "not_null" then
    Ok (negb (_is_null_or_empty value))
  else if String.eqb rt "uniqueness" then
    Ok (negb (bool_decide (row_idx ∈ default ∅ (duplicate_cache self !! col))))
  else if bool_decide (rt ∈ ["regex"; "allowed_values"; "range"; "length";
                              "no_special_chars"; "email_format";
                              "numeric_only"; "alpha_only"; "date_format"]) then
    lib_rule rt value expr
  else if String.eqb rt "contains" then
    if negb (_is_null_or_empty value) && expr_truthy expr
    then Ok (PyStr.contains (default "" expr) (astype_str value))
    else Ok true
  else if String.eqb rt "not_contains" then
    if negb (_is_null_or_empty value) && expr_truthy expr
    then Ok (negb (PyStr.contains (default "" expr) (astype_str value)))
    else Ok true
  else if String.eqb rt "custom_expression" then
    if expr_truthy expr
    then _evaluate_safe_expression value (default "" expr)
    else Ok true
  else Ok true.

Definition _execute_single_rule (self : Engine) (row : Row) (rule : Rule)
    (row_idx : nat) : Res RuleResult :=
  let msg := get_or "Validation failed" (message rule) in
  let dim := get_or "General" (dimension rule) in
  if bool_decide (rule_type rule = Some "uniqueness_combination") then
    Ok (_execute_combination_uniqueness self rule row_idx)
  else
    let skip := {| passed := true; res_message := Some "";
                   res_rule_type := rule_type rule;
                   res_column := column rule; res_columns := None;
                   res_dimension := dim |} in
    match column rule with
    | None => Ok skip
    | Some col =>
        if bool_decide (col ∈ column_names (df self)) then
          let value := row !! col in
          '(ok, m) ← try_except
              (ok ← match rule_type rule with
                    | Some rt => dispatch self rt col value (expression rule) row_idx
                    | None => Ok true
                    end;
               Ok (ok, msg))
              (λ e, Ok (false,
                        Some (shown_or "Validation failed" (message rule)
                              +:+ " (Error: " +:+ exn_str e +:+ ")")));
          Ok {| passed := ok; res_message := if ok then Some "" else m;
                res_rule_type := rule_type rule;
                res_column := Some col; res_columns := None;
                res_dimension := dim |}
        else Ok skip
    end.

(** [sep.join(items)]: an item that is not a text raises. *)
Definition join_texts (sep : string) (items : list (option string)) : Res string :=
  match list_find (λ item : option string, item = None) items with
  | Some (k, _) =>
      Raise (TypeError ("sequence item " +:+ PyStr.of_nat k
                        +:+ ": expected str instance"))
  | None => Ok (PyStr.join sep (omap id items))
  end.

(** The body of the loop [for idx, row in self.df.iterrows()] of
    [execute_all_rules].  Of the derived columns only [Issues],
    [Count of issues] and [_failed_rules_details] are kept: the others
    join a Python [set], whose order is not fixed.  Their joins are
    kept for what they raise: [", ".join(set(row_failed_rules))] and
    [", ".join(sorted(row_dimensions))] raise a [TypeError] when a
    failed rule has a type or a dimension that is not a text.  The text
    of these exceptions, which names the type that was found and
    depends on the order of the set, is not kept in full. *)
Definition annotate_row (self : Engine) (idx : nat) (row : Row)
    : Res AnnotatedRow :=
  results ← res_mapM (λ rule, _execute_single_rule self row rule idx)
                     (rules (rulebook self));
  let failures := filter (λ r, passed r = false) results in
  issues ← join_texts " | " (res_message <$> failures);
  _ ← join_texts ", " (res_rule_type <$> failures);
  _ ← join_texts ", " (res_dimension <$> failures);
  Ok {| fields := row;
        Issues := issues;
        Count_of_issues := Z.of_nat (length failures);
        _failed_rules_details := failures |}.

Definition execute_all_rules (self : Engine) : Res (list AnnotatedRow) :=
  res_mapM (λ '(idx, row), annotate_row self idx row)
           (imap pair (rows (df self))).

(** [RuleExecutorEngine(df, rulebook)]: building the engine evaluates
    [self.df[columns]] for every combination rule over at least two
    columns, which raises [KeyError] for a column the frame lacks. *)
Definition new_engine (frame : DataFrame) (rb : Rulebook) : Res Engine :=
  match filter (λ c, c ∉ column_names frame)
               (concat ((λ rule,
                           if bool_decide (rule_type rule
                                           = Some "uniqueness_combination")
                              && negb (length (default [] (rule_columns rule))
                                       <? 2)%nat
                           then default [] (rule_columns rule) else [])
                        <$> rules rb)) with
  | missing :: _ => Raise (KeyError missing)
  | [] => Ok (RuleExecutorEngine frame rb)
  end.

End WithExternals.

End DQCore.

(** * modules/reporting_core.py: the scoring service *)

Module Reporting.
Import DQCore.

Local Open Scope Q_scope.

(** [ScoringService.calculate_overall_score] *)
Definition calculate_overall_score (results_df : list AnnotatedRow) : Res Q :=
  let total := length results_df in
  if (total =? 0)%nat then Ok 0
  else
    let clean := length (filter (λ r, Count_of_issues r = 0%Z) results_df) in
    q ← PyNum.truediv (inject_Z (Z.of_nat clean)) (inject_Z (Z.of_nat total));
    Ok (PyNum.round (q * 100) 2).

(** The number of rows of the table whose [Count of issues] is 0. *)
Fixpoint clean_rows (table : list AnnotatedRow) : nat :=
  match table with
  | [] => 0%nat
  | r :: table' =>
      ((if Z.eqb (Count_of_issues r) 0 then 1 else 0) + clean_rows table')%nat
  end.

End Reporting.

(** * modules/case_management.py: the duplicate studio *)

Module Studio.
Import Pandas.

Local Open Scope Q_scope.

(** The columns [detect_duplicates] adds to a row.  [None] is NaN. *)
Record Annotations : Type := {
  _dup_group_id : option string;
  _is_duplicate : bool;
  _dup_count : nat;
  _match_type : string;
  _similarity_score : Q;
  _completeness : Q;
  _recency_rank : option nat
}.

Record DupRow : Type := {
  cells : Row;
  ann : Annotations
}.

(** The annotated copy of the frame. *)
Record DupFrame : Type := {
  base_columns : list (string * Dtype);
  dup_rows : list DupRow
}.

(** [[c for c in df.columns if not c.startswith("_")]] *)
Definition non_internal (cols : list string) : list string :=
  filter (λ c, PyStr.startswith c "_" = false) cols.

(** [df[cols].notna().sum(axis=1)] for one row *)
Definition notna_count (r : Row) (cols : list string) : nat :=
  length (filter (λ c, is_Some (r !! c)) cols).

Definition completeness_of (r : Row) (cols : list string) : Q :=
  PyNum.round
    (inject_Z (Z.of_nat (notna_count r cols))
       / inject_Z (Z.of_nat (Nat.max (length cols) 1)) * 100) 2.

Definition initial_annotations (df : DataFrame) : list Annotations :=
  (λ r : Row,
     {| _dup_group_id := None;
        _is_duplicate := false;
        _dup_count := 0;
        _match_type := "";
        _similarity_score := 0;
        _completeness := completeness_of r (non_internal (column_names df));
        _recency_rank := None |}) <$> rows df.

Section WithExternals.
Context `{Externals}.

(** [Series.fillna(value)] on one entry of a series of text *)
Definition fillna (value : string) (entry : option string) : string :=
  default value entry.

(** [match_df[col].astype(str).str.strip().str.lower().fillna("")] on
    one cell.  [astype(str)] has already turned NaN into text when
    [fillna] runs. *)
Definition normalize (c : Cell) : string :=
  fillna "" (PyStr.lower <$> (PyStr.strip <$> Some (astype_str c))).

(** The [_match_key] column.  [df[match_columns]] raises [KeyError] for
    a name that is not a column.  When a name comes twice in
    [match_columns], [match_df[col]] is a frame of two columns, not a
    series, and its [.str] raises [AttributeError]. *)
Definition match_keys (df : DataFrame) (match_columns : list string)
    : Res (list string) :=
  match filter (λ c, c ∉ column_names df) match_columns with
  | missing :: _ => Raise (KeyError missing)
  | [] =>
      if bool_decide (NoDup match_columns) then
        Ok ((λ r : Row,
               PyStr.join "|" ((λ c, normalize (r !! c)) <$> match_columns))
            <$> rows df)
      else Raise (AttributeError "'DataFrame' object has no attribute 'str'")
  end.

(** [for idx in idxs: result.at[idx, ...] = ...] *)
Definition update_at (idxs : list nat) (f : Annotations → Annotations)
    (result : list Annotations) : list Annotations :=
  foldl (λ res idx, alter f idx res) result idxs.

Definition mark_exact (gid : string) (n : nat) (a : Annotations) : Annotations :=
  {| _dup_group_id := Some gid;
     _is_duplicate := true;
     _dup_count := n;
     _match_type := "Exact";
     _similarity_score := 1;
     _completeness := _completeness a;
     _recency_rank := _recency_rank a |}.

(** The keys in the order [for key in dup_keys] visits them. *)
Definition dup_keys (keys : list string) : list string :=
  repeated (value_counts keys).

(** [f"DG-{group_id:04d}"] and [f"DG-{group_id:04d}-F"] *)
Definition exact_gid (group_id : nat) : string :=
  "DG-" +:+ PyStr.fmt_04d group_id.

Definition fuzzy_gid (group_id : nat) : string :=
  "DG-" +:+ PyStr.fmt_04d group_id +:+ "-F".

(** The body of [for key in dup_keys]; the state is
    [(group_id, result)]. *)
Definition exact_step (keys : list string) (st : nat * list Annotations)
    (key : string) : nat * list Annotations :=
  let '(group_id, result) := st in
  let idxs := index_where key keys in
  let group_id := S group_id in
  let gid := exact_gid group_id in
  (group_id, update_at idxs (mark_exact gid (length idxs)) result).

Definition exact_phase (keys : list string) (result : list Annotations)
    : nat * list Annotations :=
  foldl (exact_step keys) (0%nat, result) (dup_keys keys).

(** The labels of the rows the exact phase left alone. *)
Definition unassigned_of (result : list Annotations) : list nat :=
  (filter (λ p : nat * Annotations, _is_duplicate p.2 = false)
          (imap pair result)).*1.

Definition set_similarity (s : Q) (a : Annotations) : Annotations :=
  {| _dup_group_id := _dup_group_id a;
     _is_duplicate := _is_duplicate a;
     _dup_count := _dup_count a;
     _match_type := _match_type a;
     _similarity_score := s;
     _completeness := _completeness a;
     _recency_rank := _recency_rank a |}.

Definition key_at (keys : list string) (i : nat) : string :=
  default "" (keys !! i).

(** The body of the inner loop [for j, idx_b in unassigned] for the
    seed [idx_a]; the state is [(grp, result)]. *)
Definition scan_step (keys : list string) (threshold : Q) (idx_a : nat)
    (visited : gset nat) (st : list nat * list Annotations) (idx_b : nat)
    : list nat * list Annotations :=
  let '(grp, result) := st in
  if bool_decide (idx_b = idx_a) || bool_decide (idx_b ∈ visited)
  then (grp, result)
  else
    let sim := ratio (key_at keys idx_a) (key_at keys idx_b) in
    if Qle_bool threshold sim
    then (grp ++ [idx_b],
          alter (set_similarity (PyNum.round sim 3)) idx_b result)
    else (grp, result).

Definition scan (keys : list string) (threshold : Q) (idx_a : nat)
    (visited : gset nat) (unassigned : list nat)
    (result : list Annotations) : list nat * list Annotations :=
  foldl (scan_step keys threshold idx_a visited) ([idx_a], result) unassigned.

(** The test that lets [idx_b] into the group of the seed [idx_a]:
    it reads the key of the seed and the key of the candidate. *)
Definition admitted (keys : list string) (threshold : Q) (idx_a : nat)
    (visited : gset nat) (idx_b : nat) : Prop :=
  (idx_b ≠ idx_a) ∧ (idx_b ∉ visited)
  ∧ (Qle_bool threshold (ratio (key_at keys idx_a) (key_at keys idx_b)) = true).

Global Instance admitted_dec keys threshold idx_a visited idx_b :
  Decision (admitted keys threshold idx_a visited idx_b).
Proof. unfold admitted. apply _. Defined.

(** The outer loop [for i, idx_a in unassigned]; the state is
    [(visited, fuzzy_groups, result)]. *)
Definition cluster_step (keys : list string) (threshold : Q)
    (unassigned : list nat)
    (st : gset nat * list (list nat) * list Annotations) (idx_a : nat)
    : gset nat * list (list nat) * list Annotations :=
  let '(visited, fuzzy_groups, result) := st in
  if bool_decide (idx_a ∈ visited) then st
  else
    let '(grp, result) := scan keys threshold idx_a visited unassigned result in
    if (1 <? length grp)%nat
    then (visited ∪ list_to_set grp, fuzzy_groups ++ [grp], result)
    else (visited, fuzzy_groups, result).

Definition clusters (keys : list string) (threshold : Q)
    (unassigned : list nat) (result : list Annotations)
    : gset nat * list (list nat) * list Annotations :=
  foldl (cluster_step keys threshold unassigned) (∅, [], result) unassigned.

(** What holds of the state [(visited, fuzzy_groups, result)] all along
    the outer loop, [result0] being the table the loop started from:
    the visited rows are the rows of the groups; no row is in two
    groups; a group is a seed followed by at least one member, each of
    them similar to the seed and carrying the rounded similarity; every
    other row is as it was. *)
Definition well_clustered (keys : list string) (threshold : Q)
    (unassigned : list nat) (result0 : list Annotations)
    (st : gset nat * list (list nat) * list Annotations) : Prop :=
  let '(visited, groups, result) := st in
  (∀ x, x ∈ visited ↔ x ∈ concat groups)
  ∧ NoDup (concat groups)
  ∧ length result = length result0
  ∧ Forall (λ grp,
              ∃ seed members,
                grp = seed :: members ∧ members ≠ []
                ∧ seed ∈ unassigned
                ∧ result !! seed = result0 !! seed
                ∧ ∀ m, m ∈ members →
                    m ∈ unassigned
                    ∧ Qle_bool threshold
                        (ratio (key_at keys seed) (key_at keys m)) = true
                    ∧ result !! m
                      = set_similarity
                          (PyNum.round
                             (ratio (key_at keys seed) (key_at keys m)) 3)
                        <$> result0 !! m)
           groups
  ∧ (∀ i, i ∉ concat groups → result !! i = result0 !! i).

(** The labels of the rows whose match key no other row has, in row
    order: the rows that the exact phase leaves to the fuzzy phase. *)
Definition single_rows (keys : list string) : list nat :=
  (filter (λ p : nat * string, (occurrences p.2 keys < 2)%nat)
          (imap pair keys)).*1.

(** [seed] comes before [a] in the list [l]. *)
Definition before (l : list nat) (seed a : nat) : Prop :=
  ∃ pre post, l = pre ++ a :: post ∧ seed ∈ pre.

(** What the outer loop has done when it has gone through the seeds
    [seen] of the list [unassigned]: the visited rows are the rows of
    the stored groups; the [k]-th group is a seed that was not visited
    yet, followed by all the rows of [unassigned] that pass the test
    against this seed, given the groups stored before; the groups are
    stored in the order of their seeds; and a seed that ended without
    group had, at its turn, no row left that passes the test: every row
    similar enough to it was in a group of an earlier seed. *)
Definition exactly_clustered (keys : list string) (threshold : Q)
    (unassigned seen : list nat)
    (st : gset nat * list (list nat) * list Annotations) : Prop :=
  let '(visited, groups, _) := st in
  visited = list_to_set (concat groups)
  ∧ (∀ k grp,
       groups !! k = Some grp →
       ∃ seed members,
         grp = seed :: members ∧ members ≠ [] ∧ seed ∈ seen
         ∧ (seed ∉ concat (take k groups))
         ∧ members
           = filter (admitted keys threshold seed
                       (list_to_set (concat (take k groups))))
                    unassigned
         ∧ ∀ k' seed' members',
             (k' < k)%nat → groups !! k' = Some (seed' :: members') →
             before unassigned seed' seed)
  ∧ (∀ a, a ∈ seen → a ∉ concat groups →
       ∀ b, b ∈ unassigned → b ≠ a →
         Qle_bool threshold (ratio (key_at keys a) (key_at keys b)) = true →
         ∃ k seed members,
           groups !! k = Some (seed :: members) ∧ b ∈ seed :: members
           ∧ before unassigned seed a).

Definition mark_fuzzy (gid : string) (n : nat) (a : Annotations) : Annotations :=
  {| _dup_group_id := Some gid;
     _is_duplicate := true;
     _dup_count := n;
     _match_type := "Fuzzy";
     _similarity_score :=
       if Qeq_bool (_similarity_score a) 0 then 1 else _similarity_score a;
     _completeness := _completeness a;
     _recency_rank := _recency_rank a |}.

(** The body of [for grp in fuzzy_groups]; the state is
    [(group_id, result)]. *)
Definition finalize_step (st : nat * list Annotations) (grp : list nat)
    : nat * list Annotations :=
  let '(group_id, result) := st in
  let group_id := S group_id in
  let gid := fuzzy_gid group_id in
  (group_id, update_at grp (mark_fuzzy gid (length grp)) result).

Definition finalize (fuzzy_groups : list (list nat))
    (st : nat * list Annotations) : nat * list Annotations :=
  foldl finalize_step st fuzzy_groups.

(** The fuzzy phase; the second component is the list stored in
    [st.session_state["studio_fuzzy_groups"]]. *)
Definition fuzzy_phase (keys : list string) (threshold : Q)
    (st : nat * list Annotations) : (nat * list Annotations) * list (list nat) :=
  let '(group_id, result) := st in
  let unassigned := unassigned_of result in
  let '(_, fuzzy_groups, result) := clusters keys threshold unassigned result in
  (finalize fuzzy_groups (group_id, result), fuzzy_groups).

End WithExternals.

(** [df.select_dtypes(include=["datetime", "datetime64"]).columns.tolist()] *)
Definition date_cols (df : DataFrame) : list string :=
  (filter (λ c : string * Dtype, c.2 = datetime64) (columns df)).*1.

(** The instant of a cell of a [datetime64] column; NaT has none. *)
Definition time_of (c : Cell) : option Z :=
  match c with
  | Some (Timestamp ns) => Some ns
  | _ => None
  end.

(** The value of the double nearest to the integer [z], a tie going to
    the even mantissa: what the conversion of an [int64] to [float64]
    gives.  Integers below [2^53] in size are kept. *)
Definition float64_of_int (z : Z) : Z :=
  let a := Z.abs z in
  if (a <? 2 ^ 53)%Z then z
  else
    let ulp := (2 ^ (Z.log2 a - 52))%Z in
    let q := (a / ulp)%Z in
    let r := (a mod ulp)%Z in
    let m := if (2 * r <? ulp)%Z then q
             else if (ulp <? 2 * r)%Z then (q + 1)%Z
             else if Z.even q then q else (q + 1)%Z in
    (Z.sgn z * (m * ulp))%Z.

(** The [int64] that stands for NaT. *)
Definition iNaT : Z := (- 2 ^ 63)%Z.

(** [groupby] drops the rows whose key is NaN; [dropped] says that there
    is such a row. *)
Definition has_dropped_na (gids : list (option string)) : bool :=
  existsb (λ g : option string, bool_decide (g = None)) gids.

(** The value [rank] sorts a cell of the date column by.  When no row
    was dropped the instants are ranked as [int64] and NaT is masked.
    When a row was dropped, the group-by transform casts the values to
    [float64] first, so that the result can hold NaN for that row: the
    instants are rounded to doubles, and NaT is the double of its
    [int64], an ordinary value below every instant. *)
Definition rank_value (dropped : bool) (c : Cell) : option Z :=
  if dropped then Some (float64_of_int (default iNaT (time_of c)))
  else time_of c.

(** In a descending rank with [method="first"], the cell [c] at position
    [j] goes before the value [t] at position [i]. *)
Definition outranks (dropped : bool) (t : Z) (i j : nat) (c : Cell) : bool :=
  match rank_value dropped c with
  | Some t' => (t <? t')%Z || ((t' =? t)%Z && (j <? i)%nat)
  | None => false
  end.

(** [groupby(gid)[col].rank(method="first", ascending=False)
    .fillna(0).astype(int)] at the row [i]: one plus the number of
    members of the group with a greater value, or with the same value
    and an earlier position.  A row without group, or whose value is
    masked, gets NaN from [rank] and then 0 from [fillna]. *)
Definition rank_dated (gids : list (option string)) (dates : list Cell)
    (i : nat) : nat :=
  let dropped := has_dropped_na gids in
  match gids !! i, dates !! i ≫= rank_value dropped with
  | Some (Some g), Some t =>
      S (length
           (filter (λ p : nat * (option string * Cell),
                      p.2.1 = Some g ∧ outranks dropped t i p.1 p.2.2 = true)
                   (imap pair (zip gids dates))))
  | _, _ => 0%nat
  end.

(** [groupby(gid).cumcount(ascending=False) + 1] at the row [i]: one
    plus the number of members of the group that come later.  [groupby]
    drops the rows whose key is NaN and [cumcount] leaves NaN for them
    (pandas before 1.5 numbered them among themselves, from 1 up). *)
Definition rank_undated (gids : list (option string)) (i : nat) : option nat :=
  match gids !! i with
  | Some (Some g) =>
      Some (length
              (filter (λ p : nat * option string, p.2 = Some g ∧ (i < p.1)%nat)
                      (imap pair gids)) + 1)%nat
  | _ => None
  end.

Definition set_recency (r : option nat) (a : Annotations) : Annotations :=
  {| _dup_group_id := _dup_group_id a;
     _is_duplicate := _is_duplicate a;
     _dup_count := _dup_count a;
     _match_type := _match_type a;
     _similarity_score := _similarity_score a;
     _completeness := _completeness a;
     _recency_rank := r |}.

Definition recency (df : DataFrame) (result : list Annotations)
    : list Annotations :=
  let gids := _dup_group_id <$> result in
  match date_cols df with
  | col :: _ =>
      imap (λ i a, set_recency (Some (rank_dated gids (column df col) i)) a) result
  | [] =>
      imap (λ i a, set_recency (rank_undated gids i) a) result
  end.

Section WithExternals.
Context `{Externals}.

(** The exact phase followed, when asked for, by the fuzzy phase: the
    state [(group_id, result)] and what goes to the session state. *)
Definition phases (keys : list string) (df : DataFrame)
    (match_columns : list string) (fuzzy : bool) (threshold : Q)
    : (nat * list Annotations) * option (list (list nat)) :=
  let st := exact_phase keys (initial_annotations df) in
  if fuzzy && bool_decide (length match_columns = 1%nat)
  then let '(st, groups) := fuzzy_phase keys threshold st in (st, Some groups)
  else (st, None).

Definition detect_duplicates (df : DataFrame) (match_columns : list string)
    (fuzzy : bool) (threshold : Q)
    : Res (DupFrame * option (list (list nat))) :=
  keys ← match_keys df match_columns;
  let '(st, stash) := phases keys df match_columns fuzzy threshold in
  let result := recency df st.2 in
  Ok ({| base_columns := columns df;
         dup_rows := zip_with (λ r a, {| cells := r; ann := a |}) (rows df) result |},
      stash).

End WithExternals.

(** The duplicate keys in the order the rows first show them. *)
Definition first_seen_dups (keys : list string) : list string :=
  filter (λ key, (2 ≤ occurrences key keys)%nat) (unique keys).

(** The numbering a run would have if the group ids followed the first
    encounter of the duplicate keys: the rows of the [k]-th such key
    carry the id number [k + 1]. *)
Definition numbered_by_first_encounter : Prop :=
  ∀ (E : Externals) df match_columns fuzzy threshold out stash keys
    (k : nat) (key : string) (i : nat) (r : DupRow),
    detect_duplicates df match_columns fuzzy threshold = Ok (out, stash) →
    match_keys df match_columns = Ok keys →
    first_seen_dups keys !! k = Some key →
    keys !! i = Some key →
    dup_rows out !! i = Some r →
    _dup_group_id (ann r) = Some (exact_gid (S k)).

(** The duplicate flag of a row says whether the row has a group id. *)
Definition coherent (a : Annotations) : Prop :=
  _is_duplicate a = true ↔ is_Some (_dup_group_id a).

(** A row with a group id has a recency rank. *)
Definition ranked (a : Annotations) : Prop :=
  is_Some (_dup_group_id a) → is_Some (_recency_rank a).

(** A frame is annotated the way [detect_duplicates] does it when the
    rows flagged as duplicates are the rows that carry a group id. *)
Definition well_annotated (dup_df : DupFrame) : Prop :=
  ∀ r, r ∈ dup_rows dup_df → coherent (ann r).

(** The row belongs to one of the groups [ks]. *)
Definition in_groups (ks : list string) (r : DupRow) : Prop :=
  ∃ gid, gid ∈ ks ∧ _dup_group_id (ann r) = Some gid.

Global Instance in_groups_dec ks r : Decision (in_groups ks r).
Proof.
  unfold in_groups. destruct (_dup_group_id (ann r)) as [g|].
  - destruct (decide (g ∈ ks)) as [Hin|Hout].
    + left. by exists g.
    + right. intros (gid & Hgid & [= <-]). done.
  - right. by intros (gid & _ & ?).
Defined.

(** ** Survivorship *)

(** A selection of rows of a frame, each with its index label. *)
Abbreviation SubFrame := (list (nat * DupRow)).

Section Arg.
Context {V : Type} (better : V → V → bool).

(** [Series.idxmax()] / [Series.idxmin()]: the label of the first entry
    that no other entry beats; NaN entries are skipped, and a series
    without any other entry has no such label. *)
Definition arg_best (s : list (nat * option V)) : option nat :=
  fst <$>
    foldl (λ (best : option (nat * V)) (e : nat * option V),
             match e.2, best with
             | None, _ => best
             | Some v, None => Some (e.1, v)
             | Some v, Some (j, w) => if better v w then Some (e.1, v) else best
             end)
          None s.
End Arg.

(** [int(label)]; the label of an all-NaN series is NaN. *)
Definition int_of_label (label : option nat) : Res Z :=
  match label with
  | Some i => Ok (Z.of_nat i)
  | None => Raise (ValueError "cannot convert float NaN to integer")
  end.

(** [a < b] on scalars *)
Definition scalar_lt (a b : Scalar) : Res bool :=
  match a, b with
  | Str x, Str y => Ok (String.ltb x y)
  | Timestamp x, Timestamp y => Ok (x <? y)%Z
  | _, _ => Raise (TypeError "'<' not supported between instances of 'str' and 'Timestamp'")
  end.

(** One step of [Series.idxmin()] on a column of instants: NaT is
    skipped. *)
Definition idxmin_step (best : option (nat * Scalar)) (e : nat * Cell)
    : Res (option (nat * Scalar)) :=
  match e.2, best with
  | None, _ => Ok best
  | Some v, None => Ok (Some (e.1, v))
  | Some v, Some (j, w) =>
      less ← scalar_lt v w;
      Ok (if less : bool then Some (e.1, v) else best)
  end.

(** The cell holds a text. *)
Definition is_text (c : Cell) : bool :=
  match c with
  | Some (Str _) => true
  | _ => false
  end.

(** [Series.idxmin()] on the cells of a column.  A column that holds a
    text has the dtype [object], for which pandas refuses the reduction
    with a [TypeError], whether or not there are nulls beside the text
    (the releases from 3.0 on, where a text column has a string dtype,
    compare the texts instead).  The dtype is read off the cells at
    hand.  A column without any value gives NaN. *)
Definition idxmin_cells (s : list (nat * Cell)) : Res (option nat) :=
  if existsb (λ e : nat * Cell, is_text e.2) s
  then Raise (TypeError "reduction operation 'argmin' not allowed for this dtype")
  else
    best ← foldl (λ (acc : Res (option (nat * Scalar))) e,
                    best ← acc; idxmin_step best e)
                 (Ok None) s;
    Ok (fst <$> (best : option (nat * Scalar))).

Definition source_keywords : list string :=
  ["source"; "system"; "origin"; "priority"].

(** The internal columns have no keyword in their names, so the search
    goes over the columns of the original frame. *)
Definition src_cols (cols : list string) : list string :=
  filter (λ c, existsb (λ kw, PyStr.contains kw (PyStr.lower c)) source_keywords = true)
         cols.

Definition identify_golden_record (cols : list string) (group_df : SubFrame)
    (strategy : string) : Res Z :=
  let most_complete :=
    int_of_label
      (arg_best (λ v w, PyNum.ltb w v)
                ((λ p : nat * DupRow, (p.1, Some (_completeness (ann p.2)))) <$> group_df)) in
  match group_df with
  | [] => Ok (-1)%Z
  | first :: _ =>
      if String.eqb strategy "Most Complete" then most_complete
      else if String.eqb strategy "Most Recent" then
        int_of_label
          (arg_best Nat.ltb
                    ((λ p : nat * DupRow, (p.1, _recency_rank (ann p.2))) <$> group_df))
      else if String.eqb strategy "Most Frequent" then
        int_of_label
          (arg_best (λ v w, Nat.ltb w v)
                    ((λ p : nat * DupRow,
                        (p.1, Some (notna_count (cells p.2) (non_internal cols))))
                     <$> group_df))
      else if String.eqb strategy "Source Priority" then
        match src_cols cols with
        | col :: _ =>
            label ← idxmin_cells
                      ((λ p : nat * DupRow, (p.1, cells p.2 !! col)) <$> group_df);
            int_of_label label
        | [] => most_complete
        end
      else Ok (Z.of_nat first.1)
  end.

(** [grp.loc[[label]]] *)
Definition loc (grp : SubFrame) (label : Z) : Res SubFrame :=
  match filter (λ p : nat * DupRow, Z.of_nat p.1 = label) grp with
  | [] => Raise (KeyError "not in index")
  | found => Ok found
  end.

(** [grp.drop(index=label)] *)
Definition drop_label (grp : SubFrame) (label : Z) : Res SubFrame :=
  match filter (λ p : nat * DupRow, Z.of_nat p.1 = label) grp with
  | [] => Raise (KeyError "not found in axis")
  | _ => Ok (filter (λ p : nat * DupRow, Z.of_nat p.1 ≠ label) grp)
  end.

(** The keys of [groupby("_dup_group_id")]: sorted, without NaN. *)
Definition group_keys (s : SubFrame) : list string :=
  merge_sort String.le
    (remove_dups (omap (λ p : nat * DupRow, _dup_group_id (ann p.2)) s)).

Definition group_of (s : SubFrame) (gid : string) : SubFrame :=
  filter (λ p : nat * DupRow, _dup_group_id (ann p.2) = Some gid) s.

(** The body of [for gid, grp in dup_only.groupby("_dup_group_id")]; the
    state is [(golden_rows, discard_rows)]. *)
Definition survivorship_step (cols : list string) (strategy : string)
    (dup_only : SubFrame) (st : list SubFrame * list SubFrame) (gid : string)
    : Res (list SubFrame * list SubFrame) :=
  let '(golden_rows, discard_rows) := st in
  let grp := group_of dup_only gid in
  golden_idx ← identify_golden_record cols grp strategy;
  if (golden_idx =? -1)%Z then Ok (golden_rows, discard_rows)
  else
    g ← loc grp golden_idx;
    d ← drop_label grp golden_idx;
    Ok (golden_rows ++ [g], discard_rows ++ [d]).

Definition survivorship_loop (cols : list string) (strategy : string)
    (dup_only : SubFrame) : Res (list SubFrame * list SubFrame) :=
  res_foldl (survivorship_step cols strategy dup_only) ([], [])
            (group_keys dup_only).

Definition build_golden_records_df (dup_df : DupFrame) (strategy : string)
    : Res (SubFrame * SubFrame) :=
  let labelled := imap pair (dup_rows dup_df) in
  let non_dup := filter (λ p : nat * DupRow, _is_duplicate (ann p.2) = false) labelled in
  let dup_only := filter (λ p : nat * DupRow, _is_duplicate (ann p.2) = true) labelled in
  '(golden_rows, discard_rows) ←
    survivorship_loop (base_columns dup_df).*1 strategy dup_only;
  Ok (match golden_rows with
      | [] => non_dup
      | _ => concat (non_dup :: golden_rows)
      end,
      concat discard_rows).

End Studio.

(** * Example data *)

Module Demo.
Import Pandas DQCore Cases.

Definition demo_state : SessionState :=
  (create_case "2024-05-01 09:30" "Dup Group DG-0001" "Duplicate Records"
     "High" "" 2 "email" "Manual" None
     {| cases := []; case_counter := 0 |}).2.

(** An instance of the outside world for examples: the similarity of two
    keys drops by a tenth for every character of difference in length,
    and [eval] knows one comparison and raises on everything else. *)
Definition demo_externals : Externals := {|
  timestamp_str := λ _, "2024-01-01 00:00:00";
  ratio := λ a b,
    (1 - Qabs (inject_Z (Z.of_nat (String.length a))
               - inject_Z (Z.of_nat (String.length b))) / 10)%Q;
  py_eval := λ expr value,
    if String.eqb expr "value == 'a'"
    then Ok (bool_decide (value = Some (Str "a")))
    else Raise (OtherError "invalid syntax");
  lib_rule := λ _ _ _, Ok true
|}.

Definition demo_frame : DataFrame :=
  {| columns := [("id", object_)];
     rows := [ {[ "id" := Str "a" ]}; {[ "id" := Str "a" ]};
               {[ "id" := Str "b" ]}; ∅; ∅ ] |}.

Definition demo_rule (rt : string) (expr : option string) : Rule :=
  {| rule_type := Some rt; column := Some "id"; rule_columns := None;
     expression := expr; message := TextValue "id check";
     dimension := TextValue "Validity"; severity := None |}.

(** One text column [k] with the given cells. *)
Definition one_column (cells : list (option string)) : DataFrame :=
  {| columns := [("k", object_)];
     rows := (λ c : option string,
                match c with
                | Some s => ({[ "k" := Str s ]} : Row)
                | None => ∅
                end) <$> cells |}.

(** Two rows that are null in the match column. *)
Definition two_nulls : DataFrame := one_column [None; None].

(** The key [a] comes first and twice, the key [b] later and three
    times. *)
Definition abb : DataFrame :=
  one_column [Some "a"; Some "a"; Some "b"; Some "b"; Some "b"].

(** A pair of duplicates and a row on its own. *)
Definition aab : DataFrame := one_column [Some "a"; Some "a"; Some "b"].

Definition abb_run : Res (Studio.DupFrame * option (list (list nat))) :=
  @Studio.detect_duplicates demo_externals abb ["k"] false (85 # 100).

(** With [demo_externals] the keys [a] and [ccc] are both within a tenth
    of the seed [bb] and two tenths from each other; [q] is an exact
    pair. *)
Definition near_bb : DataFrame :=
  one_column [Some "bb"; Some "a"; Some "ccc"; Some "eeeeeee"; Some "q"; Some "q"].

Definition near_bb_run : Res (Studio.DupFrame * option (list (list nat))) :=
  @Studio.detect_duplicates demo_externals near_bb ["k"] true (9 # 10).

(** Two rows with the same key and nothing in the column [source]. *)
Definition null_source : DataFrame :=
  {| columns := [("k", object_); ("source", object_)];
     rows := [ {[ "k" := Str "a" ]}; {[ "k" := Str "a" ]} ] |}.

Definition aab_run : Res (Studio.DupFrame * option (list (list nat))) :=
  @Studio.detect_duplicates demo_externals aab ["k"] false (85 # 100).

End Demo.

(** * The case list over a session *)

Module Session.
Import Cases.

(** The values [init_case_management_state] gives to the two keys on a
    session that has neither. *)
Definition init_case_management_state : SessionState :=
  {| cases := []; case_counter := 0 |}.

(** The two writers of the case list.  Everything else in the
    repository reads it. *)
Inductive Call : Type :=
  | CreateCase (now title case_type priority description : string)
      (affected_records : nat) (affected_columns source : string)
      (extra : option (gmap string string))
  | UpdateCaseStatus (now cid new_status note by_who : string).

Definition call (st : SessionState) (c : Call) : SessionState :=
  match c with
  | CreateCase now title case_type priority description
               affected_records affected_columns source extra =>
      (create_case now title case_type priority description
                   affected_records affected_columns source extra st).2
  | UpdateCaseStatus now cid new_status note by_who =>
      update_case_status now cid new_status note by_who st
  end.

(** The session after a sequence of calls. *)
Definition calls (cs : list Call) (st : SessionState) : SessionState :=
  foldl call st cs.

(** The counter is the number of cases and the case at the position [i]
    carries the number [i + 1]. *)
Definition well_numbered (st : SessionState) : Prop :=
  case_counter st = length (cases st)
  ∧ ∀ i c, cases st !! i = Some c → case_id c = "CASE-" +:+ PyStr.fmt_04d (S i).

End Session.

(** * The groups of the survivorship loop *)

Module Survivors.
Import Pandas Studio.

(** The frame [grp] that the loop of [build_golden_records_df] hands to
    [identify_golden_record] for the group id [gid]. *)
Definition loop_group (dup_df : DupFrame) (gid : string) : SubFrame :=
  group_of (filter (λ p : nat * DupRow, _is_duplicate (ann p.2) = true)
                   (imap pair (dup_rows dup_df)))
           gid.

(** The instant a row has in a column, if any. *)
Definition instant (col : string) (p : nat * DupRow) : option Z :=
  time_of (cells p.2 !! col).

(** The instant of a row as [rank] sees it once the values are doubles:
    the double nearest to the instant, and the double of the [int64]
    of NaT for a row without instant. *)
Definition as_double (col : string) (p : nat * DupRow) : Z :=
  float64_of_int (default iNaT (instant col p)).

(** Some row of the frame carries no group id. *)
Definition has_ungrouped (dup_df : DupFrame) : bool :=
  has_dropped_na ((λ r : DupRow, _dup_group_id (ann r)) <$> dup_rows dup_df).

(** The value by which the rank of [detect_duplicates] sorts a row of
    [dup_df] in the date column [col]: the instant of the row when
    every row of the frame is in a group (a row without instant has
    none), and otherwise the double nearest to the instant, a row
    without instant counting as the least of all. *)
Definition stamp (dup_df : DupFrame) (col : string) (p : nat * DupRow)
    : option Z :=
  rank_value (has_ungrouped dup_df) (cells p.2 !! col).

End Survivors.

(** * More example data *)

Module Examples.
Import Pandas.

(** Three rows with the same key; the second has no value in the
    datetime column [seen]. *)
Definition dated : DataFrame :=
  {| columns := [("k", object_); ("seen", datetime64)];
     rows := [ {[ "k" := Str "a"; "seen" := Timestamp 5 ]};
               {[ "k" := Str "a" ]};
               {[ "k" := Str "a"; "seen" := Timestamp 9 ]} ] |}.

Definition dated_run : Res (Studio.DupFrame * option (list (list nat))) :=
  @Studio.detect_duplicates Demo.demo_externals dated ["k"] false (85 # 100).

(** The same three rows and a fourth with a key of its own. *)
Definition dated_and_single : DataFrame :=
  {| columns := [("k", object_); ("seen", datetime64)];
     rows := [ {[ "k" := Str "a"; "seen" := Timestamp 5 ]};
               {[ "k" := Str "a" ]};
               {[ "k" := Str "a"; "seen" := Timestamp 9 ]};
               {[ "k" := Str "z"; "seen" := Timestamp 7 ]} ] |}.

Definition dated_and_single_run
    : Res (Studio.DupFrame * option (list (list nat))) :=
  @Studio.detect_duplicates Demo.demo_externals dated_and_single ["k"] false
    (85 # 100).

End Examples.

(** * The rule types of the executor *)

Module RuleTypes.
Import Pandas.

(** The rule types whose check is made by a library function. *)
Definition library_rule_types : list string :=
  ["regex"; "allowed_values"; "range"; "length"; "no_special_chars";
   "email_format"; "numeric_only"; "alpha_only"; "date_format"].

(** The rule types that the chain of [if] / [elif] in
    [_execute_single_rule] knows. *)
Definition known_rule_types : list string :=
  ["not_null"; "uniqueness"] ++ library_rule_types
  ++ ["contains"; "not_contains"; "custom_expression"].

(** An outside world in which [float] refuses text that is not a
    number. *)
Definition strict_externals : Externals := {|
  timestamp_str := λ _, "2024-01-01 00:00:00";
  ratio := λ _ _, 0%Q;
  py_eval := λ _ _, Raise (OtherError "invalid syntax");
  lib_rule := λ rt value _,
    if String.eqb rt "numeric_only" then
      match value with
      | Some (Str "12") | None => Ok true
      | Some _ => Raise (ValueError "could not convert string to float")
      end
    else Ok true
|}.

(** Two columns; the rows 0 and 2 agree on both, the rows 3 and 4 agree
    but have no value in [b]. *)
Definition pairs : DataFrame :=
  {| columns := [("a", object_); ("b", object_)];
     rows := [ {[ "a" := Str "x"; "b" := Str "1" ]};
               {[ "a" := Str "x"; "b" := Str "2" ]};
               {[ "a" := Str "x"; "b" := Str "1" ]};
               {[ "a" := Str "y" ]};
               {[ "a" := Str "y" ]} ] |}.

Definition pair_rule : DQCore.Rule :=
  {| DQCore.rule_type := Some "uniqueness_combination";
     DQCore.column := None;
     DQCore.rule_columns := Some ["a"; "b"];
     DQCore.expression := None;
     DQCore.message := DQCore.TextValue "a + b should be unique";
     DQCore.dimension := DQCore.TextValue "Uniqueness";
     DQCore.severity := Some "HIGH" |}.

(** A [not_null] rule on [id] whose message is a JSON null. *)
Definition null_message_rule : DQCore.Rule :=
  {| DQCore.rule_type := Some "not_null";
     DQCore.column := Some "id";
     DQCore.rule_columns := None;
     DQCore.expression := None;
     DQCore.message := DQCore.NotText "None";
     DQCore.dimension := DQCore.TextValue "Completeness";
     DQCore.severity := None |}.

End RuleTypes.

(** * modules/reporting_core.py: the scores per column *)

Module Scores.
Import Pandas DQCore.

Local Open Scope Q_scope.

(** The columns a failed rule is charged to in [execute_all_rules]:
    [res.get("columns") or ([res["column"]] if res.get("column") else [])] *)
Definition charged_columns (res : RuleResult) : list string :=
  match res_columns res with
  | Some (c :: cs) => c :: cs
  | _ =>
      match res_column res with
      | Some col => if PyStr.truthy col then [col] else []
      | None => []
      end
  end.

(** The column [_failed_columns_list] of a row of the results table,
    [list(set(row_failed_columns))].  Python fixes no order for the
    items of a set; the scores do not depend on it. *)
Definition _failed_columns_list (ar : AnnotatedRow) : list string :=
  remove_dups (concat (charged_columns <$> _failed_rules_details ar)).

Definition _skip : list string :=
  ["Issues"; "Count of issues"; "Failed_Rules"; "Failed_Columns";
   "Issue categories"].

(** What [row.get("_failed_columns_list")] finds in a row: nothing (the
    table has no such column, or the cell is [None]), NaN, or a list. *)
Inductive ListCell : Type :=
  | NoList
  | NaNCell
  | Listed (l : list string).

(** [row.get("_failed_columns_list") or []], as far as it can be
    iterated: NaN is true and stays, and [for col in nan] raises. *)
Definition listed (entry : ListCell) : Res (list string) :=
  match entry with
  | NoList => Ok []
  | NaNCell => Raise (TypeError "'float' object is not iterable")
  | Listed l => Ok l
  end.

(** The lists of the rows, when the loop over the rows goes through. *)
Definition listed_all (failed_columns : list ListCell) : Res (list (list string)) :=
  res_mapM listed failed_columns.

(** [len(failed_tracker.get(col, set()))]: the number of rows whose list
    names the column. *)
Definition failed_count (lists : list (list string)) (col : string) : nat :=
  length (filter (λ l : list string, col ∈ l) lists).

(** [ScoringService.calculate_column_scores].  The function reads the
    length of the table and its column [_failed_columns_list], which is
    [failed_columns] here, one entry per row.  The dictionary it returns
    is the list of its items, in the order of insertion. *)
Definition calculate_column_scores
    (failed_columns : list ListCell) (all_columns : list string)
    : Res (list (string * Q)) :=
  let total := length failed_columns in
  if (total =? 0)%nat then Ok []
  else
    lists ← listed_all failed_columns;
    res_mapM
      (λ col,
         q ← PyNum.truediv
               (inject_Z (Z.of_nat total - Z.of_nat (failed_count lists col)))
               (inject_Z (Z.of_nat total));
         Ok (col, PyNum.round (q * 100) 2))
      (unique (filter (λ col, PyStr.startswith col "_" = false ∧ col ∉ _skip)
                      all_columns)).

(** The column [_failed_columns_list] of a results table. *)
Definition failed_columns_of (table : list AnnotatedRow) : list ListCell :=
  (λ ar, Listed (_failed_columns_list ar)) <$> table.

End Scores.

(** * modules/case_management.py: cases created by the tools *)

Module CaseAuto.
Import Cases Pandas Studio.

Local Open Scope Q_scope.

(** What the two functions take from outside the repository: the
    formats [{x:.1f}] and [{x:.2%}] of a float, the regular-expression
    search behind [Series.str.contains(pat, na=False)] (it raises for a
    pattern that does not compile) with its [case=False] variant, and
    the clock.  [clock n] is what
    [datetime.now().strftime("%Y-%m-%d %H:%M")] gives during the call of
    [create_case] that finds the case counter at [n]. *)
Class World : Type := {
  fmt_1f : Q → string;
  fmt_pct2 : Q → string;
  str_contains : bool → string → string → Res bool;
  clock : nat → string
}.

(** [_map_dim_to_case_type] *)
Definition _map_dim_to_case_type (dim : string) : string :=
  if String.eqb dim "Completeness" then "Missing Values"
  else if String.eqb dim "Validity" then "Invalid Format"
  else if String.eqb dim "Uniqueness" then "Uniqueness Violation"
  else if String.eqb dim "Standardization" then "Standardization Issue"
  else if String.eqb dim "Consistency" then "Consistency Issue"
  else if String.eqb dim "Accuracy" then "Outlier / Range Violation"
  else "Other".

Definition _CASE_TYPES : list string :=
  ["Duplicate Records"; "Missing Values"; "Invalid Format";
   "Outlier / Range Violation"; "Uniqueness Violation";
   "Standardization Issue"; "Consistency Issue"; "Other"].

Definition _CASE_PRIORITIES : list string :=
  ["Critical"; "High"; "Medium"; "Low"].

Section WithWorld.
Context `{World}.

(** ** [_auto_create_cases_for_dup_groups] *)

(** [f"Dup Group {gid}: {len(grp)} records on [{', '.join(match_columns)}]"] *)
Definition dup_group_title (gid : string) (n : nat) (match_columns : list string)
    : string :=
  "Dup Group " +:+ gid +:+ ": " +:+ PyStr.of_nat n +:+ " records on ["
  +:+ PyStr.join ", " match_columns +:+ "]".

(** [sum(sim_scores)] *)
Definition py_sum (l : list Q) : Q := foldl Qplus 0 l.

Definition dup_group_description (gid : string) (n : nat) (match_type : string)
    (match_columns : list string) (sim_scores : list Q) : string :=
  "Duplicate group " +:+ gid +:+ " contains " +:+ PyStr.of_nat n
  +:+ " records matched via " +:+ match_type +:+ " comparison on columns: "
  +:+ PyStr.join ", " match_columns +:+ "."
  +:+ match sim_scores with
      | [] => ""
      | _ => " Avg similarity: "
             +:+ fmt_pct2 (py_sum sim_scores
                           / inject_Z (Z.of_nat (length sim_scores)))
      end.

(** The dictionary [extra] of such a case.  The case record keeps the
    values of [extra] as text: a number as its decimal text, a list as
    its items joined by a comma. *)
Definition dup_group_extra (gid match_type : string) (row_indices : list nat)
    (match_columns : list string) (n : nat) : gmap string string :=
  {[ "group_id" := gid;
     "match_type" := match_type;
     "row_indices" := PyStr.join ", " (PyStr.of_nat <$> row_indices);
     "match_columns" := PyStr.join ", " match_columns;
     "record_count" := PyStr.of_nat n ]}.

(** The body of [for gid, grp in dup_only.groupby("_dup_group_id")]; the
    state is [(created, session)]. *)
Definition dup_case_step (existing : list string) (dup_only : SubFrame)
    (match_columns : list string) (match_type : string)
    (acc : nat * SessionState) (gid : string) : nat * SessionState :=
  let '(created, st) := acc in
  let grp := group_of dup_only gid in
  let title := dup_group_title gid (length grp) match_columns in
  if bool_decide (title ∈ existing) then (created, st)
  else
    let row_indices := grp.*1 in
    let sim_scores := (λ p : nat * DupRow, _similarity_score (ann p.2)) <$> grp in
    let st' :=
      (create_case (clock (case_counter st)) title "Duplicate Records" "High"
         (dup_group_description gid (length grp) match_type match_columns sim_scores)
         (length grp) (PyStr.join ", " match_columns)
         "Dynamic Duplicate Studio"
         (Some (dup_group_extra gid match_type row_indices match_columns
                                (length grp)))
         st).2 in
    (S created, st').

(** The case the loop creates for the group [gid] when it finds the
    counter at [n]. *)
Definition dup_case (dup_only : SubFrame) (match_columns : list string)
    (match_type : string) (n : nat) (gid : string) : Case :=
  let grp := group_of dup_only gid in
  (create_case (clock n) (dup_group_title gid (length grp) match_columns)
     "Duplicate Records" "High"
     (dup_group_description gid (length grp) match_type match_columns
        ((λ p : nat * DupRow, _similarity_score (ann p.2)) <$> grp))
     (length grp) (PyStr.join ", " match_columns)
     "Dynamic Duplicate Studio"
     (Some (dup_group_extra gid match_type grp.*1 match_columns (length grp)))
     {| cases := []; case_counter := n |}).1.

Definition _auto_create_cases_for_dup_groups (dup_df : DupFrame)
    (match_columns : list string) (match_type : string) (st : SessionState)
    : nat * SessionState :=
  let existing := title <$> cases st in
  let dup_only := filter (λ p : nat * DupRow, _is_duplicate (ann p.2) = true)
                         (imap pair (dup_rows dup_df)) in
  foldl (dup_case_step existing dup_only match_columns match_type)
        (0%nat, st) (group_keys dup_only).

(** ** [auto_create_cases_from_dq] *)

(** The two columns of the results table that the function reads;
    [None] is NaN. *)
Record DQRow : Type := {
  Issue_categories : option string;
  Failed_Rules : option string
}.

(** [len(df[df[col].str.contains(pat, na=False, case=case)])].  The
    search is made cell by cell, which is what pandas does on a column
    that holds a text; the tables of the executor have a text in every
    cell of the two columns. *)
Definition count_contains (ignore_case : bool) (pat : string)
    (column : list (option string)) : Res nat :=
  hits ← res_mapM (λ entry : option string,
                     match entry with
                     | Some s => str_contains ignore_case pat s
                     | None => Ok false
                     end) column;
  Ok (length (filter (λ b : bool, b = true) hits)).

(** [f"DQ Issue: {dim} score {score:.1f}%"] *)
Definition dq_title (dim : string) (score : Q) : string :=
  "DQ Issue: " +:+ dim +:+ " score " +:+ fmt_1f score +:+ "%".

Definition dq_priority (score : Q) : string :=
  if PyNum.ltb score 50 then "Critical"
  else if PyNum.ltb score 70 then "High" else "Medium".

(** The body of [for dim, score in dim_scores.items()].  The session is
    threaded beside the result: what was created before an exception
    stays in the session. *)
Definition dq_case_step (existing : list string) (results_df : list DQRow)
    (acc : Res nat * SessionState) (item : string * Q) : Res nat * SessionState :=
  let '(dim, score) := item in
  match acc with
  | (Raise e, st) => (Raise e, st)
  | (Ok created, st) =>
      if PyNum.ltb score 80 then
        let title := dq_title dim score in
        if bool_decide (title ∈ existing) then (Ok created, st)
        else
          match count_contains false dim (Issue_categories <$> results_df) with
          | Raise e => (Raise e, st)
          | Ok failed =>
              (Ok (S created),
               (create_case (clock (case_counter st)) title
                  (_map_dim_to_case_type dim) (dq_priority score)
                  ("Dimension '" +:+ dim +:+ "' scored " +:+ fmt_1f score
                   +:+ "% — below 80% threshold.")
                  failed "" "DQ Engine" None st).2)
          end
      else (Ok created, st)
  end.

(** What holds of a case that the loop over [items] creates: it is the
    case of a dimension that scores below 80 and whose title is new. *)
Definition dq_made (existing : list string) (items : list (string * Q))
    (c : Case) : Prop :=
  ∃ dim score,
    (dim, score) ∈ items ∧ PyNum.ltb score 80 = true
    ∧ title c = dq_title dim score ∧ (title c ∉ existing)
    ∧ status c = "Open" ∧ source c = "DQ Engine"
    ∧ type_ c = _map_dim_to_case_type dim
    ∧ priority c = dq_priority score.

(** [dim_scores] is the dictionary as the list of its items; the empty
    list stands for [None] as well. *)
Definition auto_create_cases_from_dq (results_df : list DQRow)
    (dim_scores : list (string * Q)) (st : SessionState)
    : Res nat * SessionState :=
  match results_df with
  | [] => (Ok 0%nat, st)
  | _ =>
      let existing := title <$> cases st in
      match foldl (dq_case_step existing results_df) (Ok 0%nat, st) dim_scores with
      | (Raise e, st1) => (Raise e, st1)
      | (Ok created, st1) =>
          match count_contains true "uniqueness" (Failed_Rules <$> results_df) with
          | Raise e => (Raise e, st1)
          | Ok n =>
              if (0 <? n)%nat then
                let title := "Duplicate Records Detected (" +:+ PyStr.of_nat n
                             +:+ " rows)" in
                if bool_decide (title ∈ existing) then (Ok created, st1)
                else
                  (Ok (S created),
                   (create_case (clock (case_counter st1)) title
                      "Duplicate Records" "High"
                      (PyStr.of_nat n
                       +:+ " records flagged for uniqueness violations.")
                      n "" "DQ Engine" None st1).2)
              else (Ok created, st1)
          end
      end
  end.

End WithWorld.

(** A world for examples: every float prints as [x], a pattern is
    searched as plain text, the clock stands still. *)
Definition demo_world : World := {|
  fmt_1f := λ _, "x";
  fmt_pct2 := λ _, "x";
  str_contains := λ ignore_case pat s,
    Ok (PyStr.contains (if ignore_case then PyStr.lower pat else pat)
                       (if ignore_case then PyStr.lower s else s));
  clock := λ _, "2024-05-01 09:30"
|}.

End CaseAuto.

(** * modules/data_quality_core.py: the rulebook builder *)

Module Builder.
Import DQCore.

(** A cell of the rules sheet.  The loaders read a sheet as text and
    put [None] where a cell is missing; a frame built otherwise has NaN
    there. *)
Inductive SheetCell : Type :=
  | PyNone
  | NaN
  | Text (s : string).

(** The rules sheet: its column names and its rows.  A column that a
    row has no entry for reads as NaN. *)
Record Sheet : Type := {
  sheet_columns : list string;
  sheet_rows : list (gmap string SheetCell)
}.

(** [row.get(field)] and [row.get(field, default)]: a field that is no
    column of the sheet gives [None], or the default. *)
Definition row_get (sheet : Sheet) (row : gmap string SheetCell) (field : string)
    : SheetCell :=
  if bool_decide (field ∈ sheet_columns sheet)
  then default NaN (row !! field) else PyNone.

Definition row_get_default (sheet : Sheet) (row : gmap string SheetCell)
    (field : string) (dflt : string) : SheetCell :=
  if bool_decide (field ∈ sheet_columns sheet)
  then default NaN (row !! field) else Text dflt.

(** [str(v)] *)
Definition cell_str (v : SheetCell) : string :=
  match v with
  | PyNone => "None"
  | NaN => "nan"
  | Text s => s
  end.

(** [not v or pd.isna(v)] *)
Definition blank (v : SheetCell) : bool :=
  match v with
  | PyNone | NaN => true
  | Text s => negb (PyStr.truthy s)
  end.

(** [s.split(sep)] for a separator of one character *)
Fixpoint split (sep : ascii) (s : string) : list string :=
  match s with
  | "" => [""]
  | String c s' =>
      if Ascii.eqb c sep then "" :: split sep s'
      else match split sep s' with
           | [] => [String c ""]
           | part :: parts => String c part :: parts
           end
  end.

Section WithAliases.
(** [RULE_ALIAS_MAP] of [modules/config.py] *)
Variable rule_alias_map : gmap string string.
(** [datetime.datetime.now().isoformat()] *)
Variable now_iso : string.

Definition _detect_column_field (sheet : Sheet) : Res string :=
  if bool_decide ("column_name" ∈ sheet_columns sheet) then Ok "column_name"
  else if bool_decide ("column" ∈ sheet_columns sheet) then Ok "column"
  else Raise (ValueError "Rules dataset must have 'column_name' or 'column' field").

Definition _detect_rule_field (sheet : Sheet) : Res string :=
  if bool_decide ("rule_type" ∈ sheet_columns sheet) then Ok "rule_type"
  else if bool_decide ("rule" ∈ sheet_columns sheet) then Ok "rule"
  else Raise (ValueError "Rules dataset must have 'rule_type' or 'rule' field").

Definition _detect_dimension_field (sheet : Sheet) : option string :=
  if bool_decide ("dimension" ∈ sheet_columns sheet) then Some "dimension"
  else if bool_decide ("rule_category" ∈ sheet_columns sheet)
       then Some "rule_category"
       else None.

Definition _normalize_rule_type (rule_text : string) : string :=
  let rule_lower := PyStr.strip (PyStr.lower rule_text) in
  match rule_alias_map !! rule_lower with
  | Some rt => rt
  | None =>
      if PyStr.contains "not null" rule_lower
         || PyStr.contains "not blank" rule_lower then "not_null"
      else if PyStr.contains "unique" rule_lower
              || PyStr.contains "duplicate" rule_lower then "uniqueness"
      else if PyStr.contains "email" rule_lower then "email_format"
      else if PyStr.contains "regex" rule_lower
              || PyStr.contains "pattern" rule_lower then "regex"
      else if PyStr.contains "numeric" rule_lower then "numeric_only"
      else if PyStr.contains "alpha" rule_lower then "alpha_only"
      else if PyStr.contains "special char" rule_lower then "no_special_chars"
      else if PyStr.contains "date" rule_lower then "date_format"
      else rule_lower
  end.

(** [str(row.get(dimension_field, dflt) if dimension_field else dflt)];
    the test [pd.isna(dimension)] that follows is on a text and never
    holds. *)
Definition dimension_of (sheet : Sheet) (row : gmap string SheetCell)
    (dimension_field : option string) (dflt : string) : string :=
  match dimension_field with
  | Some field => cell_str (row_get_default sheet row field dflt)
  | None => dflt
  end.

(** [str(v) if v and not pd.isna(v) else dflt] *)
Definition text_or (v : SheetCell) (dflt : string) : string :=
  if blank v then dflt else cell_str v.

Definition _build_combination_rule (sheet : Sheet) (row : gmap string SheetCell)
    (column_combination : SheetCell) (rule_field : string)
    (dimension_field : option string) (base_columns : list string)
    : option Rule :=
  let columns := PyStr.strip <$> split "+" (cell_str column_combination) in
  let valid_columns := filter (λ c, c ∈ base_columns) columns in
  if (length valid_columns <? 2)%nat then None
  else
    Some {| rule_type := Some "uniqueness_combination";
            column := None;
            rule_columns := Some valid_columns;
            expression := None;
            message :=
              TextValue (text_or (row_get sheet row "message")
                           ("Combination " +:+ PyStr.join " + " valid_columns
                            +:+ " should be unique"));
            dimension :=
              TextValue (dimension_of sheet row dimension_field "Uniqueness");
            severity :=
              Some (text_or (row_get_default sheet row "severity" "HIGH") "HIGH") |}.

Definition _build_single_rule (sheet : Sheet) (row : gmap string SheetCell)
    (col : string) (rule_field : string) (dimension_field : option string)
    : option Rule :=
  let rule_value := row_get sheet row rule_field in
  if blank rule_value then None
  else
    let rt := _normalize_rule_type (cell_str rule_value) in
    Some {| rule_type := Some rt;
            column := Some col;
            rule_columns := None;
            expression :=
              match row_get sheet row "expression" with
              | Text s => if String.eqb (PyStr.lower s) "none" then None else Some s
              | PyNone | NaN => None
              end;
            message :=
              TextValue (text_or (row_get sheet row "message")
                           (col +:+ ": " +:+ rt +:+ " validation failed"));
            dimension :=
              TextValue (dimension_of sheet row dimension_field "General");
            severity :=
              Some (text_or (row_get_default sheet row "severity" "MEDIUM")
                      "MEDIUM") |}.

(** The body of [for _, row in rules_df.iterrows()]: the rule the row
    gives, if any. *)
Definition rule_of_row (sheet : Sheet) (base_columns : list string)
    (col_name_field rule_type_field : string) (dimension_field : option string)
    (row : gmap string SheetCell) : option Rule :=
  let column := row_get sheet row col_name_field in
  if blank column then None
  else if PyStr.contains "+" (cell_str column) then
    _build_combination_rule sheet row column rule_type_field dimension_field
                            base_columns
  else
    let col := PyStr.strip (cell_str column) in
    if bool_decide (col ∈ base_columns)
    then _build_single_rule sheet row col rule_type_field dimension_field
    else None.

(** The dictionary [build_from_rules_dataset] returns. *)
Record Built : Type := {
  built : Rulebook;
  created : string;
  total_rules : nat;
  source : string
}.

Definition build_from_rules_dataset (sheet : Sheet) (base_columns : list string)
    : Res Built :=
  col_name_field ← _detect_column_field sheet;
  rule_type_field ← _detect_rule_field sheet;
  let dimension_field := _detect_dimension_field sheet in
  let rules := omap (rule_of_row sheet base_columns col_name_field
                                 rule_type_field dimension_field)
                    (sheet_rows sheet) in
  Ok {| built := {| rules := rules |};
        created := now_iso;
        total_rules := length rules;
        source := "rules_dataset" |}.

End WithAliases.

(** A sheet with a rule on [id], a combination over [a] and [b], a rule
    on a column that the data do not have, and a row without column. *)
Definition demo_sheet : Sheet :=
  {| sheet_columns := ["column_name"; "rule_type"; "dimension"];
     sheet_rows :=
       [ {[ "column_name" := Text " id "; "rule_type" := Text "Not Null" ]};
         {[ "column_name" := Text "a + b + zz"; "rule_type" := Text "regex";
            "dimension" := Text "Uniqueness" ]};
         {[ "column_name" := Text "ghost"; "rule_type" := Text "unique" ]};
         {[ "rule_type" := Text "unique" ]} ] |}.

End Builder.

(** * modules/reporting_core.py: the tracker of uniqueness failures *)

Module Trackers.
Import Pandas DQCore.

(** The entry [column] of a detail record of [execute_all_rules]:
    [res.get("column") or " + ".join(res.get("columns", []))] *)
Definition detail_column (res : RuleResult) : string :=
  match res_column res with
  | Some col => if PyStr.truthy col then col
                else PyStr.join " + " (default [] (res_columns res))
  | None => PyStr.join " + " (default [] (res_columns res))
  end.

(** The body of the inner loop of [_build_uniqueness_failures]:
    [failures[col].append(idx)] for a detail of a uniqueness rule with a
    column. *)
Definition note_failure (idx : nat) (failures : gmap string (list nat))
    (rd : RuleResult) : gmap string (list nat) :=
  if bool_decide (res_rule_type rd = Some "uniqueness")
     && PyStr.truthy (detail_column rd)
  then <[detail_column rd := default [] (failures !! detail_column rd) ++ [idx]]>
         failures
  else failures.

(** [ExcelReportGenerator._build_uniqueness_failures] on the results
    table. *)
Definition _build_uniqueness_failures (results_df : list AnnotatedRow)
    : gmap string (list nat) :=
  foldl (λ failures '(idx, row),
           foldl (note_failure idx) failures (_failed_rules_details row))
        ∅ (imap pair results_df).

End Trackers.

(** * modules/data_io_core.py: the size of a file for display *)

Module FileSize.

Local Open Scope Q_scope.

(** The loop [for unit in ...] of [format_file_size] over the units that
    are left, and the line after it: the number to show and its unit.
    A size below [2^53] bytes is a float exactly, and so are its
    quotients by 1024. *)
Fixpoint scaled (units : list string) (size_bytes : Q) : Q * string :=
  match units with
  | [] => (size_bytes, "TB")
  | unit :: units =>
      if PyNum.ltb size_bytes 1024 then (size_bytes, unit)
      else scaled units (size_bytes / 1024)
  end.

(** The number of hundredths that the format [.2f] shows for [x]: the
    nearest one, a tie going to the even one. *)
Definition hundredths (x : Q) : Z := PyNum.round_half_even (x * 100).

(** A number of hundredths written with two decimals, with the sign of
    the number that was rounded. *)
Definition two_decimals (negative : bool) (h : Z) : string :=
  (if negative then "-" else "")
  +:+ PyStr.of_nat (Z.to_nat (Z.abs h / 100)) +:+ "."
  +:+ PyStr.zfill 2 (PyStr.of_nat (Z.to_nat (Z.abs h mod 100))).

(** [f"{x:.2f}"] *)
Definition fmt_2f (x : Q) : string :=
  two_decimals (PyNum.ltb x 0) (hundredths x).

Definition format_file_size (size_bytes : Z) : string :=
  let '(shown, unit) := scaled ["B"; "KB"; "MB"; "GB"] (inject_Z size_bytes) in
  fmt_2f shown +:+ " " +:+ unit.

End FileSize.

(** * Properties *)

(** ** Case CRUD *)

Module CasesProps.
Import Cases Demo.

Lemma update_loop_absent now cid new_status note who (cs : list Case) :
  Forall (λ c, case_id c ≠ cid) cs →
  update_loop now cid new_status note who cs = cs.
Proof.
  induction 1 as [|c cs Hc _ IH]; simpl; [done|].
  destruct (String.eqb_spec (case_id c) cid) as [Heq|_]; [by destruct Hc|].
  by rewrite IH.
Qed.

Lemma update_loop_first now cid new_status note who (pre post : list Case) c :
  Forall (λ x, case_id x ≠ cid) pre →
  case_id c = cid →
  update_loop now cid new_status note who (pre ++ c :: post)
  = pre ++ apply_status now new_status note who c :: post.
Proof.
  intros Hpre Hc.
  induction Hpre as [|x pre Hx _ IH]; simpl.
  - by rewrite Hc, String.eqb_refl.
  - destruct (String.eqb_spec (case_id x) cid) as [Heq|_]; [by destruct Hx|].
    by rewrite IH.
Qed.

Lemma is_terminal_spec new_status :
  is_terminal new_status = true ↔ new_status = "Resolved" ∨ new_status = "Closed".
Proof.
  unfold is_terminal.
  rewrite orb_true_iff, !String.eqb_eq. done.
Qed.

(** C8.  [create_case] returns a case whose history is the single entry
    "Case created" and appends that case to the session's list.
    [update_case_status] on the first case that carries the id replaces
    it, in place, by a case whose history has exactly one more entry, with
    the text "Status changed: <old> → <new>" (and the note, when there is
    one); the new status is stored whatever the old and the new status
    are, [updated_at] becomes the current time, and [resolved_at] becomes
    the current time when the new status is Resolved or Closed and keeps
    its value otherwise. *)
Theorem case_history_grows
    now title ctype prio descr n cols src extra st0
    now' cid new_status note who st (pre post : list Case) c :
  cases st = pre ++ c :: post →
  Forall (λ x, case_id x ≠ cid) pre →
  case_id c = cid →
  (let '(created, st1) :=
       create_case now title ctype prio descr n cols src extra st0 in
   history created = [ {| ts := now; action := "Case created"; by_ := "System" |} ]
   ∧ status created = "Open"
   ∧ cases st1 = cases st0 ++ [created])
  ∧
  (∃ c' e,
     cases (update_case_status now' cid new_status note who st)
       = pre ++ c' :: post
     ∧ history c' = history c ++ [e]
     ∧ ts e = now'
     ∧ action e = "Status changed: " +:+ status c +:+ " → " +:+ new_status
                  +:+ (if PyStr.truthy note then " (" +:+ note +:+ ")" else "")
     ∧ status c' = new_status
     ∧ updated_at c' = now'
     ∧ resolved_at c' =
         (if decide (new_status = "Resolved" ∨ new_status = "Closed")
          then now' else resolved_at c)).
Proof.
  intros Hst Hpre Hc. split.
  - done.
  - exists (apply_status now' new_status note who c).
    eexists. split; [|split; [reflexivity|]].
    + unfold update_case_status; simpl. rewrite Hst.
      by apply update_loop_first.
    + simpl. repeat split.
      destruct (is_terminal new_status) eqn:Ht.
      * apply is_terminal_spec in Ht. by rewrite decide_True.
      * rewrite decide_False; [done|].
        intros Hn. apply is_terminal_spec in Hn. congruence.
Qed.

Lemma case_history_grows_witness :
  ∃ c' e,
    cases (update_case_status "2024-05-02 10:00" "CASE-0001" "Resolved"
             "merged" "User" demo_state) = [] ++ c' :: []
    ∧ length (history c') = 2%nat
    ∧ action e = "Status changed: Open → Resolved (merged)"
    ∧ resolved_at c' = "2024-05-02 10:00".
Proof.
  destruct (case_history_grows
              "2024-05-01 09:30" "t" "Other" "Low" "" 0 "" "Manual" None
              {| cases := []; case_counter := 0 |}
              "2024-05-02 10:00" "CASE-0001" "Resolved" "merged" "User"
              demo_state [] []
              (create_case "2024-05-01 09:30" "Dup Group DG-0001"
                 "Duplicate Records" "High" "" 2 "email" "Manual" None
                 {| cases := []; case_counter := 0 |}).1
              eq_refl (List.Forall_nil _) eq_refl)
    as [_ (c' & e & Hcases & Hhist & _ & Hact & _ & _ & Hres)].
  exists c', e. split; [exact Hcases|]. split; [|split].
  - rewrite Hhist. reflexivity.
  - exact Hact.
  - exact Hres.
Defined.

(** C10.  When no case of the session carries the id,
    [update_case_status] returns the session state it was given: no
    status, time stamp or history changes, and nothing is raised. *)
Theorem update_unknown_case_is_noop now cid new_status note who st :
  Forall (λ c, case_id c ≠ cid) (cases st) →
  update_case_status now cid new_status note who st = st.
Proof.
  intros Habs. destruct st as [cs k]. unfold update_case_status; simpl in *.
  by rewrite update_loop_absent.
Qed.

Lemma update_unknown_case_is_noop_witness :
  update_case_status "2024-05-02 10:00" "CASE-0007" "Closed" "" "User" demo_state
  = demo_state.
Proof.
  apply (update_unknown_case_is_noop
           "2024-05-02 10:00" "CASE-0007" "Closed" "" "User" demo_state).
  repeat constructor. vm_compute. discriminate.
Defined.

End CasesProps.

(** ** Scoring *)

Module ReportingProps.
Import DQCore Reporting.

Local Open Scope Q_scope.

Lemma clean_rows_filter (table : list AnnotatedRow) :
  length (filter (λ r, Count_of_issues r = 0%Z) table) = clean_rows table.
Proof.
  induction table as [|r table IH]; [done|].
  rewrite filter_cons. simpl.
  destruct (Z.eqb_spec (Count_of_issues r) 0) as [Hz|Hz].
  - rewrite decide_True by done. simpl. by rewrite IH.
  - rewrite decide_False by done. by rewrite IH.
Qed.

(** The rounded integer is within one half of the number. *)
Lemma round_half_even_near (x : Q) :
  Qabs (inject_Z (PyNum.round_half_even x) - x) <= 1 # 2.
Proof.
  unfold PyNum.round_half_even.
  pose proof (Qfloor_le x) as Hlo.
  pose proof (Qlt_floor x) as Hhi.
  rewrite inject_Z_plus in Hhi.
  change (inject_Z 1) with 1 in Hhi.
  apply Qabs_Qle_condition.
  destruct (Qcompare_spec (x - inject_Z (Qfloor x)) (1 # 2)) as [He|Hl|Hg].
  - destruct (Z.even (Qfloor x)).
    + split; lra.
    + rewrite inject_Z_plus. change (inject_Z 1) with 1. split; lra.
  - split; lra.
  - rewrite inject_Z_plus. change (inject_Z 1) with 1. split; lra.
Qed.

Lemma round_near (x : Q) :
  Qabs (PyNum.round x 2 - x) <= 1 # 200.
Proof.
  unfold PyNum.round.
  pose proof (round_half_even_near (x * inject_Z (PyNum.pow10 2))) as Hn.
  change (inject_Z (PyNum.pow10 2)) with 100 in *.
  apply Qabs_Qle_condition in Hn. apply Qabs_Qle_condition.
  set (z := inject_Z (PyNum.round_half_even (x * 100))) in *.
  assert (z / 100 == z * (1 # 100)) as -> by (field; discriminate).
  split; lra.
Qed.

Lemma truediv_by_count (a : Q) (n : nat) :
  (0 < n)%nat →
  PyNum.truediv a (inject_Z (Z.of_nat n)) = Ok (a / inject_Z (Z.of_nat n)).
Proof.
  intros Hn. unfold PyNum.truediv.
  destruct (Qeq_bool (inject_Z (Z.of_nat n)) 0) eqn:Hz; [|done].
  apply Qeq_bool_eq in Hz. unfold Qeq, inject_Z, Qnum, Qden in Hz. lia.
Qed.

Lemma overall_score_nonempty (results_df : list AnnotatedRow) :
  results_df ≠ [] →
  calculate_overall_score results_df
  = Ok (PyNum.round
          (inject_Z (Z.of_nat (clean_rows results_df))
             / inject_Z (Z.of_nat (length results_df)) * 100) 2).
Proof.
  intros Hne. unfold calculate_overall_score.
  assert (0 < length results_df)%nat as Hlen.
  { destruct results_df; [done|]. rewrite length_cons. lia. }
  destruct (Nat.eqb_spec (length results_df) 0) as [?|_]; [lia|].
  rewrite clean_rows_filter, truediv_by_count by done.
  reflexivity.
Qed.

(** C1.  [calculate_overall_score] raises nothing.  On the empty table
    it returns 0.  On a table with rows it returns a whole number of
    hundredths that lies within half a hundredth of
    100 * (rows with zero issues) / (rows). *)
Theorem overall_score_is_clean_share (results_df : list AnnotatedRow) :
  ∃ score : Q,
    calculate_overall_score results_df = Ok score
    ∧ match results_df with
      | [] => score = 0
      | _ :: _ =>
          (∃ hundredths : Z, score = inject_Z hundredths / 100)
          ∧ Qabs (score
                  - 100 * inject_Z (Z.of_nat (clean_rows results_df))
                    / inject_Z (Z.of_nat (length results_df)))
            <= 1 # 200
      end.
Proof.
  destruct results_df as [|r table]; [by exists 0|].
  remember (r :: table) as df eqn:Hdf.
  assert (df ≠ []) as Hne by (subst df; done).
  rewrite (overall_score_nonempty df Hne).
  eexists. split; [reflexivity|].
  assert (0 < length df)%nat as Hlen by (subst df; rewrite length_cons; lia).
  set (a := inject_Z (Z.of_nat (clean_rows df))).
  set (b := inject_Z (Z.of_nat (length df))).
  split; [by eexists|].
  pose proof (round_near (a / b * 100)) as Hn.
  assert (100 * a / b == a / b * 100) as Heq.
  { field. unfold b. intros Hz. unfold Qeq, inject_Z, Qnum, Qden in Hz. lia. }
  apply Qabs_Qle_condition in Hn. apply Qabs_Qle_condition.
  set (t := 100 * a / b) in *.
  set (s := PyNum.round (a / b * 100) 2) in *.
  set (u := a / b * 100) in *.
  clearbody t s u. lra.
Qed.

(** One clean row out of three scores 33.33. *)
Example overall_score_one_third :
  calculate_overall_score
    [ {| fields := ∅; Issues := ""; Count_of_issues := 0;
         _failed_rules_details := [] |};
      {| fields := ∅; Issues := "bad"; Count_of_issues := 1;
         _failed_rules_details := [] |};
      {| fields := ∅; Issues := "null"; Count_of_issues := 1;
         _failed_rules_details := [] |} ]
  = Ok (3333 # 100).
Proof. vm_compute. reflexivity. Qed.

End ReportingProps.

(** ** Counting values *)

Module PandasProps.
Import Pandas.

Section Counting.
Context {A : Type} `{EqDecision A}.
Implicit Types (x : A) (l : list A) (vc : list (A * nat)).

Lemma elem_of_unique x l : x ∈ unique l ↔ x ∈ l.
Proof.
  unfold unique.
  by rewrite elem_of_reverse, elem_of_remove_dups, elem_of_reverse.
Qed.

Lemma NoDup_unique l : NoDup (unique l).
Proof. unfold unique. rewrite reverse_Permutation. apply NoDup_remove_dups. Qed.

Lemma occurrences_pos x l : x ∈ l ↔ (0 < occurrences x l)%nat.
Proof.
  unfold occurrences. split.
  - intros Hin.
    assert (x ∈ filter (λ y, y = x) l) as Hf
      by (apply list_elem_of_filter; done).
    destruct (filter (λ y, y = x) l); [by apply elem_of_nil in Hf|].
    simpl. lia.
  - intros Hpos.
    destruct (filter (λ y, y = x) l) as [|y k] eqn:Hf; [simpl in Hpos; lia|].
    assert (y ∈ filter (λ y, y = x) l) as Hy
      by (rewrite Hf; apply list_elem_of_here).
    apply list_elem_of_filter in Hy as [-> ?]. done.
Qed.

Lemma insert_desc_perm (p : A * nat) vc : insert_desc p vc ≡ₚ p :: vc.
Proof.
  induction vc as [|q vc IH]; simpl; [done|].
  destruct (q.2 <=? p.2)%nat; [done|].
  rewrite IH. apply Permutation_swap.
Qed.

Lemma sort_values_desc_perm vc : sort_values_desc vc ≡ₚ vc.
Proof.
  induction vc as [|p vc IH]; simpl; [done|].
  by rewrite insert_desc_perm, IH.
Qed.

(** [value_counts] lists the values of the series with their counts. *)
Lemma elem_of_value_counts x n l :
  (x, n) ∈ value_counts l ↔ x ∈ l ∧ n = occurrences x l.
Proof.
  unfold value_counts. rewrite sort_values_desc_perm, list_elem_of_fmap.
  split.
  - intros (y & Heq & Hy). simplify_eq/=. rewrite elem_of_unique in Hy. by split.
  - intros [Hx ->]. exists x. by rewrite elem_of_unique.
Qed.

Lemma elem_of_repeated x l :
  x ∈ repeated (value_counts l) ↔ (1 < occurrences x l)%nat.
Proof.
  unfold repeated. rewrite list_elem_of_fmap. split.
  - intros ([y n] & -> & Hp). simpl.
    apply list_elem_of_filter in Hp as [Hn Hp]. simpl in Hn.
    apply elem_of_value_counts in Hp as [_ <-]. done.
  - intros Hn. exists (x, occurrences x l). split; [done|].
    apply list_elem_of_filter. split; [done|].
    apply elem_of_value_counts. split; [|done].
    apply occurrences_pos. lia.
Qed.

Lemma elem_of_index_where x l (i : nat) :
  i ∈ index_where x l ↔ l !! i = Some x.
Proof.
  unfold index_where. rewrite list_elem_of_fmap. split.
  - intros ([j y] & -> & Hp). simpl.
    apply list_elem_of_filter in Hp as [Hy Hp]. simpl in Hy. subst y.
    apply elem_of_lookup_imap in Hp as (k & z & [= -> ->] & Hk). done.
  - intros Hi. exists (i, x). split; [done|].
    apply list_elem_of_filter. split; [done|].
    apply elem_of_lookup_imap. by exists i, x.
Qed.
Lemma index_where_imap (g : nat → nat) x l :
  (filter (λ p : nat * A, p.2 = x) (imap (λ i y, (g i, y)) l)).*1
  = g <$> index_where x l.
Proof.
  unfold index_where. revert g. induction l as [|y l IH]; intros g; [done|].
  rewrite !imap_cons, !filter_cons. cbn [snd].
  pose proof (IH (g ∘ S)) as IHg. pose proof (IH S) as IHS.
  unfold compose in *.
  destruct (decide (y = x)); rewrite ?fmap_cons; cbn [fst];
    rewrite IHg, IHS; [f_equal|]; apply (list_fmap_compose S g).
Qed.

Lemma index_where_cons x y l :
  index_where x (y :: l)
  = (if decide (y = x) then [0%nat] else []) ++ (S <$> index_where x l).
Proof.
  unfold index_where at 1. rewrite imap_cons, filter_cons. cbn [snd].
  pose proof (index_where_imap S x l) as HS. unfold compose.
  destruct (decide (y = x)); rewrite ?fmap_cons; cbn [fst]; by rewrite HS.
Qed.

Lemma NoDup_index_where x l : NoDup (index_where x l).
Proof.
  induction l as [|y l IH]; [constructor|].
  rewrite index_where_cons.
  assert (NoDup (S <$> index_where x l)) as Hs
    by (apply NoDup_fmap_2; [apply _|done]).
  destruct (decide (y = x)); [|done]. simpl.
  apply NoDup_cons. split; [|done].
  intros (j & Hj & _)%list_elem_of_fmap. done.
Qed.

Lemma length_index_where x l : length (index_where x l) = occurrences x l.
Proof.
  induction l as [|y l IH]; [done|].
  rewrite index_where_cons, length_app, length_fmap, IH.
  unfold occurrences. rewrite filter_cons.
  destruct (decide (y = x)); done.
Qed.

Lemma insert_desc_sorted (p : A * nat) vc :
  StronglySorted (λ a b : A * nat, (b.2 ≤ a.2)%nat) vc →
  StronglySorted (λ a b : A * nat, (b.2 ≤ a.2)%nat) (insert_desc p vc).
Proof.
  induction 1 as [|q vc Hvc IH Hq]; simpl.
  - repeat constructor.
  - destruct (Nat.leb_spec q.2 p.2) as [Hle|Hlt].
    + constructor; [by constructor|].
      constructor; [done|].
      eapply Forall_impl; [exact Hq|]. simpl. intros r Hr. lia.
    + constructor; [done|].
      rewrite insert_desc_perm. constructor; [lia|done].
Qed.

Lemma sort_values_desc_sorted vc :
  StronglySorted (λ a b : A * nat, (b.2 ≤ a.2)%nat) (sort_values_desc vc).
Proof.
  induction vc as [|p vc IH]; simpl; [constructor|].
  by apply insert_desc_sorted.
Qed.

Lemma NoDup_value_counts_keys l : NoDup (value_counts l).*1.
Proof.
  unfold value_counts. rewrite sort_values_desc_perm.
  rewrite <- list_fmap_compose.
  rewrite (list_fmap_ext _ id (unique l)); [|done].
  rewrite list_fmap_id. apply NoDup_unique.
Qed.

Lemma NoDup_repeated l : NoDup (repeated (value_counts l)).
Proof.
  unfold repeated.
  pose proof (NoDup_value_counts_keys l) as Hnd.
  induction (value_counts l) as [|p vc IH]; [constructor|].
  rewrite fmap_cons in Hnd. apply NoDup_cons in Hnd as [Hp Hvc].
  rewrite filter_cons. destruct (decide (1 < p.2)%nat); [|by apply IH].
  rewrite fmap_cons. apply NoDup_cons. split; [|by apply IH].
  intros (q & Hq & Hin)%list_elem_of_fmap. apply Hp.
  apply list_elem_of_fmap. exists q. split; [done|].
  by apply list_elem_of_filter in Hin as [_ ?].
Qed.

Lemma StronglySorted_filter {B} (R : relation B) (P : B → Prop)
    `{∀ b, Decision (P b)} (s : list B) :
  StronglySorted R s → StronglySorted R (filter P s).
Proof.
  induction 1 as [|p s Hs IH Hp]; [constructor|].
  rewrite filter_cons. destruct (decide (P p)); [|done].
  constructor; [done|].
  apply Forall_forall. intros q [_ Hq]%list_elem_of_filter.
  by eapply Forall_forall in Hp.
Qed.

Lemma StronglySorted_lookup_lt {B} (R : relation B) (s : list B)
    (i j : nat) (p q : B) :
  StronglySorted R s → (i < j)%nat →
  s !! i = Some p → s !! j = Some q → R p q.
Proof.
  intros Hs. revert i j. induction Hs as [|r s Hs IH Hr]; intros i j Hij Hp Hq.
  - by rewrite lookup_nil in Hp.
  - destruct j as [|j]; [lia|]. destruct i as [|i]; simpl in *.
    + injection Hp as ->. eapply Forall_forall in Hr; [done|].
      by eapply list_elem_of_lookup_2.
    + apply (IH i j); [lia|done..].
Qed.

(** The keys that occur more than once come out of [value_counts]
    with the more frequent ones first. *)
Lemma repeated_sorted l (a b : nat) x y :
  (a < b)%nat →
  repeated (value_counts l) !! a = Some x →
  repeated (value_counts l) !! b = Some y →
  (occurrences y l ≤ occurrences x l)%nat.
Proof.
  intros Hab Hx Hy.
  assert (StronglySorted (λ p q : A * nat, (q.2 ≤ p.2)%nat)
            (filter (λ p : A * nat, (1 < p.2)%nat) (value_counts l))) as Hs.
  { apply StronglySorted_filter. unfold value_counts.
    apply sort_values_desc_sorted. }
  assert (∀ k z, repeated (value_counts l) !! k = Some z →
            filter (λ p : A * nat, (1 < p.2)%nat) (value_counts l) !! k
            = Some (z, occurrences z l)) as Hlook.
  { intros k z Hz. unfold repeated in Hz.
    rewrite list_lookup_fmap in Hz.
    destruct (filter _ (value_counts l) !! k) as [[z' n]|] eqn:Hk; [|done].
    simpl in Hz. injection Hz as ->.
    apply list_elem_of_lookup_2, list_elem_of_filter in Hk as [_ Hin].
    apply elem_of_value_counts in Hin as [_ ->]. done. }
  apply Hlook in Hx, Hy.
  apply (StronglySorted_lookup_lt _ _ a b _ _ Hs Hab Hx Hy).
Qed.
End Counting.

Lemma occurrences_omap (v : Scalar) (l : list Cell) :
  occurrences v (omap id l) = occurrences (Some v) l.
Proof.
  unfold occurrences. induction l as [|c l IH]; [done|].
  rewrite (filter_cons (λ y : Cell, y = Some v)).
  destruct c as [w|].
  - change (omap id (Some w :: l)) with (w :: omap id l).
    rewrite filter_cons. destruct (decide (w = v)) as [->|Hne].
    + rewrite decide_True by done. rewrite !length_cons. by rewrite IH.
    + rewrite decide_False by congruence. done.
  - change (omap id (None :: l)) with (omap (@id Cell) l).
    rewrite decide_False by done. done.
Qed.

Lemma elem_of_repeated_dropna (v : Scalar) (l : list Cell) :
  v ∈ repeated (value_counts_dropna l) ↔ (1 < occurrences (Some v) l)%nat.
Proof.
  unfold value_counts_dropna. by rewrite elem_of_repeated, occurrences_omap.
Qed.

End PandasProps.

(** ** The rule executor *)

Module DQCoreProps.
Import Pandas DQCore Demo.

Local Arguments _is_null_or_empty : simpl never.

Section WithExternals.
Context `{Externals}.

(** A forbidden token stops [_evaluate_safe_expression] before [eval]:
    the answer is [False] whatever [eval] would have done. *)
Lemma safe_expression_forbidden (value : Cell) (expr : string) :
  existsb (λ kw, PyStr.contains kw expr) forbidden_tokens = true →
  _evaluate_safe_expression value expr = Ok false.
Proof. intros Hf. unfold _evaluate_safe_expression. by rewrite Hf. Qed.

(** An exception of [eval] is swallowed and turned into [False]. *)
Lemma safe_expression_raises (value : Cell) (expr : string) e :
  py_eval expr value = Raise e →
  _evaluate_safe_expression value expr = Ok false.
Proof.
  intros He. unfold _evaluate_safe_expression.
  destruct (existsb _ forbidden_tokens); [done|]. by rewrite He.
Qed.

Lemma contains_nonempty (kw expr : string) :
  kw ≠ "" → PyStr.contains kw expr = true → PyStr.truthy expr = true.
Proof. intros Hkw Hc. destruct expr; [|done]. by destruct kw. Qed.

Lemma forbidden_nonempty (expr : string) :
  existsb (λ kw, PyStr.contains kw expr) forbidden_tokens = true →
  PyStr.truthy expr = true.
Proof.
  intros Hf. apply existsb_exists in Hf as (kw & Hkw & Hc).
  apply (contains_nonempty kw); [|done].
  unfold forbidden_tokens in Hkw. simpl in Hkw.
  intros ->. intuition discriminate.
Qed.

(** C9.  A [custom_expression] rule on a column of the row, whose
    expression holds one of the tokens import, exec, eval, __, open,
    file, or whose (non-empty) expression makes [eval] raise, returns a
    failed result with the rule's own message (what
    [rule.get("message", "Validation failed")] gives): nothing is
    raised, and with a forbidden token the outcome does not depend on
    [eval]. *)
Theorem custom_expression_fails_closed
    (self : Engine) (row : Row) (rule : Rule) (row_idx : nat)
    (col expr : string) :
  rule_type rule = Some "custom_expression" →
  column rule = Some col →
  col ∈ column_names (df self) →
  expression rule = Some expr →
  existsb (λ kw, PyStr.contains kw expr) forbidden_tokens = true
  ∨ (PyStr.truthy expr = true ∧ ∃ e, py_eval expr (row !! col) = Raise e) →
  _execute_single_rule self row rule row_idx
  = Ok {| passed := false;
          res_message := get_or "Validation failed" (message rule);
          res_rule_type := Some "custom_expression";
          res_column := Some col;
          res_columns := None;
          res_dimension := get_or "General" (dimension rule) |}.
Proof.
  intros Hrt Hcol Hin Hexpr Hbad.
  unfold _execute_single_rule. rewrite Hrt, Hcol.
  rewrite bool_decide_false by discriminate.
  rewrite bool_decide_true by done.
  rewrite Hexpr. unfold dispatch. simpl.
  assert (PyStr.truthy expr = true) as Htruthy.
  { destruct Hbad as [Hf|[Ht _]]; [by apply forbidden_nonempty|done]. }
  rewrite Htruthy.
  assert (_evaluate_safe_expression (row !! col) expr = Ok false) as ->.
  { destruct Hbad as [Hf|[_ [e He]]].
    - by apply safe_expression_forbidden.
    - by apply (safe_expression_raises _ _ e). }
  reflexivity.
Qed.

Lemma elem_of_dup_fold (cells : list Cell) (vals : list Scalar)
    (acc : gset nat) (i : nat) :
  i ∈ foldl (λ (dup_indices : gset nat) (val : Scalar),
               if _is_null_or_empty (Some val) then dup_indices
               else dup_indices ∪ list_to_set (index_where (Some val) cells))
            acc vals
  ↔ i ∈ acc ∨ ∃ v, v ∈ vals ∧ _is_null_or_empty (Some v) = false
                    ∧ cells !! i = Some (Some v).
Proof.
  revert acc. induction vals as [|w vals IH]; intros acc; simpl.
  - split; [by left|]. intros [?|(v & Hv & _)]; [done|].
    by apply elem_of_nil in Hv.
  - rewrite IH. destruct (_is_null_or_empty (Some w)) eqn:Hw.
    + split.
      * intros [?|(v & Hv & Hn & Hc)]; [by left|].
        right. exists v. split; [by apply list_elem_of_further|done].
      * intros [?|(v & Hv & Hn & Hc)]; [by left|].
        apply elem_of_cons in Hv as [->|Hv]; [congruence|].
        right. by exists v.
    + rewrite elem_of_union, elem_of_list_to_set, PandasProps.elem_of_index_where.
      split.
      * intros [[?|Hc]|(v & Hv & Hn & Hc)]; [by left| |].
        -- right. exists w. split; [apply list_elem_of_here|done].
        -- right. exists v. split; [by apply list_elem_of_further|done].
      * intros [?|(v & Hv & Hn & Hc)]; [by left; left|].
        apply elem_of_cons in Hv as [->|Hv]; [by left; right|].
        right. by exists v.
Qed.

(** The duplicate set of a column: the rows that hold a value which is
    not null, blank or "nan" and which the column holds at least
    twice. *)
Lemma elem_of_column_dup_indices (frame : DataFrame) (col : string) (i : nat) :
  i ∈ column_dup_indices frame col
  ↔ ∃ v, Pandas.column frame col !! i = Some (Some v)
         ∧ _is_null_or_empty (Some v) = false
         ∧ (1 < occurrences (Some v) (Pandas.column frame col))%nat.
Proof.
  unfold column_dup_indices. rewrite elem_of_dup_fold. split.
  - intros [Hi|(v & Hv & Hn & Hc)]; [by apply not_elem_of_empty in Hi|].
    exists v. by rewrite <- PandasProps.elem_of_repeated_dropna.
  - intros (v & Hc & Hn & Hocc). right. exists v.
    by rewrite PandasProps.elem_of_repeated_dropna.
Qed.

Lemma precompute_fold_lookup (frame : DataFrame) (cols : list string)
    (cache : gmap string (gset nat)) (col : string) :
  foldl (λ cache col, <[col := column_dup_indices frame col]> cache) cache cols
    !! col
  = if decide (col ∈ cols) then Some (column_dup_indices frame col)
    else cache !! col.
Proof.
  revert cache. induction cols as [|c cols IH]; intros cache; cbn [foldl].
  - rewrite decide_False; [done|]. apply not_elem_of_nil.
  - rewrite IH. destruct (decide (col ∈ cols)) as [Hin|Hnin].
    + rewrite decide_True; [done|]. by apply list_elem_of_further.
    + destruct (decide (col = c)) as [->|Hne].
      * rewrite lookup_insert_eq, decide_True; [done|]. apply list_elem_of_here.
      * rewrite lookup_insert_ne by done. rewrite decide_False; [done|].
        intros [->|?]%elem_of_cons; done.
Qed.

Lemma duplicate_cache_lookup (frame : DataFrame) (rb : Rulebook) (col : string) :
  col ∈ column_names frame →
  duplicate_cache (RuleExecutorEngine frame rb) !! col
  = Some (column_dup_indices frame col).
Proof.
  intros Hin. simpl. unfold _precompute_duplicates.
  rewrite precompute_fold_lookup. by rewrite decide_True.
Qed.

(** C2.  A [uniqueness] rule on a column of the frame is evaluated
    without an exception, and it fails for a row exactly when the row's
    cell in that column is not null, blank or "nan" and the same cell
    value stands in at least two rows of the column. *)
Theorem uniqueness_flags_repeated_values
    (frame : DataFrame) (rb : Rulebook) (rule : Rule) (col : string)
    (row_idx : nat) (row : Row) :
  rule_type rule = Some "uniqueness" →
  column rule = Some col →
  col ∈ column_names frame →
  rows frame !! row_idx = Some row →
  ∃ r, _execute_single_rule (RuleExecutorEngine frame rb) row rule row_idx = Ok r
       ∧ (passed r = false
          ↔ _is_null_or_empty (row !! col) = false
            ∧ (2 ≤ occurrences (row !! col) (Pandas.column frame col))%nat).
Proof.
  intros Hrt Hcol Hin Hrow.
  unfold _execute_single_rule. rewrite Hrt, Hcol.
  rewrite bool_decide_false by discriminate.
  change (df (RuleExecutorEngine frame rb)) with frame.
  rewrite bool_decide_true by done.
  unfold dispatch.
  change (String.eqb "uniqueness" "not_null") with false.
  change (String.eqb "uniqueness" "uniqueness") with true.
  cbv iota. rewrite duplicate_cache_lookup by done.
  eexists. split; [reflexivity|]. simpl.
  rewrite negb_false_iff, bool_decide_eq_true, elem_of_column_dup_indices.
  assert (Pandas.column frame col !! row_idx = Some (row !! col)) as Hcell.
  { unfold Pandas.column. by rewrite list_lookup_fmap, Hrow. }
  rewrite Hcell. split.
  - intros (v & [= Hv] & Hn & Hocc). rewrite Hv. split; [done|lia].
  - intros [Hn Hocc]. destruct (row !! col) as [v|] eqn:Hv; [|done].
    exists v. split; [done|]. split; [done|lia].
Qed.

End WithExternals.

Lemma custom_expression_fails_closed_witness :
  passed <$> (@_execute_single_rule demo_externals
                (@RuleExecutorEngine demo_externals demo_frame {| rules := [] |})
                {[ "id" := Str "a" ]}
                (demo_rule "custom_expression" (Some "open('x')")) 0)
  = Ok false.
Proof.
  rewrite (@custom_expression_fails_closed demo_externals
             (@RuleExecutorEngine demo_externals demo_frame {| rules := [] |})
             {[ "id" := Str "a" ]}
             (demo_rule "custom_expression" (Some "open('x')")) 0
             "id" "open('x')" eq_refl eq_refl).
  - reflexivity.
  - vm_compute. apply list_elem_of_here.
  - reflexivity.
  - left. vm_compute. reflexivity.
Defined.

Lemma uniqueness_flags_repeated_values_witness :
  ∃ r, @_execute_single_rule demo_externals
         (@RuleExecutorEngine demo_externals demo_frame {| rules := [] |})
         {[ "id" := Str "a" ]} (demo_rule "uniqueness" None) 0 = Ok r
       ∧ (passed r = false
          ↔ @_is_null_or_empty demo_externals
               (({[ "id" := Str "a" ]} : Row) !! "id") = false
            ∧ (2 ≤ occurrences (({[ "id" := Str "a" ]} : Row) !! "id")
                     (Pandas.column demo_frame "id"))%nat).
Proof.
  apply (@uniqueness_flags_repeated_values demo_externals demo_frame
           {| rules := [] |} (demo_rule "uniqueness" None) "id" 0
           {[ "id" := Str "a" ]} eq_refl eq_refl).
  - vm_compute. apply list_elem_of_here.
  - reflexivity.
Defined.

(** In the column a, a, b, NaN, NaN the two rows with a are flagged; b
    and the two missing values are not. *)
Example uniqueness_on_demo_frame :
  (λ i, passed <$> @_execute_single_rule demo_externals
          (@RuleExecutorEngine demo_externals demo_frame {| rules := [] |})
          (default ∅ (rows demo_frame !! i)) (demo_rule "uniqueness" None) i)
    <$> [0; 1; 2; 3; 4]%nat
  = [Ok false; Ok false; Ok true; Ok true; Ok true].
Proof. vm_compute. reflexivity. Qed.

End DQCoreProps.

(** ** The duplicate studio *)

Module StudioProps.
Import Pandas Studio Demo.

Local Open Scope Q_scope.

(** *** The shape of a run *)

Lemma recency_lookup (df : DataFrame) (result : list Annotations) (i : nat) :
  recency df result !! i
  = (λ a, set_recency
            (match date_cols df with
             | col :: _ =>
                 Some (rank_dated (_dup_group_id <$> result) (column df col) i)
             | [] => rank_undated (_dup_group_id <$> result) i
             end) a) <$> result !! i.
Proof.
  unfold recency. destruct (date_cols df); by rewrite list_lookup_imap.
Qed.

Lemma length_recency (df : DataFrame) (result : list Annotations) :
  length (recency df result) = length result.
Proof. unfold recency. destruct (date_cols df); by rewrite length_imap. Qed.

Section WithExternals.
Context `{Externals}.

(** What a run that returns is made of: the keys, the state after the
    phases, and the rank column on top. *)
Lemma detect_duplicates_inv df match_columns fuzzy threshold out stash :
  detect_duplicates df match_columns fuzzy threshold = Ok (out, stash) →
  ∃ keys,
    match_keys df match_columns = Ok keys
    ∧ stash = (phases keys df match_columns fuzzy threshold).2
    ∧ out = {| base_columns := columns df;
               dup_rows :=
                 zip_with (λ r a, {| cells := r; ann := a |}) (rows df)
                   (recency df (phases keys df match_columns fuzzy threshold).1.2) |}.
Proof.
  unfold detect_duplicates.
  destruct (match_keys df match_columns) as [keys|e]; [|done].
  intros Hrun. exists keys. split; [done|].
  change (Ok keys ≫= ?k) with (k keys) in Hrun. cbv beta in Hrun.
  destruct (phases keys df match_columns fuzzy threshold) as [st groups].
  by injection Hrun as <- <-.
Qed.

Lemma match_keys_inv df match_columns keys :
  match_keys df match_columns = Ok keys →
  keys = (λ r : Row,
            PyStr.join "|" ((λ c, normalize (r !! c)) <$> match_columns))
         <$> rows df.
Proof.
  unfold match_keys. destruct (filter _ match_columns); [|done].
  destruct (bool_decide (NoDup match_columns)); [|done].
  by intros [= <-].
Qed.

(** *** The match key *)

(** C5.  The entry of a row in the [_match_key] column joins, with a
    pipe, one text per match column: the text [nan] when the cell is
    null, and otherwise the cell's text, stripped and lower-cased.
    The trailing [fillna("")] finds nothing to fill. *)
Theorem match_key_of_null_is_nan
    (df : DataFrame) (match_columns : list string) (keys : list string)
    (i : nat) (row : Row) :
  match_keys df match_columns = Ok keys →
  rows df !! i = Some row →
  keys !! i
  = Some (PyStr.join "|"
            ((λ c, match row !! c with
                   | None => "nan"
                   | Some v => PyStr.lower (PyStr.strip (py_str v))
                   end) <$> match_columns)).
Proof.
  intros Hkeys Hrow. apply match_keys_inv in Hkeys as ->.
  rewrite list_lookup_fmap, Hrow. simpl. do 2 f_equal.
  apply list_fmap_ext. intros _ c _.
  unfold normalize, fillna. by destruct (row !! c).
Qed.

(** *** The recency rank *)

(** C7.  A row that ends without group id has recency rank 0 when the
    frame has a [datetime64] column, and NaN when it has none. *)
Theorem rank_of_ungrouped_row
    (df : DataFrame) (match_columns : list string) (fuzzy : bool)
    (threshold : Q) out stash (i : nat) (r : DupRow) :
  detect_duplicates df match_columns fuzzy threshold = Ok (out, stash) →
  dup_rows out !! i = Some r →
  _dup_group_id (ann r) = None →
  _recency_rank (ann r)
  = match date_cols df with
    | _ :: _ => Some 0%nat
    | [] => None
    end.
Proof.
  intros Hrun Hr Hgid.
  apply detect_duplicates_inv in Hrun as (keys & _ & _ & ->).
  simpl in Hr. apply lookup_zip_with_Some in Hr as (row & a & -> & _ & Ha).
  simpl in *. rewrite recency_lookup in Ha.
  destruct (_ !! i) as [a0|] eqn:Ha0; [|done].
  injection Ha as <-. simpl in *.
  assert ((_dup_group_id <$> (phases keys df match_columns fuzzy threshold).1.2) !! i
          = Some None) as Hg.
  { by rewrite list_lookup_fmap, Ha0, <- Hgid. }
  destruct (date_cols df) as [|col ?].
  - unfold rank_undated. by rewrite Hg.
  - unfold rank_dated. by rewrite Hg.
Qed.

(** *** Writing through a list of labels *)

Lemma length_update_at idxs f (result : list Annotations) :
  length (update_at idxs f result) = length result.
Proof.
  unfold update_at. revert result.
  induction idxs as [|j idxs IH]; intros result; simpl; [done|].
  by rewrite IH, length_alter.
Qed.

Lemma update_at_outside idxs f (result : list Annotations) (i : nat) :
  i ∉ idxs → update_at idxs f result !! i = result !! i.
Proof.
  unfold update_at. revert result.
  induction idxs as [|j idxs IH]; intros result Hi; simpl; [done|].
  apply not_elem_of_cons in Hi as [Hij Hi].
  rewrite IH by done. by apply list_lookup_alter_ne.
Qed.

Lemma update_at_inside idxs f (result : list Annotations) (i : nat) :
  NoDup idxs → i ∈ idxs →
  update_at idxs f result !! i = f <$> result !! i.
Proof.
  revert result.
  induction idxs as [|j idxs IH]; intros result Hnd Hi;
    [by apply elem_of_nil in Hi|].
  apply NoDup_cons in Hnd as [Hj Hnd].
  change (update_at (j :: idxs) f result)
    with (update_at idxs f (alter f j result)).
  apply elem_of_cons in Hi as [->|Hi].
  - rewrite update_at_outside by done. apply list_lookup_alter_eq.
  - rewrite IH by done. rewrite list_lookup_alter_ne; [done|].
    intros ->. done.
Qed.

(** *** The exact phase *)

Lemma exact_fold_spec (keys ks : list string) (n0 : nat)
    (result0 : list Annotations) :
  NoDup ks →
  let st := foldl (exact_step keys) (n0, result0) ks in
  st.1 = (n0 + length ks)%nat
  ∧ length st.2 = length result0
  ∧ (∀ k key i,
       ks !! k = Some key → keys !! i = Some key →
       st.2 !! i
       = mark_exact (exact_gid (n0 + S k)) (occurrences key keys) <$> result0 !! i)
  ∧ (∀ i, (∀ key, keys !! i = Some key → key ∉ ks) → st.2 !! i = result0 !! i).
Proof.
  revert n0 result0.
  induction ks as [|k0 ks IH]; intros n0 result0 Hnd; simpl.
  - split; [lia|]. split; [done|]. split; [|done].
    intros k key i Hk. by rewrite lookup_nil in Hk.
  - apply NoDup_cons in Hnd as [Hk0 Hnd].
    set (result1 := update_at (index_where k0 keys)
                      (mark_exact (exact_gid (S n0))
                         (length (index_where k0 keys))) result0).
    destruct (IH (S n0) result1 Hnd) as (Hn & Hlen & Hin & Hout).
    split; [|split; [|split]].
    + rewrite Hn. lia.
    + rewrite Hlen. apply length_update_at.
    + intros k key i Hk Hi. destruct k as [|k]; simpl in Hk.
      * injection Hk as ->.
        rewrite Hout.
        2: { intros key' Hkey'. rewrite Hi in Hkey'. by injection Hkey' as <-. }
        unfold result1. rewrite update_at_inside.
        -- rewrite PandasProps.length_index_where.
           by replace (n0 + 1)%nat with (S n0) by lia.
        -- apply PandasProps.NoDup_index_where.
        -- by apply PandasProps.elem_of_index_where.
      * rewrite (Hin k key i Hk Hi).
        replace (S n0 + S k)%nat with (n0 + S (S k))%nat by lia.
        f_equal. unfold result1. apply update_at_outside.
        rewrite PandasProps.elem_of_index_where. rewrite Hi.
        intros [= ->]. apply Hk0. by eapply list_elem_of_lookup_2.
    + intros i Hi. rewrite Hout.
      * unfold result1. apply update_at_outside.
        rewrite PandasProps.elem_of_index_where. intros Hki.
        apply (Hi k0 Hki). apply list_elem_of_here.
      * intros key Hkey Hks. apply (Hi key Hkey).
        by apply list_elem_of_further.
Qed.

Lemma elem_of_dup_keys (keys : list string) (key : string) :
  key ∈ dup_keys keys ↔ (2 ≤ occurrences key keys)%nat.
Proof. unfold dup_keys. by rewrite PandasProps.elem_of_repeated. Qed.

(** The exact phase numbers the keys of [dup_keys] from 1 and marks
    the rows of a key with its number; the other rows stay as they
    were. *)
Lemma exact_phase_spec (keys : list string) (result0 : list Annotations) :
  let st := exact_phase keys result0 in
  st.1 = length (dup_keys keys)
  ∧ length st.2 = length result0
  ∧ (∀ k key i,
       dup_keys keys !! k = Some key → keys !! i = Some key →
       st.2 !! i
       = mark_exact (exact_gid (S k)) (occurrences key keys) <$> result0 !! i)
  ∧ (∀ i key, keys !! i = Some key → (occurrences key keys < 2)%nat →
       st.2 !! i = result0 !! i).
Proof.
  unfold exact_phase.
  destruct (exact_fold_spec keys (dup_keys keys) 0 result0) as (Hn & Hlen & Hin & Hout).
  { apply PandasProps.NoDup_repeated. }
  split; [done|]. split; [done|]. split; [done|].
  intros i key Hkey Hocc. apply Hout. intros key' Hkey'.
  rewrite Hkey in Hkey'. injection Hkey' as <-.
  rewrite elem_of_dup_keys. lia.
Qed.

(** *** The fuzzy phase: one seed *)

Lemma scan_fold_spec (keys : list string) (threshold : Q) (idx_a : nat)
    (visited : gset nat) (unassigned grp0 : list nat)
    (result0 : list Annotations) :
  NoDup unassigned →
  let st := foldl (scan_step keys threshold idx_a visited) (grp0, result0)
                  unassigned in
  let members := filter (admitted keys threshold idx_a visited) unassigned in
  st.1 = grp0 ++ members
  ∧ length st.2 = length result0
  ∧ (∀ b, b ∈ members →
       st.2 !! b
       = set_similarity
           (PyNum.round (ratio (key_at keys idx_a) (key_at keys b)) 3)
         <$> result0 !! b)
  ∧ (∀ i, i ∉ members → st.2 !! i = result0 !! i).
Proof.
  revert grp0 result0.
  induction unassigned as [|b un IH]; intros grp0 result0 Hnd; cbn zeta.
  - rewrite filter_nil, app_nil_r. simpl.
    split; [done|]. split; [done|]. split; [|done].
    intros b Hb. by apply elem_of_nil in Hb.
  - apply NoDup_cons in Hnd as [Hb Hnd].
    cbn [foldl]. rewrite filter_cons.
    destruct (decide (admitted keys threshold idx_a visited b))
      as [(Hne & Hvis & Hsim)|Hnot].
    + set (result1 := alter (set_similarity
                               (PyNum.round
                                  (ratio (key_at keys idx_a) (key_at keys b)) 3))
                            b result0).
      assert (scan_step keys threshold idx_a visited (grp0, result0) b
              = (grp0 ++ [b], result1)) as ->.
      { unfold scan_step. rewrite bool_decide_false by done.
        rewrite bool_decide_false by done. cbn [orb]. by rewrite Hsim. }
      destruct (IH (grp0 ++ [b]) result1 Hnd) as (Hgrp & Hlen & Hin & Hout).
      split; [|split; [|split]].
      * rewrite Hgrp. by rewrite <- app_assoc.
      * rewrite Hlen. apply length_alter.
      * intros b' [->|Hb']%elem_of_cons.
        -- rewrite Hout.
           ++ unfold result1. apply list_lookup_alter_eq.
           ++ intros [_ ?]%list_elem_of_filter. done.
        -- rewrite (Hin b' Hb'). f_equal. unfold result1.
           apply list_lookup_alter_ne. intros ->.
           by apply list_elem_of_filter in Hb' as [_ ?].
      * intros i Hi. apply not_elem_of_cons in Hi as [Hib Hi].
        rewrite (Hout i Hi). unfold result1.
        by apply list_lookup_alter_ne.
    + assert (scan_step keys threshold idx_a visited (grp0, result0) b
              = (grp0, result0)) as ->.
      { unfold scan_step.
        destruct (bool_decide (b = idx_a)) eqn:Ha; [done|].
        destruct (bool_decide (b ∈ visited)) eqn:Hv; [done|]. cbn [orb].
        destruct (Qle_bool threshold _) eqn:Hs; [|done].
        exfalso. apply Hnot. unfold admitted.
        apply bool_decide_eq_false in Ha, Hv. done. }
      apply (IH grp0 result0 Hnd).
Qed.

(** The group a seed collects: the seed, then the rows of the
    unassigned list that pass the test against the seed, in order. *)
Lemma scan_spec (keys : list string) (threshold : Q) (idx_a : nat)
    (visited : gset nat) (unassigned : list nat) (result0 : list Annotations) :
  NoDup unassigned →
  let members := filter (admitted keys threshold idx_a visited) unassigned in
  let st := scan keys threshold idx_a visited unassigned result0 in
  st.1 = idx_a :: members
  ∧ length st.2 = length result0
  ∧ (∀ b, b ∈ members →
       st.2 !! b
       = set_similarity
           (PyNum.round (ratio (key_at keys idx_a) (key_at keys b)) 3)
         <$> result0 !! b)
  ∧ (∀ i, i ∉ members → st.2 !! i = result0 !! i).
Proof.
  intros Hnd. unfold scan.
  apply (scan_fold_spec keys threshold idx_a visited unassigned [idx_a] result0 Hnd).
Qed.

(** *** The fuzzy phase: all seeds *)

Lemma elem_of_concat {A} (ls : list (list A)) (x : A) :
  x ∈ concat ls ↔ ∃ l, l ∈ ls ∧ x ∈ l.
Proof.
  induction ls as [|l ls IH]; simpl.
  - split; [by intros ?%elem_of_nil|]. by intros (l & ?%elem_of_nil & _).
  - rewrite elem_of_app, IH. split.
    + intros [Hx|(l' & Hl' & Hx)].
      * exists l. split; [apply list_elem_of_here|done].
      * exists l'. split; [by apply list_elem_of_further|done].
    + intros (l' & [->|Hl']%elem_of_cons & Hx); [by left|].
      right. by exists l'.
Qed.

Lemma elem_of_concat_group (groups : list (list nat)) (grp : list nat) (x : nat) :
  grp ∈ groups → x ∈ grp → x ∈ concat groups.
Proof. intros Hg Hx. apply elem_of_concat. eauto. Qed.

Lemma cluster_step_keeps (keys : list string) (threshold : Q)
    (unassigned : list nat) (result0 : list Annotations)
    (st : gset nat * list (list nat) * list Annotations) (idx_a : nat) :
  NoDup unassigned → idx_a ∈ unassigned →
  well_clustered keys threshold unassigned result0 st →
  well_clustered keys threshold unassigned result0
    (cluster_step keys threshold unassigned st idx_a).
Proof.
  intros Hnd Ha. destruct st as [[visited groups] result].
  intros (Hvis & Hdisj & Hlen & Hgroups & Hrest).
  unfold cluster_step.
  destruct (bool_decide (idx_a ∈ visited)) eqn:Hav; [done|].
  apply bool_decide_eq_false in Hav.
  pose proof (scan_spec keys threshold idx_a visited unassigned result Hnd)
    as (Hgrp & Hlen' & Hin & Hout).
  destruct (scan keys threshold idx_a visited unassigned result)
    as [grp result'] eqn:Hscan.
  cbn [fst snd] in *.
  set (members := filter (admitted keys threshold idx_a visited) unassigned) in *.
  assert (∀ m, m ∈ members →
            (m ≠ idx_a) ∧ (m ∉ visited) ∧ (m ∈ unassigned)
            ∧ (Qle_bool threshold
                 (ratio (key_at keys idx_a) (key_at keys m)) = true)) as Hmem.
  { intros m [(? & ? & ?) ?]%list_elem_of_filter. done. }
  assert (∀ x, x ∈ concat groups → x ∉ members) as Hold.
  { intros x Hx Hm. apply Hvis in Hx. by apply Hmem in Hm as (_ & ? & _). }
  assert (idx_a ∉ concat groups) as Hafresh by (by rewrite <- Hvis).
  subst grp.
  destruct (Nat.ltb_spec 1 (length (idx_a :: members))) as [Hbig|Hsmall].
  - split; [|split; [|split; [|split]]].
    + intros x. rewrite concat_app, elem_of_app, elem_of_union,
        elem_of_list_to_set, Hvis. simpl. by rewrite app_nil_r.
    + rewrite concat_app. simpl. rewrite app_nil_r.
      apply NoDup_app. split; [done|]. split.
      * intros x Hx [->|Hm]%elem_of_cons; [done|]. by apply (Hold x).
      * apply NoDup_cons. split.
        -- intros Hm. by apply Hmem in Hm as [? _].
        -- by apply NoDup_filter.
    + by rewrite Hlen'.
    + apply Forall_app. split.
      * apply Forall_forall. intros grp Hgrp.
        pose proof (proj1 (Forall_forall _ _) Hgroups grp Hgrp)
          as (seed & mem & -> & Hne & Hseed & Hs0 & Hms).
        assert (∀ x, x ∈ seed :: mem → result' !! x = result !! x) as Hsame.
        { intros x Hx. apply Hout, Hold. by eapply elem_of_concat_group. }
        exists seed, mem. split; [done|]. split; [done|]. split; [done|].
        split.
        -- rewrite Hsame; [done|]. apply list_elem_of_here.
        -- intros m Hm. destruct (Hms m Hm) as (? & ? & Hrm).
           split; [done|]. split; [done|].
           rewrite Hsame; [done|]. by apply list_elem_of_further.
      * apply Forall_singleton.
        exists idx_a, members. split; [done|]. split.
        { intros Hnil. rewrite Hnil in Hbig. simpl in Hbig. lia. }
        split; [done|]. split.
        -- rewrite Hout; [by apply Hrest|].
           intros Hm. by apply Hmem in Hm as [? _].
        -- intros m Hm. destruct (Hmem m Hm) as (? & Hmv & ? & ?).
           split; [done|]. split; [done|].
           rewrite (Hin m Hm). f_equal. apply Hrest. by rewrite <- Hvis.
    + intros i Hi. rewrite concat_app in Hi. simpl in Hi.
      rewrite app_nil_r in Hi.
      apply not_elem_of_app in Hi as [Hi1 Hi2].
      apply not_elem_of_cons in Hi2 as [_ Hi2].
      rewrite (Hout i Hi2). by apply Hrest.
  - assert (members = []) as Hnil.
    { destruct members; [done|]. simpl in Hsmall. lia. }
    assert (result' = result) as ->.
    { apply list_eq. intros i. apply Hout. rewrite Hnil. apply not_elem_of_nil. }
    done.
Qed.

Lemma cluster_fold_keeps (keys : list string) (threshold : Q)
    (unassigned todo : list nat) (result0 : list Annotations)
    (st : gset nat * list (list nat) * list Annotations) :
  NoDup unassigned → todo ⊆ unassigned →
  well_clustered keys threshold unassigned result0 st →
  well_clustered keys threshold unassigned result0
    (foldl (cluster_step keys threshold unassigned) st todo).
Proof.
  intros Hnd. revert st.
  induction todo as [|a todo IH]; intros st Hsub Hst; [done|].
  cbn [foldl]. apply IH.
  - intros x Hx. apply Hsub. by apply list_elem_of_further.
  - apply cluster_step_keeps; [done| |done]. apply Hsub, list_elem_of_here.
Qed.

Lemma clusters_spec (keys : list string) (threshold : Q)
    (unassigned : list nat) (result0 : list Annotations) :
  NoDup unassigned →
  well_clustered keys threshold unassigned result0
    (clusters keys threshold unassigned result0).
Proof.
  intros Hnd. unfold clusters. apply cluster_fold_keeps; [done..|].
  split; [|split; [|split; [|split]]]; try done.
  - intros x. simpl. rewrite elem_of_nil. set_solver.
  - constructor.
Qed.

Lemma NoDup_imap_pair {A} (l : list A) : NoDup (imap pair l).
Proof.
  apply NoDup_alt. intros i j [k x] Hi Hj.
  apply list_lookup_imap_Some in Hi as (y & _ & [= -> _]).
  apply list_lookup_imap_Some in Hj as (z & _ & [= -> _]). done.
Qed.

Lemma elem_of_unassigned_of (result : list Annotations) (i : nat) :
  i ∈ unassigned_of result
  ↔ ∃ a, result !! i = Some a ∧ _is_duplicate a = false.
Proof.
  unfold unassigned_of. rewrite list_elem_of_fmap. split.
  - intros ([j a] & -> & [Hd Hin]%list_elem_of_filter). simpl in *.
    apply elem_of_lookup_imap in Hin as (k & b & [= -> ->] & Hk). eauto.
  - intros (a & Ha & Hd). exists (i, a). split; [done|].
    apply list_elem_of_filter. split; [done|].
    apply elem_of_lookup_imap. eauto.
Qed.

Lemma NoDup_unassigned_of (result : list Annotations) :
  NoDup (unassigned_of result).
Proof.
  unfold unassigned_of. apply NoDup_fmap_fst.
  - intros i a b [_ Ha]%list_elem_of_filter [_ Hb]%list_elem_of_filter.
    apply elem_of_lookup_imap in Ha as (k & a' & [= -> ->] & Hk).
    apply elem_of_lookup_imap in Hb as (k' & b' & [= -> ->] & Hk').
    congruence.
  - apply NoDup_filter, NoDup_imap_pair.
Qed.

Lemma finalize_fold_spec (groups : list (list nat)) (n0 : nat)
    (result1 : list Annotations) :
  NoDup (concat groups) →
  let st := foldl finalize_step (n0, result1) groups in
  st.1 = (n0 + length groups)%nat
  ∧ length st.2 = length result1
  ∧ (∀ k grp i,
       groups !! k = Some grp → i ∈ grp →
       st.2 !! i
       = mark_fuzzy (fuzzy_gid (n0 + S k)) (length grp) <$> result1 !! i)
  ∧ (∀ i, i ∉ concat groups → st.2 !! i = result1 !! i).
Proof.
  revert n0 result1.
  induction groups as [|g0 groups IH]; intros n0 result1 Hnd; cbn zeta.
  - cbn [foldl fst snd length]. split; [lia|]. split; [done|]. split; [|done].
    intros k grp i Hk. by rewrite lookup_nil in Hk.
  - simpl in Hnd. apply NoDup_app in Hnd as (Hg0 & Hsep & Hnd).
    cbn [foldl].
    set (result2 := update_at g0 (mark_fuzzy (fuzzy_gid (S n0)) (length g0)) result1).
    change (finalize_step (n0, result1) g0) with (S n0, result2).
    destruct (IH (S n0) result2 Hnd) as (Hn & Hlen & Hin & Hout).
    split; [|split; [|split]].
    + rewrite Hn. simpl. lia.
    + rewrite Hlen. apply length_update_at.
    + intros k grp i Hk Hi. destruct k as [|k]; simpl in Hk.
      * injection Hk as ->. rewrite Hout by (by apply Hsep).
        unfold result2. rewrite update_at_inside by done.
        by replace (n0 + 1)%nat with (S n0) by lia.
      * rewrite (Hin k grp i Hk Hi).
        replace (S n0 + S k)%nat with (n0 + S (S k))%nat by lia.
        f_equal. unfold result2. apply update_at_outside.
        intros Hi0. apply (Hsep i Hi0).
        apply (elem_of_concat_group groups grp i);
          [by eapply list_elem_of_lookup_2|done].
    + intros i Hi. simpl in Hi. apply not_elem_of_app in Hi as [Hi0 Hi].
      rewrite (Hout i Hi). unfold result2. by apply update_at_outside.
Qed.

(** The group of a seed, whatever the lists are. *)
Lemma scan_fold_group (keys : list string) (threshold : Q) (idx_a : nat)
    (visited : gset nat) (unassigned grp0 : list nat)
    (result0 : list Annotations) :
  (foldl (scan_step keys threshold idx_a visited) (grp0, result0) unassigned).1
  = grp0 ++ filter (admitted keys threshold idx_a visited) unassigned.
Proof.
  revert grp0 result0.
  induction unassigned as [|b un IH]; intros grp0 result0.
  - by rewrite filter_nil, app_nil_r.
  - cbn [foldl]. rewrite filter_cons.
    destruct (decide (admitted keys threshold idx_a visited b))
      as [(Hne & Hvis & Hsim)|Hnot].
    + assert (∃ result1,
                scan_step keys threshold idx_a visited (grp0, result0) b
                = (grp0 ++ [b], result1)) as [result1 ->].
      { eexists. unfold scan_step. rewrite bool_decide_false by done.
        rewrite bool_decide_false by done. cbn [orb]. by rewrite Hsim. }
      rewrite IH. by rewrite <- app_assoc.
    + assert (scan_step keys threshold idx_a visited (grp0, result0) b
              = (grp0, result0)) as ->; [|apply IH].
      unfold scan_step.
      destruct (bool_decide (b = idx_a)) eqn:Ha; [done|].
      destruct (bool_decide (b ∈ visited)) eqn:Hv; [done|]. cbn [orb].
      destruct (Qle_bool threshold _) eqn:Hs; [|done].
      exfalso. apply Hnot. unfold admitted.
      apply bool_decide_eq_false in Ha, Hv. done.
Qed.

(** *** The fuzzy phase as a whole *)

Lemma fuzzy_phase_spec (keys : list string) (threshold : Q) (n : nat)
    (result_e : list Annotations) :
  let out := fuzzy_phase keys threshold (n, result_e) in
  let groups := out.2 in
  let un := unassigned_of result_e in
  out.1.1 = (n + length groups)%nat
  ∧ length out.1.2 = length result_e
  ∧ NoDup (concat groups)
  ∧ (∀ grp, grp ∈ groups →
       ∃ seed members,
         grp = seed :: members ∧ members ≠ [] ∧ seed ∈ un
         ∧ ∀ m, m ∈ members →
             m ∈ un
             ∧ Qle_bool threshold
                 (ratio (key_at keys seed) (key_at keys m)) = true)
  ∧ (∀ k seed members,
       groups !! k = Some (seed :: members) →
       out.1.2 !! seed
       = mark_fuzzy (fuzzy_gid (n + S k)) (S (length members))
         <$> result_e !! seed
       ∧ ∀ m, m ∈ members →
           out.1.2 !! m
           = mark_fuzzy (fuzzy_gid (n + S k)) (S (length members))
             <$> (set_similarity
                    (PyNum.round
                       (ratio (key_at keys seed) (key_at keys m)) 3)
                  <$> result_e !! m))
  ∧ (∀ i, i ∉ concat groups → out.1.2 !! i = result_e !! i).
Proof.
  unfold fuzzy_phase.
  pose proof (clusters_spec keys threshold (unassigned_of result_e) result_e
                (NoDup_unassigned_of result_e)) as Hc.
  destruct (clusters keys threshold (unassigned_of result_e) result_e)
    as [[visited groups] result_c].
  destruct Hc as (Hvis & Hnd & Hlen & Hgroups & Hrest).
  cbn [fst snd].
  destruct (finalize_fold_spec groups n result_c Hnd) as (Hn & Hflen & Hfin & Hfout).
  unfold finalize.
  split; [done|]. split; [by rewrite Hflen|]. split; [done|].
  split; [|split].
  - intros grp Hgrp.
    pose proof (proj1 (Forall_forall _ _) Hgroups grp Hgrp)
      as (seed & members & -> & Hne & Hseed & _ & Hms).
    exists seed, members. split; [done|]. split; [done|]. split; [done|].
    intros m Hm. by destruct (Hms m Hm) as (? & ? & _).
  - intros k seed members Hk.
    assert (seed :: members ∈ groups) as Hgrp
      by (by eapply list_elem_of_lookup_2).
    pose proof (proj1 (Forall_forall _ _) Hgroups _ Hgrp)
      as (seed' & members' & [= <- <-] & Hne & Hseed & Hs0 & Hms).
    split.
    + rewrite (Hfin k _ seed Hk) by apply list_elem_of_here.
      by rewrite Hs0.
    + intros m Hm.
      rewrite (Hfin k _ m Hk) by (by apply list_elem_of_further).
      destruct (Hms m Hm) as (_ & _ & ->). done.
  - intros i Hi. rewrite (Hfout i Hi). by apply Hrest.
Qed.

(** *** Rows of a run *)

Lemma length_initial_annotations (df : DataFrame) :
  length (initial_annotations df) = length (rows df).
Proof. unfold initial_annotations. apply length_fmap. Qed.

Lemma initial_annotations_clean (df : DataFrame) (i : nat) (a : Annotations) :
  initial_annotations df !! i = Some a →
  _dup_group_id a = None ∧ _is_duplicate a = false
  ∧ _match_type a = "" ∧ _similarity_score a = 0.
Proof.
  unfold initial_annotations. rewrite list_lookup_fmap.
  destruct (rows df !! i); [|done]. by intros [= <-].
Qed.

Lemma length_match_keys df match_columns keys :
  match_keys df match_columns = Ok keys → length keys = length (rows df).
Proof. intros ->%match_keys_inv. apply length_fmap. Qed.

(** The rows of the exact groups leave the phases as the exact phase
    marked them. *)
Lemma exact_rows_survive (keys : list string) (df : DataFrame)
    (match_columns : list string) (fuzzy : bool) (threshold : Q)
    (k : nat) (key : string) (i : nat) :
  dup_keys keys !! k = Some key → keys !! i = Some key →
  (phases keys df match_columns fuzzy threshold).1.2 !! i
  = mark_exact (exact_gid (S k)) (occurrences key keys)
    <$> initial_annotations df !! i.
Proof.
  intros Hk Hi. unfold phases.
  destruct (exact_phase_spec keys (initial_annotations df))
    as (_ & _ & Hex & _).
  specialize (Hex k key i Hk Hi).
  destruct (fuzzy && bool_decide (length match_columns = 1%nat)); [|done].
  destruct (exact_phase keys (initial_annotations df)) as [n result_e].
  cbn [fst snd] in Hex.
  destruct (fuzzy_phase_spec keys threshold n result_e)
    as (_ & _ & _ & Hgroups & _ & Hrest).
  destruct (fuzzy_phase keys threshold (n, result_e)) as [st groups].
  cbn [fst snd] in *. rewrite Hrest; [done|].
  intros (grp & Hgrp & Hin)%elem_of_concat.
  destruct (Hgroups grp Hgrp) as (seed & members & -> & _ & Hseed & Hms).
  assert (i ∈ unassigned_of result_e) as Hun.
  { apply elem_of_cons in Hin as [->|Hin]; [done|]. by apply Hms. }
  apply elem_of_unassigned_of in Hun as (a & Ha & Hd).
  rewrite Ha in Hex. destruct (initial_annotations df !! i); [|done].
  by injection Hex as ->.
Qed.

(** *** The numbering of the exact groups *)

(** C4, as the code has it.  The exact phase numbers the duplicate keys
    in the order of [value_counts]: a key never comes before a key
    that occurs more often, each key that occurs at least twice is
    numbered once, and every row with the [k]-th key carries the id
    number [k + 1], the mark Exact and the size of its group. *)
Theorem exact_ids_follow_value_counts
    (df : DataFrame) (match_columns : list string) (fuzzy : bool)
    (threshold : Q) out stash (keys : list string) :
  detect_duplicates df match_columns fuzzy threshold = Ok (out, stash) →
  match_keys df match_columns = Ok keys →
  (∀ a b ka kb,
     (a < b)%nat → dup_keys keys !! a = Some ka → dup_keys keys !! b = Some kb →
     (occurrences kb keys ≤ occurrences ka keys)%nat)
  ∧ NoDup (dup_keys keys)
  ∧ (∀ key, key ∈ dup_keys keys ↔ (2 ≤ occurrences key keys)%nat)
  ∧ (∀ k key i r,
       dup_keys keys !! k = Some key → keys !! i = Some key →
       dup_rows out !! i = Some r →
       _dup_group_id (ann r) = Some (exact_gid (S k))
       ∧ _match_type (ann r) = "Exact"
       ∧ _dup_count (ann r) = occurrences key keys).
Proof.
  intros Hrun Hkeys.
  split; [|split; [|split]].
  - intros a b ka kb. apply PandasProps.repeated_sorted.
  - apply PandasProps.NoDup_repeated.
  - apply elem_of_dup_keys.
  - intros k key i r Hk Hi Hr.
    apply detect_duplicates_inv in Hrun as (keys' & Hkeys' & _ & ->).
    rewrite Hkeys in Hkeys'. injection Hkeys' as <-.
    simpl in Hr. apply lookup_zip_with_Some in Hr as (row & a & -> & _ & Ha).
    rewrite recency_lookup, (exact_rows_survive _ _ _ _ _ k key i Hk Hi) in Ha.
    destruct (initial_annotations df !! i); [|done].
    by injection Ha as <-.
Qed.

(** *** The fuzzy groups of a run *)

(** A row the exact phase left unassigned is as it was initially. *)
Lemma unassigned_rows_initial (keys : list string) (df : DataFrame) (i : nat) :
  length keys = length (rows df) →
  i ∈ unassigned_of (exact_phase keys (initial_annotations df)).2 →
  (exact_phase keys (initial_annotations df)).2 !! i
  = initial_annotations df !! i
  ∧ is_Some (initial_annotations df !! i).
Proof.
  intros Hlen (a & Ha & Hd)%elem_of_unassigned_of.
  destruct (exact_phase_spec keys (initial_annotations df))
    as (_ & Hlen_e & Hex & Hrest).
  assert (i < length keys)%nat as Hi.
  { apply lookup_lt_Some in Ha.
    rewrite Hlen_e, length_initial_annotations in Ha. lia. }
  destruct (lookup_lt_is_Some_2 keys i Hi) as [key Hkey].
  assert (is_Some (initial_annotations df !! i)) as Hinit.
  { apply lookup_lt_is_Some_2. rewrite length_initial_annotations. lia. }
  split; [|done].
  destruct (decide (2 ≤ occurrences key keys)%nat) as [Hdup|Hsingle].
  - apply elem_of_dup_keys, list_elem_of_lookup_1 in Hdup as [k Hk].
    rewrite (Hex k key i Hk Hkey) in Ha.
    destruct Hinit as [a0 Ha0]. rewrite Ha0 in Ha.
    injection Ha as <-. done.
  - apply (Hrest i key Hkey). lia.
Qed.

(** The rows the exact phase leaves unassigned are the rows whose key
    no other row has, in row order. *)
Lemma filter_imap_agree {A B} (P : nat * A → Prop) (Q : nat * B → Prop)
    `{∀ x, Decision (P x)} `{∀ x, Decision (Q x)}
    (g : nat → nat) (l1 : list A) (l2 : list B) :
  length l1 = length l2 →
  (∀ i a b, l1 !! i = Some a → l2 !! i = Some b → P (g i, a) ↔ Q (g i, b)) →
  (filter P (imap (λ i a, (g i, a)) l1)).*1
  = (filter Q (imap (λ i b, (g i, b)) l2)).*1.
Proof.
  revert g l2. induction l1 as [|a l1 IH]; intros g [|b l2] Hlen Hpq;
    [done|done|done|].
  cbn [imap]. rewrite !filter_cons.
  assert ((filter P (imap ((λ i a, (g i, a)) ∘ S) l1)).*1
          = (filter Q (imap ((λ i b, (g i, b)) ∘ S) l2)).*1) as Htail.
  { apply (IH (g ∘ S) l2); [by injection Hlen|].
    intros i a' b' Ha' Hb'. apply (Hpq (S i) a' b' Ha' Hb'). }
  destruct (decide (P (g 0%nat, a))) as [Hp|Hp];
    destruct (decide (Q (g 0%nat, b))) as [Hq|Hq].
  - cbn [fmap list_fmap]. simpl. f_equal. exact Htail.
  - exfalso. apply Hq. by apply (Hpq 0%nat a b).
  - exfalso. apply Hp. by apply (Hpq 0%nat a b).
  - exact Htail.
Qed.

Lemma unassigned_are_single_rows (keys : list string) (df : DataFrame) :
  length keys = length (rows df) →
  unassigned_of (exact_phase keys (initial_annotations df)).2 = single_rows keys.
Proof.
  intros Hlen. unfold unassigned_of, single_rows.
  destruct (exact_phase_spec keys (initial_annotations df))
    as (_ & Hlen_e & Hex & Hrest).
  apply (filter_imap_agree
           (λ p : nat * Annotations, _is_duplicate p.2 = false)
           (λ p : nat * string, (occurrences p.2 keys < 2)%nat) id).
  { rewrite Hlen_e, length_initial_annotations. lia. }
  intros i a key Ha Hkey. cbn [fst snd].
  assert (is_Some (initial_annotations df !! i)) as [a0 Ha0].
  { apply lookup_lt_is_Some_2. rewrite length_initial_annotations, <- Hlen.
    by eapply lookup_lt_Some. }
  destruct (initial_annotations_clean df i a0 Ha0) as (_ & Hd0 & _).
  destruct (decide (2 ≤ occurrences key keys)%nat) as [Hdup|Hone].
  - pose proof Hdup as Hdup'.
    apply elem_of_dup_keys, list_elem_of_lookup_1 in Hdup' as [k Hk].
    rewrite (Hex k key i Hk Hkey), Ha0 in Ha. injection Ha as <-.
    simpl. split; [done|lia].
  - rewrite (Hrest i key Hkey), Ha0 in Ha by lia. injection Ha as <-.
    split; [lia|done].
Qed.

Lemma imap_sorted {A} (l : list A) (n : nat) :
  StronglySorted (λ p q : nat * A, (p.1 < q.1)%nat) (imap (λ i x, ((n + i)%nat, x)) l).
Proof.
  revert n. induction l as [|x l IH]; intros n; [constructor|].
  cbn [imap]. constructor.
  - rewrite (imap_ext _ (λ i y, ((S n + i)%nat, y))); [apply IH|].
    intros i y _. simpl. f_equal. lia.
  - apply Forall_forall. intros q (i & y & -> & _)%elem_of_lookup_imap.
    simpl. lia.
Qed.

Lemma imap_pair_sorted {A} (l : list A) :
  StronglySorted (λ p q : nat * A, (p.1 < q.1)%nat) (imap pair l).
Proof. apply (imap_sorted l 0). Qed.

Lemma single_rows_sorted (keys : list string) :
  StronglySorted lt (single_rows keys).
Proof.
  unfold single_rows.
  apply (StronglySorted_fmap fst (λ p q : nat * string, (p.1 < q.1)%nat) lt);
    [done|].
  apply PandasProps.StronglySorted_filter, imap_pair_sorted.
Qed.

Lemma before_single_rows (keys : list string) (seed a : nat) :
  before (single_rows keys) seed a → (seed < a)%nat.
Proof.
  intros (pre & post & Heq & [i Hi]%list_elem_of_lookup_1).
  apply (PandasProps.StronglySorted_lookup_lt lt (single_rows keys)
           i (length pre) seed a (single_rows_sorted keys)).
  - by eapply lookup_lt_Some.
  - rewrite Heq. by apply lookup_app_l_Some.
  - rewrite Heq. by rewrite list_lookup_middle.
Qed.

Lemma elem_of_single_rows (keys : list string) (i : nat) :
  i ∈ single_rows keys
  ↔ ∃ key, keys !! i = Some key ∧ (occurrences key keys < 2)%nat.
Proof.
  unfold single_rows. rewrite list_elem_of_fmap. split.
  - intros ([j key] & -> & [Hocc Hin]%list_elem_of_filter). simpl in *.
    apply elem_of_lookup_imap in Hin as (k & key' & [= -> ->] & Hk). eauto.
  - intros (key & Hkey & Hocc). exists (i, key). split; [done|].
    apply list_elem_of_filter. split; [done|].
    apply elem_of_lookup_imap. eauto.
Qed.

(** *** The fuzzy phase: which groups are stored *)

Lemma cluster_step_exact (keys : list string) (threshold : Q)
    (unassigned seen post : list nat)
    (st : gset nat * list (list nat) * list Annotations) (a : nat) :
  unassigned = seen ++ a :: post →
  exactly_clustered keys threshold unassigned seen st →
  exactly_clustered keys threshold unassigned (seen ++ [a])
    (cluster_step keys threshold unassigned st a).
Proof.
  intros Hun. destruct st as [[visited groups] result].
  intros (Hvis & Hgroups & Hseen).
  assert (∀ k grp,
            groups !! k = Some grp →
            ∃ seed members,
              grp = seed :: members ∧ members ≠ [] ∧ seed ∈ seen ++ [a]
              ∧ (seed ∉ concat (take k groups))
              ∧ members
                = filter (admitted keys threshold seed
                            (list_to_set (concat (take k groups))))
                         unassigned
              ∧ ∀ k' seed' members',
                  (k' < k)%nat → groups !! k' = Some (seed' :: members') →
                  before unassigned seed' seed) as Hgroups'.
  { intros k grp Hk.
    destruct (Hgroups k grp Hk) as (seed & members & ? & ? & ? & ? & ? & ?).
    exists seed, members. repeat (split; [done|]). split; [|done].
    apply elem_of_app. by left. }
  assert (∀ b, b ∈ concat groups →
            ∃ k seed members,
              groups !! k = Some (seed :: members) ∧ b ∈ seed :: members
              ∧ before unassigned seed a) as Htaken.
  { intros b (grp & [k Hk]%list_elem_of_lookup_1 & Hb)%elem_of_concat.
    destruct (Hgroups k grp Hk) as (seed & members & -> & _ & Hseed & _).
    exists k, seed, members. split; [done|]. split; [done|].
    by exists seen, post. }
  unfold cluster_step.
  destruct (bool_decide_reflect (a ∈ visited)) as [Hav|Hav].
  { split; [done|]. split; [done|].
    intros a' [Ha'|Ha']%elem_of_app Hfree; [by apply Hseen|].
    apply list_elem_of_singleton in Ha' as ->.
    exfalso. apply Hfree. rewrite Hvis in Hav.
    by apply elem_of_list_to_set in Hav. }
  pose proof (scan_fold_group keys threshold a visited unassigned [a] result)
    as Hgrp.
  fold (scan keys threshold a visited unassigned result) in Hgrp.
  destruct (scan keys threshold a visited unassigned result)
    as [grp result'] eqn:Hscan.
  cbn [fst] in Hgrp. simpl in Hgrp.
  set (members := filter (admitted keys threshold a visited) unassigned) in *.
  assert (a ∉ concat groups) as Hafresh.
  { intros Hin. apply Hav. rewrite Hvis. by apply elem_of_list_to_set. }
  destruct (Nat.ltb_spec 1 (length grp)) as [Hbig|Hsmall].
  - split; [|split].
    + rewrite concat_app, list_to_set_app_L, <- Hvis. simpl.
      by rewrite app_nil_r.
    + intros k grp0 Hk.
      apply lookup_app_Some in Hk as [Hk|[Hlen Hk]].
      * destruct (Hgroups' k grp0 Hk)
          as (seed & mem & -> & Hne & Hin & Hfresh & Hmem & Hord).
        assert (k < length groups)%nat as Hlt by (by eapply lookup_lt_Some).
        exists seed, mem. rewrite take_app_le by lia.
        repeat (split; [done|]).
        intros k' seed' members' Hk' Hlook. apply (Hord k' seed' members' Hk').
        apply lookup_app_Some in Hlook as [?|[? _]]; [done|lia].
      * destruct (k - length groups)%nat as [|n] eqn:Hdiff; [|by destruct n].
        injection Hk as <-. assert (k = length groups) as -> by lia.
        rewrite take_app_length.
        exists a, members. split; [done|]. split.
        { intros Hnil. rewrite Hgrp, Hnil in Hbig. simpl in Hbig. lia. }
        split; [apply elem_of_app; right; apply list_elem_of_here|].
        split; [done|]. split; [by rewrite <- Hvis|].
        intros k' seed' members' Hk' Hlook.
        apply lookup_app_Some in Hlook as [Hlook|[? _]]; [|lia].
        destruct (Hgroups k' _ Hlook) as (s0 & m0 & [= <- <-] & _ & Hs0 & _).
        by exists seen, post.
    + intros a' [Ha'|Ha']%elem_of_app Hfree b Hb Hne Hsim.
      * rewrite concat_app in Hfree. apply not_elem_of_app in Hfree as [Hfree _].
        destruct (Hseen a' Ha' Hfree b Hb Hne Hsim)
          as (k & seed & mem & Hk & Hin & Hbef).
        exists k, seed, mem. split; [|done]. by apply lookup_app_l_Some.
      * apply list_elem_of_singleton in Ha' as ->. exfalso. apply Hfree.
        rewrite concat_app, elem_of_app. right. simpl. rewrite app_nil_r, Hgrp.
        apply list_elem_of_here.
  - assert (members = []) as Hnil.
    { rewrite Hgrp in Hsmall. destruct members; [done|]. simpl in Hsmall. lia. }
    split; [done|]. split; [done|].
    intros a' [Ha'|Ha']%elem_of_app Hfree b Hb Hne Hsim; [by apply Hseen|].
    apply list_elem_of_singleton in Ha' as ->.
    apply Htaken. destruct (decide (b ∈ visited)) as [Hbv|Hbv].
    { rewrite Hvis in Hbv. by apply elem_of_list_to_set in Hbv. }
    exfalso. assert (b ∈ members) as Hbm.
    { apply list_elem_of_filter. split; [|done]. done. }
    rewrite Hnil in Hbm. by apply elem_of_nil in Hbm.
Qed.

Lemma cluster_fold_exact (keys : list string) (threshold : Q)
    (unassigned seen todo : list nat)
    (st : gset nat * list (list nat) * list Annotations) :
  unassigned = seen ++ todo →
  exactly_clustered keys threshold unassigned seen st →
  exactly_clustered keys threshold unassigned unassigned
    (foldl (cluster_step keys threshold unassigned) st todo).
Proof.
  revert seen st. induction todo as [|a todo IH]; intros seen st Hun Hst.
  { rewrite app_nil_r in Hun. by subst seen. }
  cbn [foldl]. apply (IH (seen ++ [a])).
  - by rewrite <- app_assoc.
  - by apply (cluster_step_exact keys threshold unassigned seen todo).
Qed.

Lemma clusters_exact (keys : list string) (threshold : Q)
    (unassigned : list nat) (result0 : list Annotations) :
  exactly_clustered keys threshold unassigned unassigned
    (clusters keys threshold unassigned result0).
Proof.
  unfold clusters. apply (cluster_fold_exact keys threshold unassigned []); [done|].
  split; [done|]. split.
  - intros k grp Hk. by rewrite lookup_nil in Hk.
  - intros a Ha. by apply elem_of_nil in Ha.
Qed.

(** The groups the fuzzy phase stores, with [before] read as the order
    of the labels. *)
Lemma fuzzy_groups_exact (keys : list string) (df : DataFrame)
    (threshold : Q) :
  length keys = length (rows df) →
  let groups := (fuzzy_phase keys threshold
                   (exact_phase keys (initial_annotations df))).2 in
  (∀ k grp,
     groups !! k = Some grp →
     ∃ seed members,
       grp = seed :: members ∧ members ≠ [] ∧ seed ∈ single_rows keys
       ∧ (seed ∉ concat (take k groups))
       ∧ members
         = filter (admitted keys threshold seed
                     (list_to_set (concat (take k groups))))
                  (single_rows keys)
       ∧ ∀ k' seed' members',
           (k' < k)%nat → groups !! k' = Some (seed' :: members') →
           (seed' < seed)%nat)
  ∧ (∀ a b, a ∈ single_rows keys → b ∈ single_rows keys → a ≠ b →
       a ∉ concat groups →
       Qle_bool threshold (ratio (key_at keys a) (key_at keys b)) = true →
       ∃ k seed members,
         groups !! k = Some (seed :: members) ∧ b ∈ seed :: members
         ∧ (seed < a)%nat).
Proof.
  intros Hlen. cbn zeta.
  pose proof (unassigned_are_single_rows keys df Hlen) as Hun.
  destruct (exact_phase keys (initial_annotations df)) as [n result_e].
  cbn [snd] in Hun. unfold fuzzy_phase. rewrite Hun.
  pose proof (clusters_exact keys threshold (single_rows keys) result_e) as Hc.
  destruct (clusters keys threshold (single_rows keys) result_e)
    as [[visited groups] result_c].
  destruct Hc as (_ & Hgroups & Hseen). cbn [snd]. split.
  - intros k grp Hk.
    destruct (Hgroups k grp Hk) as (seed & members & -> & Hne & Hin & Hfresh & Hmem & Hord).
    exists seed, members. repeat (split; [done|]).
    intros k' seed' members' Hk' Hlook.
    apply (before_single_rows keys). by apply (Hord k' seed' members').
  - intros a b Ha Hb Hne Hfree Hsim.
    destruct (Hseen a Ha Hfree b Hb (not_eq_sym Hne) Hsim)
      as (k & seed & members & ? & ? & Hbef).
    exists k, seed, members. split; [done|]. split; [done|].
    by apply (before_single_rows keys).
Qed.

(** C6.  In a run with one match column and [fuzzy=True], the list of
    fuzzy groups that the run stores is this:
    - the candidates are the rows whose key no other row has; the
      [k]-th group is a seed, a candidate outside the groups stored
      before, followed by every candidate that is not the seed, is
      outside the groups stored before, and whose key has a similarity
      to the key of the seed of at least the threshold: the test reads
      the key of the seed and the key of the candidate, not the key of
      a row admitted before; the group has at least one row beside the
      seed, and the groups come in the order of their seeds;
    - a candidate that ends outside the groups has found no row to
      admit: every candidate similar enough to it was in the group of
      an earlier seed; such a row has no group id and is not marked;
    - no row is in two groups; the rows of the [k]-th group carry the
      id DG-NNNN-F with the number that follows the exact groups, the
      mark Fuzzy and the size of the group;
    - the seed ends with the similarity 1, a member with its rounded
      similarity to the seed, or with 1 when that is 0;
    - a row outside these groups is not marked Fuzzy. *)
Theorem fuzzy_groups_follow_the_seed
    (df : DataFrame) (col : string) (threshold : Q) out stash
    (keys : list string) :
  detect_duplicates df [col] true threshold = Ok (out, stash) →
  match_keys df [col] = Ok keys →
  ∃ groups,
    stash = Some groups
    ∧ NoDup (concat groups)
    ∧ (∀ k grp,
         groups !! k = Some grp →
         ∃ seed members,
           grp = seed :: members ∧ members ≠ []
           ∧ seed ∈ single_rows keys
           ∧ (seed ∉ concat (take k groups))
           ∧ members
             = filter (admitted keys threshold seed
                         (list_to_set (concat (take k groups))))
                      (single_rows keys)
           ∧ (∀ k' seed' members',
                (k' < k)%nat → groups !! k' = Some (seed' :: members') →
                (seed' < seed)%nat)
           ∧ ∀ i, i ∈ grp →
               ∃ r, dup_rows out !! i = Some r
                    ∧ _dup_group_id (ann r)
                      = Some (fuzzy_gid (length (dup_keys keys) + S k))
                    ∧ _is_duplicate (ann r) = true
                    ∧ _dup_count (ann r) = length grp
                    ∧ _match_type (ann r) = "Fuzzy"
                    ∧ _similarity_score (ann r)
                      = if decide (i = seed) then 1
                        else
                          let s := PyNum.round
                                     (ratio (key_at keys seed) (key_at keys i)) 3 in
                          if Qeq_bool s 0 then 1 else s)
    ∧ (∀ a b,
         a ∈ single_rows keys → b ∈ single_rows keys → a ≠ b →
         a ∉ concat groups →
         Qle_bool threshold (ratio (key_at keys a) (key_at keys b)) = true →
         ∃ k seed members,
           groups !! k = Some (seed :: members) ∧ b ∈ seed :: members
           ∧ (seed < a)%nat)
    ∧ (∀ i r, dup_rows out !! i = Some r → i ∉ concat groups →
         _match_type (ann r) ≠ "Fuzzy"
         ∧ (i ∈ single_rows keys →
              _dup_group_id (ann r) = None ∧ _is_duplicate (ann r) = false
              ∧ _similarity_score (ann r) = 0)).
Proof.
  intros Hrun Hkeys.
  apply detect_duplicates_inv in Hrun as (keys' & Hkeys' & -> & ->).
  rewrite Hkeys in Hkeys'. injection Hkeys' as <-.
  pose proof (length_match_keys _ _ _ Hkeys) as Hlen.
  pose proof (fuzzy_groups_exact keys df threshold Hlen) as [Hexact Hfree].
  unfold phases. cbn [andb length bool_decide decide_rel].
  rewrite bool_decide_true by done.
  pose proof (exact_phase_spec keys (initial_annotations df))
    as (Hn & Hlen_e & Hex & Hsingle).
  pose proof (unassigned_rows_initial keys df) as Hun.
  destruct (exact_phase keys (initial_annotations df)) as [n result_e].
  cbn [fst snd] in *.
  destruct (fuzzy_phase_spec keys threshold n result_e)
    as (_ & Hlen_f & Hnd & Hgroups & Hmarks & Hrest).
  destruct (fuzzy_phase keys threshold (n, result_e)) as [[n' result_f] groups].
  cbn [fst snd] in *.
  exists groups. split; [done|]. split; [done|]. split; [|split].
  - intros k grp Hk.
    destruct (Hexact k grp Hk)
      as (seed & members & -> & Hne & Hseed1 & Hfresh1 & Hmem & Hord).
    destruct (Hgroups (seed :: members)) as (seed' & members' & [= <- <-] & _ & Hseed & Hms);
      [by eapply list_elem_of_lookup_2|].
    exists seed, members. repeat (split; [done|]).
    destruct (Hmarks k seed members Hk) as [Hmark_seed Hmark_mem].
    assert (seed ∉ members) as Hfresh.
    { intros Hin. apply (NoDup_cons_1_1 seed members); [|done].
      assert (NoDup (seed :: members)) as Hg; [|done].
      clear -Hnd Hk. revert k Hk.
      induction groups as [|g groups IH]; intros k Hk;
        [by rewrite lookup_nil in Hk|].
      simpl in Hnd. apply NoDup_app in Hnd as (Hg & _ & Hnd).
      destruct k as [|k]; simpl in Hk; [by injection Hk as ->|].
      by apply (IH Hnd k). }
    intros i Hi.
    assert (i ∈ unassigned_of result_e) as Hiun.
    { apply elem_of_cons in Hi as [->|Hi]; [done|]. by apply Hms. }
    destruct (Hun i Hlen Hiun) as [Hinit [a0 Ha0]].
    assert (is_Some (rows df !! i)) as [row Hrow].
    { apply lookup_lt_is_Some_2. apply lookup_lt_Some in Ha0.
      by rewrite length_initial_annotations in Ha0. }
    destruct (initial_annotations_clean df i a0 Ha0) as (_ & _ & _ & Hsim0).
    assert (result_f !! i
            = Some (mark_fuzzy (fuzzy_gid (n + S k)) (S (length members))
                      (if decide (i = seed) then a0
                       else set_similarity
                              (PyNum.round
                                 (ratio (key_at keys seed) (key_at keys i)) 3)
                              a0))) as Hf.
    { apply elem_of_cons in Hi as [->|Hi].
      - rewrite decide_True by done. rewrite Hmark_seed, Hinit, Ha0. done.
      - rewrite decide_False by (intros ->; done).
        rewrite (Hmark_mem i Hi), Hinit, Ha0. done. }
    eexists. split.
    { simpl. apply lookup_zip_with_Some. eexists row, _.
      split; [reflexivity|]. split; [done|].
      rewrite recency_lookup, Hf. reflexivity. }
    cbn [ann]. rewrite Hn.
    split; [done|]. split; [done|]. split; [done|]. split; [done|].
    destruct (decide (i = seed)); cbn.
    + by rewrite Hsim0.
    + done.
  - exact Hfree.
  - intros i r Hr Hi.
    simpl in Hr. apply lookup_zip_with_Some in Hr as (row & a & -> & Hrow & Ha).
    rewrite recency_lookup, (Hrest i Hi) in Ha.
    destruct (result_e !! i) as [a_e|] eqn:Hae; [|done].
    injection Ha as <-. cbn.
    assert (i < length keys)%nat as Hik.
    { apply lookup_lt_Some in Hrow. lia. }
    destruct (lookup_lt_is_Some_2 keys i Hik) as [key Hkey].
    assert (is_Some (initial_annotations df !! i)) as [a0 Ha0].
    { apply lookup_lt_is_Some_2. rewrite length_initial_annotations. lia. }
    destruct (decide (2 ≤ occurrences key keys)%nat) as [Hdup|Hone].
    + pose proof Hdup as Hdup'.
      apply elem_of_dup_keys, list_elem_of_lookup_1 in Hdup' as [k Hk].
      rewrite (Hex k key i Hk Hkey), Ha0 in Hae. injection Hae as <-.
      split; [done|].
      intros (key' & Hkey' & Hocc)%elem_of_single_rows.
      rewrite Hkey in Hkey'. injection Hkey' as <-. lia.
    + rewrite (Hsingle i key Hkey) in Hae by lia.
      rewrite Ha0 in Hae. injection Hae as <-.
      destruct (initial_annotations_clean df i a0 Ha0) as (Hg0 & Hd0 & Hm0 & Hs0).
      split; [by rewrite Hm0|]. done.
Qed.

(** *** The annotations of a run are coherent *)

Lemma update_at_Forall (P : Annotations → Prop) idxs f (result : list Annotations) :
  (∀ a, P a → P (f a)) → Forall P result → Forall P (update_at idxs f result).
Proof.
  intros Hf. unfold update_at. revert result.
  induction idxs as [|j idxs IH]; intros result Hres; [done|].
  cbn [foldl]. apply IH. apply Forall_alter; [done|]. intros a _. apply Hf.
Qed.

Lemma exact_phase_coherent (keys : list string) (result : list Annotations) :
  Forall coherent result → Forall coherent (exact_phase keys result).2.
Proof.
  unfold exact_phase. generalize 0%nat. revert result.
  induction (dup_keys keys) as [|k ks IH]; intros result n Hres; [done|].
  cbn [foldl]. apply IH. cbn [exact_step snd].
  apply update_at_Forall; [|done]. intros a _. unfold coherent. simpl.
  split; [by eexists|done].
Qed.

Lemma scan_coherent (keys : list string) (threshold : Q) (idx_a : nat)
    (visited : gset nat) (unassigned : list nat) (result : list Annotations) :
  Forall coherent result →
  Forall coherent (scan keys threshold idx_a visited unassigned result).2.
Proof.
  unfold scan. generalize [idx_a]. revert result.
  induction unassigned as [|b un IH]; intros result grp Hres; [done|].
  cbn [foldl]. unfold scan_step at 2.
  destruct (bool_decide (b = idx_a) || bool_decide (b ∈ visited)); [by apply IH|].
  destruct (Qle_bool threshold _); [|by apply IH].
  apply IH. apply Forall_alter; [done|]. by intros a _ Ha.
Qed.

Lemma clusters_coherent (keys : list string) (threshold : Q)
    (unassigned : list nat) (result : list Annotations) :
  Forall coherent result →
  Forall coherent (clusters keys threshold unassigned result).2.
Proof.
  unfold clusters. generalize (∅ : gset nat) ([] : list (list nat)).
  generalize unassigned at 2. intros todo. revert result.
  induction todo as [|a todo IH]; intros result visited groups Hres; [done|].
  cbn [foldl]. unfold cluster_step at 2.
  destruct (bool_decide (a ∈ visited)); [by apply IH|].
  pose proof (scan_coherent keys threshold a visited unassigned result Hres) as Hs.
  destruct (scan keys threshold a visited unassigned result) as [grp result'].
  destruct (1 <? length grp)%nat; by apply IH.
Qed.

Lemma finalize_coherent (groups : list (list nat)) (n : nat)
    (result : list Annotations) :
  Forall coherent result → Forall coherent (finalize groups (n, result)).2.
Proof.
  unfold finalize. revert n result.
  induction groups as [|g groups IH]; intros n result Hres; [done|].
  cbn [foldl]. apply IH. apply update_at_Forall; [|done].
  intros a _. unfold coherent. simpl. split; [by eexists|done].
Qed.

Lemma phases_coherent (keys : list string) (df : DataFrame)
    (match_columns : list string) (fuzzy : bool) (threshold : Q) :
  Forall coherent (phases keys df match_columns fuzzy threshold).1.2.
Proof.
  unfold phases.
  assert (Forall coherent (initial_annotations df)) as Hinit.
  { unfold initial_annotations. apply Forall_fmap, Forall_forall.
    intros r _. unfold coherent. simpl. split; [done|by intros [? ?]]. }
  pose proof (exact_phase_coherent keys _ Hinit) as Hex.
  destruct (fuzzy && bool_decide (length match_columns = 1%nat)); [|done].
  destruct (exact_phase keys (initial_annotations df)) as [n result_e].
  unfold fuzzy_phase. cbn [snd] in Hex.
  pose proof (clusters_coherent keys threshold (unassigned_of result_e) result_e Hex)
    as Hc.
  destruct (clusters keys threshold (unassigned_of result_e) result_e)
    as [[visited groups] result_c].
  cbn [fst snd] in *. by apply finalize_coherent.
Qed.

Lemma recency_ranked (df : DataFrame) (result : list Annotations) :
  Forall coherent result →
  Forall (λ a, coherent a ∧ ranked a) (recency df result).
Proof.
  intros Hres. apply Forall_lookup. intros i a Ha.
  rewrite recency_lookup in Ha.
  destruct (result !! i) as [a0|] eqn:Ha0; [|done].
  injection Ha as <-. split.
  - by apply (Forall_lookup_1 _ _ _ _ Hres Ha0).
  - unfold ranked. simpl. intros [g Hg].
    destruct (date_cols df); [|done].
    unfold rank_undated. rewrite list_lookup_fmap, Ha0. simpl. by rewrite Hg.
Qed.

(** The frame a run returns is well annotated, and its grouped rows have a
    recency rank. *)
Lemma detect_duplicates_well_annotated
    (df : DataFrame) (match_columns : list string) (fuzzy : bool)
    (threshold : Q) out stash :
  detect_duplicates df match_columns fuzzy threshold = Ok (out, stash) →
  well_annotated out ∧ Forall (λ r, ranked (ann r)) (dup_rows out).
Proof.
  intros (keys & _ & _ & ->)%detect_duplicates_inv.
  pose proof (recency_ranked df _
                (phases_coherent keys df match_columns fuzzy threshold)) as Hall.
  assert (Forall (λ r, coherent (ann r) ∧ ranked (ann r))
            (zip_with (λ r a, {| cells := r; ann := a |}) (rows df)
               (recency df (phases keys df match_columns fuzzy threshold).1.2)))
    as Hrows.
  { apply Forall_lookup. intros i r Hr.
    apply lookup_zip_with_Some in Hr as (row & a & -> & _ & Ha).
    by apply (Forall_lookup_1 _ _ _ _ Hall Ha). }
  split.
  - intros r Hr. simpl in Hr. by apply (proj1 (Forall_forall _ _) Hrows r Hr).
  - simpl. eapply Forall_impl; [exact Hrows|]. by intros r [_ ?].
Qed.

End WithExternals.

Lemma match_key_of_null_is_nan_witness :
  ["nan"; "nan"] !! 0%nat
  = Some (PyStr.join "|"
            ((λ c, match (∅ : Row) !! c with
                   | None => "nan"
                   | Some v => PyStr.lower (PyStr.strip (@py_str demo_externals v))
                   end) <$> ["k"])).
Proof.
  apply (@match_key_of_null_is_nan demo_externals two_nulls ["k"]
           ["nan"; "nan"] 0 ∅); reflexivity.
Defined.

Lemma rank_of_ungrouped_row_witness :
  ∃ out stash r,
    aab_run = Ok (out, stash)
    ∧ dup_rows out !! 2%nat = Some r
    ∧ _dup_group_id (ann r) = None
    ∧ _recency_rank (ann r) = None.
Proof.
  destruct aab_run as [[out stash]|e] eqn:Hrun; [|by vm_compute in Hrun].
  destruct (dup_rows out !! 2%nat) as [r|] eqn:Hr.
  2: { vm_compute in Hrun. injection Hrun as <- <-. by vm_compute in Hr. }
  assert (_dup_group_id (ann r) = None) as Hgid.
  { vm_compute in Hrun. injection Hrun as <- <-. vm_compute in Hr.
    by injection Hr as <-. }
  exists out, stash, r. split; [done|]. split; [done|]. split; [done|].
  exact (@rank_of_ungrouped_row demo_externals aab ["k"] false (85 # 100)
           out stash 2 r Hrun Hr Hgid).
Defined.

(** In [abb] the key [a] is met first but [b] occurs more often: [b]
    gets DG-0001 and [a] gets DG-0002. *)
Lemma ids_do_not_follow_first_encounter : ¬ numbered_by_first_encounter.
Proof.
  intros Hclaim.
  destruct abb_run as [[out stash]|e] eqn:Hrun; [|by vm_compute in Hrun].
  assert (@match_keys demo_externals abb ["k"] = Ok ["a"; "a"; "b"; "b"; "b"])
    as Hkeys by (vm_compute; reflexivity).
  destruct (dup_rows out !! 0%nat) as [r|] eqn:Hr.
  - pose proof (Hclaim demo_externals abb ["k"] false (85 # 100) out stash
                  ["a"; "a"; "b"; "b"; "b"] 0%nat "a" 0%nat r
                  Hrun Hkeys eq_refl eq_refl Hr) as Hgid.
    vm_compute in Hrun. injection Hrun as <- <-.
    vm_compute in Hr. injection Hr as <-.
    vm_compute in Hgid. discriminate.
  - vm_compute in Hrun. injection Hrun as <- <-. by vm_compute in Hr.
Qed.

Lemma exact_ids_follow_value_counts_witness :
  ∃ out stash r,
    abb_run = Ok (out, stash)
    ∧ dup_rows out !! 2%nat = Some r
    ∧ _dup_group_id (ann r) = Some "DG-0001"
    ∧ _dup_count (ann r) = 3%nat.
Proof.
  destruct abb_run as [[out stash]|e] eqn:Hrun; [|by vm_compute in Hrun].
  assert (@match_keys demo_externals abb ["k"] = Ok ["a"; "a"; "b"; "b"; "b"])
    as Hkeys by (vm_compute; reflexivity).
  destruct (dup_rows out !! 2%nat) as [r|] eqn:Hr.
  2: { vm_compute in Hrun. injection Hrun as <- <-. by vm_compute in Hr. }
  destruct (@exact_ids_follow_value_counts demo_externals abb ["k"] false
              (85 # 100) out stash ["a"; "a"; "b"; "b"; "b"] Hrun Hkeys)
    as (_ & _ & _ & Hrows).
  destruct (Hrows 0%nat "b" 2%nat r eq_refl eq_refl Hr) as (Hgid & _ & Hcount).
  exists out, stash, r. by repeat split.
Defined.

Lemma fuzzy_groups_follow_the_seed_witness :
  ∃ out r,
    near_bb_run = Ok (out, Some [[0; 1; 2]%nat])
    ∧ [1; 2]%nat
      = filter (@admitted demo_externals
                  ["bb"; "a"; "ccc"; "eeeeeee"; "q"; "q"] (9 # 10) 0%nat ∅)
               (single_rows ["bb"; "a"; "ccc"; "eeeeeee"; "q"; "q"])
    ∧ dup_rows out !! 2%nat = Some r
    ∧ _dup_group_id (ann r) = Some "DG-0002-F"
    ∧ _match_type (ann r) = "Fuzzy"
    ∧ _dup_count (ann r) = 3%nat.
Proof.
  destruct near_bb_run as [[out stash]|e] eqn:Hrun; [|by vm_compute in Hrun].
  assert (stash = Some [[0; 1; 2]%nat]) as Hstash.
  { vm_compute in Hrun. by injection Hrun as _ <-. }
  assert (@match_keys demo_externals near_bb ["k"]
          = Ok ["bb"; "a"; "ccc"; "eeeeeee"; "q"; "q"])
    as Hkeys by (vm_compute; reflexivity).
  destruct (@fuzzy_groups_follow_the_seed demo_externals near_bb "k" (9 # 10)
              out stash _ Hrun Hkeys)
    as (groups & Hgroups & _ & Hgrp & _ & _).
  rewrite Hgroups in Hstash. injection Hstash as ->.
  destruct (Hgrp 0%nat [0; 1; 2]%nat eq_refl)
    as (seed & members & [= <- <-] & _ & _ & _ & Hmem & _ & Hrows).
  destruct (Hrows 2%nat) as (r & Hr & Hgid & _ & Hcount & Hmark & _).
  { apply list_elem_of_further, list_elem_of_further, list_elem_of_here. }
  exists out, r. rewrite Hgroups. split; [done|]. split; [exact Hmem|].
  split; [done|]. split; [exact Hgid|]. split; [done|]. exact Hcount.
Defined.

(** The run on [near_bb]: the rows a and ccc join the seed bb although
    they are not similar to each other, and q, q is the exact group. *)
Example near_bb_groups :
  (λ p : DupFrame * option (list (list nat)),
     ((λ r, (_dup_group_id (ann r), _match_type (ann r),
             _similarity_score (ann r))) <$> dup_rows p.1, p.2))
    <$> near_bb_run
  = Ok ([ (Some "DG-0002-F", "Fuzzy", 1);
          (Some "DG-0002-F", "Fuzzy", 900 # 1000);
          (Some "DG-0002-F", "Fuzzy", 900 # 1000);
          (None, "", 0);
          (Some "DG-0001", "Exact", 1);
          (Some "DG-0001", "Exact", 1) ],
        Some [[0; 1; 2]%nat]).
Proof. vm_compute. reflexivity. Qed.

(** *** Survivorship *)

Lemma idxmin_cells_all_null (s : list (nat * Cell)) :
  Forall (λ e : nat * Cell, e.2 = None) s → idxmin_cells s = Ok None.
Proof.
  unfold idxmin_cells. intros Hnull.
  assert (existsb (λ e : nat * Cell, is_text e.2) s = false) as ->.
  { induction Hnull as [|[i c] s Hc _ IH]; [done|].
    simpl in Hc. subst c. exact IH. }
  assert (foldl (λ (acc : Res (option (nat * Scalar))) e,
                   best ← acc; idxmin_step best e) (Ok None) s = Ok None) as ->;
    [|done].
  induction Hnull as [|[i c] s Hc _ IH]; [done|].
  simpl in Hc. subst c. cbn [foldl]. exact IH.
Qed.

(** With the strategy Source Priority, a group whose rows are all null
    in the first column with a source keyword has no minimum: [idxmin]
    gives NaN and [int] raises. *)
Lemma source_priority_raises_on_null_column
    (cols : list string) (group_df : SubFrame) (col : string) (rest : list string) :
  group_df ≠ [] →
  src_cols cols = col :: rest →
  Forall (λ p : nat * DupRow, cells p.2 !! col = None) group_df →
  identify_golden_record cols group_df "Source Priority"
  = Raise (ValueError "cannot convert float NaN to integer").
Proof.
  intros Hne Hsrc Hnull. unfold identify_golden_record.
  destruct group_df as [|first group_df]; [done|].
  change (String.eqb "Source Priority" "Most Complete") with false.
  change (String.eqb "Source Priority" "Most Recent") with false.
  change (String.eqb "Source Priority" "Most Frequent") with false.
  change (String.eqb "Source Priority" "Source Priority") with true.
  cbv iota. rewrite Hsrc.
  rewrite idxmin_cells_all_null; [done|].
  apply Forall_fmap. eapply Forall_impl; [exact Hnull|]. done.
Qed.

(** The label [idxmax] / [idxmin] returns is the label of an entry. *)
Lemma arg_fold_in {V} (better : V → V → bool) (s : list (nat * option V))
    (best0 : option (nat * V)) (res : nat * V) :
  foldl (λ (best : option (nat * V)) (e : nat * option V),
           match e.2, best with
           | None, _ => best
           | Some v, None => Some (e.1, v)
           | Some v, Some (j, w) => if better v w then Some (e.1, v) else best
           end) best0 s = Some res →
  best0 = Some res ∨ (res.1, Some res.2) ∈ s.
Proof.
  revert best0. induction s as [|[i c] s IH]; intros best0 Hfold; [by left|].
  cbn [foldl fst snd] in Hfold. apply IH in Hfold as [Hstep|Hin].
  - destruct c as [v|]; [|by left].
    destruct best0 as [[j w]|].
    + destruct (better v w); [|by left].
      injection Hstep as <-. right. apply list_elem_of_here.
    + injection Hstep as <-. right. apply list_elem_of_here.
  - right. by apply list_elem_of_further.
Qed.

Lemma arg_best_in {V} (better : V → V → bool) (s : list (nat * option V)) (i : nat) :
  arg_best better s = Some i → ∃ v, (i, Some v) ∈ s.
Proof.
  unfold arg_best. intros Hbest.
  destruct (foldl _ None s) as [[j v]|] eqn:Hfold; [|done].
  injection Hbest as <-.
  apply arg_fold_in in Hfold as [?|Hin]; [done|]. by exists v.
Qed.

Lemma label_of_arg_best {V} (better : V → V → bool)
    (f : nat * DupRow → option V) (grp : SubFrame) (z : Z) :
  int_of_label (arg_best better ((λ p : nat * DupRow, (p.1, f p)) <$> grp)) = Ok z →
  ∃ p, p ∈ grp ∧ z = Z.of_nat p.1.
Proof.
  destruct (arg_best _ _) as [i|] eqn:Hbest; [|done].
  intros [= <-]. apply arg_best_in in Hbest as [v Hin].
  apply list_elem_of_fmap in Hin as (p & [= -> _] & Hp). by exists p.
Qed.

Lemma idxmin_fold_raise (s : list (nat * Cell)) (e : exn) :
  foldl (λ (acc : Res (option (nat * Scalar))) c,
           best ← acc; idxmin_step best c) (Raise e) s = Raise e.
Proof. induction s as [|c s IH]; [done|]. exact IH. Qed.

Lemma idxmin_fold_in (s : list (nat * Cell)) (best0 : option (nat * Scalar))
    (res : nat * Scalar) :
  foldl (λ (acc : Res (option (nat * Scalar))) c,
           best ← acc; idxmin_step best c) (Ok best0) s = Ok (Some res) →
  best0 = Some res ∨ (res.1, Some res.2) ∈ s.
Proof.
  revert best0. induction s as [|[i c] s IH]; intros best0 Hfold.
  { injection Hfold as ->. by left. }
  cbn [foldl] in Hfold.
  change (Ok best0 ≫= λ best, idxmin_step best (i, c))
    with (idxmin_step best0 (i, c)) in Hfold.
  destruct (idxmin_step best0 (i, c)) as [best1|e] eqn:Hstep.
  2: { by rewrite idxmin_fold_raise in Hfold. }
  apply IH in Hfold as [->|Hin]; [|right; by apply list_elem_of_further].
  unfold idxmin_step in Hstep. cbn [fst snd] in Hstep.
  destruct c as [v|]; [|injection Hstep as ->; by left].
  destruct best0 as [[j w]|].
  - destruct (scalar_lt v w) as [[]|]; [| |done].
    + injection Hstep as <-. right. apply list_elem_of_here.
    + injection Hstep as ->. by left.
  - injection Hstep as <-. right. apply list_elem_of_here.
Qed.

Lemma label_of_idxmin_cells (col : string) (grp : SubFrame) (label : option nat) (z : Z) :
  idxmin_cells ((λ p : nat * DupRow, (p.1, cells p.2 !! col)) <$> grp) = Ok label →
  int_of_label label = Ok z →
  ∃ p, p ∈ grp ∧ z = Z.of_nat p.1.
Proof.
  unfold idxmin_cells. intros Hmin Hint.
  destruct (existsb _ _); [done|].
  destruct (foldl _ (Ok None) _) as [[[i v]|]|e] eqn:Hfold;
    [|injection Hmin as <-; done|done].
  injection Hmin as <-. injection Hint as <-.
  apply idxmin_fold_in in Hfold as [?|Hin]; [done|].
  apply list_elem_of_fmap in Hin as (p & [= -> _] & Hp). by exists p.
Qed.

(** The row [identify_golden_record] names is a row of the group. *)
Lemma golden_label_in_group (cols : list string) (grp : SubFrame)
    (strategy : string) (z : Z) :
  grp ≠ [] →
  identify_golden_record cols grp strategy = Ok z →
  ∃ p, p ∈ grp ∧ z = Z.of_nat p.1.
Proof.
  intros Hne. unfold identify_golden_record.
  destruct grp as [|first grp']; [done|].
  set (grp := first :: grp').
  destruct (String.eqb strategy "Most Complete").
  { apply (label_of_arg_best _ (λ p, Some (_completeness (ann p.2)))). }
  destruct (String.eqb strategy "Most Recent").
  { apply (label_of_arg_best _ (λ p, _recency_rank (ann p.2))). }
  destruct (String.eqb strategy "Most Frequent").
  { apply (label_of_arg_best _
             (λ p, Some (notna_count (cells p.2) (non_internal cols)))). }
  destruct (String.eqb strategy "Source Priority").
  { destruct (src_cols cols) as [|col rest].
    - apply (label_of_arg_best _ (λ p, Some (_completeness (ann p.2)))).
    - destruct (idxmin_cells _) as [label|e] eqn:Hmin; [|done].
      intros Hint. by apply (label_of_idxmin_cells col grp label z). }
  intros [= <-]. exists first. split; [apply list_elem_of_here|done].
Qed.

(** *** Grouping *)

Lemma NoDup_labels_filter (P : nat * DupRow → Prop) `{∀ p, Decision (P p)}
    (s : SubFrame) :
  NoDup s.*1 → NoDup (filter P s).*1.
Proof.
  intros Hnd. eapply sublist_NoDup; [exact Hnd|].
  apply fmap_sublist, sublist_filter.
Qed.

Lemma filter_same_label (s : SubFrame) (p : nat * DupRow) :
  NoDup s.*1 → p ∈ s →
  filter (λ q : nat * DupRow, Z.of_nat q.1 = Z.of_nat p.1) s = [p].
Proof.
  induction s as [|q s IH]; intros Hnd Hp; [by apply elem_of_nil in Hp|].
  rewrite fmap_cons in Hnd. apply NoDup_cons in Hnd as [Hq Hnd].
  rewrite filter_cons. apply elem_of_cons in Hp as [->|Hp].
  - rewrite decide_True by done. f_equal. clear IH.
    induction s as [|r s IHs]; [done|].
    rewrite fmap_cons in Hq, Hnd.
    apply not_elem_of_cons in Hq as [Hqr Hq].
    apply NoDup_cons in Hnd as [_ Hnd].
    rewrite filter_cons, decide_False by lia. by apply IHs.
  - rewrite decide_False; [by apply IH|].
    intros Heq. apply Hq. apply list_elem_of_fmap. exists p.
    split; [lia|done].
Qed.

Lemma filter_disjoint_union {A} (P Q R : A → Prop)
    `{∀ x, Decision (P x)} `{∀ x, Decision (Q x)} `{∀ x, Decision (R x)}
    (l : list A) :
  (∀ x, P x → Q x → False) → (∀ x, R x ↔ P x ∨ Q x) →
  filter P l ++ filter Q l ≡ₚ filter R l.
Proof.
  intros Hdisj Hunion. induction l as [|x l IH]; [done|].
  rewrite !filter_cons.
  destruct (decide (P x)) as [HP|HP]; destruct (decide (Q x)) as [HQ|HQ].
  - by destruct (Hdisj x).
  - rewrite decide_True by (apply Hunion; by left). simpl. by rewrite IH.
  - rewrite decide_True by (apply Hunion; by right).
    rewrite <- Permutation_middle. by rewrite IH.
  - rewrite decide_False; [done|]. rewrite Hunion. tauto.
Qed.

Lemma filter_agree {A} (P Q : A → Prop)
    `{∀ x, Decision (P x)} `{∀ x, Decision (Q x)} (l : list A) :
  (∀ x, x ∈ l → P x ↔ Q x) → filter P l = filter Q l.
Proof.
  induction l as [|x l IH]; intros Hpq; [done|].
  rewrite !filter_cons.
  assert (P x ↔ Q x) as Hx by (apply Hpq, list_elem_of_here).
  rewrite IH by (intros y Hy; by apply Hpq, list_elem_of_further).
  destruct (decide (P x)), (decide (Q x)); tauto.
Qed.

Lemma filter_all {A} (P : A → Prop) `{∀ x, Decision (P x)} (l : list A) :
  (∀ x, x ∈ l → P x) → filter P l = l.
Proof.
  induction l as [|x l IH]; intros HP; [done|].
  rewrite filter_cons, decide_True by apply HP, list_elem_of_here.
  rewrite IH; [done|]. intros y Hy. by apply HP, list_elem_of_further.
Qed.

Lemma filter_none {A} (P : A → Prop) `{∀ x, Decision (P x)} (l : list A) :
  (∀ x, x ∈ l → ¬ P x) → filter P l = [].
Proof.
  induction l as [|x l IH]; intros HP; [done|].
  rewrite filter_cons, decide_False by apply HP, list_elem_of_here.
  apply IH. intros y Hy. by apply HP, list_elem_of_further.
Qed.

Lemma elem_of_group_keys (s : SubFrame) (gid : string) :
  gid ∈ group_keys s ↔ ∃ p, p ∈ s ∧ _dup_group_id (ann p.2) = Some gid.
Proof.
  unfold group_keys.
  rewrite merge_sort_Permutation, elem_of_remove_dups, list_elem_of_omap.
  done.
Qed.

Lemma NoDup_group_keys (s : SubFrame) : NoDup (group_keys s).
Proof.
  unfold group_keys. rewrite merge_sort_Permutation. apply NoDup_remove_dups.
Qed.

(** The groups of [groupby] are the rows that carry a group id, each row
    once. *)
Lemma groups_cover (s : SubFrame) (ks : list string) :
  NoDup ks →
  concat (group_of s <$> ks)
  ≡ₚ filter (λ p : nat * DupRow, in_groups ks p.2) s.
Proof.
  induction ks as [|k ks IH]; intros Hnd.
  - simpl. rewrite filter_none; [done|].
    intros p _ (gid & Hgid & _). by apply elem_of_nil in Hgid.
  - apply NoDup_cons in Hnd as [Hk Hnd]. rewrite fmap_cons. simpl.
    rewrite (IH Hnd). unfold group_of. apply filter_disjoint_union.
    + intros p Hp (gid & Hgid & Hp'). rewrite Hp in Hp'.
      injection Hp' as <-. done.
    + intros p. split.
      * intros (gid & [->|Hgid]%elem_of_cons & Hp); [by left|].
        right. by exists gid.
      * intros [Hp|(gid & Hgid & Hp)].
        -- exists k. split; [apply list_elem_of_here|done].
        -- exists gid. split; [by apply list_elem_of_further|done].
Qed.

(** *** The loop over the groups *)

(** One turn of the loop, when it returns: the named row of the group goes
    to the golden rows, the rest of the group to the discards. *)
Lemma survivorship_step_spec (cols : list string) (strategy : string)
    (dup_only : SubFrame) (golden_rows discard_rows : list SubFrame)
    (gid : string) acc :
  NoDup dup_only.*1 →
  gid ∈ group_keys dup_only →
  survivorship_step cols strategy dup_only (golden_rows, discard_rows) gid = Ok acc →
  ∃ p d,
    acc = (golden_rows ++ [[p]], discard_rows ++ [d])
    ∧ p ∈ group_of dup_only gid
    ∧ p :: d ≡ₚ group_of dup_only gid.
Proof.
  intros Hnd Hgid. unfold survivorship_step.
  set (grp := group_of dup_only gid).
  assert (grp ≠ []) as Hne.
  { apply elem_of_group_keys in Hgid as (p & Hp & Hg).
    intros Hnil. assert (p ∈ grp) as Hin
      by (by apply list_elem_of_filter).
    rewrite Hnil in Hin. by apply elem_of_nil in Hin. }
  destruct (identify_golden_record cols grp strategy) as [z|e] eqn:Hid; [|done].
  apply golden_label_in_group in Hid as (p & Hp & ->); [|done].
  change (Ok (Z.of_nat p.1) ≫= ?k) with (k (Z.of_nat p.1)). cbv beta.
  destruct (Z.eqb_spec (Z.of_nat p.1) (-1)) as [?|_]; [lia|].
  assert (NoDup grp.*1) as Hgnd by (by apply NoDup_labels_filter).
  unfold loc, drop_label. rewrite (filter_same_label grp p Hgnd Hp).
  intros [= <-]. exists p, (filter (λ q : nat * DupRow, Z.of_nat q.1 ≠ Z.of_nat p.1) grp).
  split; [done|]. split; [done|].
  rewrite <- (filter_app_complement
                (λ q : nat * DupRow, Z.of_nat q.1 = Z.of_nat p.1) grp) at 2.
  by rewrite (filter_same_label grp p Hgnd Hp).
Qed.

Lemma survivorship_fold_spec (cols : list string) (strategy : string)
    (dup_only : SubFrame) (ks : list string)
    (golden_rows discard_rows : list SubFrame) acc :
  NoDup dup_only.*1 →
  ks ⊆ group_keys dup_only →
  res_foldl (survivorship_step cols strategy dup_only)
            (golden_rows, discard_rows) ks = Ok acc →
  ∃ picks : list ((nat * DupRow) * SubFrame),
    acc = (golden_rows ++ ((λ x, [x.1]) <$> picks), discard_rows ++ picks.*2)
    ∧ Forall2 (λ gid x, x.1 ∈ group_of dup_only gid
                        ∧ x.1 :: x.2 ≡ₚ group_of dup_only gid) ks picks.
Proof.
  intros Hnd. revert golden_rows discard_rows.
  induction ks as [|k ks IH]; intros golden_rows discard_rows Hsub Hfold.
  - injection Hfold as <-. exists []. simpl. by rewrite !app_nil_r.
  - cbn [res_foldl] in Hfold.
    destruct (survivorship_step cols strategy dup_only
                (golden_rows, discard_rows) k) as [acc1|e] eqn:Hstep; [|done].
    apply survivorship_step_spec in Hstep as (p & d & -> & Hp & Hperm);
      [|done|apply Hsub, list_elem_of_here].
    change (Ok ?a ≫= ?f) with (f a) in Hfold. cbv beta in Hfold.
    apply IH in Hfold as (picks & -> & Hall).
    2: { intros x Hx. by apply Hsub, list_elem_of_further. }
    exists ((p, d) :: picks). split.
    + rewrite !fmap_cons. simpl. by rewrite <- !app_assoc.
    + by constructor.
Qed.

Lemma picks_cover (dup_only : SubFrame) (ks : list string)
    (picks : list ((nat * DupRow) * SubFrame)) :
  Forall2 (λ gid x, x.1 ∈ group_of dup_only gid
                    ∧ x.1 :: x.2 ≡ₚ group_of dup_only gid) ks picks →
  picks.*1 ++ concat picks.*2 ≡ₚ concat (group_of dup_only <$> ks).
Proof.
  induction 1 as [|k [p d] ks picks [_ Hperm] _ IH]; [done|].
  rewrite !fmap_cons. simpl in *. rewrite <- IH, <- Hperm. simpl.
  f_equiv. rewrite !app_assoc. f_equiv. apply Permutation_app_comm.
Qed.

Lemma one_pick_per_group (dup_only : SubFrame) (ks : list string)
    (picks : list ((nat * DupRow) * SubFrame)) (gid : string) :
  NoDup ks → gid ∈ ks →
  Forall2 (λ gid x, x.1 ∈ group_of dup_only gid
                    ∧ x.1 :: x.2 ≡ₚ group_of dup_only gid) ks picks →
  length (filter (λ p : nat * DupRow, _dup_group_id (ann p.2) = Some gid)
                 picks.*1) = 1%nat.
Proof.
  intros Hnd Hgid Hall. revert Hnd Hgid.
  induction Hall as [|k [p d] ks picks [Hp _] Htail IH]; intros Hnd Hgid;
    [by apply elem_of_nil in Hgid|].
  apply NoDup_cons in Hnd as [Hk Hnd].
  apply list_elem_of_filter in Hp as [Hp _]. simpl in Hp.
  rewrite fmap_cons, filter_cons. simpl.
  assert (∀ g, g ∉ ks →
            filter (λ q : nat * DupRow, _dup_group_id (ann q.2) = Some g) picks.*1
            = []) as Hnone.
  { clear -Htail. intros g Hg. apply filter_none. intros q Hq Hqg.
    apply list_elem_of_fmap in Hq as ([q' d'] & -> & Hin). simpl in *.
    apply list_elem_of_lookup_1 in Hin as [i Hi].
    destruct (Forall2_lookup_r _ _ _ _ _ Htail Hi) as (g' & Hg' & Hq' & _).
    apply list_elem_of_filter in Hq' as [Hq' _]. simpl in Hq'.
    rewrite Hqg in Hq'. injection Hq' as ->.
    apply Hg. by eapply list_elem_of_lookup_2. }
  apply elem_of_cons in Hgid as [->|Hgid].
  - rewrite decide_True by done. simpl. by rewrite Hnone.
  - rewrite decide_False; [by apply IH|].
    rewrite Hp. intros [= ->]. done.
Qed.

(** Whenever [build_golden_records_df] returns on a frame annotated the
    way [detect_duplicates] does it, the golden set and the discard set
    hold every row of the frame once between them, every row that is not a
    duplicate is golden, and every group has one golden row. *)
Lemma golden_discard_partition (dup_df : DupFrame) (strategy : string)
    (golden discards : SubFrame) :
  well_annotated dup_df →
  build_golden_records_df dup_df strategy = Ok (golden, discards) →
  golden ++ discards ≡ₚ imap pair (dup_rows dup_df)
  ∧ NoDup (golden ++ discards).*1
  ∧ (∀ p, p ∈ imap pair (dup_rows dup_df) →
       _is_duplicate (ann p.2) = false → p ∈ golden)
  ∧ (∀ gid p, p ∈ imap pair (dup_rows dup_df) →
       _dup_group_id (ann p.2) = Some gid →
       length (filter (λ q : nat * DupRow, _dup_group_id (ann q.2) = Some gid)
                      golden) = 1%nat).
Proof.
  intros Hwell. unfold build_golden_records_df.
  set (labelled := imap pair (dup_rows dup_df)).
  set (non_dup := filter (λ p : nat * DupRow, _is_duplicate (ann p.2) = false) labelled).
  set (dup_only := filter (λ p : nat * DupRow, _is_duplicate (ann p.2) = true) labelled).
  assert (NoDup labelled.*1) as Hlabels.
  { unfold labelled. apply NoDup_fmap_fst.
    - intros i a b Ha Hb.
      apply elem_of_lookup_imap in Ha as (k & a' & [= -> ->] & Hk).
      apply elem_of_lookup_imap in Hb as (k' & b' & [= -> ->] & Hk').
      congruence.
    - apply NoDup_alt. intros i j [k x] Hi Hj.
      apply list_lookup_imap_Some in Hi as (y & _ & [= -> _]).
      apply list_lookup_imap_Some in Hj as (z & _ & [= -> _]). done. }
  assert (∀ p, p ∈ labelled → p.2 ∈ dup_rows dup_df) as Hrows.
  { intros p (k & a & -> & Hk)%elem_of_lookup_imap.
    by eapply list_elem_of_lookup_2. }
  assert (NoDup dup_only.*1) as Hdup_labels by (by apply NoDup_labels_filter).
  unfold survivorship_loop.
  destruct (res_foldl _ _ (group_keys dup_only)) as [[golden_rows discard_rows]|e]
    eqn:Hloop; [|done].
  apply survivorship_fold_spec in Hloop as (picks & [= -> ->] & Hall);
    [|done|done].
  change (Ok ?a ≫= ?f) with (f a). cbv beta iota.
  intros [= Hgolden Hdiscards].
  assert (golden = non_dup ++ picks.*1) as ->.
  { rewrite <- Hgolden.
    assert (concat ((λ x : nat * DupRow * SubFrame, [x.1]) <$> picks) = picks.*1)
      as Hflat.
    { clear. induction picks as [|x picks IH]; [done|].
      rewrite !fmap_cons. simpl. by rewrite IH. }
    destruct picks as [|x picks]; [by rewrite fmap_nil, app_nil_r|].
    rewrite <- Hflat. reflexivity. }
  subst discards. clear Hgolden.
  assert (picks.*1 ++ concat picks.*2 ≡ₚ dup_only) as Hcover.
  { rewrite (picks_cover dup_only (group_keys dup_only) picks Hall).
    rewrite groups_cover by apply NoDup_group_keys.
    rewrite filter_all; [done|].
    intros p Hp. apply list_elem_of_filter in Hp as [Hd Hin].
    destruct (proj1 (Hwell p.2 (Hrows p Hin)) Hd) as [gid Hgid].
    exists gid. split; [|done]. apply elem_of_group_keys.
    exists p. split; [|done]. by apply list_elem_of_filter. }
  assert ((non_dup ++ picks.*1) ++ concat picks.*2 ≡ₚ labelled) as Hperm.
  { rewrite <- app_assoc, Hcover. unfold non_dup, dup_only.
    rewrite <- (filter_app_complement
                  (λ p : nat * DupRow, _is_duplicate (ann p.2) = false) labelled) at 3.
    f_equiv.
    rewrite (list_filter_iff (λ p : nat * DupRow, _is_duplicate (ann p.2) = true)
               (λ p : nat * DupRow, ¬ _is_duplicate (ann p.2) = false)); [done|].
    intros p. by destruct (_is_duplicate (ann p.2)). }
  split; [done|]. split; [by rewrite Hperm|]. split.
  - intros p Hp Hd. apply elem_of_app. left. by apply list_elem_of_filter.
  - intros gid p Hp Hgid. rewrite filter_app, length_app.
    rewrite (filter_none _ non_dup).
    2: { intros q [Hq Hin]%list_elem_of_filter Hqg.
         assert (_is_duplicate (ann q.2) = true) as Hqd.
         { apply Hwell; [by apply Hrows|]. by rewrite Hqg. }
         congruence. }
    simpl. apply (one_pick_per_group dup_only (group_keys dup_only)); [|
      |done].
    + apply NoDup_group_keys.
    + apply elem_of_group_keys. exists p. split; [|done].
      apply list_elem_of_filter. split; [|done].
      apply Hwell; [by apply Hrows|]. by rewrite Hgid.
Qed.

(** *** When the strategies return *)

Lemma arg_fold_some {V} (better : V → V → bool) (s : list (nat * option V))
    (best0 : option (nat * V)) :
  is_Some best0 ∨ (∃ e, e ∈ s ∧ is_Some e.2) →
  is_Some (foldl (λ (best : option (nat * V)) (e : nat * option V),
                    match e.2, best with
                    | None, _ => best
                    | Some v, None => Some (e.1, v)
                    | Some v, Some (j, w) =>
                        if better v w then Some (e.1, v) else best
                    end) best0 s).
Proof.
  revert best0. induction s as [|[i c] s IH]; intros best0 Hsome.
  - destruct Hsome as [?|(e & ?%elem_of_nil & _)]; done.
  - cbn [foldl fst snd]. apply IH.
    destruct Hsome as [[[j w] ->]|(e & [->|He]%elem_of_cons & Hv)].
    + left. destruct c as [v|]; [|done]. by destruct (better v w).
    + left. destruct Hv as [v Hv]. simpl in Hv. subst c.
      destruct best0 as [[j w]|]; [|done]. by destruct (better v w).
    + right. by exists e.
Qed.

Lemma arg_best_some {V} (better : V → V → bool) (s : list (nat * option V)) :
  (∃ e, e ∈ s ∧ is_Some e.2) → is_Some (arg_best better s).
Proof.
  intros Hsome. unfold arg_best.
  destruct (arg_fold_some better s None (or_intror Hsome)) as [best ->]. done.
Qed.

Lemma int_of_label_returns {V} (better : V → V → bool)
    (f : nat * DupRow → option V) (grp : SubFrame) :
  (∃ p, p ∈ grp ∧ is_Some (f p)) →
  ∃ z, int_of_label (arg_best better ((λ p : nat * DupRow, (p.1, f p)) <$> grp)) = Ok z.
Proof.
  intros (p & Hp & Hv).
  destruct (arg_best_some better ((λ p : nat * DupRow, (p.1, f p)) <$> grp))
    as [i ->]; [|by eexists].
  exists (p.1, f p). split; [|done]. apply list_elem_of_fmap. by exists p.
Qed.

(** Every strategy but Source Priority names a row of a group whose rows
    have a recency rank. *)
Lemma identify_golden_record_returns (cols : list string) (grp : SubFrame)
    (strategy : string) :
  grp ≠ [] →
  strategy ≠ "Source Priority" →
  Forall (λ p : nat * DupRow, is_Some (_recency_rank (ann p.2))) grp →
  ∃ z, identify_golden_record cols grp strategy = Ok z.
Proof.
  intros Hne Hstrategy Hranks. unfold identify_golden_record.
  destruct grp as [|first grp']; [done|].
  set (grp := first :: grp') in *.
  assert (first ∈ grp) as Hfirst by apply list_elem_of_here.
  destruct (String.eqb strategy "Most Complete").
  { apply (int_of_label_returns _ (λ p, Some (_completeness (ann p.2)))).
    by exists first. }
  destruct (String.eqb strategy "Most Recent").
  { apply (int_of_label_returns _ (λ p, _recency_rank (ann p.2))).
    exists first. split; [done|]. by apply (proj1 (Forall_forall _ _) Hranks). }
  destruct (String.eqb strategy "Most Frequent").
  { apply (int_of_label_returns _
             (λ p, Some (notna_count (cells p.2) (non_internal cols)))).
    by exists first. }
  destruct (String.eqb_spec strategy "Source Priority"); [done|].
  by eexists.
Qed.

Lemma survivorship_step_returns (cols : list string) (strategy : string)
    (dup_only : SubFrame) (st : list SubFrame * list SubFrame) (gid : string) :
  NoDup dup_only.*1 →
  gid ∈ group_keys dup_only →
  (∃ z, identify_golden_record cols (group_of dup_only gid) strategy = Ok z) →
  ∃ acc, survivorship_step cols strategy dup_only st gid = Ok acc.
Proof.
  intros Hnd Hgid [z Hid]. destruct st as [golden_rows discard_rows].
  unfold survivorship_step. set (grp := group_of dup_only gid) in *.
  assert (grp ≠ []) as Hne.
  { apply elem_of_group_keys in Hgid as (p & Hp & Hg).
    intros Hnil. assert (p ∈ grp) as Hin by (by apply list_elem_of_filter).
    rewrite Hnil in Hin. by apply elem_of_nil in Hin. }
  rewrite Hid.
  apply golden_label_in_group in Hid as (p & Hp & ->); [|done].
  change (Ok (Z.of_nat p.1) ≫= ?k) with (k (Z.of_nat p.1)). cbv beta.
  destruct (Z.eqb_spec (Z.of_nat p.1) (-1)) as [?|_]; [lia|].
  assert (NoDup grp.*1) as Hgnd by (by apply NoDup_labels_filter).
  unfold loc, drop_label. rewrite (filter_same_label grp p Hgnd Hp).
  by eexists.
Qed.

Lemma survivorship_loop_returns (cols : list string) (strategy : string)
    (dup_only : SubFrame) (ks : list string) (st : list SubFrame * list SubFrame) :
  NoDup dup_only.*1 →
  ks ⊆ group_keys dup_only →
  (∀ gid, gid ∈ ks →
     ∃ z, identify_golden_record cols (group_of dup_only gid) strategy = Ok z) →
  ∃ acc, res_foldl (survivorship_step cols strategy dup_only) st ks = Ok acc.
Proof.
  intros Hnd. revert st.
  induction ks as [|k ks IH]; intros st Hsub Hid; [by eexists|].
  cbn [res_foldl].
  destruct (survivorship_step_returns cols strategy dup_only st k Hnd)
    as [acc ->].
  - apply Hsub, list_elem_of_here.
  - apply Hid, list_elem_of_here.
  - change (Ok acc ≫= ?f) with (f acc). cbv beta. apply IH.
    + intros x Hx. by apply Hsub, list_elem_of_further.
    + intros gid Hgid. by apply Hid, list_elem_of_further.
Qed.

(** On the frame of a run, every strategy but Source Priority makes
    [build_golden_records_df] return, and what it returns splits the
    rows: every row is in one of the two sets and in one only, the rows
    outside the groups are golden, and every group has one golden row. *)
Lemma golden_records_of_a_run
    `{Externals} (df : DataFrame) (match_columns : list string) (fuzzy : bool)
    (threshold : Q) out stash (strategy : string) :
  detect_duplicates df match_columns fuzzy threshold = Ok (out, stash) →
  strategy ≠ "Source Priority" →
  ∃ golden discards,
    build_golden_records_df out strategy = Ok (golden, discards)
    ∧ golden ++ discards ≡ₚ imap pair (dup_rows out)
    ∧ NoDup (golden ++ discards).*1
    ∧ (∀ p, p ∈ imap pair (dup_rows out) →
         _is_duplicate (ann p.2) = false → p ∈ golden)
    ∧ (∀ gid p, p ∈ imap pair (dup_rows out) →
         _dup_group_id (ann p.2) = Some gid →
         length (filter (λ q : nat * DupRow, _dup_group_id (ann q.2) = Some gid)
                        golden) = 1%nat).
Proof.
  intros Hrun Hstrategy.
  apply detect_duplicates_well_annotated in Hrun as [Hwell Hranked].
  assert (∃ result, build_golden_records_df out strategy = Ok result)
    as [[golden discards] Hbuild].
  { unfold build_golden_records_df, survivorship_loop.
    set (labelled := imap pair (dup_rows out)).
    set (dup_only := filter (λ p : nat * DupRow, _is_duplicate (ann p.2) = true)
                            labelled).
    assert (NoDup dup_only.*1) as Hnd.
    { apply NoDup_labels_filter. unfold labelled. apply NoDup_fmap_fst.
      - intros i a b Ha Hb.
        apply elem_of_lookup_imap in Ha as (k & a' & [= -> ->] & Hk).
        apply elem_of_lookup_imap in Hb as (k' & b' & [= -> ->] & Hk').
        congruence.
      - apply NoDup_imap_pair. }
    destruct (survivorship_loop_returns (base_columns out).*1 strategy dup_only
                (group_keys dup_only) ([], []) Hnd) as [[gr dr] ->];
      [done| |by eexists].
    intros gid Hgid. apply identify_golden_record_returns; [|done|].
    - apply elem_of_group_keys in Hgid as (p & Hp & Hg).
      intros Hnil. assert (p ∈ group_of dup_only gid) as Hin
        by (by apply list_elem_of_filter).
      rewrite Hnil in Hin. by apply elem_of_nil in Hin.
    - apply Forall_forall. intros p [Hg Hp]%list_elem_of_filter.
      apply list_elem_of_filter in Hp as [_ Hp].
      apply elem_of_lookup_imap in Hp as (k & r & -> & Hk).
      apply (Forall_lookup_1 _ _ _ _ Hranked Hk). simpl in Hg. by rewrite Hg. }
  exists golden, discards. split; [done|].
  by apply (golden_discard_partition out strategy).
Qed.

(** C3, at the input where the code leaves the claim.  The frame
    [null_source] has one duplicate group and a column [source] without
    values; with the strategy Source Priority, [build_golden_records_df]
    raises on the annotated frame instead of returning the two sets. *)
Theorem golden_records_raise_on_null_source :
  (run ← @detect_duplicates demo_externals null_source ["k"] false (85 # 100);
   build_golden_records_df run.1 "Source Priority")
  = Raise (ValueError "cannot convert float NaN to integer").
Proof. vm_compute. reflexivity. Qed.

(** The other strategies return on the same frame. *)
Example golden_records_on_null_source :
  (λ strategy,
     (λ p : SubFrame * SubFrame, (p.1.*1, p.2.*1)) <$>
     (run ← @detect_duplicates demo_externals null_source ["k"] false (85 # 100);
      build_golden_records_df run.1 strategy))
    <$> ["Most Complete"; "Most Recent"; "Most Frequent"; "Manual Selection"]
  = [Ok ([0%nat], [1%nat]); Ok ([1%nat], [0%nat]);
     Ok ([0%nat], [1%nat]); Ok ([0%nat], [1%nat])].
Proof. vm_compute. reflexivity. Qed.

End StudioProps.

(** * Further properties of the code *)

(** ** Number formats *)

Module FormatProps.

Lemma concat_zeros (k : nat) (s : string) :
  String.concat "" (replicate k "0") +:+ s = Nat.iter k (String "0"%char) s.
Proof.
  induction k as [|k IH]; [done|].
  rewrite Nat.iter_succ, <- IH. by destruct k.
Qed.

(** Reading [f"{n:04d}"] as a decimal number gives [n] back. *)
Lemma fmt_04d_read (n : nat) :
  Nat.of_uint <$> NilEmpty.uint_of_string (PyStr.fmt_04d n) = Some n.
Proof.
  unfold PyStr.fmt_04d, PyStr.zfill, PyStr.of_nat.
  rewrite concat_zeros.
  assert (NilZero.string_of_uint (Nat.to_uint n)
          = NilEmpty.string_of_uint (Nat.to_uint n)) as ->.
  { destruct (Nat.to_uint n) eqn:Hn; try done.
    pose proof (Unsigned.of_to n) as Hof. rewrite Hn in Hof.
    cbn in Hof. subst n. discriminate Hn. }
  generalize (4 - String.length (NilEmpty.string_of_uint (Nat.to_uint n)))%nat.
  intros k. induction k as [|k IH].
  - change (Nat.iter 0 ?f ?x) with x.
    rewrite NilEmpty.usu. cbn. by rewrite Unsigned.of_to.
  - rewrite Nat.iter_succ. cbn [NilEmpty.uint_of_string].
    destruct (NilEmpty.uint_of_string
                (Nat.iter k (String "0"%char)
                   (NilEmpty.string_of_uint (Nat.to_uint n)))) as [d|]; [|done].
    cbn in IH |- *. done.
Qed.

Lemma fmt_04d_inj (n m : nat) : PyStr.fmt_04d n = PyStr.fmt_04d m → n = m.
Proof.
  intros Heq. pose proof (fmt_04d_read n) as Hn.
  rewrite Heq, fmt_04d_read in Hn. by injection Hn.
Qed.

Lemma read_with_suffix (s : string) :
  NilEmpty.uint_of_string (s +:+ "-F") = None.
Proof.
  induction s as [|c s IH]; [done|].
  change (NilEmpty.uint_of_string (String c s +:+ "-F"))
    with (uint_of_char c (NilEmpty.uint_of_string (s +:+ "-F"))).
  by rewrite IH.
Qed.

Lemma fmt_04d_not_suffixed (n m : nat) :
  PyStr.fmt_04d n ≠ PyStr.fmt_04d m +:+ "-F".
Proof.
  intros Heq. pose proof (fmt_04d_read n) as Hn.
  by rewrite Heq, read_with_suffix in Hn.
Qed.

Lemma length_append (s t : string) :
  String.length (s +:+ t) = (String.length s + String.length t)%nat.
Proof. induction s as [|c s IH]; [done|]. simpl. by rewrite IH. Qed.

Lemma append_inj_suffix (s t u : string) : s +:+ u = t +:+ u → s = t.
Proof.
  intros Heq.
  assert (String.length s = String.length t) as Hlen.
  { apply (f_equal String.length) in Heq.
    rewrite !length_append in Heq. lia. }
  revert t Heq Hlen. induction s as [|c s IH]; intros [|d t] Heq Hlen;
    try done.
  simpl in Heq, Hlen. injection Heq as -> Heq. f_equal. apply IH; [done|lia].
Qed.

End FormatProps.

(** ** The case list over a session *)

Module SessionProps.
Import Cases Session.

Lemma update_loop_lookup now cid new_status note who (cs : list Case) (i : nat) c' :
  update_loop now cid new_status note who cs !! i = Some c' →
  ∃ c, cs !! i = Some c
       ∧ (c' = c ∨ (case_id c = cid ∧ c' = apply_status now new_status note who c)).
Proof.
  revert i. induction cs as [|c0 cs IH]; intros i Hi; [done|].
  cbn [update_loop] in Hi.
  destruct (String.eqb (case_id c0) cid) eqn:Heq.
  - apply String.eqb_eq in Heq. destruct i as [|i]; simpl in Hi |- *.
    + injection Hi as <-. exists c0. split; [done|]. by right.
    + exists c'. split; [done|]. by left.
  - destruct i as [|i]; simpl in Hi |- *.
    + injection Hi as <-. exists c0. split; [done|]. by left.
    + by apply IH.
Qed.

Lemma length_update_loop now cid new_status note who (cs : list Case) :
  length (update_loop now cid new_status note who cs) = length cs.
Proof.
  induction cs as [|c0 cs IH]; [done|]. cbn [update_loop].
  destruct (String.eqb (case_id c0) cid); simpl; by rewrite ?IH.
Qed.

Lemma call_well_numbered (st : SessionState) (c : Call) :
  well_numbered st → well_numbered (call st c).
Proof.
  intros [Hn Hid]. destruct c as [now title ct prio descr n cols src ex
                                  |now cid new_status note who].
  - split; simpl.
    + rewrite length_app. simpl. lia.
    + intros i c Hi. apply lookup_app_Some in Hi as [Hi|[Hge Hi]].
      * by apply Hid.
      * apply list_lookup_singleton_Some in Hi as [Hi <-]. simpl.
        rewrite Hn. do 3 f_equal. lia.
  - split; simpl.
    + by rewrite length_update_loop.
    + intros i c' Hi.
      apply update_loop_lookup in Hi as (c & Hc & [->|[_ ->]]).
      * by apply Hid.
      * simpl. by apply Hid.
Qed.

Lemma calls_well_numbered (cs : list Call) (st : SessionState) :
  well_numbered st → well_numbered (calls cs st).
Proof.
  revert st. induction cs as [|c cs IH]; intros st Hst; [done|].
  apply IH. by apply call_well_numbered.
Qed.

(** Case ids.  Whatever cases are created and whatever status updates
    are made on a session that started without cases, the case at the
    position [i] of the list has the id CASE-NNNN with the number
    [i + 1], the counter is the number of cases, and no two cases share
    an id. *)
Theorem case_ids_never_repeat (cs : list Call) :
  let st := calls cs init_case_management_state in
  case_counter st = length (cases st)
  ∧ (∀ i c, cases st !! i = Some c →
       case_id c = "CASE-" +:+ PyStr.fmt_04d (S i))
  ∧ NoDup (case_id <$> cases st).
Proof.
  intros st.
  assert (well_numbered st) as [Hn Hid].
  { apply calls_well_numbered. split; [done|]. intros i c Hi. done. }
  split; [done|]. split; [done|].
  apply NoDup_alt. intros i j x Hi Hj.
  apply list_lookup_fmap_Some in Hi as (ci & -> & Hci).
  apply list_lookup_fmap_Some in Hj as (cj & Heq & Hcj).
  rewrite (Hid _ _ Hci), (Hid _ _ Hcj) in Heq.
  apply (inj (String.append "CASE-")) in Heq.
  apply FormatProps.fmt_04d_inj in Heq. lia.
Qed.

(** What a status update leaves alone.  [update_case_status] keeps the
    counter, the number of cases and their order; of every case it keeps
    the id, the title, the type, the priority, the description, the
    affected records and columns, the source, the creation time, the
    assignee and the extra data; it only ever adds to a history; and it
    writes [resolved_at] only for the statuses Resolved and Closed, so a
    case that is reopened keeps the time of its last resolution. *)
Theorem status_update_frame now cid new_status note who (st : SessionState) :
  let st' := update_case_status now cid new_status note who st in
  case_counter st' = case_counter st
  ∧ length (cases st') = length (cases st)
  ∧ ∀ i c', cases st' !! i = Some c' →
      ∃ c, cases st !! i = Some c
           ∧ case_id c' = case_id c ∧ title c' = title c
           ∧ type_ c' = type_ c ∧ priority c' = priority c
           ∧ description c' = description c
           ∧ affected_records c' = affected_records c
           ∧ affected_columns c' = affected_columns c
           ∧ source c' = source c ∧ created_at c' = created_at c
           ∧ assigned_to c' = assigned_to c ∧ extra c' = extra c
           ∧ history c `prefix_of` history c'
           ∧ (resolved_at c' = resolved_at c
              ∨ (is_terminal new_status = true ∧ case_id c = cid
                 ∧ resolved_at c' = now)).
Proof.
  intros st'. split; [done|]. split; [apply length_update_loop|].
  intros i c' Hi. apply update_loop_lookup in Hi as (c & Hc & [->|[Hid ->]]).
  - exists c. repeat split; try done. by left.
  - exists c. repeat split; try done.
    + simpl. by apply prefix_app_r.
    + simpl. destruct (is_terminal new_status); [by right|by left].
Qed.

End SessionProps.

(** ** The duplicate studio: what a run looks like *)

Module RunProps.
Import Pandas Studio Demo StudioProps.

Local Open Scope Q_scope.

Lemma exact_gid_inj (a b : nat) : exact_gid a = exact_gid b → a = b.
Proof.
  unfold exact_gid. intros Heq%(inj (String.append "DG-")).
  by apply FormatProps.fmt_04d_inj.
Qed.

Lemma fuzzy_gid_inj (a b : nat) : fuzzy_gid a = fuzzy_gid b → a = b.
Proof.
  unfold fuzzy_gid. intros Heq%(inj (String.append "DG-")).
  apply FormatProps.append_inj_suffix in Heq.
  by apply FormatProps.fmt_04d_inj.
Qed.

Lemma exact_gid_not_fuzzy (a b : nat) : exact_gid a ≠ fuzzy_gid b.
Proof.
  unfold exact_gid, fuzzy_gid. intros Heq%(inj (String.append "DG-")).
  by apply FormatProps.fmt_04d_not_suffixed in Heq.
Qed.

Lemma length_filter_pointwise {A B} (P : A → Prop) (Q : B → Prop)
    `{∀ x, Decision (P x)} `{∀ y, Decision (Q y)} (l1 : list A) (l2 : list B) :
  length l1 = length l2 →
  (∀ i x y, l1 !! i = Some x → l2 !! i = Some y → P x ↔ Q y) →
  length (filter P l1) = length (filter Q l2).
Proof.
  revert l2. induction l1 as [|x l1 IH]; intros [|y l2] Hlen Hpq; try done.
  rewrite !filter_cons.
  pose proof (Hpq 0%nat x y eq_refl eq_refl) as Hhead.
  assert (length (filter P l1) = length (filter Q l2)) as IH'.
  { apply IH; [simpl in Hlen; lia|].
    intros i x' y' Hx Hy. by apply (Hpq (S i)). }
  destruct (decide (P x)) as [Hp|Hp], (decide (Q y)) as [Hq|Hq];
    simpl; rewrite ?IH'; tauto.
Qed.

Lemma length_filter_members (grp : list nat) (n : nat) :
  NoDup grp → (∀ i, i ∈ grp → (i < n)%nat) →
  length (filter (λ i, i ∈ grp) (seq 0 n)) = length grp.
Proof.
  intros Hnd Hlt. apply Permutation_length, NoDup_Permutation; [|done|].
  - apply NoDup_filter, NoDup_seq.
  - intros i. rewrite list_elem_of_filter, elem_of_seq.
    split; [by intros []|]. intros Hi. split; [done|].
    specialize (Hlt i Hi). lia.
Qed.

Lemma NoDup_concat_lookup {A} (groups : list (list A)) (k : nat) (grp : list A) :
  NoDup (concat groups) → groups !! k = Some grp → NoDup grp.
Proof.
  revert k. induction groups as [|g groups IH]; intros k Hnd Hk;
    [by rewrite lookup_nil in Hk|].
  simpl in Hnd. apply NoDup_app in Hnd as (Hg & _ & Hnd).
  destruct k as [|k]; simpl in Hk; [by injection Hk as ->|].
  by apply (IH k).
Qed.

Lemma NoDup_concat_unique {A} (groups : list (list A)) (k k' : nat)
    (grp grp' : list A) (x : A) :
  NoDup (concat groups) →
  groups !! k = Some grp → groups !! k' = Some grp' →
  x ∈ grp → x ∈ grp' → k = k'.
Proof.
  revert k k'. induction groups as [|g groups IH]; intros k k' Hnd Hk Hk' Hx Hx';
    [by rewrite lookup_nil in Hk|].
  simpl in Hnd. apply NoDup_app in Hnd as (Hg & Hdisj & Hnd).
  destruct k as [|k], k' as [|k']; simpl in Hk, Hk'; try done.
  - injection Hk as ->. exfalso. apply (Hdisj x Hx).
    apply elem_of_concat. exists grp'. split; [|done].
    by eapply list_elem_of_lookup_2.
  - injection Hk' as ->. exfalso. apply (Hdisj x Hx').
    apply elem_of_concat. exists grp. split; [|done].
    by eapply list_elem_of_lookup_2.
  - f_equal. by apply (IH k k').
Qed.

Section WithExternals.
Context `{Externals}.

(** The fuzzy groups of a run, for any setting of the flag: without the
    fuzzy phase there are none. *)
Lemma phases_groups (keys : list string) (df : DataFrame)
    (match_columns : list string) (fuzzy : bool) (threshold : Q) :
  length keys = length (rows df) →
  let run := phases keys df match_columns fuzzy threshold in
  let groups := default [] run.2 in
  NoDup (concat groups)
  ∧ (∀ k grp i, groups !! k = Some grp → i ∈ grp →
       (2 ≤ length grp)%nat ∧ NoDup grp
       ∧ ∃ key a0 s,
           keys !! i = Some key ∧ (occurrences key keys < 2)%nat
           ∧ initial_annotations df !! i = Some a0
           ∧ run.1.2 !! i
             = Some (mark_fuzzy (fuzzy_gid (length (dup_keys keys) + S k))
                       (length grp) (set_similarity s a0)))
  ∧ (∀ i key, keys !! i = Some key → (occurrences key keys < 2)%nat →
       i ∉ concat groups → run.1.2 !! i = initial_annotations df !! i).
Proof.
  intros Hlen run groups. subst run groups. unfold phases.
  pose proof (exact_phase_spec keys (initial_annotations df))
    as (Hn & Hlen_e & Hex & Hsingle).
  pose proof (unassigned_rows_initial keys df) as Hun.
  destruct (fuzzy && bool_decide (length match_columns = 1%nat)).
  2:{ cbn [fst snd default]. split; [constructor|]. split.
      - intros k grp i Hk. by rewrite lookup_nil in Hk.
      - intros i key Hkey Hocc _. by apply (Hsingle i key). }
  destruct (exact_phase keys (initial_annotations df)) as [n result_e].
  cbn [fst snd] in *.
  destruct (fuzzy_phase_spec keys threshold n result_e)
    as (_ & Hlen_f & Hnd & Hgroups & Hmarks & Hrest).
  destruct (fuzzy_phase keys threshold (n, result_e)) as [[n' result_f] groups].
  cbn [fst snd default] in *.
  split; [done|]. split.
  - intros k grp i Hk Hi.
    destruct (Hgroups grp) as (seed & members & -> & Hne & Hseed & Hms);
      [by eapply list_elem_of_lookup_2|].
    split; [destruct members; [done|simpl; lia]|].
    split; [by eapply NoDup_concat_lookup|].
    assert (NoDup (seed :: members)) as Hg by (by eapply NoDup_concat_lookup).
    assert (seed ∉ members) as Hfresh by (by apply NoDup_cons_1_1).
    destruct (Hmarks k seed members Hk) as [Hmark_seed Hmark_mem].
    assert (i ∈ unassigned_of result_e) as Hiun.
    { apply elem_of_cons in Hi as [->|Hi]; [done|]. by apply Hms. }
    destruct (Hun i Hlen Hiun) as [Hinit [a0 Ha0]].
    assert (i < length keys)%nat as Hik.
    { apply lookup_lt_Some in Ha0.
      rewrite length_initial_annotations in Ha0. lia. }
    destruct (lookup_lt_is_Some_2 keys i Hik) as [key Hkey].
    assert (occurrences key keys < 2)%nat as Hocc.
    { destruct (decide (2 ≤ occurrences key keys)%nat) as [Hdup|]; [|lia].
      apply elem_of_dup_keys, list_elem_of_lookup_1 in Hdup as [k' Hk'].
      apply elem_of_unassigned_of in Hiun as (a & Ha & Hd).
      rewrite (Hex k' key i Hk' Hkey), Ha0 in Ha. injection Ha as <-. done. }
    exists key, a0.
    apply elem_of_cons in Hi as [->|Hi].
    + exists (_similarity_score a0). split; [done|]. split; [done|].
      split; [done|]. rewrite Hmark_seed, Hinit, Ha0, Hn. simpl.
      by destruct a0.
    + eexists. split; [done|]. split; [done|]. split; [done|].
      rewrite (Hmark_mem i Hi), Hinit, Ha0, Hn. reflexivity.
  - intros i key Hkey Hocc Hout. rewrite (Hrest i Hout).
    by apply (Hsingle i key).
Qed.

Lemma phases_groups_nonempty (keys : list string) (df : DataFrame)
    (match_columns : list string) (fuzzy : bool) (threshold : Q) :
  ∀ grp, grp ∈ default [] (phases keys df match_columns fuzzy threshold).2 →
         grp ≠ [].
Proof.
  unfold phases.
  destruct (fuzzy && bool_decide (length match_columns = 1%nat)).
  2:{ intros grp Hgrp. by apply elem_of_nil in Hgrp. }
  destruct (exact_phase keys (initial_annotations df)) as [n result_e].
  destruct (fuzzy_phase_spec keys threshold n result_e)
    as (_ & _ & _ & Hgroups & _).
  destruct (fuzzy_phase keys threshold (n, result_e)) as [[n' result_f] groups].
  cbn [fst snd default] in *.
  intros grp Hgrp. by destruct (Hgroups grp Hgrp) as (seed & members & -> & _).
Qed.

(** Every row of a run is of one of three kinds: a row of an exact
    group, a row of a fuzzy group, or a row on its own. *)
Lemma run_classify (df : DataFrame) (match_columns : list string) (fuzzy : bool)
    (threshold : Q) out stash (keys : list string) (i : nat) (r : DupRow) :
  detect_duplicates df match_columns fuzzy threshold = Ok (out, stash) →
  match_keys df match_columns = Ok keys →
  dup_rows out !! i = Some r →
  ∃ key row,
    keys !! i = Some key ∧ rows df !! i = Some row ∧ cells r = row
    ∧ _completeness (ann r) = completeness_of row (non_internal (column_names df))
    ∧ ((∃ k, dup_keys keys !! k = Some key
             ∧ _dup_group_id (ann r) = Some (exact_gid (S k))
             ∧ _is_duplicate (ann r) = true
             ∧ _dup_count (ann r) = occurrences key keys
             ∧ _match_type (ann r) = "Exact"
             ∧ _similarity_score (ann r) = 1)
       ∨ ((occurrences key keys < 2)%nat
          ∧ ∃ k grp, default [] stash !! k = Some grp ∧ i ∈ grp
              ∧ _dup_group_id (ann r)
                = Some (fuzzy_gid (length (dup_keys keys) + S k))
              ∧ _is_duplicate (ann r) = true
              ∧ _dup_count (ann r) = length grp
              ∧ _match_type (ann r) = "Fuzzy")
       ∨ ((occurrences key keys < 2)%nat
          ∧ (i ∉ concat (default [] stash))
          ∧ _dup_group_id (ann r) = None
          ∧ _is_duplicate (ann r) = false
          ∧ _dup_count (ann r) = 0%nat
          ∧ _match_type (ann r) = ""
          ∧ _similarity_score (ann r) = 0)).
Proof.
  intros Hrun Hkeys Hr.
  apply detect_duplicates_inv in Hrun as (keys' & Hkeys' & -> & ->).
  rewrite Hkeys in Hkeys'. injection Hkeys' as <-.
  pose proof (length_match_keys _ _ _ Hkeys) as Hlen.
  simpl in Hr. apply lookup_zip_with_Some in Hr as (row & a & -> & Hrow & Ha).
  rewrite recency_lookup in Ha.
  destruct (phases_groups keys df match_columns fuzzy threshold Hlen)
    as (Hnd & Hfuzzy & Hrest).
  assert (i < length keys)%nat as Hik.
  { apply lookup_lt_Some in Hrow. lia. }
  destruct (lookup_lt_is_Some_2 keys i Hik) as [key Hkey].
  assert (initial_annotations df !! i
          = Some {| _dup_group_id := None; _is_duplicate := false;
                    _dup_count := 0; _match_type := "";
                    _similarity_score := 0;
                    _completeness :=
                      completeness_of row (non_internal (column_names df));
                    _recency_rank := None |}) as Ha0.
  { unfold initial_annotations. by rewrite list_lookup_fmap, Hrow. }
  exists key, row. split; [done|]. split; [done|]. split; [done|].
  destruct (decide (2 ≤ occurrences key keys)%nat) as [Hdup|Hone].
  { apply elem_of_dup_keys, list_elem_of_lookup_1 in Hdup as [k Hk].
    rewrite (exact_rows_survive _ _ _ _ _ k key i Hk Hkey), Ha0 in Ha.
    injection Ha as <-. split; [done|]. left. exists k. by repeat split. }
  destruct (decide (i ∈ concat (default []
              (phases keys df match_columns fuzzy threshold).2))) as [Hin|Hout].
  - apply elem_of_concat in Hin as (grp & Hgrp & Hi).
    apply list_elem_of_lookup_1 in Hgrp as [k Hk].
    destruct (Hfuzzy k grp i Hk Hi)
      as (_ & _ & key' & a0 & sim & Hkey' & _ & Ha0' & Hmark).
    rewrite Ha0 in Ha0'. injection Ha0' as <-.
    rewrite Hmark in Ha. injection Ha as <-. split; [done|].
    right. left. split; [lia|]. exists k, grp. by repeat split.
  - rewrite (Hrest i key Hkey) in Ha by (done || lia).
    rewrite Ha0 in Ha. injection Ha as <-. split; [done|].
    right. right. split; [lia|]. by repeat split.
Qed.

Lemma length_phases (keys : list string) (df : DataFrame)
    (match_columns : list string) (fuzzy : bool) (threshold : Q) :
  length (phases keys df match_columns fuzzy threshold).1.2 = length (rows df).
Proof.
  unfold phases.
  pose proof (exact_phase_spec keys (initial_annotations df))
    as (_ & Hlen_e & _).
  rewrite length_initial_annotations in Hlen_e.
  destruct (fuzzy && bool_decide (length match_columns = 1%nat)); [|done].
  destruct (exact_phase keys (initial_annotations df)) as [n result_e].
  destruct (fuzzy_phase_spec keys threshold n result_e) as (_ & Hlen_f & _).
  destruct (fuzzy_phase keys threshold (n, result_e)) as [[n' result_f] groups].
  cbn [fst snd] in *. lia.
Qed.

Lemma round_half_even_between (x : Q) (a b : Z) :
  inject_Z a <= x → x <= inject_Z b →
  (a ≤ PyNum.round_half_even x ≤ b)%Z.
Proof.
  intros Ha Hb. unfold PyNum.round_half_even.
  pose proof (Qfloor_le x) as Hfl. pose proof (Qlt_floor x) as Hfu.
  assert (a ≤ Qfloor x)%Z as Haf.
  { rewrite <- (Qfloor_Z a). by apply Qfloor_resp_le. }
  assert (Qfloor x ≤ b)%Z as Hfb.
  { rewrite <- (Qfloor_Z b). by apply Qfloor_resp_le. }
  assert (inject_Z (Qfloor x) < x → (Qfloor x + 1 ≤ b)%Z) as Hup.
  { intros Hlt. assert (inject_Z (Qfloor x) < inject_Z b) as Hlt' by lra.
    rewrite <- Zlt_Qlt in Hlt'. lia. }
  destruct (Qcompare (x - inject_Z (Qfloor x)) (1 # 2)) eqn:Hc.
  - apply Qeq_alt in Hc. destruct (Z.even (Qfloor x)); [lia|].
    split; [lia|]. apply Hup. lra.
  - lia.
  - apply Qgt_alt in Hc. split; [lia|]. apply Hup. lra.
Qed.

Lemma round_between (x : Q) (a b : Z) :
  inject_Z a <= x → x <= inject_Z b →
  inject_Z a <= PyNum.round x 2 ∧ PyNum.round x 2 <= inject_Z b.
Proof.
  intros Ha Hb. unfold PyNum.round.
  change (inject_Z (PyNum.pow10 2)) with 100.
  destruct (round_half_even_between (x * 100) (a * 100) (b * 100)) as [Hl Hu].
  { rewrite inject_Z_mult. change (inject_Z 100) with 100. lra. }
  { rewrite inject_Z_mult. change (inject_Z 100) with 100. lra. }
  rewrite Zle_Qle, inject_Z_mult in Hl, Hu.
  change (inject_Z 100) with 100 in Hl, Hu.
  set (z := inject_Z (PyNum.round_half_even (x * 100))) in *. clearbody z.
  split.
  - apply Qle_shift_div_l; lra.
  - apply Qle_shift_div_r; lra.
Qed.

Lemma notna_count_le (r : Row) (cols : list string) :
  (notna_count r cols ≤ length cols)%nat.
Proof. unfold notna_count. apply length_filter. Qed.

(** Completeness.  The completeness of a row of a run lies between 0
    and 100; it is 100 when the frame has a column whose name does not
    start with an underscore and the row has a value in every such
    column, and 0 when it has a value in none of them. *)
Theorem completeness_in_range
    (df : DataFrame) (match_columns : list string) (fuzzy : bool)
    (threshold : Q) out stash (i : nat) (r : DupRow) :
  detect_duplicates df match_columns fuzzy threshold = Ok (out, stash) →
  dup_rows out !! i = Some r →
  let cols := non_internal (column_names df) in
  (0 <= _completeness (ann r) ∧ _completeness (ann r) <= 100)
  ∧ (cols ≠ [] → (∀ c, c ∈ cols → is_Some (cells r !! c)) →
       _completeness (ann r) == 100)
  ∧ ((∀ c, c ∈ cols → cells r !! c = None) → _completeness (ann r) == 0).
Proof.
  intros Hrun Hr cols.
  destruct (detect_duplicates_inv _ _ _ _ _ _ Hrun) as (keys & Hkeys & _).
  destruct (run_classify _ _ _ _ _ _ _ _ _ Hrun Hkeys Hr)
    as (key & row & _ & _ & <- & -> & _).
  fold cols. unfold completeness_of.
  pose proof (notna_count_le (cells r) cols) as Hle.
  set (n := notna_count (cells r) cols) in *.
  set (m := Nat.max (length cols) 1).
  assert (0 < inject_Z (Z.of_nat m)) as Hm.
  { change 0 with (inject_Z 0). rewrite <- Zlt_Qlt. lia. }
  assert (0 <= inject_Z (Z.of_nat n)) as Hn0.
  { change 0 with (inject_Z 0). rewrite <- Zle_Qle. lia. }
  assert (inject_Z (Z.of_nat n) <= inject_Z (Z.of_nat m)) as Hnm.
  { rewrite <- Zle_Qle. lia. }
  split; [|split].
  - destruct (round_between
                (inject_Z (Z.of_nat n) / inject_Z (Z.of_nat m) * 100) 0 100)
      as [Hl Hu].
    + change (inject_Z 0) with 0. apply Qmult_le_0_compat; [|lra].
      apply Qle_shift_div_l; lra.
    + change (inject_Z 100) with 100.
      assert (inject_Z (Z.of_nat n) / inject_Z (Z.of_nat m) <= 1); [|lra].
      apply Qle_shift_div_r; lra.
    + exact (conj Hl Hu).
  - intros Hne Hall.
    assert (n = length cols) as Hfull.
    { subst n. unfold notna_count. by rewrite filter_all. }
    assert (m = length cols) as Hmax.
    { subst m. destruct cols; [done|]. simpl. lia. }
    assert (inject_Z (Z.of_nat n) / inject_Z (Z.of_nat m) == 1) as Hone.
    { rewrite Hfull, Hmax. rewrite Hmax in Hm. field. lra. }
    set (q := inject_Z (Z.of_nat n) / inject_Z (Z.of_nat m)) in *.
    clearbody q.
    destruct (round_between (q * 100) 100 100) as [Hl Hu].
    + change (inject_Z 100) with 100. lra.
    + change (inject_Z 100) with 100. lra.
    + change (inject_Z 100) with 100 in Hl, Hu. lra.
  - intros Hnone.
    assert (n = 0%nat) as Hzero.
    { subst n. unfold notna_count. rewrite filter_none; [done|].
      intros c Hc [v Hv]. by rewrite (Hnone c Hc) in Hv. }
    assert (inject_Z (Z.of_nat n) / inject_Z (Z.of_nat m) == 0) as Hnull.
    { rewrite Hzero. change (inject_Z (Z.of_nat 0)) with 0. unfold Qdiv. lra. }
    set (q := inject_Z (Z.of_nat n) / inject_Z (Z.of_nat m)) in *.
    clearbody q.
    destruct (round_between (q * 100) 0 0) as [Hl Hu].
    + change (inject_Z 0) with 0. lra.
    + change (inject_Z 0) with 0. lra.
    + change (inject_Z 0) with 0 in Hl, Hu. lra.
Qed.

(** The cells of the result are the cells of the frame. *)
Lemma run_cells (df : DataFrame) (match_columns : list string) (fuzzy : bool)
    (threshold : Q) out stash :
  detect_duplicates df match_columns fuzzy threshold = Ok (out, stash) →
  cells <$> dup_rows out = rows df.
Proof.
  intros Hrun.
  apply detect_duplicates_inv in Hrun as (keys & Hkeys & _ & ->). simpl.
  apply list_eq. intros i. rewrite list_lookup_fmap, lookup_zip_with.
  destruct (rows df !! i) as [row|] eqn:Hrow; [|done]. simpl.
  assert (is_Some (recency df (phases keys df match_columns fuzzy threshold).1.2
                   !! i)) as [a ->]; [|done].
  apply lookup_lt_is_Some_2. rewrite length_recency, length_phases.
  by apply lookup_lt_Some in Hrow.
Qed.

(** What [match_keys] does with the list of match columns. *)
Lemma match_keys_cases (df : DataFrame) (match_columns : list string) :
  match match_keys df match_columns with
  | Ok keys => match_columns ⊆ column_names df ∧ NoDup match_columns
  | Raise e =>
      (∃ c, e = KeyError c ∧ c ∈ match_columns ∧ c ∉ column_names df)
      ∨ (match_columns ⊆ column_names df ∧ ¬ NoDup match_columns
         ∧ ∃ msg, e = AttributeError msg)
  end.
Proof.
  unfold match_keys.
  destruct (filter (λ c, c ∉ column_names df) match_columns)
    as [|missing rest] eqn:Hmiss.
  - assert (match_columns ⊆ column_names df) as Hsub.
    { intros c Hc. destruct (decide (c ∈ column_names df)) as [|Hout]; [done|].
      assert (c ∈ filter (λ c, c ∉ column_names df) match_columns) as Hin
        by (by apply list_elem_of_filter).
      rewrite Hmiss in Hin. by apply elem_of_nil in Hin. }
    destruct (bool_decide_reflect (NoDup match_columns)) as [Hnd|Hnd]; [done|].
    right. split; [done|]. split; [done|]. by eexists.
  - assert (missing ∈ filter (λ c, c ∉ column_names df) match_columns) as Hin
      by (rewrite Hmiss; apply list_elem_of_here).
    apply list_elem_of_filter in Hin as [Hnot Hin].
    left. by exists missing.
Qed.

Lemma run_returns_with_keys (df : DataFrame) (match_columns : list string)
    (fuzzy : bool) (threshold : Q) (keys : list string) :
  match_keys df match_columns = Ok keys →
  ∃ out stash, detect_duplicates df match_columns fuzzy threshold = Ok (out, stash).
Proof.
  intros Hkeys. unfold detect_duplicates. rewrite Hkeys.
  change (Ok ?x ≫= ?f) with (f x). cbv beta.
  destruct (phases keys df match_columns fuzzy threshold) as [st stash].
  by eexists _, _.
Qed.

Lemma run_raises_with_keys (df : DataFrame) (match_columns : list string)
    (fuzzy : bool) (threshold : Q) (e : exn) :
  detect_duplicates df match_columns fuzzy threshold = Raise e →
  match_keys df match_columns = Raise e.
Proof.
  unfold detect_duplicates.
  destruct (match_keys df match_columns) as [keys|e']; [|by intros [= ->]].
  change (Ok ?x ≫= ?f) with (f x). cbv beta.
  by destruct (phases keys df match_columns fuzzy threshold).
Qed.

(** The match columns.  [detect_duplicates] returns exactly when every
    match column is a column of the frame and no match column is named
    twice, and then the result has the columns and the rows of the
    frame, in their order, with the cells as they were.  It raises the
    [KeyError] for a match column that the frame does not have, and
    otherwise the [AttributeError] of a list that names a column twice;
    it raises nothing else. *)
Theorem detect_duplicates_needs_match_columns
    (df : DataFrame) (match_columns : list string) (fuzzy : bool) (threshold : Q) :
  ((∃ out stash,
      detect_duplicates df match_columns fuzzy threshold = Ok (out, stash))
   ↔ match_columns ⊆ column_names df ∧ NoDup match_columns)
  ∧ (∀ out stash,
       detect_duplicates df match_columns fuzzy threshold = Ok (out, stash) →
       base_columns out = columns df ∧ cells <$> dup_rows out = rows df)
  ∧ (∀ e, detect_duplicates df match_columns fuzzy threshold = Raise e →
       (∃ c, e = KeyError c ∧ c ∈ match_columns ∧ c ∉ column_names df)
       ∨ (match_columns ⊆ column_names df ∧ ¬ NoDup match_columns
          ∧ ∃ msg, e = AttributeError msg)).
Proof.
  pose proof (match_keys_cases df match_columns) as Hcases.
  split; [|split].
  - split.
    + intros (out & stash & Hrun).
      apply detect_duplicates_inv in Hrun as (keys & Hkeys & _).
      by rewrite Hkeys in Hcases.
    + intros [Hsub Hnd].
      destruct (match_keys df match_columns) as [keys|e] eqn:Hkeys.
      * by apply (run_returns_with_keys df match_columns fuzzy threshold keys).
      * destruct Hcases as [(c & _ & Hin & Hout)|(_ & Hdup & _)]; [|done].
        by apply Hsub in Hin.
  - intros out stash Hrun. split; [|by eapply run_cells].
    by apply detect_duplicates_inv in Hrun as (keys & _ & _ & ->).
  - intros e Hrun. apply run_raises_with_keys in Hrun.
    by rewrite Hrun in Hcases.
Qed.

(** A run without the fuzzy phase ([fuzzy=False], or more than one match
    column).  The list of fuzzy groups of the session is not written; a
    row is flagged as a duplicate exactly when its match key occurs in
    at least two rows, and then it is marked Exact, with the similarity
    1 and the number of rows that have the key; every other row keeps
    the initial values. *)
Theorem exact_run_flags_repeated_keys
    (df : DataFrame) (match_columns : list string) (fuzzy : bool)
    (threshold : Q) out stash (keys : list string) :
  detect_duplicates df match_columns fuzzy threshold = Ok (out, stash) →
  match_keys df match_columns = Ok keys →
  fuzzy && bool_decide (length match_columns = 1%nat) = false →
  stash = None
  ∧ length (dup_rows out) = length keys
  ∧ ∀ i r key,
      dup_rows out !! i = Some r → keys !! i = Some key →
      (_is_duplicate (ann r) = true ↔ (2 ≤ occurrences key keys)%nat)
      ∧ (_is_duplicate (ann r) = true →
           _match_type (ann r) = "Exact"
           ∧ _similarity_score (ann r) = 1
           ∧ _dup_count (ann r) = occurrences key keys
           ∧ is_Some (_dup_group_id (ann r)))
      ∧ (_is_duplicate (ann r) = false →
           _match_type (ann r) = ""
           ∧ _similarity_score (ann r) = 0
           ∧ _dup_count (ann r) = 0%nat
           ∧ _dup_group_id (ann r) = None).
Proof.
  intros Hrun Hkeys Hflag.
  assert (stash = None) as Hstash.
  { apply detect_duplicates_inv in Hrun as (keys' & Hkeys' & -> & _).
    unfold phases. by rewrite Hflag. }
  split; [done|]. split.
  { pose proof Hrun as Hinv.
    apply detect_duplicates_inv in Hinv as (keys' & Hkeys' & _ & ->).
    rewrite Hkeys in Hkeys'. injection Hkeys' as <-.
    simpl. rewrite length_zip_with, length_recency, length_phases.
    rewrite (length_match_keys _ _ _ Hkeys). lia. }
  intros i r key Hr Hkey.
  destruct (run_classify _ _ _ _ _ _ _ _ _ Hrun Hkeys Hr)
    as (key' & row & Hkey' & _ & _ & _ & Hkind).
  rewrite Hkey in Hkey'. injection Hkey' as <-.
  destruct Hkind as [(k & Hk & Hg & Hd & Hc & Hm & Hs)
                    |[(Hocc & k & grp & Hgrp & _)
                     |(Hocc & _ & Hg & Hd & Hc & Hm & Hs)]].
  - assert (2 ≤ occurrences key keys)%nat as Hocc.
    { apply elem_of_dup_keys. by eapply list_elem_of_lookup_2. }
    rewrite Hd, Hg, Hc, Hm, Hs. by repeat split.
  - subst stash. cbn [default] in Hgrp. by rewrite lookup_nil in Hgrp.
  - rewrite Hd, Hg, Hc, Hm, Hs. repeat split; try done. lia.
Qed.

(** Group sizes.  In every run, a row with a group id is flagged as a
    duplicate and its [_dup_count] is the number of rows of the result
    that carry the same id, which is at least two; a row without group
    id is not flagged and has the count 0. *)
Theorem dup_count_is_group_size
    (df : DataFrame) (match_columns : list string) (fuzzy : bool)
    (threshold : Q) out stash (i : nat) (r : DupRow) :
  detect_duplicates df match_columns fuzzy threshold = Ok (out, stash) →
  dup_rows out !! i = Some r →
  match _dup_group_id (ann r) with
  | Some gid =>
      _is_duplicate (ann r) = true
      ∧ (2 ≤ _dup_count (ann r))%nat
      ∧ _dup_count (ann r)
        = length (filter (λ r' : DupRow, _dup_group_id (ann r') = Some gid)
                         (dup_rows out))
  | None => _is_duplicate (ann r) = false ∧ _dup_count (ann r) = 0%nat
  end.
Proof.
  intros Hrun Hr.
  destruct (detect_duplicates_inv _ _ _ _ _ _ Hrun) as (keys & Hkeys & Hstash & Hout).
  pose proof (length_match_keys _ _ _ Hkeys) as Hlen.
  assert (length (dup_rows out) = length keys) as Hlen_out.
  { rewrite Hout. simpl.
    rewrite length_zip_with, length_recency, length_phases. lia. }
  destruct (phases_groups keys df match_columns fuzzy threshold Hlen)
    as (Hnd & Hfuzzy & _).
  rewrite <- Hstash in Hnd, Hfuzzy.
  destruct (run_classify _ _ _ _ _ _ _ _ _ Hrun Hkeys Hr)
    as (key & row & Hkey & _ & _ & _ & Hkind).
  destruct Hkind as [(k & Hk & Hg & Hd & Hc & _)
                    |[(Hocc & k & grp & Hgrp & Hi & Hg & Hd & Hc & _)
                     |(Hocc & _ & Hg & Hd & Hc & _)]].
  - rewrite Hg. split; [done|].
    assert (2 ≤ occurrences key keys)%nat as Hocc.
    { apply elem_of_dup_keys. by eapply list_elem_of_lookup_2. }
    split; [lia|]. rewrite Hc. unfold occurrences. symmetry.
    apply length_filter_pointwise; [done|].
    intros j r' key' Hr' Hkey'.
    destruct (run_classify _ _ _ _ _ _ _ _ _ Hrun Hkeys Hr')
      as (key'' & _ & Hkey'' & _ & _ & _ & Hkind').
    rewrite Hkey' in Hkey''. injection Hkey'' as <-.
    destruct Hkind' as [(k' & Hk' & Hg' & _)
                       |[(Hocc' & k' & grp' & _ & _ & Hg' & _)
                        |(Hocc' & _ & Hg' & _)]]; rewrite Hg'.
    + split.
      * intros Heq%(inj Some)%exact_gid_inj. injection Heq as <-. congruence.
      * intros ->.
        assert (k' = k) as ->; [|done].
        eapply (NoDup_lookup (dup_keys keys));
          [apply (PandasProps.NoDup_repeated keys)|done..].
    + split; [|intros ->; lia].
      intros Heq%(inj Some). symmetry in Heq. by apply exact_gid_not_fuzzy in Heq.
    + split; [done|]. intros ->. lia.
  - rewrite Hg. split; [done|].
    destruct (Hfuzzy k grp i Hgrp Hi) as (Hsize & Hgnd & _).
    split; [lia|]. rewrite Hc.
    rewrite <- (length_filter_members grp (length (dup_rows out)) Hgnd).
    2:{ intros j Hj. destruct (Hfuzzy k grp j Hgrp Hj)
          as (_ & _ & key' & _ & _ & Hkey' & _).
        apply lookup_lt_Some in Hkey'. lia. }
    symmetry. apply length_filter_pointwise; [by rewrite length_seq|].
    intros j r' j' Hr' Hj'.
    apply lookup_seq in Hj' as [-> _]. simpl.
    destruct (run_classify _ _ _ _ _ _ _ _ _ Hrun Hkeys Hr')
      as (key' & _ & Hkey' & _ & _ & _ & Hkind').
    destruct Hkind' as [(k' & Hk' & Hg' & _)
                       |[(_ & k' & grp' & Hgrp' & Hj & Hg' & _)
                        |(_ & Hout' & Hg' & _)]]; rewrite Hg'.
    + split; [by intros Heq%(inj Some)%exact_gid_not_fuzzy|].
      intros Hj. destruct (Hfuzzy k grp j Hgrp Hj)
        as (_ & _ & key'' & _ & _ & Hkey'' & Hocc' & _).
      rewrite Hkey' in Hkey''. injection Hkey'' as <-.
      assert (2 ≤ occurrences key' keys)%nat.
      { apply elem_of_dup_keys. by eapply list_elem_of_lookup_2. }
      lia.
    + split.
      * intros Heq%(inj Some)%fuzzy_gid_inj.
        assert (k' = k) as -> by lia. congruence.
      * intros Hjin.
        assert (k' = k) as ->; [|done].
        by eapply (NoDup_concat_unique _ k' k grp' grp j Hnd).
    + split; [done|]. intros Hjin. exfalso. apply Hout'.
      apply elem_of_concat. exists grp. split; [|done].
      by eapply list_elem_of_lookup_2.
  - by rewrite Hg.
Qed.

End WithExternals.

Lemma completeness_in_range_witness :
  ∃ out stash r,
    abb_run = Ok (out, stash)
    ∧ dup_rows out !! 0%nat = Some r
    ∧ _completeness (ann r) == 100.
Proof.
  destruct abb_run as [[out stash]|e] eqn:Hrun; [|by vm_compute in Hrun].
  destruct (dup_rows out !! 0%nat) as [r|] eqn:Hr.
  2: { vm_compute in Hrun. injection Hrun as <- <-. by vm_compute in Hr. }
  pose proof (@completeness_in_range demo_externals abb ["k"] false (85 # 100)
                out stash 0 r Hrun Hr) as (_ & Hfull & _).
  exists out, stash, r. split; [done|]. split; [done|]. apply Hfull.
  - by vm_compute.
  - intros c Hc. vm_compute in Hc. apply list_elem_of_singleton in Hc as ->.
    vm_compute in Hrun. injection Hrun as <- <-. vm_compute in Hr.
    injection Hr as <-. vm_compute. by eexists.
Defined.

(** On [abb] a match column given twice raises, and a missing one is
    reported first. *)
Example run_on_repeated_match_columns :
  @detect_duplicates demo_externals abb ["k"; "k"] false (85 # 100)
  = Raise (AttributeError "'DataFrame' object has no attribute 'str'")
  ∧ @detect_duplicates demo_externals abb ["k"; "zz"; "k"] false (85 # 100)
    = Raise (KeyError "zz").
Proof. split; vm_compute; reflexivity. Qed.

Lemma exact_run_flags_repeated_keys_witness :
  ∃ out, abb_run = Ok (out, None) ∧ length (dup_rows out) = 5%nat.
Proof.
  destruct abb_run as [[out stash]|e] eqn:Hrun; [|by vm_compute in Hrun].
  assert (@match_keys demo_externals abb ["k"] = Ok ["a"; "a"; "b"; "b"; "b"])
    as Hkeys by (vm_compute; reflexivity).
  destruct (@exact_run_flags_repeated_keys demo_externals abb ["k"] false
              (85 # 100) out stash ["a"; "a"; "b"; "b"; "b"] Hrun Hkeys eq_refl)
    as (-> & Hlen & _).
  by exists out.
Defined.

Lemma dup_count_is_group_size_witness :
  ∃ out stash r,
    near_bb_run = Ok (out, stash)
    ∧ dup_rows out !! 1%nat = Some r
    ∧ _dup_group_id (ann r) = Some "DG-0002-F"
    ∧ _dup_count (ann r)
      = length (filter (λ r' : DupRow, _dup_group_id (ann r') = Some "DG-0002-F")
                       (dup_rows out)).
Proof.
  destruct near_bb_run as [[out stash]|e] eqn:Hrun; [|by vm_compute in Hrun].
  destruct (dup_rows out !! 1%nat) as [r|] eqn:Hr.
  2: { vm_compute in Hrun. injection Hrun as <- <-. by vm_compute in Hr. }
  assert (_dup_group_id (ann r) = Some "DG-0002-F") as Hgid.
  { vm_compute in Hrun. injection Hrun as <- <-. vm_compute in Hr.
    by injection Hr as <-. }
  pose proof (@dup_count_is_group_size demo_externals near_bb ["k"] true
                (9 # 10) out stash 1 r Hrun Hr) as Hsize.
  rewrite Hgid in Hsize. destruct Hsize as (_ & _ & Hsize).
  exists out, stash, r. by repeat split.
Defined.

End RunProps.

(** ** The duplicate studio: which row survives *)

Module SurvivorsProps.
Import Pandas Studio Survivors Demo StudioProps RunProps.

Local Open Scope Q_scope.

Section Arg.
Context {V : Type} (better : V → V → bool).
Hypothesis better_irrefl : ∀ v, better v v = false.
Hypothesis better_neg_trans :
  ∀ u v w, better v w = true → better u w = false →
           better v u = true ∧ better u v = false.

Lemma better_asym (v w : V) : better v w = true → better w v = false.
Proof.
  intros Hvw.
  by destruct (better_neg_trans w v w Hvw (better_irrefl w)) as [_ ?].
Qed.

(** [idxmax] / [idxmin] give the label of the first entry among those
    that no entry beats. *)
Lemma arg_best_spec (s : list (nat * option V)) (i : nat) :
  arg_best better s = Some i →
  ∃ pre v post,
    s = pre ++ (i, Some v) :: post
    ∧ (∀ e u, e ∈ pre → e.2 = Some u → better v u = true)
    ∧ (∀ e u, e ∈ post → e.2 = Some u → better u v = false).
Proof.
  unfold arg_best.
  set (f := λ (best : option (nat * V)) (e : nat * option V),
              match e.2, best with
              | None, _ => best
              | Some v, None => Some (e.1, v)
              | Some v, Some (j, w) => if better v w then Some (e.1, v) else best
              end).
  assert (match foldl f None s with
          | None => ∀ e, e ∈ s → e.2 = None
          | Some (j, w) =>
              ∃ pre post,
                s = pre ++ (j, Some w) :: post
                ∧ (∀ e u, e ∈ pre → e.2 = Some u → better w u = true)
                ∧ (∀ e u, e ∈ post → e.2 = Some u → better u w = false)
          end) as Hinv.
  { induction s as [|e s IH] using rev_ind.
    - simpl. intros e He. by apply elem_of_nil in He.
    - rewrite foldl_app. cbn [foldl].
      destruct (foldl f None s) as [[j w]|] eqn:Hfold.
      + destruct IH as (pre & post & -> & Hpre & Hpost).
        unfold f at 1. destruct e as [k [v|]]; cbn [fst snd].
        * destruct (better v w) eqn:Hvw.
          -- exists (pre ++ (j, Some w) :: post), []. split; [done|]. split.
             ++ intros e u He Hu.
                apply elem_of_app in He as [He|He].
                ** pose proof (Hpre e u He Hu) as Hwu.
                   apply better_asym in Hwu.
                   by destruct (better_neg_trans u v w Hvw Hwu).
                ** apply elem_of_cons in He as [->|He].
                   --- simpl in Hu. by injection Hu as <-.
                   --- pose proof (Hpost e u He Hu) as Huw.
                       by destruct (better_neg_trans u v w Hvw Huw).
             ++ intros e u He. by apply elem_of_nil in He.
          -- exists pre, (post ++ [(k, Some v)]). split.
             { by rewrite <- app_assoc. }
             split; [done|].
             intros e u He Hu. apply elem_of_app in He as [He|He].
             ++ by apply (Hpost e u).
             ++ apply list_elem_of_singleton in He as ->. simpl in Hu.
                by injection Hu as <-.
        * exists pre, (post ++ [(k, None)]). split.
          { by rewrite <- app_assoc. }
          split; [done|].
          intros e u He Hu. apply elem_of_app in He as [He|He].
          -- by apply (Hpost e u).
          -- by apply list_elem_of_singleton in He as ->.
      + unfold f at 1. destruct e as [k [v|]]; cbn [fst snd].
        * exists s, []. split; [done|]. split.
          -- intros e u He Hu. by rewrite (IH e He) in Hu.
          -- intros e u He. by apply elem_of_nil in He.
        * intros e He. apply elem_of_app in He as [He|He]; [by apply IH|].
          by apply list_elem_of_singleton in He as ->. }
  intros Hi. destruct (foldl f None s) as [[j w]|]; [|done].
  simpl in Hi. injection Hi as ->.
  destruct Hinv as (pre & post & -> & Hpre & Hpost). by exists pre, w, post.
Qed.

(** The same for the label of a row of a group. *)
Lemma pick_spec (g : nat * DupRow → option V) (grp : SubFrame) (z : Z) :
  int_of_label (arg_best better ((λ p : nat * DupRow, (p.1, g p)) <$> grp)) = Ok z →
  ∃ pre p v post,
    grp = pre ++ p :: post ∧ z = Z.of_nat p.1 ∧ g p = Some v
    ∧ (∀ q u, q ∈ pre → g q = Some u → better v u = true)
    ∧ (∀ q u, q ∈ post → g q = Some u → better u v = false).
Proof.
  destruct (arg_best better _) as [i|] eqn:Hbest; [|done].
  intros [= <-].
  apply arg_best_spec in Hbest as (pre' & v & post' & Heq & Hpre & Hpost).
  apply fmap_app_inv in Heq as (pre & rest & -> & Hrest & ->).
  symmetry in Hrest.
  apply fmap_cons_inv in Hrest as (p & post & [= Hi Hv] & -> & ->).
  exists pre, p, v, post. split; [done|]. split; [by rewrite Hi|].
  split; [done|]. split.
  - intros q u Hq Hu. apply (Hpre (q.1, g q)); [|done].
    apply list_elem_of_fmap. by exists q.
  - intros q u Hq Hu. apply (Hpost (q.1, g q)); [|done].
    apply list_elem_of_fmap. by exists q.
Qed.

End Arg.

Lemma ltb_lt (a b : Q) : PyNum.ltb a b = true ↔ a < b.
Proof.
  unfold PyNum.ltb. rewrite negb_true_iff, <- not_true_iff_false, Qle_bool_iff.
  split; [apply Qnot_le_lt|apply Qlt_not_le].
Qed.

Lemma ltb_ge (a b : Q) : PyNum.ltb a b = false ↔ b <= a.
Proof.
  unfold PyNum.ltb. by rewrite negb_false_iff, Qle_bool_iff.
Qed.

Lemma more_irrefl (v : Q) : PyNum.ltb v v = false.
Proof. apply ltb_ge. lra. Qed.

Lemma more_neg_trans (u v w : Q) :
  PyNum.ltb w v = true → PyNum.ltb w u = false →
  PyNum.ltb u v = true ∧ PyNum.ltb v u = false.
Proof. rewrite !ltb_lt, !ltb_ge. lra. Qed.

Lemma less_neg_trans (u v w : nat) :
  (v <? w)%nat = true → (u <? w)%nat = false →
  (v <? u)%nat = true ∧ (u <? v)%nat = false.
Proof. rewrite !Nat.ltb_lt, !Nat.ltb_ge. lia. Qed.

Lemma greater_neg_trans (u v w : nat) :
  (w <? v)%nat = true → (w <? u)%nat = false →
  (u <? v)%nat = true ∧ (v <? u)%nat = false.
Proof. rewrite !Nat.ltb_lt, !Nat.ltb_ge. lia. Qed.

(** The strategies Most Complete and Most Frequent.  On a group that is
    not empty both return.  Most Complete gives the label of the first
    row among those of greatest completeness.  Most Frequent gives the
    label of the first row among those with the greatest number of
    values in the columns whose names do not start with an underscore:
    it does not look at how often a value occurs. *)
Theorem fullest_row_survives (cols : list string) (grp : SubFrame) :
  grp ≠ [] →
  (∃ pre p post,
     grp = pre ++ p :: post
     ∧ identify_golden_record cols grp "Most Complete" = Ok (Z.of_nat p.1)
     ∧ Forall (λ q : nat * DupRow,
                 _completeness (ann q.2) < _completeness (ann p.2)) pre
     ∧ Forall (λ q : nat * DupRow,
                 _completeness (ann q.2) <= _completeness (ann p.2)) post)
  ∧ (∃ pre p post,
       grp = pre ++ p :: post
       ∧ identify_golden_record cols grp "Most Frequent" = Ok (Z.of_nat p.1)
       ∧ Forall (λ q : nat * DupRow,
                   (notna_count (cells q.2) (non_internal cols)
                    < notna_count (cells p.2) (non_internal cols))%nat) pre
       ∧ Forall (λ q : nat * DupRow,
                   (notna_count (cells q.2) (non_internal cols)
                    ≤ notna_count (cells p.2) (non_internal cols))%nat) post).
Proof.
  intros Hne. destruct grp as [|first rest] eqn:Hgrp; [done|]. rewrite <- Hgrp.
  assert (∃ q, q ∈ grp) as [q0 Hq0] by (exists first; rewrite Hgrp; left).
  split.
  - destruct (int_of_label_returns (λ v w, PyNum.ltb w v)
                (λ p : nat * DupRow, Some (_completeness (ann p.2))) grp)
      as [z Hz]; [by exists q0|].
    destruct (pick_spec (λ v w, PyNum.ltb w v) more_irrefl more_neg_trans
                _ grp z Hz) as (pre & p & v & post & Heq & -> & [= <-] & Hpre & Hpost).
    exists pre, p, post. split; [done|]. split.
    { unfold identify_golden_record. rewrite Hgrp, <- Hgrp. exact Hz. }
    split; apply Forall_forall; intros q Hq.
    + apply ltb_lt. by apply (Hpre q).
    + apply ltb_ge. by apply (Hpost q).
  - destruct (int_of_label_returns (λ v w, Nat.ltb w v)
                (λ p : nat * DupRow,
                   Some (notna_count (cells p.2) (non_internal cols))) grp)
      as [z Hz]; [by exists q0|].
    destruct (pick_spec (λ v w, Nat.ltb w v) Nat.ltb_irrefl greater_neg_trans
                _ grp z Hz) as (pre & p & v & post & Heq & -> & [= <-] & Hpre & Hpost).
    exists pre, p, post. split; [done|]. split.
    { unfold identify_golden_record. rewrite Hgrp, <- Hgrp. exact Hz. }
    split; apply Forall_forall; intros q Hq.
    + apply Nat.ltb_lt. by apply (Hpre q).
    + apply Nat.ltb_ge. by apply (Hpost q).
Qed.

Lemma elem_of_imap_pair {A} (l : list A) (p : nat * A) :
  p ∈ imap pair l ↔ l !! p.1 = Some p.2.
Proof.
  rewrite elem_of_lookup_imap. split.
  - by intros (i & y & -> & Hy).
  - intros Hp. exists p.1, p.2. split; [by destruct p|done].
Qed.

Lemma loop_group_sorted (dup_df : DupFrame) (gid : string) :
  StronglySorted (λ p q : nat * DupRow, (p.1 < q.1)%nat) (loop_group dup_df gid).
Proof.
  unfold loop_group, group_of.
  do 2 apply PandasProps.StronglySorted_filter. apply imap_pair_sorted.
Qed.

Lemma elem_of_loop_group (dup_df : DupFrame) (gid : string) (p : nat * DupRow) :
  well_annotated dup_df →
  p ∈ loop_group dup_df gid
  ↔ dup_rows dup_df !! p.1 = Some p.2 ∧ _dup_group_id (ann p.2) = Some gid.
Proof.
  intros Hwell. unfold loop_group, group_of.
  rewrite !list_elem_of_filter, elem_of_imap_pair. split.
  - by intros (? & _ & ?).
  - intros [Hp Hg]. split; [done|]. split; [|done].
    apply (Hwell p.2); [by eapply list_elem_of_lookup_2|]. by rewrite Hg.
Qed.

Section WithExternals.
Context `{Externals}.

(** The group ids of the result are those of the table the phases
    leave. *)
Lemma run_gids (df : DataFrame) (match_columns : list string) (fuzzy : bool)
    (threshold : Q) out stash (keys : list string) :
  detect_duplicates df match_columns fuzzy threshold = Ok (out, stash) →
  match_keys df match_columns = Ok keys →
  (λ r, _dup_group_id (ann r)) <$> dup_rows out
  = _dup_group_id <$> (phases keys df match_columns fuzzy threshold).1.2.
Proof.
  intros Hrun Hkeys.
  apply detect_duplicates_inv in Hrun as (keys' & Hkeys' & _ & ->).
  rewrite Hkeys in Hkeys'. injection Hkeys' as <-. simpl.
  pose proof (length_phases keys df match_columns fuzzy threshold) as Hlen.
  set (result := (phases keys df match_columns fuzzy threshold).1.2) in *.
  apply list_eq. intros i. rewrite !list_lookup_fmap, lookup_zip_with.
  rewrite recency_lookup.
  destruct (result !! i) as [a|] eqn:Ha.
  - assert (is_Some (rows df !! i)) as [row ->]; [|done].
    apply lookup_lt_is_Some_2. apply lookup_lt_Some in Ha. lia.
  - simpl. by destruct (rows df !! i).
Qed.

(** The rank of a row of a run, in both branches. *)
Lemma run_rank (df : DataFrame) (match_columns : list string) (fuzzy : bool)
    (threshold : Q) out stash (i : nat) (r : DupRow) :
  detect_duplicates df match_columns fuzzy threshold = Ok (out, stash) →
  dup_rows out !! i = Some r →
  let gids := (λ r, _dup_group_id (ann r)) <$> dup_rows out in
  _recency_rank (ann r)
  = match date_cols df with
    | col :: _ =>
        Some (rank_dated gids ((λ r, cells r !! col) <$> dup_rows out) i)
    | [] => rank_undated gids i
    end.
Proof.
  intros Hrun Hr gids.
  destruct (detect_duplicates_inv _ _ _ _ _ _ Hrun) as (keys & Hkeys & _ & Hout).
  pose proof (run_gids _ _ _ _ _ _ _ Hrun Hkeys) as Hgids. fold gids in Hgids.
  pose proof (run_cells _ _ _ _ _ _ Hrun) as Hcells.
  rewrite Hgids. rewrite Hout in Hr. simpl in Hr.
  apply lookup_zip_with_Some in Hr as (row & a & -> & Hrow & Ha).
  rewrite recency_lookup in Ha.
  destruct ((phases keys df match_columns fuzzy threshold).1.2 !! i) as [a'|];
    [|done].
  injection Ha as <-. simpl.
  destruct (date_cols df) as [|col ?]; [done|].
  do 2 f_equal. unfold column. rewrite <- Hcells.
  rewrite <- list_fmap_compose. done.
Qed.

Lemma identify_most_recent (cols : list string) (grp : SubFrame) :
  grp ≠ [] →
  identify_golden_record cols grp "Most Recent"
  = int_of_label
      (arg_best Nat.ltb
         ((λ p : nat * DupRow, (p.1, _recency_rank (ann p.2))) <$> grp)).
Proof. intros Hne. by destruct grp. Qed.

Lemma later_none (gids : list (option string)) (g : string) (i : nat) :
  (∀ j, (i < j)%nat → gids !! j ≠ Some (Some g)) →
  filter (λ p : nat * option string, p.2 = Some g ∧ (i < p.1)%nat)
         (imap pair gids) = [].
Proof.
  intros Hnone. apply filter_none. intros p Hp%elem_of_imap_pair [Hg Hlt].
  apply (Hnone p.1 Hlt). by rewrite Hp, Hg.
Qed.

Lemma later_some (gids : list (option string)) (g : string) (i j : nat) :
  (i < j)%nat → gids !! j = Some (Some g) →
  (0 < length (filter (λ p : nat * option string, p.2 = Some g ∧ (i < p.1)%nat)
                      (imap pair gids)))%nat.
Proof.
  intros Hlt Hj.
  assert ((j, Some g) ∈ filter (λ p : nat * option string,
                                  p.2 = Some g ∧ (i < p.1)%nat) (imap pair gids))
    as Hin.
  { apply list_elem_of_filter. split; [done|]. by apply elem_of_imap_pair. }
  destruct (filter _ _); [by apply elem_of_nil in Hin|simpl; lia].
Qed.

Lemma ranked_group (dup_df : DupFrame) (gid : string) :
  well_annotated dup_df →
  Forall (λ r, ranked (ann r)) (dup_rows dup_df) →
  Forall (λ p : nat * DupRow, is_Some (_recency_rank (ann p.2)))
         (loop_group dup_df gid).
Proof.
  intros Hwell Hranked. apply Forall_forall.
  intros p [Hp Hg]%elem_of_loop_group; [|done].
  apply (Forall_lookup_1 _ _ _ _ Hranked Hp). by rewrite Hg.
Qed.

(** The strategy Most Recent on a frame without a datetime column.  In
    a run on such a frame, for every duplicate group the survivorship
    loop hands over, [identify_golden_record] returns the label of the
    last row of the group. *)
Theorem most_recent_without_dates
    (df : DataFrame) (match_columns : list string) (fuzzy : bool)
    (threshold : Q) out stash (gid : string) :
  detect_duplicates df match_columns fuzzy threshold = Ok (out, stash) →
  date_cols df = [] →
  loop_group out gid ≠ [] →
  ∃ p, last (loop_group out gid) = Some p
       ∧ identify_golden_record (base_columns out).*1 (loop_group out gid)
           "Most Recent" = Ok (Z.of_nat p.1).
Proof.
  intros Hrun Hdate Hne.
  destruct (detect_duplicates_well_annotated _ _ _ _ _ _ Hrun) as [Hwell Hranked].
  pose proof (loop_group_sorted out gid) as Hsorted.
  pose proof (elem_of_loop_group out gid) as Hmem.
  set (grp := loop_group out gid) in *.
  destruct (identify_golden_record_returns (base_columns out).*1 grp "Most Recent")
    as [z Hz]; [done|done|by apply ranked_group|].
  rewrite Hz. rewrite identify_most_recent in Hz by done.
  destruct (pick_spec Nat.ltb Nat.ltb_irrefl less_neg_trans _ grp z Hz)
    as (pre & p & v & post & Heq & -> & Hv & _ & Hpost).
  exists p. split; [|done]. rewrite Heq.
  destruct (last post) as [q|] eqn:Hlast.
  2:{ apply last_None in Hlast as ->. apply last_snoc. }
  exfalso. apply last_Some in Hlast as [post' ->].
  set (gids := (λ r, _dup_group_id (ann r)) <$> dup_rows out).
  assert (p ∈ grp) as Hp.
  { rewrite Heq. apply elem_of_app. right. apply list_elem_of_here. }
  assert (q ∈ grp) as Hq.
  { rewrite Heq. apply elem_of_app. right. apply list_elem_of_further.
    apply elem_of_app. right. apply list_elem_of_here. }
  apply (Hmem p Hwell) in Hp as [Hp Hpg]. apply (Hmem q Hwell) in Hq as [Hq Hqg].
  assert (∀ i r, dup_rows out !! i = Some r → _dup_group_id (ann r) = Some gid →
                 gids !! i = Some (Some gid)) as Hgid_at.
  { intros i r Hi Hg. unfold gids. by rewrite list_lookup_fmap, Hi, <- Hg. }
  assert (p.1 < q.1)%nat as Hpq.
  { rewrite Heq in Hsorted. apply StronglySorted_app_1_r in Hsorted.
    apply StronglySorted_inv in Hsorted as [_ Hall].
    rewrite Forall_forall in Hall. apply Hall.
    apply elem_of_app. right. apply list_elem_of_here. }
  assert (_recency_rank (ann q.2) = Some 1%nat) as Hrq.
  { rewrite (run_rank _ _ _ _ _ _ _ _ Hrun Hq), Hdate. fold gids.
    unfold rank_undated. rewrite (Hgid_at _ _ Hq Hqg), later_none; [done|].
    intros j Hlt Hj. unfold gids in Hj.
    apply list_lookup_fmap_Some in Hj as (r & Hg & Hr).
    assert ((j, r) ∈ grp) as Hin by (by apply (Hmem (j, r) Hwell)).
    assert (grp = (pre ++ p :: post') ++ [q]) as Heq'
      by (by rewrite Heq, <- app_assoc).
    rewrite Heq' in Hin, Hsorted.
    apply elem_of_app in Hin as [Hin|Hin].
    - pose proof (StronglySorted_app_1_elem_of _ _ _ (j, r) q Hsorted Hin) as Hjq.
      simpl in Hjq. specialize (Hjq ltac:(by apply list_elem_of_singleton)). lia.
    - apply list_elem_of_singleton in Hin. subst q. simpl in Hlt. lia. }
  assert (∃ n, v = S (S n)) as [n ->].
  { rewrite (run_rank _ _ _ _ _ _ _ _ Hrun Hp), Hdate in Hv. fold gids in Hv.
    unfold rank_undated in Hv. rewrite (Hgid_at _ _ Hp Hpg) in Hv.
    injection Hv as <-.
    pose proof (later_some gids gid p.1 q.1 Hpq (Hgid_at _ _ Hq Hqg)) as Hpos.
    destruct (length _) as [|n]; [lia|]. exists n. lia. }
  assert (q ∈ post' ++ [q]) as Hqpost.
  { apply elem_of_app. right. apply list_elem_of_here. }
  specialize (Hpost q 1%nat Hqpost Hrq). done.
Qed.

Lemma length_filter_strict {A} (P Q : A → Prop)
    `{∀ x, Decision (P x)} `{∀ x, Decision (Q x)} (l : list A) (x : A) :
  (∀ y, y ∈ l → P y → Q y) → x ∈ l → Q x → ¬ P x →
  (length (filter P l) < length (filter Q l))%nat.
Proof.
  intros Hsub Hx Hq Hp.
  induction l as [|y l IH]; [by apply elem_of_nil in Hx|].
  assert (length (filter P l) ≤ length (filter Q l))%nat as Hle.
  { clear -Hsub. induction l as [|z l IH]; [done|].
    rewrite !filter_cons.
    assert (length (filter P l) ≤ length (filter Q l))%nat as Hle.
    { apply IH. intros u Hu. apply Hsub.
      apply elem_of_cons in Hu as [->|Hu]; [by left|].
      do 2 right. done. }
    pose proof (Hsub z) as Hz.
    destruct (decide (P z)), (decide (Q z)); simpl; try lia.
    exfalso. apply n. apply Hz; [|done]. right. left. }
  rewrite !filter_cons. apply elem_of_cons in Hx as [<-|Hx].
  - rewrite decide_False, decide_True by done. simpl. lia.
  - assert (length (filter P l) < length (filter Q l))%nat as Hlt.
    { apply IH; [|done]. intros u Hu. apply Hsub. by right. }
    pose proof (Hsub y ltac:(left)) as Hy.
    destruct (decide (P y)), (decide (Q y)); simpl; try lia.
    exfalso. by apply n, Hy.
Qed.

Lemma outranks_trans (d : bool) (tp tq : Z) (pi qi ei : nat) (cq c : Cell) :
  rank_value d cq = Some tq →
  outranks d tp pi qi cq = true →
  outranks d tq qi ei c = true →
  outranks d tp pi ei c = true.
Proof.
  unfold outranks. intros ->. destruct (rank_value d c) as [te|]; [|done].
  rewrite !orb_true_iff, !andb_true_iff, !Z.ltb_lt, !Z.eqb_eq, !Nat.ltb_lt. lia.
Qed.

Lemma outranks_irrefl (d : bool) (t : Z) (i : nat) (c : Cell) :
  rank_value d c = Some t → outranks d t i i c = false.
Proof.
  unfold outranks. intros ->.
  rewrite orb_false_iff, andb_false_iff, Z.ltb_ge, Nat.ltb_ge. lia.
Qed.

(** The row that Most Recent picks, in terms of the value [rank] sorts
    by. *)
Lemma most_recent_by_stamp
    (df : DataFrame) (match_columns : list string) (fuzzy : bool)
    (threshold : Q) out stash (gid col : string) (more : list string) :
  detect_duplicates df match_columns fuzzy threshold = Ok (out, stash) →
  date_cols df = col :: more →
  loop_group out gid ≠ [] →
  ∃ pre p post,
    loop_group out gid = pre ++ p :: post
    ∧ identify_golden_record (base_columns out).*1 (loop_group out gid)
        "Most Recent" = Ok (Z.of_nat p.1)
    ∧ match stamp out col p with
      | None => Forall (λ q, is_Some (stamp out col q)) pre
      | Some t =>
          Forall (λ q, ∃ u, stamp out col q = Some u ∧ (u < t)%Z) pre
          ∧ Forall (λ q, ∃ u, stamp out col q = Some u ∧ (u ≤ t)%Z) post
      end.
Proof.
  intros Hrun Hdate Hne.
  destruct (detect_duplicates_well_annotated _ _ _ _ _ _ Hrun) as [Hwell Hranked].
  pose proof (loop_group_sorted out gid) as Hsorted.
  pose proof (elem_of_loop_group out gid) as Hmem.
  set (grp := loop_group out gid) in *.
  destruct (identify_golden_record_returns (base_columns out).*1 grp "Most Recent")
    as [z Hz]; [done|done|by apply ranked_group|].
  rewrite Hz. rewrite identify_most_recent in Hz by done.
  destruct (pick_spec Nat.ltb Nat.ltb_irrefl less_neg_trans _ grp z Hz)
    as (pre & p & v & post & Heq & -> & Hv & Hpre & Hpost).
  exists pre, p, post. split; [done|]. split; [done|].
  set (gids := (λ r, _dup_group_id (ann r)) <$> dup_rows out).
  set (dates := (λ r, cells r !! col) <$> dup_rows out).
  set (d := has_dropped_na gids).
  assert (∀ q, stamp out col q = rank_value d (cells q.2 !! col)) as Hstamp
    by done.
  set (count := λ (t : Z) (i : nat),
         length (filter (λ e : nat * (option string * Cell),
                           e.2.1 = Some gid ∧ outranks d t i e.1 e.2.2 = true)
                        (imap pair (zip gids dates)))).
  assert (∀ q, q ∈ grp →
            _recency_rank (ann q.2)
            = Some (match stamp out col q with
                    | Some t => S (count t q.1)
                    | None => 0%nat
                    end)) as Hrank.
  { intros q [Hq Hqg]%(Hmem q Hwell).
    rewrite (run_rank _ _ _ _ _ _ _ _ Hrun Hq), Hdate. cbv beta iota.
    fold gids dates. unfold rank_dated. cbv zeta. fold d. rewrite Hstamp.
    assert (gids !! q.1 = Some (Some gid)) as ->.
    { unfold gids. by rewrite list_lookup_fmap, Hq, <- Hqg. }
    unfold dates at 1. rewrite list_lookup_fmap, Hq. simpl.
    by destruct (rank_value d (cells q.2 !! col)). }
  assert (∀ q, q ∈ grp →
            (q.1, (Some gid, cells q.2 !! col)) ∈ imap pair (zip gids dates))
    as Hentry.
  { intros q [Hq Hqg]%(Hmem q Hwell). apply elem_of_imap_pair. simpl.
    apply lookup_zip_with_Some. eexists _, _. split; [reflexivity|].
    unfold gids, dates. rewrite !list_lookup_fmap, Hq. simpl.
    by rewrite Hqg. }
  assert (∀ a b ta tb, a ∈ grp → b ∈ grp →
            stamp out col a = Some ta → stamp out col b = Some tb →
            outranks d ta a.1 b.1 (cells b.2 !! col) = true →
            (count tb b.1 < count ta a.1)%nat) as Hstrict.
  { intros a b ta tb Ha Hb Hta Htb Hout. unfold count.
    apply (length_filter_strict _ _ _ (b.1, (Some gid, cells b.2 !! col))).
    - intros e _ [Hg He]. split; [done|].
      eapply outranks_trans; [|exact Hout|exact He]. by rewrite <- Hstamp.
    - by apply Hentry.
    - done.
    - intros [_ Hself]. simpl in Hself.
      rewrite outranks_irrefl in Hself; [done|]. by rewrite <- Hstamp. }
  assert (p ∈ grp) as Hp.
  { rewrite Heq. apply elem_of_app. right. apply list_elem_of_here. }
  assert (∀ q, q ∈ pre → q ∈ grp) as Hpre_in.
  { intros q Hq. rewrite Heq. apply elem_of_app. by left. }
  assert (∀ q, q ∈ post → q ∈ grp) as Hpost_in.
  { intros q Hq. rewrite Heq. apply elem_of_app. right. by right. }
  rewrite (Hrank p Hp) in Hv. injection Hv as Hv.
  destruct (stamp out col p) as [t|] eqn:Htp.
  - split; apply Forall_forall; intros q Hq.
    + pose proof (Hpre q _ Hq (Hrank q (Hpre_in q Hq))) as Hlt.
      apply Nat.ltb_lt in Hlt.
      destruct (stamp out col q) as [u|] eqn:Htq; [|lia].
      exists u. split; [done|].
      destruct (decide (u < t)%Z) as [|Hge]; [done|]. exfalso.
      assert (q.1 < p.1)%nat as Hqp.
      { rewrite Heq in Hsorted.
        apply (StronglySorted_app_1_elem_of _ _ _ q p Hsorted Hq).
        apply list_elem_of_here. }
      assert (count u q.1 < count t p.1)%nat; [|lia].
      apply (Hstrict p q t u); [done|by apply Hpre_in|done|done|].
      unfold outranks. rewrite <- Hstamp, Htq.
      rewrite orb_true_iff, andb_true_iff, Z.ltb_lt, Z.eqb_eq, Nat.ltb_lt. lia.
    + pose proof (Hpost q _ Hq (Hrank q (Hpost_in q Hq))) as Hge.
      apply Nat.ltb_ge in Hge.
      destruct (stamp out col q) as [u|] eqn:Htq; [|lia].
      exists u. split; [done|].
      destruct (decide (u ≤ t)%Z) as [|Hgt]; [done|]. exfalso.
      assert (count u q.1 < count t p.1)%nat; [|lia].
      apply (Hstrict p q t u); [done|by apply Hpost_in|done|done|].
      unfold outranks. rewrite <- Hstamp, Htq.
      rewrite orb_true_iff, Z.ltb_lt. lia.
  - apply Forall_forall. intros q Hq.
    pose proof (Hpre q _ Hq (Hrank q (Hpre_in q Hq))) as Hlt.
    apply Nat.ltb_lt in Hlt.
    destruct (stamp out col q) as [u|]; [done|lia].
Qed.

(** The strategy Most Recent on a frame with a datetime column.  In a
    run on such a frame the ranks come from the first datetime column.
    For every duplicate group the survivorship loop hands over,
    [identify_golden_record] returns a row of the group, and which one
    depends on whether the frame has a row outside the groups.
    - When every row of the frame is in a group, a row without an
      instant has the rank 0: the row returned is the first row of the
      group without instant when there is one, and otherwise the first
      row among those with the latest instant.
    - When some row of the frame is in no group, pandas ranks the
      instants as doubles, and a row without instant is ranked as the
      least of them: the row returned is the first row among those
      whose instant, as a double, is greatest. *)
Theorem most_recent_with_dates
    (df : DataFrame) (match_columns : list string) (fuzzy : bool)
    (threshold : Q) out stash (gid col : string) (more : list string) :
  detect_duplicates df match_columns fuzzy threshold = Ok (out, stash) →
  date_cols df = col :: more →
  loop_group out gid ≠ [] →
  ∃ pre p post,
    loop_group out gid = pre ++ p :: post
    ∧ identify_golden_record (base_columns out).*1 (loop_group out gid)
        "Most Recent" = Ok (Z.of_nat p.1)
    ∧ (has_ungrouped out = false →
         match instant col p with
         | None => Forall (λ q, is_Some (instant col q)) pre
         | Some t =>
             Forall (λ q, ∃ u, instant col q = Some u ∧ (u < t)%Z) pre
             ∧ Forall (λ q, ∃ u, instant col q = Some u ∧ (u ≤ t)%Z) post
         end)
    ∧ (has_ungrouped out = true →
         Forall (λ q, (as_double col q < as_double col p)%Z) pre
         ∧ Forall (λ q, (as_double col q ≤ as_double col p)%Z) post).
Proof.
  intros Hrun Hdate Hne.
  destruct (most_recent_by_stamp df match_columns fuzzy threshold out stash
              gid col more Hrun Hdate Hne)
    as (pre & p & post & Heq & Hpick & Hbest).
  exists pre, p, post. split; [done|]. split; [done|].
  unfold stamp, rank_value in Hbest. split; intros Hd; rewrite Hd in Hbest.
  - exact Hbest.
  - destruct Hbest as [Hpre Hpost]. split.
    + eapply Forall_impl; [exact Hpre|]. by intros q (u & [= <-] & Hlt).
    + eapply Forall_impl; [exact Hpost|]. by intros q (u & [= <-] & Hle).
Qed.

End WithExternals.

(** A frame without duplicates.  When no row is flagged as a duplicate,
    [build_golden_records_df] returns for every strategy, every row is
    golden, in the order of the frame, and nothing is discarded. *)
Theorem no_duplicates_no_discards (dup_df : DupFrame) (strategy : string) :
  (∀ r, r ∈ dup_rows dup_df → _is_duplicate (ann r) = false) →
  build_golden_records_df dup_df strategy
  = Ok (imap pair (dup_rows dup_df), []).
Proof.
  intros Hnone. unfold build_golden_records_df.
  rewrite (filter_none (λ p : nat * DupRow, _is_duplicate (ann p.2) = true)).
  2:{ intros p Hp%elem_of_imap_pair Hdup.
      rewrite Hnone in Hdup; [done|]. by eapply list_elem_of_lookup_2. }
  rewrite (filter_all (λ p : nat * DupRow, _is_duplicate (ann p.2) = false)).
  2:{ intros p Hp%elem_of_imap_pair. apply Hnone.
      by eapply list_elem_of_lookup_2. }
  done.
Qed.

Lemma no_duplicates_no_discards_witness :
  build_golden_records_df
    {| base_columns := [("k", object_)];
       dup_rows := [ {| cells := {[ "k" := Str "a" ]};
                        ann := {| _dup_group_id := None; _is_duplicate := false;
                                  _dup_count := 0; _match_type := "";
                                  _similarity_score := 0; _completeness := 100;
                                  _recency_rank := None |} |} ] |}
    "Source Priority"
  = Ok ([(0%nat, {| cells := {[ "k" := Str "a" ]};
                    ann := {| _dup_group_id := None; _is_duplicate := false;
                              _dup_count := 0; _match_type := "";
                              _similarity_score := 0; _completeness := 100;
                              _recency_rank := None |} |})], []).
Proof.
  apply (no_duplicates_no_discards
           {| base_columns := [("k", object_)];
              dup_rows := [ {| cells := {[ "k" := Str "a" ]};
                               ann := {| _dup_group_id := None;
                                         _is_duplicate := false;
                                         _dup_count := 0; _match_type := "";
                                         _similarity_score := 0;
                                         _completeness := 100;
                                         _recency_rank := None |} |} ] |}
           "Source Priority").
  intros r Hr. apply list_elem_of_singleton in Hr as ->. reflexivity.
Defined.

Lemma golden_records_of_a_run_witness :
  ∃ out stash golden discards,
    abb_run = Ok (out, stash)
    ∧ build_golden_records_df out "Most Recent" = Ok (golden, discards)
    ∧ golden ++ discards ≡ₚ imap pair (dup_rows out).
Proof.
  destruct abb_run as [[out stash]|e] eqn:Hrun; [|by vm_compute in Hrun].
  destruct (@golden_records_of_a_run demo_externals abb ["k"] false (85 # 100)
              out stash "Most Recent" Hrun)
    as (golden & discards & Hbuild & Hperm & _); [done|].
  by exists out, stash, golden, discards.
Defined.

Lemma fullest_row_survives_witness :
  ∃ out stash pre p post,
    abb_run = Ok (out, stash)
    ∧ loop_group out "DG-0001" = pre ++ p :: post
    ∧ identify_golden_record (base_columns out).*1 (loop_group out "DG-0001")
        "Most Complete" = Ok (Z.of_nat p.1).
Proof.
  destruct abb_run as [[out stash]|e] eqn:Hrun; [|by vm_compute in Hrun].
  assert (loop_group out "DG-0001" ≠ []) as Hne.
  { vm_compute in Hrun. injection Hrun as <- <-. by vm_compute. }
  destruct (fullest_row_survives (base_columns out).*1
              (loop_group out "DG-0001") Hne)
    as [(pre & p & post & Heq & Hid & _) _].
  by exists out, stash, pre, p, post.
Defined.

Lemma most_recent_without_dates_witness :
  ∃ out stash p,
    abb_run = Ok (out, stash)
    ∧ last (loop_group out "DG-0001") = Some p
    ∧ identify_golden_record (base_columns out).*1 (loop_group out "DG-0001")
        "Most Recent" = Ok (Z.of_nat p.1).
Proof.
  destruct abb_run as [[out stash]|e] eqn:Hrun; [|by vm_compute in Hrun].
  assert (loop_group out "DG-0001" ≠ []) as Hne.
  { vm_compute in Hrun. injection Hrun as <- <-. by vm_compute. }
  destruct (@most_recent_without_dates demo_externals abb ["k"] false (85 # 100)
              out stash "DG-0001" Hrun eq_refl Hne) as (p & Hlast & Hid).
  by exists out, stash, p.
Defined.

Lemma most_recent_with_dates_witness :
  ∃ out stash pre p post,
    Examples.dated_and_single_run = Ok (out, stash)
    ∧ has_ungrouped out = true
    ∧ loop_group out "DG-0001" = pre ++ p :: post
    ∧ identify_golden_record (base_columns out).*1 (loop_group out "DG-0001")
        "Most Recent" = Ok (Z.of_nat p.1)
    ∧ Forall (λ q, (as_double "seen" q < as_double "seen" p)%Z) pre
    ∧ Forall (λ q, (as_double "seen" q ≤ as_double "seen" p)%Z) post.
Proof.
  destruct Examples.dated_and_single_run as [[out stash]|e] eqn:Hrun;
    [|by vm_compute in Hrun].
  assert (loop_group out "DG-0001" ≠ []) as Hne.
  { vm_compute in Hrun. injection Hrun as <- <-. by vm_compute. }
  assert (has_ungrouped out = true) as Hun.
  { vm_compute in Hrun. injection Hrun as <- <-. by vm_compute. }
  destruct (@most_recent_with_dates demo_externals Examples.dated_and_single
              ["k"] false (85 # 100) out stash "DG-0001" "seen" [] Hrun eq_refl
              Hne)
    as (pre & p & post & Heq & Hid & _ & Hbest).
  destruct (Hbest Hun) as [Hpre Hpost].
  by exists out, stash, pre, p, post.
Defined.

(** In [dated] every row is in the group: the row without an instant
    has the rank 0 and survives, not the row with the latest one. *)
Example most_recent_on_dated :
  (run ← Examples.dated_run;
   pick ← identify_golden_record (base_columns run.1).*1
             (loop_group run.1 "DG-0001") "Most Recent";
   Ok ((λ r, _recency_rank (ann r)) <$> dup_rows run.1, pick))
  = Ok ([Some 2; Some 0; Some 1]%nat, 1%Z).
Proof. vm_compute. reflexivity. Qed.

(** In [dated_and_single] the fourth row is in no group: the row without
    an instant is ranked last in its group, the fourth row has the rank
    0, and the row with the latest instant survives. *)
Example most_recent_on_dated_and_single :
  (run ← Examples.dated_and_single_run;
   pick ← identify_golden_record (base_columns run.1).*1
             (loop_group run.1 "DG-0001") "Most Recent";
   Ok ((λ r, _recency_rank (ann r)) <$> dup_rows run.1, pick))
  = Ok ([Some 2; Some 3; Some 1; Some 0]%nat, 2%Z).
Proof. vm_compute. reflexivity. Qed.

End SurvivorsProps.

(** ** The rule executor: a whole run *)

Module ExecutorProps.
Import Pandas DQCore Reporting Demo RuleTypes DQCoreProps.

Local Arguments _is_null_or_empty : simpl never.

Lemma res_mapM_ok {A B} (f : A → Res B) (l : list A) :
  (∀ x, x ∈ l → ∃ y, f x = Ok y) →
  ∃ ys, res_mapM f l = Ok ys ∧ Forall2 (λ x y, f x = Ok y) l ys.
Proof.
  induction l as [|x l IH]; intros Hok.
  - exists []. split; [done|constructor].
  - destruct (Hok x ltac:(left)) as [y Hy].
    destruct IH as (ys & Hys & Hall); [intros z Hz; apply Hok; by right|].
    exists (y :: ys). split.
    + cbn [res_mapM]. rewrite Hy. change (Ok y ≫= ?k) with (k y). cbv beta.
      rewrite Hys. done.
    + by constructor.
Qed.

Lemma res_mapM_fmap {A B} (f : A → Res B) (g : A → B) (l : list A) :
  (∀ x, x ∈ l → f x = Ok (g x)) → res_mapM f l = Ok (g <$> l).
Proof.
  induction l as [|x l IH]; intros Hfg; [done|].
  cbn [res_mapM]. rewrite (Hfg x) by left.
  change (Ok (g x) ≫= ?k) with (k (g x)). cbv beta.
  rewrite IH; [done|]. intros y Hy. apply Hfg. by right.
Qed.

Lemma res_mapM_Forall {A B} (f : A → Res B) (P : A → B → Prop)
    (l : list A) (ys : list B) :
  res_mapM f l = Ok ys → (∀ x y, x ∈ l → f x = Ok y → P x y) → Forall2 P l ys.
Proof.
  revert ys. induction l as [|x l IH]; intros ys Hys HP.
  - injection Hys as <-. constructor.
  - cbn [res_mapM] in Hys. destruct (f x) as [y|] eqn:Hy; [|done].
    change (Ok y ≫= ?k) with (k y) in Hys. cbv beta in Hys.
    destruct (res_mapM f l) as [ys'|] eqn:Hys'; [|done].
    injection Hys as <-. constructor.
    + apply HP; [left|done].
    + apply IH; [done|]. intros x' y' Hx'. apply HP. by right.
Qed.

(** The exception of a loop is the exception of one of its turns. *)
Lemma res_mapM_raise {A B} (f : A → Res B) (l : list A) (e : exn) :
  res_mapM f l = Raise e → ∃ x, x ∈ l ∧ f x = Raise e.
Proof.
  induction l as [|x l IH]; intros Hraise; [done|].
  cbn [res_mapM] in Hraise. destruct (f x) as [y|e'] eqn:Hy.
  - change (Ok y ≫= ?k) with (k y) in Hraise. cbv beta in Hraise.
    destruct (res_mapM f l) as [ys|e'] eqn:Hys; [done|].
    injection Hraise as ->. destruct IH as (x' & Hx' & Hf); [done|].
    exists x'. split; [by right|done].
  - injection Hraise as ->. exists x. split; [left|done].
Qed.

Lemma omap_id_fmap {A B} (f : A → option B) (l : list A) :
  omap id (f <$> l) = omap f l.
Proof.
  induction l as [|x l IH]; [done|]. cbn. rewrite IH. by destruct (f x).
Qed.

(** A join returns when every item is a text, and raises a
    [TypeError] otherwise. *)
Lemma join_texts_cases (sep : string) (items : list (option string)) :
  match join_texts sep items with
  | Ok text => Forall is_Some items ∧ text = PyStr.join sep (omap id items)
  | Raise e => (∃ msg, e = TypeError msg) ∧ None ∈ items
  end.
Proof.
  unfold join_texts.
  destruct (list_find (λ item : option string, item = None) items)
    as [[k item]|] eqn:Hfind.
  - apply list_find_Some in Hfind as (Hk & -> & _).
    split; [by eexists|]. by eapply list_elem_of_lookup_2.
  - apply list_find_None in Hfind. split; [|done].
    eapply Forall_impl; [exact Hfind|]. intros [text|] Hsome; [by eexists|done].
Qed.

Section WithExternals.
Context `{Externals}.

(** [_execute_single_rule] catches whatever a check raises.  A result
    that passed has the empty message; a result that failed has a rule
    type; the dimension of a result is the dimension of its rule; and
    the message of a result is a text unless the rule holds something
    else under [message]. *)
Lemma single_rule_returns (self : Engine) (row : Row) (rule : Rule) (idx : nat) :
  ∃ r, _execute_single_rule self row rule idx = Ok r
       ∧ (passed r = true → res_message r = Some "")
       ∧ (passed r = false → is_Some (res_rule_type r))
       ∧ (res_message r = None → ∃ shown, message rule = NotText shown)
       ∧ (res_dimension r = None → ∃ shown, dimension rule = NotText shown).
Proof.
  assert (∀ dflt e, get_or dflt e = None → ∃ shown, e = NotText shown) as Hget.
  { intros dflt [|text|shown] Hnone; [done|done|by exists shown]. }
  unfold _execute_single_rule.
  destruct (bool_decide (rule_type rule = Some "uniqueness_combination")).
  { eexists. split; [done|]. unfold _execute_combination_uniqueness.
    destruct (length (default [] (rule_columns rule)) <? 2)%nat; simpl.
    - repeat split; try done. apply Hget.
    - split; [by intros ->|]. split; [done|]. split; [|apply Hget].
      destruct (forallb _ _); [done|apply Hget]. }
  destruct (column rule) as [col|].
  2:{ eexists. split; [done|]. simpl. repeat split; try done. apply Hget. }
  destruct (bool_decide (col ∈ column_names (df self))).
  2:{ eexists. split; [done|]. simpl. repeat split; try done. apply Hget. }
  destruct (rule_type rule) as [rt|].
  2:{ eexists. split; [done|]. simpl. repeat split; try done. apply Hget. }
  destruct (dispatch self rt col (row !! col) (expression rule) idx)
    as [ok|e]; simpl.
  - eexists. split; [done|]. simpl. split; [by intros ->|]. split; [done|].
    split; [|apply Hget]. destruct ok; [done|apply Hget].
  - eexists. split; [done|]. simpl. repeat split; try done. apply Hget.
Qed.

(** The two outcomes of the body of the loop over the rows. *)
Lemma annotate_row_cases (self : Engine) (idx : nat) (row : Row) :
  ∃ results,
    Forall2 (λ rule r, _execute_single_rule self row rule idx = Ok r)
            (rules (rulebook self)) results
    ∧ match annotate_row self idx row with
      | Ok ar =>
          Forall (λ r, is_Some (res_message r) ∧ is_Some (res_dimension r))
                 (filter (λ r, passed r = false) results)
          ∧ ar = {| fields := row;
                    Issues := PyStr.join " | "
                                (omap res_message
                                      (filter (λ r, passed r = false) results));
                    Count_of_issues :=
                      Z.of_nat (length (filter (λ r, passed r = false) results));
                    _failed_rules_details :=
                      filter (λ r, passed r = false) results |}
      | Raise e =>
          (∃ msg, e = TypeError msg)
          ∧ ∃ r, r ∈ filter (λ r, passed r = false) results
                 ∧ (res_message r = None ∨ res_dimension r = None)
      end.
Proof.
  destruct (res_mapM_ok (λ rule, _execute_single_rule self row rule idx)
              (rules (rulebook self))) as (results & Hres & Hall).
  { intros rule _. destruct (single_rule_returns self row rule idx) as (r & Hr & _).
    by exists r. }
  exists results. split; [done|].
  unfold annotate_row. rewrite Hres.
  change (Ok results ≫= ?k) with (k results). cbv beta zeta.
  set (failures := filter (λ r, passed r = false) results).
  assert (Forall (λ r, is_Some (res_rule_type r)) failures) as Htypes.
  { apply Forall_forall. intros r [Hfail Hr]%list_elem_of_filter.
    apply list_elem_of_lookup_1 in Hr as [k Hk].
    destruct (Forall2_lookup_r _ _ _ _ _ Hall Hk) as (rule & _ & Hexec).
    destruct (single_rule_returns self row rule idx) as (r' & Hr' & _ & Hty & _).
    rewrite Hexec in Hr'. injection Hr' as <-. by apply Hty. }
  pose proof (join_texts_cases " | " (res_message <$> failures)) as Hissues.
  destruct (join_texts " | " (res_message <$> failures)) as [issues|e].
  2:{ destruct Hissues as [Hty (r & Hnone & Hr)%list_elem_of_fmap].
      simpl. split; [done|]. exists r. split; [done|]. by left. }
  destruct Hissues as [Hmsgs ->].
  change (Ok ?x ≫= ?k) with (k x). cbv beta.
  pose proof (join_texts_cases ", " (res_rule_type <$> failures)) as Hrt.
  destruct (join_texts ", " (res_rule_type <$> failures)) as [rts|e].
  2:{ exfalso. destruct Hrt as [_ (r & Hnone & Hr)%list_elem_of_fmap].
      rewrite Forall_forall in Htypes. specialize (Htypes r Hr).
      rewrite <- Hnone in Htypes. by destruct Htypes. }
  change (Ok ?x ≫= ?k) with (k x). cbv beta.
  pose proof (join_texts_cases ", " (res_dimension <$> failures)) as Hdims.
  destruct (join_texts ", " (res_dimension <$> failures)) as [dims|e].
  2:{ destruct Hdims as [Hty (r & Hnone & Hr)%list_elem_of_fmap].
      simpl. split; [done|]. exists r. split; [done|]. by right. }
  destruct Hdims as [Hdims _].
  change (Ok ?x ≫= ?k) with (k x). cbv beta.
  split; [|by rewrite omap_id_fmap].
  apply Forall_forall. intros r Hr. split.
  - rewrite Forall_fmap, Forall_forall in Hmsgs. by apply Hmsgs.
  - rewrite Forall_fmap, Forall_forall in Hdims. by apply Hdims.
Qed.

(** The rows of the table a run returns. *)
Lemma run_rows (self : Engine) (table : list AnnotatedRow) :
  execute_all_rules self = Ok table →
  length table = length (rows (df self))
  ∧ ∀ i ar, table !! i = Some ar →
      ∃ row, rows (df self) !! i = Some row ∧ annotate_row self i row = Ok ar.
Proof.
  intros Hrun. unfold execute_all_rules in Hrun.
  eapply (res_mapM_Forall _ (λ (p : nat * Row) ar,
                               annotate_row self p.1 p.2 = Ok ar)) in Hrun.
  2:{ by intros [idx row] ar _ Hbody. }
  split.
  { apply Forall2_length in Hrun. by rewrite length_imap in Hrun. }
  intros i ar Har.
  destruct (Forall2_lookup_r _ _ _ _ _ Hrun Har) as ([idx row] & Hrow & Hbody).
  rewrite list_lookup_imap in Hrow.
  destruct (rows (df self) !! i) as [row'|] eqn:Hrow'; [|done].
  injection Hrow as <- <-. by exists row'.
Qed.

(** What a row of the table holds. *)
Lemma run_row_details (self : Engine) (table : list AnnotatedRow) (i : nat)
    (ar : AnnotatedRow) :
  execute_all_rules self = Ok table →
  table !! i = Some ar →
  ∃ row results,
    rows (df self) !! i = Some row
    ∧ Forall2 (λ rule r, _execute_single_rule self row rule i = Ok r)
              (rules (rulebook self)) results
    ∧ Forall (λ r, is_Some (res_message r) ∧ is_Some (res_dimension r))
             (filter (λ r, passed r = false) results)
    ∧ ar = {| fields := row;
              Issues := PyStr.join " | "
                          (omap res_message
                                (filter (λ r, passed r = false) results));
              Count_of_issues :=
                Z.of_nat (length (filter (λ r, passed r = false) results));
              _failed_rules_details := filter (λ r, passed r = false) results |}.
Proof.
  intros Hrun Har.
  destruct (run_rows self table Hrun) as [_ Hrows].
  destruct (Hrows i ar Har) as (row & Hrow & Hbody).
  destruct (annotate_row_cases self i row) as (results & Hall & Hcases).
  rewrite Hbody in Hcases. destruct Hcases as [Htexts ->].
  by exists row, results.
Qed.

(** Building the engine raises only the [KeyError] of a combination
    rule over at least two columns that names a column the frame does
    not have. *)
Lemma new_engine_cases (frame : DataFrame) (rb : Rulebook) :
  match new_engine frame rb with
  | Ok self => self = RuleExecutorEngine frame rb
  | Raise e =>
      ∃ rule cols c,
        e = KeyError c ∧ rule ∈ rules rb
        ∧ rule_type rule = Some "uniqueness_combination"
        ∧ rule_columns rule = Some cols ∧ (2 ≤ length cols)%nat
        ∧ c ∈ cols ∧ c ∉ column_names frame
  end.
Proof.
  unfold new_engine.
  destruct (filter _ (concat _)) as [|missing rest] eqn:Hmiss; [done|].
  assert (missing ∈ filter (λ c, c ∉ column_names frame)
            (concat ((λ rule,
                        if bool_decide (rule_type rule
                                        = Some "uniqueness_combination")
                           && negb (length (default [] (rule_columns rule))
                                    <? 2)%nat
                        then default [] (rule_columns rule) else [])
                     <$> rules rb))) as Hin
    by (rewrite Hmiss; apply list_elem_of_here).
  apply list_elem_of_filter in Hin as [Hout Hin].
  apply StudioProps.elem_of_concat in Hin as (l & Hl & Hc).
  apply list_elem_of_fmap in Hl as (rule & -> & Hrule).
  destruct (bool_decide_reflect (rule_type rule = Some "uniqueness_combination"))
    as [Hty|]; [|by apply elem_of_nil in Hc].
  destruct (Nat.ltb_spec (length (default [] (rule_columns rule))) 2)
    as [|Hlen]; [by apply elem_of_nil in Hc|].
  simpl in Hc. destruct (rule_columns rule) as [cols|] eqn:Hcols;
    [|by apply elem_of_nil in Hc].
  by exists rule, cols, missing.
Qed.

(** A run of the executor.  No rule raises: whatever a library-backed
    check or [eval] raises is caught and recorded as a failure.
    [execute_all_rules] returns unless, on some row, a rule fails whose
    message or dimension is not a text (a JSON null, for one): joining
    the texts of the row then raises a [TypeError], the only exception
    of a run.  In particular a run returns when the [message] and the
    [dimension] of every rule are texts or missing.  When it returns,
    the table has one row per row of the frame, in the order of the
    frame and with its cells; the count of issues of a row is the
    number of rules that failed on it, never more than the rulebook has
    rules; the issue text joins the messages of the failed rules; and
    the row is recorded clean exactly when no rule failed. *)
Theorem rule_run_returns_unless_a_text_is_missing (self : Engine) :
  (∀ row rule idx, ∃ r, _execute_single_rule self row rule idx = Ok r)
  ∧ ((∃ table, execute_all_rules self = Ok table)
     ↔ ∀ i row rule r,
         rows (df self) !! i = Some row → rule ∈ rules (rulebook self) →
         _execute_single_rule self row rule i = Ok r → passed r = false →
         is_Some (res_message r) ∧ is_Some (res_dimension r))
  ∧ (∀ e, execute_all_rules self = Raise e →
       (∃ msg, e = TypeError msg)
       ∧ ∃ i row rule r,
           rows (df self) !! i = Some row ∧ rule ∈ rules (rulebook self)
           ∧ _execute_single_rule self row rule i = Ok r ∧ passed r = false
           ∧ ((∃ shown, message rule = NotText shown)
              ∨ (∃ shown, dimension rule = NotText shown)))
  ∧ ((∀ rule, rule ∈ rules (rulebook self) →
        (∀ shown, message rule ≠ NotText shown)
        ∧ (∀ shown, dimension rule ≠ NotText shown)) →
     ∃ table, execute_all_rules self = Ok table)
  ∧ ∀ table, execute_all_rules self = Ok table →
      length table = length (rows (df self))
      ∧ ∀ i ar, table !! i = Some ar →
          rows (df self) !! i = Some (fields ar)
          ∧ Forall (λ r, passed r = false)
                   (_failed_rules_details ar)
          ∧ Count_of_issues ar = Z.of_nat (length (_failed_rules_details ar))
          ∧ (Count_of_issues ar ≤ Z.of_nat (length (rules (rulebook self))))%Z
          ∧ Issues ar
            = PyStr.join " | " (omap res_message (_failed_rules_details ar))
          ∧ length (omap res_message (_failed_rules_details ar))
            = length (_failed_rules_details ar)
          ∧ (Count_of_issues ar = 0%Z ↔
               ∀ rule, rule ∈ rules (rulebook self) →
                 ∃ r, _execute_single_rule self (fields ar) rule i = Ok r
                      ∧ passed r = true).
Proof.
  assert (∀ e, execute_all_rules self = Raise e →
            (∃ msg, e = TypeError msg)
            ∧ ∃ i row rule r,
                rows (df self) !! i = Some row ∧ rule ∈ rules (rulebook self)
                ∧ _execute_single_rule self row rule i = Ok r ∧ passed r = false
                ∧ (res_message r = None ∨ res_dimension r = None)) as Hraise.
  { intros e Hrun. unfold execute_all_rules in Hrun.
    apply res_mapM_raise in Hrun as ([idx row] & Hrow & Hbody).
    apply SurvivorsProps.elem_of_imap_pair in Hrow. simpl in Hrow.
    destruct (annotate_row_cases self idx row) as (results & Hall & Hcases).
    rewrite Hbody in Hcases.
    destruct Hcases as [Hty (r & [Hfail Hr]%list_elem_of_filter & Hnone)].
    split; [done|].
    apply list_elem_of_lookup_1 in Hr as [k Hk].
    destruct (Forall2_lookup_r _ _ _ _ _ Hall Hk) as (rule & Hrule & Hexec).
    exists idx, row, rule, r. split; [done|].
    split; [by eapply list_elem_of_lookup_2|]. done. }
  assert ((∀ i row rule r,
             rows (df self) !! i = Some row → rule ∈ rules (rulebook self) →
             _execute_single_rule self row rule i = Ok r → passed r = false →
             is_Some (res_message r) ∧ is_Some (res_dimension r)) →
          ∃ table, execute_all_rules self = Ok table) as Hreturns.
  { intros Htexts.
    destruct (execute_all_rules self) as [table|e] eqn:Hrun; [by exists table|].
    exfalso.
    destruct (Hraise e eq_refl) as (_ & i & row & rule & r & Hrow & Hrule & Hexec
                                    & Hfail & Hnone).
    destruct (Htexts i row rule r Hrow Hrule Hexec Hfail) as [[? Hm] [? Hd]].
    destruct Hnone; congruence. }
  split; [|split; [|split; [|split]]].
  - intros row rule idx.
    destruct (single_rule_returns self row rule idx) as (r & Hr & _). by exists r.
  - split; [|exact Hreturns].
    intros [table Hrun] i row rule r Hrow Hrule Hexec Hfail.
    destruct (run_rows self table Hrun) as [Hlen _].
    destruct (lookup_lt_is_Some_2 table i) as [ar Har].
    { rewrite Hlen. by eapply lookup_lt_Some. }
    destruct (run_row_details self table i ar Hrun Har)
      as (row' & results & Hrow' & Hall & Htexts & _).
    rewrite Hrow in Hrow'. injection Hrow' as <-.
    apply list_elem_of_lookup_1 in Hrule as [k Hk].
    destruct (Forall2_lookup_l _ _ _ _ _ Hall Hk) as (r' & Hr' & Hexec').
    rewrite Hexec in Hexec'. injection Hexec' as <-.
    rewrite Forall_forall in Htexts. apply Htexts.
    apply list_elem_of_filter. split; [done|]. by eapply list_elem_of_lookup_2.
  - intros e Hrun.
    destruct (Hraise e Hrun) as (Hty & i & row & rule & r & Hrow & Hrule & Hexec
                                 & Hfail & Hnone).
    split; [done|]. exists i, row, rule, r. repeat (split; [done|]).
    destruct (single_rule_returns self row rule i)
      as (r' & Hr' & _ & _ & Hmsg & Hdim).
    rewrite Hexec in Hr'. injection Hr' as <-.
    destruct Hnone as [Hnone|Hnone]; [left; by apply Hmsg|right; by apply Hdim].
  - intros Hrules. apply Hreturns. intros i row rule r Hrow Hrule Hexec Hfail.
    destruct (single_rule_returns self row rule i)
      as (r' & Hr' & _ & _ & Hmsg & Hdim).
    rewrite Hexec in Hr'. injection Hr' as <-.
    destruct (Hrules rule Hrule) as [Hm Hd]. split.
    + destruct (res_message r) as [text|]; [by eexists|].
      destruct (Hmsg eq_refl) as [shown Hshown]. by destruct (Hm shown).
    + destruct (res_dimension r) as [text|]; [by eexists|].
      destruct (Hdim eq_refl) as [shown Hshown]. by destruct (Hd shown).
  - intros table Hrun.
    destruct (run_rows self table Hrun) as [Hlen _]. split; [done|].
    intros i ar Har.
    destruct (run_row_details self table i ar Hrun Har)
      as (row & results & Hrow & Hmatch & Htexts & ->).
    cbn [fields _failed_rules_details Count_of_issues Issues].
    split; [done|]. split.
    { apply Forall_forall. by intros r [? _]%list_elem_of_filter. }
    split; [done|]. split.
    { rewrite (Forall2_length _ _ _ Hmatch).
      pose proof (length_filter (λ r, passed r = false) results). lia. }
    split; [done|]. split.
    { clear -Htexts. induction Htexts as [|r rs [[text Hr] _] _ IH]; [done|].
      cbn. rewrite Hr. simpl. by rewrite IH. }
    split.
    + intros Hzero rule Hrule.
      apply list_elem_of_lookup_1 in Hrule as [k Hk].
      destruct (Forall2_lookup_l _ _ _ _ _ Hmatch Hk) as (r & Hr & Hexec).
      exists r. split; [done|].
      destruct (passed r) eqn:Hp; [done|]. exfalso.
      assert (r ∈ filter (λ r, passed r = false) results) as Hin.
      { apply list_elem_of_filter. split; [done|]. by eapply list_elem_of_lookup_2. }
      destruct (filter _ results); [by apply elem_of_nil in Hin|done].
    + intros Hpass. rewrite StudioProps.filter_none; [done|].
      intros r Hr Hfail. apply list_elem_of_lookup_1 in Hr as [k Hk].
      destruct (Forall2_lookup_r _ _ _ _ _ Hmatch Hk) as (rule & Hrule & Hexec).
      destruct (Hpass rule) as (r' & Hexec' & Hp); [by eapply list_elem_of_lookup_2|].
      rewrite Hexec in Hexec'. injection Hexec' as <-. congruence.
Qed.

Lemma elem_of_combo_fold (vals : list (list Cell)) (vs : list (list Cell))
    (acc : list (list nat)) (i : nat) :
  i ∈ concat (foldl (λ dup_groups val,
                       if existsb _is_null_or_empty val then dup_groups
                       else
                         let indices := index_where val vals in
                         if (1 <? length indices)%nat then dup_groups ++ [indices]
                         else dup_groups)
                    acc vs)
  ↔ i ∈ concat acc
    ∨ ∃ val, val ∈ vs ∧ existsb _is_null_or_empty val = false
             ∧ (1 < occurrences val vals)%nat ∧ vals !! i = Some val.
Proof.
  revert acc. induction vs as [|v vs IH]; intros acc.
  - simpl. split; [by left|]. intros [?|(val & Hin & _)]; [done|].
    by apply elem_of_nil in Hin.
  - cbn [foldl]. rewrite IH. clear IH.
    destruct (existsb _is_null_or_empty v) eqn:Hnull.
    { split.
      - intros [?|(val & Hin & ?)]; [by left|]. right. exists val.
        split; [by right|done].
      - intros [?|(val & Hin & Hn & ?)]; [by left|]. right. exists val.
        apply elem_of_cons in Hin as [->|Hin]; [congruence|]. done. }
    cbv zeta. rewrite PandasProps.length_index_where.
    destruct (1 <? occurrences v vals)%nat eqn:Hocc.
    + apply Nat.ltb_lt in Hocc. rewrite concat_app, elem_of_app. simpl.
      rewrite app_nil_r, PandasProps.elem_of_index_where. split.
      * intros [[Hacc|Hi]|(val & Hin & Hrest)].
        -- by left.
        -- right. exists v. split; [by left|done].
        -- right. exists val. split; [by right|done].
      * intros [?|(val & Hin & Hn & Ho & Hi)]; [by left; left|].
        apply elem_of_cons in Hin as [->|Hin]; [by left; right|].
        right. by exists val.
    + apply Nat.ltb_ge in Hocc. split.
      * intros [?|(val & Hin & ?)]; [by left|]. right. exists val.
        split; [by right|done].
      * intros [?|(val & Hin & Hn & Ho & Hi)]; [by left|].
        apply elem_of_cons in Hin as [->|Hin]; [lia|].
        right. by exists val.
Qed.

Lemma elem_of_combo_dup_groups (frame : DataFrame) (cols : list string) (i : nat) :
  i ∈ concat (combo_dup_groups frame cols)
  ↔ ∃ val, combo_vals frame cols !! i = Some val
           ∧ existsb _is_null_or_empty val = false
           ∧ (1 < occurrences val (combo_vals frame cols))%nat.
Proof.
  unfold combo_dup_groups. cbv zeta. rewrite elem_of_combo_fold. split.
  - intros [Hnil|(val & _ & Hn & Ho & Hi)]; [by apply elem_of_nil in Hnil|].
    by exists val.
  - intros (val & Hi & Hn & Ho). right. exists val.
    split; [by apply PandasProps.elem_of_repeated|done].
Qed.

Lemma combo_cache_keeps (frame : DataFrame) (rs : list Rule) (cols : list string)
    (acc : gmap string (list (list nat))) :
  (∀ rule' cols', rule' ∈ rs →
     rule_type rule' = Some "uniqueness_combination" →
     rule_columns rule' = Some cols' → (2 ≤ length cols')%nat →
     PyStr.join " + " cols' = PyStr.join " + " cols → cols' = cols) →
  acc !! PyStr.join " + " cols = Some (combo_dup_groups frame cols) →
  foldl (λ acc rule,
           if bool_decide (rule_type rule = Some "uniqueness_combination") then
             let cols := default [] (rule_columns rule) in
             if (length cols <? 2)%nat then acc
             else <[PyStr.join " + " cols := combo_dup_groups frame cols]> acc
           else acc) acc rs
    !! PyStr.join " + " cols
  = Some (combo_dup_groups frame cols).
Proof.
  revert acc. induction rs as [|r rs IH]; intros acc Hsame Hacc; [done|].
  cbn [foldl]. apply IH; [intros r' c' Hr'; apply (Hsame r' c'); by right|].
  destruct (bool_decide_reflect (rule_type r = Some "uniqueness_combination"))
    as [Hty|]; [|done].
  cbv zeta. destruct (length (default [] (rule_columns r)) <? 2)%nat eqn:Hlen;
    [done|].
  apply Nat.ltb_ge in Hlen.
  destruct (decide (PyStr.join " + " (default [] (rule_columns r))
                    = PyStr.join " + " cols)) as [Heq|Hne].
  - destruct (rule_columns r) as [cols'|] eqn:Hcols; [|simpl in Hlen; lia].
    simpl in *. rewrite (Hsame r cols' ltac:(left) Hty Hcols Hlen Heq).
    by rewrite lookup_insert_eq.
  - by rewrite lookup_insert_ne.
Qed.

Lemma combo_cache_lookup (frame : DataFrame) (rs : list Rule) (rule : Rule)
    (cols : list string) (acc : gmap string (list (list nat))) :
  rule ∈ rs →
  rule_type rule = Some "uniqueness_combination" →
  rule_columns rule = Some cols → (2 ≤ length cols)%nat →
  (∀ rule' cols', rule' ∈ rs →
     rule_type rule' = Some "uniqueness_combination" →
     rule_columns rule' = Some cols' → (2 ≤ length cols')%nat →
     PyStr.join " + " cols' = PyStr.join " + " cols → cols' = cols) →
  foldl (λ acc rule,
           if bool_decide (rule_type rule = Some "uniqueness_combination") then
             let cols := default [] (rule_columns rule) in
             if (length cols <? 2)%nat then acc
             else <[PyStr.join " + " cols := combo_dup_groups frame cols]> acc
           else acc) acc rs
    !! PyStr.join " + " cols
  = Some (combo_dup_groups frame cols).
Proof.
  revert acc. induction rs as [|r rs IH]; intros acc Hin Hty Hcols Hlen Hsame;
    [by apply elem_of_nil in Hin|].
  cbn [foldl]. apply elem_of_cons in Hin as [<-|Hin].
  - rewrite (bool_decide_eq_true_2 _ Hty), Hcols. simpl.
    assert ((length cols <? 2)%nat = false) as -> by (apply Nat.ltb_ge; lia).
    apply combo_cache_keeps; [intros r' c' Hr'; apply (Hsame r' c'); by right|].
    by rewrite lookup_insert_eq.
  - apply IH; try done. intros r' c' Hr'. apply (Hsame r' c'). by right.
Qed.

(** Combination rules.  Take a [uniqueness_combination] rule of the
    rulebook over at least two columns of the frame, no other rule of
    the rulebook having other columns under the same joined name.  The
    rule fails on a row exactly when none of the row's values in these
    columns is null or blank and the same combination of values stands
    in at least two rows of the frame.  (For a column that the frame
    lacks, building the engine raises: see [new_engine].) *)
Theorem combination_flags_repeated_tuples
    (frame : DataFrame) (rb : Rulebook) (rule : Rule) (cols : list string)
    (row_idx : nat) (row : Row) :
  rule ∈ rules rb →
  rule_type rule = Some "uniqueness_combination" →
  rule_columns rule = Some cols →
  (2 ≤ length cols)%nat →
  cols ⊆ column_names frame →
  (∀ rule' cols', rule' ∈ rules rb →
     rule_type rule' = Some "uniqueness_combination" →
     rule_columns rule' = Some cols' → (2 ≤ length cols')%nat →
     PyStr.join " + " cols' = PyStr.join " + " cols → cols' = cols) →
  rows frame !! row_idx = Some row →
  ∃ r, _execute_single_rule (RuleExecutorEngine frame rb) row rule row_idx = Ok r
       ∧ (passed r = false
          ↔ (∀ c, c ∈ cols → _is_null_or_empty (row !! c) = false)
            ∧ (2 ≤ occurrences ((λ c, row !! c) <$> cols)
                     (combo_vals frame cols))%nat).
Proof.
  intros Hin Hty Hcols Hlen _ Hsame Hrow.
  unfold _execute_single_rule. rewrite (bool_decide_eq_true_2 _ Hty).
  eexists. split; [done|].
  unfold _execute_combination_uniqueness. rewrite Hcols. simpl.
  assert ((length cols <? 2)%nat = false) as -> by (apply Nat.ltb_ge; lia).
  cbn [passed]. unfold _precompute_combination_duplicates.
  rewrite (combo_cache_lookup frame (rules rb) rule cols ∅ Hin Hty Hcols Hlen Hsame).
  simpl.
  assert (combo_vals frame cols !! row_idx = Some ((λ c, row !! c) <$> cols))
    as Hval.
  { unfold combo_vals. by rewrite list_lookup_fmap, Hrow. }
  rewrite <- not_true_iff_false, forallb_forall.
  split.
  - intros Hfail.
    assert (row_idx ∈ concat (combo_dup_groups frame cols)) as Hidx.
    { apply dec_stable. intros Hout. apply Hfail. intros grp Hgrp.
      apply negb_true_iff, bool_decide_eq_false_2. intros Hi. apply Hout.
      apply StudioProps.elem_of_concat. exists grp. split; [|done].
      by apply list_elem_of_In. }
    apply elem_of_combo_dup_groups in Hidx as (val & Hv & Hnull & Hocc).
    assert (Some val = Some ((λ c, row !! c) <$> cols)) as Hsame_val
      by (etrans; [symmetry; exact Hv|exact Hval]).
    injection Hsame_val as ->. split; [|exact Hocc].
    intros c Hc. destruct (_is_null_or_empty (row !! c)) eqn:Hn; [|done].
    assert (existsb _is_null_or_empty ((λ c, row !! c) <$> cols) = true) as Hex;
      [|congruence].
    apply existsb_exists. exists (row !! c). split; [|done].
    apply list_elem_of_In, list_elem_of_fmap. by exists c.
  - intros [Hnn Hocc] Hall.
    assert (row_idx ∈ concat (combo_dup_groups frame cols)) as Hidx.
    { apply elem_of_combo_dup_groups. eexists. split; [exact Hval|].
      split; [|exact Hocc].
      apply not_true_iff_false. intros (v & Hv & Hvn)%existsb_exists.
      apply list_elem_of_In, list_elem_of_fmap in Hv as (c & -> & Hc).
      by rewrite (Hnn c Hc) in Hvn. }
    apply StudioProps.elem_of_concat in Hidx as (grp & Hgrp & Hi).
    apply list_elem_of_In in Hgrp. specialize (Hall grp Hgrp).
    apply negb_true_iff, bool_decide_eq_false_1 in Hall. done.
Qed.

(** Rules that cannot fail.  A rule other than a combination rule
    passes on every row, with an empty message, when it names no column,
    when it names a column the frame does not have, or when its type is
    none of the types the executor knows. *)
Theorem inert_rules_pass (self : Engine) (row : Row) (rule : Rule) (idx : nat) :
  rule_type rule ≠ Some "uniqueness_combination" →
  column rule = None
  ∨ (∃ col, column rule = Some col ∧ col ∉ column_names (df self))
  ∨ (∀ rt, rule_type rule = Some rt → rt ∉ known_rule_types) →
  ∃ r, _execute_single_rule self row rule idx = Ok r
       ∧ passed r = true ∧ res_message r = Some "".
Proof.
  intros Hcombo Hinert. unfold _execute_single_rule.
  rewrite bool_decide_eq_false_2 by done.
  destruct Hinert as [Hnone|[(col & Hcol & Habsent)|Hunknown]].
  - rewrite Hnone. by eexists.
  - rewrite Hcol, bool_decide_eq_false_2 by done. by eexists.
  - destruct (column rule) as [col|]; [|by eexists].
    destruct (bool_decide (col ∈ column_names (df self))); [|by eexists].
    destruct (rule_type rule) as [rt|] eqn:Hrt; [|by eexists].
    specialize (Hunknown rt eq_refl).
    assert (dispatch self rt col (row !! col) (expression rule) idx = Ok true)
      as ->; [|by eexists].
    unfold known_rule_types, library_rule_types in Hunknown. simpl in Hunknown.
    repeat (apply not_elem_of_cons in Hunknown as [?%String.eqb_neq Hunknown]).
    assert (bool_decide (rt ∈ ["regex"; "allowed_values"; "range"; "length";
                               "no_special_chars"; "email_format";
                               "numeric_only"; "alpha_only"; "date_format"])
            = false) as Hlibs.
    { apply bool_decide_eq_false_2. intros Hin.
      repeat (apply elem_of_cons in Hin as [->|Hin]; [done|]).
      by apply elem_of_nil in Hin. }
    unfold dispatch. rewrite Hlibs.
    by repeat match goal with
              | Hne : String.eqb rt _ = false |- _ => rewrite Hne; clear Hne
              end.
Qed.

(** A check that raises.  When the library function behind a rule type
    raises on the value of the row, the rule is recorded as failed and
    the text of the exception is appended to the message of the rule
    (to the [str()] of what the rule holds under [message]). *)
Theorem raising_check_fails_the_rule
    (self : Engine) (row : Row) (rule : Rule) (idx : nat)
    (rt col : string) (e : exn) :
  rule_type rule = Some rt →
  rt ∈ library_rule_types →
  column rule = Some col →
  col ∈ column_names (df self) →
  lib_rule rt (row !! col) (expression rule) = Raise e →
  _execute_single_rule self row rule idx
  = Ok {| passed := false;
          res_message := Some (shown_or "Validation failed" (message rule)
                               +:+ " (Error: " +:+ exn_str e +:+ ")");
          res_rule_type := Some rt;
          res_column := Some col;
          res_columns := None;
          res_dimension := get_or "General" (dimension rule) |}.
Proof.
  intros Hrt Hlib Hcol Hin Hraise. unfold _execute_single_rule.
  rewrite Hrt, Hcol. rewrite (bool_decide_eq_true_2 _ Hin).
  assert (dispatch self rt col (row !! col) (expression rule) idx = Raise e) as Hd.
  { unfold dispatch. unfold library_rule_types in Hlib.
    repeat (apply elem_of_cons in Hlib as [->|Hlib]; [exact Hraise|]).
    by apply elem_of_nil in Hlib. }
  rewrite bool_decide_eq_false_2.
  2:{ intros [= ->]. unfold library_rule_types in Hlib.
      repeat (apply elem_of_cons in Hlib as [?|Hlib]; [done|]).
      by apply elem_of_nil in Hlib. }
  by rewrite Hd.
Qed.

End WithExternals.

Lemma combination_flags_repeated_tuples_witness :
  ∃ r, @_execute_single_rule demo_externals
         (@RuleExecutorEngine demo_externals pairs {| rules := [pair_rule] |})
         {[ "a" := Str "x"; "b" := Str "1" ]} pair_rule 0 = Ok r
       ∧ (passed r = false
          ↔ (∀ c, c ∈ ["a"; "b"] →
               @_is_null_or_empty demo_externals
                 (({[ "a" := Str "x"; "b" := Str "1" ]} : Row) !! c) = false)
            ∧ (2 ≤ occurrences
                     ((λ c, ({[ "a" := Str "x"; "b" := Str "1" ]} : Row) !! c)
                      <$> ["a"; "b"])
                     (combo_vals pairs ["a"; "b"]))%nat).
Proof.
  apply (@combination_flags_repeated_tuples demo_externals pairs
           {| rules := [pair_rule] |} pair_rule ["a"; "b"] 0
           {[ "a" := Str "x"; "b" := Str "1" ]}).
  - left.
  - reflexivity.
  - reflexivity.
  - simpl. lia.
  - intros c Hc. apply elem_of_cons in Hc as [->|Hc]; [left|].
    apply list_elem_of_singleton in Hc as ->. right. left.
  - intros rule' cols' Hin%list_elem_of_singleton _ Hcols _ _.
    subst rule'. by injection Hcols as <-.
  - reflexivity.
Defined.

(** On [pairs] the combination rule fails on the rows 0 and 2; the rows
    3 and 4 agree as well, but have no value in [b]. *)
Example combination_on_pairs :
  (λ i, passed <$> @_execute_single_rule demo_externals
          (@RuleExecutorEngine demo_externals pairs {| rules := [pair_rule] |})
          (default ∅ (rows pairs !! i)) pair_rule i)
    <$> [0; 1; 2; 3; 4]%nat
  = [Ok false; Ok true; Ok false; Ok true; Ok true].
Proof. vm_compute. reflexivity. Qed.

Lemma inert_rules_pass_witness :
  ∃ r, @_execute_single_rule demo_externals
         (@RuleExecutorEngine demo_externals demo_frame {| rules := [] |})
         {[ "id" := Str "a" ]} (demo_rule "is_positive" None) 0 = Ok r
       ∧ passed r = true ∧ res_message r = Some "".
Proof.
  apply (@inert_rules_pass demo_externals).
  - done.
  - right. right. intros rt [= <-]. unfold known_rule_types, library_rule_types.
    simpl. intros Hin.
    repeat (apply elem_of_cons in Hin as [?|Hin]; [done|]).
    by apply elem_of_nil in Hin.
Defined.

Lemma raising_check_fails_the_rule_witness :
  @_execute_single_rule strict_externals
    (@RuleExecutorEngine strict_externals demo_frame {| rules := [] |})
    {[ "id" := Str "a" ]} (demo_rule "numeric_only" None) 0
  = Ok {| passed := false;
          res_message :=
            Some "id check (Error: could not convert string to float)";
          res_rule_type := Some "numeric_only";
          res_column := Some "id";
          res_columns := None;
          res_dimension := Some "Validity" |}.
Proof.
  apply (@raising_check_fails_the_rule strict_externals
           (@RuleExecutorEngine strict_externals demo_frame {| rules := [] |})
           {[ "id" := Str "a" ]} (demo_rule "numeric_only" None) 0
           "numeric_only" "id"
           (ValueError "could not convert string to float")).
  - reflexivity.
  - unfold library_rule_types. do 6 right. left.
  - reflexivity.
  - left.
  - reflexivity.
Defined.

(** On [demo_frame] a [not_null] rule on [id] whose message is a JSON null
    fails on a row with no id: joining the messages of that row raises
    and the run returns no table.  A combination rule on columns the frame
    does not have raises when the engine is built. *)
Example run_with_a_null_message :
  @execute_all_rules demo_externals
    (@RuleExecutorEngine demo_externals demo_frame
       {| rules := [demo_rule "uniqueness" None; null_message_rule] |})
  = Raise (TypeError "sequence item 0: expected str instance")
  ∧ @new_engine demo_externals demo_frame {| rules := [pair_rule] |}
    = Raise (KeyError "a").
Proof. split; vm_compute; reflexivity. Qed.

End ExecutorProps.

(** ** The scores per column *)

Module ScoresProps.
Import Pandas DQCore Reporting Scores Demo RuleTypes ExecutorProps.

Local Open Scope Q_scope.

Lemma compare_half (r : Q) :
  (Qcompare r (1 # 2) = Eq ∧ r == 1 # 2)
  ∨ (Qcompare r (1 # 2) = Lt ∧ r < 1 # 2)
  ∨ (Qcompare r (1 # 2) = Gt ∧ 1 # 2 < r).
Proof.
  destruct (Qcompare r (1 # 2)) eqn:Hc.
  - left. split; [done|]. by apply Qeq_alt.
  - right. left. split; [done|]. by apply Qlt_alt.
  - right. right. split; [done|]. by apply Qgt_alt in Hc.
Qed.

Lemma round_half_even_mono (x y : Q) :
  x <= y → (PyNum.round_half_even x ≤ PyNum.round_half_even y)%Z.
Proof.
  intros Hxy. unfold PyNum.round_half_even.
  pose proof (Qfloor_le x) as Hxl. pose proof (Qlt_floor x) as Hxu.
  pose proof (Qfloor_le y) as Hyl. pose proof (Qlt_floor y) as Hyu.
  pose proof (Qfloor_resp_le _ _ Hxy) as Hfl.
  rewrite inject_Z_plus in Hxu, Hyu.
  change (inject_Z 1) with 1 in Hxu, Hyu.
  destruct (decide (Qfloor x = Qfloor y)) as [Heq|Hne].
  - rewrite <- Heq in *.
    destruct (compare_half (x - inject_Z (Qfloor x))) as [[-> Hx]|[[-> Hx]|[-> Hx]]],
             (compare_half (y - inject_Z (Qfloor x))) as [[-> Hy]|[[-> Hy]|[-> Hy]]];
      destruct (Z.even (Qfloor x)); try lia; exfalso; lra.
  - assert (Qfloor x + 1 ≤ Qfloor y)%Z as Hstep by lia.
    destruct (Qcompare (x - inject_Z (Qfloor x)) (1 # 2)),
             (Qcompare (y - inject_Z (Qfloor y)) (1 # 2));
      destruct (Z.even (Qfloor x)), (Z.even (Qfloor y)); lia.
Qed.

Lemma round_mono (x y : Q) : x <= y → PyNum.round x 2 <= PyNum.round y 2.
Proof.
  intros Hxy. unfold PyNum.round.
  change (inject_Z (PyNum.pow10 2)) with 100.
  assert (PyNum.round_half_even (x * 100) ≤ PyNum.round_half_even (y * 100))%Z
    as Hle by (apply round_half_even_mono; lra).
  rewrite Zle_Qle in Hle.
  set (a := inject_Z (PyNum.round_half_even (x * 100))) in *.
  set (b := inject_Z (PyNum.round_half_even (y * 100))) in *.
  clearbody a b. unfold Qdiv. apply Qmult_le_compat_r; [done|]. done.
Qed.

(** The loop over the rows goes through unless a row holds NaN. *)
Lemma listed_all_cases (failed_columns : list ListCell) :
  match listed_all failed_columns with
  | Ok lists =>
      (NaNCell ∉ failed_columns)
      ∧ Forall2 (λ entry l, listed entry = Ok l) failed_columns lists
  | Raise e => (∃ msg, e = TypeError msg) ∧ NaNCell ∈ failed_columns
  end.
Proof.
  unfold listed_all.
  destruct (res_mapM listed failed_columns) as [lists|e] eqn:Hlists.
  - assert (Forall2 (λ entry l, listed entry = Ok l) failed_columns lists)
      as Hall.
    { eapply res_mapM_Forall; [exact Hlists|]. by intros entry l _ Hl. }
    split; [|done].
    intros [i Hi]%list_elem_of_lookup_1.
    by destruct (Forall2_lookup_l _ _ _ _ _ Hall Hi) as (l & _ & Hl).
  - apply res_mapM_raise in Hlists as (entry & Hin & Hraise).
    destruct entry as [| |l]; [done| |done].
    injection Hraise as <-. split; [by eexists|done].
Qed.

(** The score of one column, as [calculate_column_scores] computes it. *)
Lemma column_scores_nonempty (failed_columns : list ListCell)
    (lists : list (list string)) (all_columns : list string) :
  failed_columns ≠ [] →
  listed_all failed_columns = Ok lists →
  calculate_column_scores failed_columns all_columns
  = Ok ((λ col,
           (col,
            PyNum.round
              (inject_Z (Z.of_nat (length failed_columns)
                         - Z.of_nat (failed_count lists col))
                 / inject_Z (Z.of_nat (length failed_columns)) * 100) 2))
        <$> unique (filter (λ col, PyStr.startswith col "_" = false ∧ col ∉ _skip)
                           all_columns)).
Proof.
  intros Hne Hlists. unfold calculate_column_scores. cbv zeta.
  destruct (length failed_columns =? 0)%nat eqn:Hlen.
  { apply Nat.eqb_eq in Hlen. by destruct failed_columns. }
  apply Nat.eqb_neq in Hlen. rewrite Hlists.
  change (Ok lists ≫= ?k) with (k lists). cbv beta.
  apply res_mapM_fmap. intros col _.
  rewrite ReportingProps.truediv_by_count by lia. done.
Qed.

Lemma failed_count_le (lists : list (list string)) (col : string) :
  (failed_count lists col ≤ length lists)%nat.
Proof. unfold failed_count. apply length_filter. Qed.

(** Column scores.  [calculate_column_scores] returns unless the table
    has rows and one of them holds NaN in [_failed_columns_list]: the
    loop over the lists then raises a [TypeError], the only exception
    of the function.  For the empty table the dictionary is empty.
    Otherwise it has one item for every column of [all_columns] whose
    name does not start with an underscore and is none of the five
    derived columns; every score lies between 0 and 100; a column that
    no row lists as failed scores 100, and a column that every row
    lists scores 0. *)
Theorem column_scores_in_range
    (failed_columns : list ListCell) (all_columns : list string) :
  ((∃ scores, calculate_column_scores failed_columns all_columns = Ok scores)
   ↔ failed_columns = [] ∨ NaNCell ∉ failed_columns)
  ∧ (∀ e, calculate_column_scores failed_columns all_columns = Raise e →
       ∃ msg, e = TypeError msg)
  ∧ ∀ scores,
      calculate_column_scores failed_columns all_columns = Ok scores →
      NoDup scores.*1
      ∧ (failed_columns = [] → scores = [])
      ∧ (failed_columns ≠ [] →
           ∀ col, col ∈ scores.*1
                  ↔ col ∈ all_columns ∧ PyStr.startswith col "_" = false
                    ∧ col ∉ _skip)
      ∧ ∀ col s, (col, s) ∈ scores →
          (0 <= s ∧ s <= 100)
          ∧ ((∀ l, Listed l ∈ failed_columns → col ∉ l) → s == 100)
          ∧ ((∀ entry, entry ∈ failed_columns →
                ∃ l, entry = Listed l ∧ col ∈ l) → s == 0).
Proof.
  destruct (decide (failed_columns = [])) as [->|Hne].
  { split; [|split].
    - split; [by left|]. intros _. by exists [].
    - by intros e.
    - intros scores [= <-]. split; [constructor|]. split; [done|].
      split; [done|]. intros col s Hin. by apply elem_of_nil in Hin. }
  pose proof (listed_all_cases failed_columns) as Hcases.
  destruct (listed_all failed_columns) as [lists|e0] eqn:Hlists.
  2:{ destruct Hcases as [[msg ->] Hnan].
      assert (calculate_column_scores failed_columns all_columns
              = Raise (TypeError msg)) as Hraise.
      { unfold calculate_column_scores. cbv zeta.
        destruct (length failed_columns =? 0)%nat eqn:Hlen.
        { apply Nat.eqb_eq in Hlen. by destruct failed_columns. }
        by rewrite Hlists. }
      rewrite Hraise. split; [|split].
      - split; [by intros [scores ?]|]. by intros [?|?].
      - intros e [= <-]. by exists msg.
      - by intros scores. }
  destruct Hcases as [Hnan Hall].
  rewrite (column_scores_nonempty failed_columns lists all_columns Hne Hlists).
  split; [|split].
  { split; [by right|]. intros _. by eexists. }
  { by intros e. }
  intros scores [= <-].
  set (kept := unique (filter (λ col, PyStr.startswith col "_" = false ∧ col ∉ _skip)
                              all_columns)).
  split.
  { rewrite <- list_fmap_compose. simpl. rewrite list_fmap_id.
    apply PandasProps.NoDup_unique. }
  split; [done|]. split.
  { intros _ col. rewrite <- list_fmap_compose. simpl. rewrite list_fmap_id.
    unfold kept. rewrite PandasProps.elem_of_unique, list_elem_of_filter. tauto. }
  intros col s (col' & [= <- ->] & _)%list_elem_of_fmap.
  pose proof (failed_count_le lists col) as Hle.
  pose proof (Forall2_length _ _ _ Hall) as Hlen. rewrite <- Hlen in Hle.
  set (n := length failed_columns) in *.
  set (k := failed_count lists col) in *.
  assert (0 < n)%nat as Hn by (subst n; destruct failed_columns; [done|simpl; lia]).
  assert (0 < inject_Z (Z.of_nat n)) as Hn'.
  { change 0 with (inject_Z 0). rewrite <- Zlt_Qlt. lia. }
  assert (0 <= inject_Z (Z.of_nat n - Z.of_nat k)) as Hk0.
  { change 0 with (inject_Z 0). rewrite <- Zle_Qle. lia. }
  assert (inject_Z (Z.of_nat n - Z.of_nat k) <= inject_Z (Z.of_nat n)) as Hkn.
  { rewrite <- Zle_Qle. lia. }
  split; [|split].
  - destruct (RunProps.round_between
                (inject_Z (Z.of_nat n - Z.of_nat k) / inject_Z (Z.of_nat n) * 100)
                0 100) as [Hl Hu].
    + change (inject_Z 0) with 0. apply Qmult_le_0_compat; [|lra].
      apply Qle_shift_div_l; lra.
    + change (inject_Z 100) with 100.
      assert (inject_Z (Z.of_nat n - Z.of_nat k) / inject_Z (Z.of_nat n) <= 1);
        [|lra].
      apply Qle_shift_div_r; lra.
    + exact (conj Hl Hu).
  - intros Hnone.
    assert (k = 0%nat) as Hzero.
    { unfold k, failed_count. rewrite StudioProps.filter_none; [done|].
      intros l Hl Hcol. apply list_elem_of_lookup_1 in Hl as [i Hi].
      destruct (Forall2_lookup_r _ _ _ _ _ Hall Hi) as (entry & Hentry & Hlisted).
      destruct entry as [| |l']; [|done|].
      - injection Hlisted as <-. by apply elem_of_nil in Hcol.
      - injection Hlisted as ->. apply (Hnone l); [|done].
        by eapply list_elem_of_lookup_2. }
    assert (inject_Z (Z.of_nat n - Z.of_nat k) / inject_Z (Z.of_nat n) == 1)
      as Hone.
    { rewrite Hzero. replace (Z.of_nat n - Z.of_nat 0)%Z with (Z.of_nat n) by lia.
      field. lra. }
    set (q := inject_Z (Z.of_nat n - Z.of_nat k) / inject_Z (Z.of_nat n)) in *.
    clearbody q.
    destruct (RunProps.round_between (q * 100) 100 100) as [Hl Hu].
    + change (inject_Z 100) with 100. lra.
    + change (inject_Z 100) with 100. lra.
    + change (inject_Z 100) with 100 in Hl, Hu. lra.
  - intros Hevery.
    assert (k = n) as Hfull.
    { unfold k, failed_count. rewrite StudioProps.filter_all; [by rewrite Hlen|].
      intros l Hl. apply list_elem_of_lookup_1 in Hl as [i Hi].
      destruct (Forall2_lookup_r _ _ _ _ _ Hall Hi) as (entry & Hentry & Hlisted).
      destruct (Hevery entry) as (l' & -> & Hcol);
        [by eapply list_elem_of_lookup_2|].
      by injection Hlisted as <-. }
    assert (inject_Z (Z.of_nat n - Z.of_nat k) / inject_Z (Z.of_nat n) == 0)
      as Hnull.
    { rewrite Hfull. replace (Z.of_nat n - Z.of_nat n)%Z with 0%Z by lia.
      change (inject_Z 0) with 0. unfold Qdiv. lra. }
    set (q := inject_Z (Z.of_nat n - Z.of_nat k) / inject_Z (Z.of_nat n)) in *.
    clearbody q.
    destruct (RunProps.round_between (q * 100) 0 0) as [Hl Hu].
    + change (inject_Z 0) with 0. lra.
    + change (inject_Z 0) with 0. lra.
    + change (inject_Z 0) with 0 in Hl, Hu. lra.
Qed.

(** A table with a row that holds NaN in [_failed_columns_list]. *)
Example column_scores_on_nan :
  calculate_column_scores [Listed ["id"]; NaNCell; NoList] ["id"]
  = Raise (TypeError "'float' object is not iterable").
Proof. reflexivity. Qed.

Lemma length_filter_disjoint {A} (P Q : A → Prop)
    `{∀ x, Decision (P x)} `{∀ x, Decision (Q x)} (l : list A) :
  (∀ x, x ∈ l → P x → Q x → False) →
  (length (filter P l) + length (filter Q l) ≤ length l)%nat.
Proof.
  induction l as [|x l IH]; intros Hpq; [done|].
  rewrite !filter_cons.
  assert (length (filter P l) + length (filter Q l) ≤ length l)%nat as Hle.
  { apply IH. intros y Hy. apply Hpq. by right. }
  pose proof (Hpq x ltac:(left)) as Hx.
  destruct (decide (P x)), (decide (Q x)); simpl; try lia. tauto.
Qed.

Section WithExternals.
Context `{Externals}.

Lemma run_counts (self : Engine) (table : list AnnotatedRow) :
  execute_all_rules self = Ok table →
  Forall (λ ar, Count_of_issues ar = Z.of_nat (length (_failed_rules_details ar)))
         table.
Proof.
  intros Hrun. apply Forall_lookup. intros i ar Har.
  by destruct (run_row_details self table i ar Hrun Har)
    as (row & results & _ & _ & _ & ->).
Qed.

(** The overall score and the column scores of a run.  The overall
    score of the table that [execute_all_rules] returns is never above
    the score of a column: a row that is charged to a column is not a
    clean row. *)
Theorem no_column_scores_below_overall
    (self : Engine) (table : list AnnotatedRow) (overall : Q)
    (all_columns : list string) (scores : list (string * Q)) :
  execute_all_rules self = Ok table →
  calculate_overall_score table = Ok overall →
  calculate_column_scores (failed_columns_of table) all_columns = Ok scores →
  ∀ col s, (col, s) ∈ scores → overall <= s.
Proof.
  intros Hrun Hoverall Hscores col s Hin.
  destruct (decide (table = [])) as [->|Hne].
  { injection Hscores as <-. by apply elem_of_nil in Hin. }
  rewrite ReportingProps.overall_score_nonempty in Hoverall by done.
  injection Hoverall as <-.
  rewrite (column_scores_nonempty _ (_failed_columns_list <$> table)) in Hscores.
  2:{ unfold failed_columns_of. by destruct table. }
  2:{ unfold listed_all, failed_columns_of.
      rewrite (res_mapM_fmap listed
                 (λ entry, match entry with Listed l => l | _ => [] end)).
      - by rewrite <- list_fmap_compose.
      - by intros entry (ar & -> & _)%list_elem_of_fmap. }
  injection Hscores as <-.
  apply list_elem_of_fmap in Hin as (col' & [= <- ->] & _).
  assert (length (failed_columns_of table) = length table) as ->
    by apply length_fmap.
  apply round_mono.
  assert (clean_rows table + failed_count (_failed_columns_list <$> table) col
          ≤ length table)%nat as Hsum.
  { rewrite <- ReportingProps.clean_rows_filter.
    unfold failed_count.
    assert (length (filter (λ l : list string, col ∈ l)
                           (_failed_columns_list <$> table))
            = length (filter (λ ar, col ∈ _failed_columns_list ar) table)) as ->.
    { symmetry. apply RunProps.length_filter_pointwise; [by rewrite length_fmap|].
      intros i ar entry Har Hentry.
      rewrite list_lookup_fmap, Har in Hentry. by injection Hentry as <-. }
    apply length_filter_disjoint. intros ar Har Hclean Hcol.
    pose proof (run_counts self table Hrun) as Hcounts.
    rewrite Forall_forall in Hcounts. specialize (Hcounts ar Har).
    rewrite Hclean in Hcounts.
    unfold _failed_columns_list in Hcol.
    destruct (_failed_rules_details ar); [|simpl in Hcounts; lia].
    simpl in Hcol. by apply elem_of_nil in Hcol. }
  set (c := clean_rows table) in *.
  set (k := failed_count (_failed_columns_list <$> table) col) in *.
  set (n := length table) in *.
  assert (0 < n)%nat as Hn by (subst n; destruct table; [done|simpl; lia]).
  assert (0 < inject_Z (Z.of_nat n)) as Hn'.
  { change 0 with (inject_Z 0). rewrite <- Zlt_Qlt. lia. }
  assert (inject_Z (Z.of_nat c) <= inject_Z (Z.of_nat n - Z.of_nat k)) as Hck.
  { rewrite <- Zle_Qle. lia. }
  apply Qmult_le_compat_r; [|lra].
  unfold Qdiv. apply Qmult_le_compat_r; [done|].
  apply Qinv_le_0_compat. lra.
Qed.

End WithExternals.

Lemma no_column_scores_below_overall_witness :
  ∃ table overall scores,
    @execute_all_rules demo_externals
      (@RuleExecutorEngine demo_externals demo_frame
         {| rules := [demo_rule "uniqueness" None] |}) = Ok table
    ∧ calculate_overall_score table = Ok overall
    ∧ calculate_column_scores (failed_columns_of table) ["id"] = Ok scores
    ∧ ∀ col s, (col, s) ∈ scores → overall <= s.
Proof.
  destruct (@execute_all_rules demo_externals
              (@RuleExecutorEngine demo_externals demo_frame
                 {| rules := [demo_rule "uniqueness" None] |}))
    as [table|e] eqn:Hrun; [|by vm_compute in Hrun].
  destruct (calculate_overall_score table) as [overall|e] eqn:Hoverall.
  2:{ vm_compute in Hrun. injection Hrun as <-. by vm_compute in Hoverall. }
  destruct (calculate_column_scores (failed_columns_of table) ["id"])
    as [scores|e] eqn:Hscores.
  2:{ vm_compute in Hrun. injection Hrun as <-. by vm_compute in Hscores. }
  exists table, overall, scores. split; [done|]. split; [done|]. split; [done|].
  exact (@no_column_scores_below_overall demo_externals _ table overall ["id"]
           scores Hrun Hoverall Hscores).
Defined.

(** On [demo_frame] with a uniqueness rule on [id], two rows of five
    fail: the overall score and the score of [id] are both 60. *)
Example scores_on_demo_frame :
  (table ← @execute_all_rules demo_externals
             (@RuleExecutorEngine demo_externals demo_frame
                {| rules := [demo_rule "uniqueness" None] |});
   overall ← calculate_overall_score table;
   scores ← calculate_column_scores (failed_columns_of table) ["id"; "_x"; "Issues"];
   Ok (overall, scores))
  = Ok (6000 # 100, [("id", 6000 # 100)]).
Proof. vm_compute. reflexivity. Qed.

End ScoresProps.

(** ** Cases created by the tools *)

Module CaseAutoProps.
Import Cases Session Pandas Studio Survivors CaseAuto Demo StudioProps RunProps.

Local Open Scope Q_scope.

Lemma create_case_state now ttl ct prio descr n cols src ex (st : SessionState) :
  (create_case now ttl ct prio descr n cols src ex st).2
  = {| cases := cases st
                ++ [(create_case now ttl ct prio descr n cols src ex
                       {| cases := []; case_counter := case_counter st |}).1];
       case_counter := S (case_counter st) |}.
Proof. done. Qed.

Section WithWorld.
Context `{World}.

(** The loop over the groups: the cases it appends are the cases of the
    groups whose title is new, numbered from the counter on. *)
Lemma dup_fold_spec (existing : list string) (dup_only : SubFrame)
    (match_columns : list string) (match_type : string) (gids : list string)
    (created : nat) (st : SessionState) :
  let fresh := filter (λ gid, dup_group_title gid (length (group_of dup_only gid))
                                match_columns ∉ existing) gids in
  foldl (dup_case_step existing dup_only match_columns match_type)
        (created, st) gids
  = ((created + length fresh)%nat,
     {| cases := cases st
                 ++ imap (λ k gid, dup_case dup_only match_columns match_type
                                     (case_counter st + k) gid) fresh;
        case_counter := (case_counter st + length fresh)%nat |}).
Proof.
  revert created st. induction gids as [|gid gids IH]; intros created st.
  - simpl. rewrite app_nil_r, !Nat.add_0_r. by destruct st.
  - cbn [foldl]. rewrite filter_cons.
    unfold dup_case_step at 2.
    destruct (decide (dup_group_title gid (length (group_of dup_only gid))
                        match_columns ∉ existing)) as [Hnew|Hold].
    + rewrite bool_decide_eq_false_2 by done.
      rewrite IH, create_case_state. cbn [cases case_counter length imap].
      f_equal; [lia|]. f_equal; [|lia].
      rewrite <- app_assoc. f_equal. simpl. f_equal.
      * unfold dup_case. by rewrite Nat.add_0_r.
      * apply imap_ext. intros k g _. simpl. f_equal. lia.
    + rewrite bool_decide_eq_true_2 by (by apply dec_stable).
      by rewrite IH.
Qed.

Lemma dup_fold_nothing_new (existing : list string) (dup_only : SubFrame)
    (match_columns : list string) (match_type : string) (gids : list string)
    (created : nat) (st : SessionState) :
  (∀ gid, gid ∈ gids →
     dup_group_title gid (length (group_of dup_only gid)) match_columns
     ∈ existing) →
  foldl (dup_case_step existing dup_only match_columns match_type)
        (created, st) gids
  = (created, st).
Proof.
  induction gids as [|gid gids IH]; intros Hold; [done|].
  cbn [foldl]. unfold dup_case_step at 2.
  rewrite bool_decide_eq_true_2 by (apply Hold; left).
  apply IH. intros g Hg. apply Hold. by right.
Qed.

(** Running it again.  Whatever the frame and the session,
    [_auto_create_cases_for_dup_groups] only appends to the case list,
    the number it returns is the number of cases it appended and the
    amount by which the counter grew, and a second call with the same
    frame and match columns creates nothing and leaves the session as
    it is. *)
Theorem dup_cases_are_created_once
    (dup_df : DupFrame) (match_columns : list string) (match_type : string)
    (st : SessionState) :
  let run := _auto_create_cases_for_dup_groups dup_df match_columns match_type st in
  cases st `prefix_of` cases run.2
  ∧ length (cases run.2) = (length (cases st) + run.1)%nat
  ∧ case_counter run.2 = (case_counter st + run.1)%nat
  ∧ _auto_create_cases_for_dup_groups dup_df match_columns match_type run.2
    = (0%nat, run.2).
Proof.
  unfold _auto_create_cases_for_dup_groups. cbv zeta.
  rewrite dup_fold_spec. cbn [fst snd cases case_counter].
  split; [by apply prefix_app_r|].
  split; [rewrite length_app, length_imap; lia|].
  split; [lia|].
  apply dup_fold_nothing_new. intros gid Hgid.
  rewrite fmap_app, elem_of_app.
  set (dup_only := filter (λ p : nat * DupRow, _is_duplicate (ann p.2) = true)
                          (imap pair (dup_rows dup_df))) in *.
  destruct (decide (dup_group_title gid (length (group_of dup_only gid))
                      match_columns ∈ title <$> cases st)) as [|Hnew]; [by left|].
  right.
  assert (gid ∈ filter (λ gid, dup_group_title gid
                                  (length (group_of dup_only gid)) match_columns
                                ∉ title <$> cases st) (group_keys dup_only))
    as Hfresh by (by apply list_elem_of_filter).
  apply list_elem_of_lookup_1 in Hfresh as [k Hk].
  apply list_elem_of_fmap.
  exists (dup_case dup_only match_columns match_type (case_counter st + k) gid).
  split; [done|].
  apply elem_of_lookup_imap. by exists k, gid.
Qed.

End WithWorld.

Lemma length_loop_group (dup_df : DupFrame) (gid : string) :
  well_annotated dup_df →
  length (loop_group dup_df gid)
  = length (filter (λ r : DupRow, _dup_group_id (ann r) = Some gid)
                   (dup_rows dup_df)).
Proof.
  intros Hwell. unfold loop_group, group_of.
  rewrite (StudioProps.filter_agree
             (λ p : nat * DupRow, _dup_group_id (ann p.2) = Some gid)
             (λ p : nat * DupRow, _dup_group_id (ann p.2) = Some gid
                                  ∧ _is_duplicate (ann p.2) = true)).
  2:{ intros p [Hdup _]%list_elem_of_filter. tauto. }
  rewrite list_filter_filter_l.
  2:{ intros p [Hg Hd]. done. }
  apply length_filter_pointwise; [by rewrite length_imap|].
  intros i p r Hp Hr. rewrite list_lookup_imap, Hr in Hp.
  injection Hp as <-. simpl. split; [tauto|]. intros Hg. split; [done|].
  apply (Hwell r); [by eapply list_elem_of_lookup_2|]. by rewrite Hg.
Qed.

Lemma map_dim_in_case_types (dim : string) :
  _map_dim_to_case_type dim ∈ _CASE_TYPES.
Proof.
  unfold _map_dim_to_case_type, _CASE_TYPES.
  repeat (case_match; [rewrite !elem_of_cons; tauto|]).
  rewrite !elem_of_cons. tauto.
Qed.

Section WithWorld.
Context `{World}.

Lemma dq_priority_in_priorities (score : Q) :
  dq_priority score ∈ ["Critical"; "High"; "Medium"].
Proof.
  unfold dq_priority. repeat case_match; rewrite !elem_of_cons; tauto.
Qed.

Lemma dq_fold_raise (existing : list string) (results_df : list DQRow)
    (items : list (string * Q)) (e : exn) (st : SessionState) :
  foldl (dq_case_step existing results_df) (Raise e, st) items = (Raise e, st).
Proof.
  induction items as [|[dim score] items IH]; [done|]. exact IH.
Qed.

Lemma dq_fold_spec (existing : list string) (results_df : list DQRow)
    (items : list (string * Q)) (created : nat) (st : SessionState) :
  let out := foldl (dq_case_step existing results_df) (Ok created, st) items in
  ∃ new,
    cases out.2 = cases st ++ new
    ∧ case_counter out.2 = (case_counter st + length new)%nat
    ∧ (∀ n, out.1 = Ok n →
         n = (created + length new)%nat
         ∧ ∀ dim score, (dim, score) ∈ items → PyNum.ltb score 80 = true →
             dq_title dim score ∈ existing
             ∨ dq_title dim score ∈ title <$> new)
    ∧ Forall (λ c, dq_made existing items c) new.
Proof.
  revert created st. induction items as [|[dim score] items IH]; intros created st.
  { exists []. cbn [foldl fst snd length]. rewrite app_nil_r, Nat.add_0_r.
    split; [done|]. split; [done|]. split; [|constructor].
    intros n [= <-]. split; [lia|]. intros d s Hin. by apply elem_of_nil in Hin. }
  cbn [foldl].
  assert (∀ new, Forall (λ c, dq_made existing items c) new →
                 Forall (λ c, dq_made existing ((dim, score) :: items) c) new)
    as Hweaken.
  { intros new Hall. eapply Forall_impl; [exact Hall|].
    intros c (d & s & Hin & Hrest). exists d, s. split; [by right|done]. }
  destruct (PyNum.ltb score 80) eqn:Hlow.
  2:{ assert (dq_case_step existing results_df (Ok created, st) (dim, score)
              = (Ok created, st)) as ->
        by (unfold dq_case_step; by rewrite Hlow).
      destruct (IH created st) as (new & Hcases & Hcounter & Hok & Hall).
      exists new. split; [done|]. split; [done|]. split; [|by apply Hweaken].
      intros n Hn. destruct (Hok n Hn) as [-> Htitles]. split; [done|].
      intros d s [[= -> ->]|Hin]%elem_of_cons Hs; [congruence|].
      by apply Htitles. }
  destruct (decide (dq_title dim score ∈ existing)) as [Hold|Hnew].
  { assert (dq_case_step existing results_df (Ok created, st) (dim, score)
            = (Ok created, st)) as ->
      by (unfold dq_case_step; by rewrite Hlow, bool_decide_eq_true_2).
    destruct (IH created st) as (new & Hcases & Hcounter & Hok & Hall).
    exists new. split; [done|]. split; [done|]. split; [|by apply Hweaken].
    intros n Hn. destruct (Hok n Hn) as [-> Htitles]. split; [done|].
    intros d s [[= -> ->]|Hin]%elem_of_cons Hs; [by left|].
    by apply Htitles. }
  destruct (count_contains false dim (Issue_categories <$> results_df))
    as [failed|e] eqn:Hcount.
  2:{ assert (dq_case_step existing results_df (Ok created, st) (dim, score)
              = (Raise e, st)) as ->
        by (unfold dq_case_step; by rewrite Hlow, bool_decide_eq_false_2, Hcount).
      rewrite dq_fold_raise. exists []. cbn [fst snd length].
      rewrite app_nil_r, Nat.add_0_r. split; [done|]. split; [done|].
      split; [done|constructor]. }
  set (c := (create_case (clock (case_counter st)) (dq_title dim score)
               (_map_dim_to_case_type dim) (dq_priority score)
               ("Dimension '" +:+ dim +:+ "' scored " +:+ fmt_1f score
                +:+ "% — below 80% threshold.")
               failed "" "DQ Engine" None
               {| cases := []; case_counter := case_counter st |}).1).
  assert (dq_case_step existing results_df (Ok created, st) (dim, score)
          = (Ok (S created),
             {| cases := cases st ++ [c]; case_counter := S (case_counter st) |}))
    as ->.
  { unfold dq_case_step. by rewrite Hlow, bool_decide_eq_false_2, Hcount. }
  destruct (IH (S created)
              {| cases := cases st ++ [c]; case_counter := S (case_counter st) |})
    as (new & Hcases & Hcounter & Hok & Hall).
  cbn [cases case_counter] in Hcases, Hcounter.
  exists (c :: new). split.
  { rewrite Hcases, <- app_assoc. done. }
  split; [rewrite Hcounter; simpl; lia|]. split.
  - intros n Hn. destruct (Hok n Hn) as [-> Htitles]. split; [simpl; lia|].
    intros d s [[= -> ->]|Hin]%elem_of_cons Hs.
    + right. rewrite fmap_cons. left.
    + destruct (Htitles d s Hin Hs) as [?|?]; [by left|].
      right. rewrite fmap_cons. by right.
  - constructor; [|by apply Hweaken].
    exists dim, score. split; [left|]. by repeat split.
Qed.

Lemma dq_fold_nothing_new (existing : list string) (results_df : list DQRow)
    (items : list (string * Q)) (created : nat) (st : SessionState) :
  (∀ dim score, (dim, score) ∈ items → PyNum.ltb score 80 = true →
     dq_title dim score ∈ existing) →
  foldl (dq_case_step existing results_df) (Ok created, st) items
  = (Ok created, st).
Proof.
  induction items as [|[dim score] items IH]; intros Hold; [done|].
  cbn [foldl].
  assert (dq_case_step existing results_df (Ok created, st) (dim, score)
          = (Ok created, st)) as ->.
  { unfold dq_case_step. destruct (PyNum.ltb score 80) eqn:Hlow; [|done].
    rewrite bool_decide_eq_true_2; [done|]. apply Hold; [left|done]. }
  apply IH. intros d s Hin. apply Hold. by right.
Qed.

(** The cases of a quality run.  [auto_create_cases_from_dq] only
    appends to the case list, also when the search for a dimension
    raises; when it returns, the number it returns is the number of
    cases it appended.  On an empty table it does nothing.  Every case
    it creates is open, comes from the DQ Engine, has one of the case
    types and a title that no case of the session had; it is either the
    case of a dimension that scores below 80, Critical below 50, High
    below 70 and Medium otherwise, or the case of the rows with a
    uniqueness failure, of which there is at least one. *)
Theorem dq_cases_follow_the_scores
    (results_df : list DQRow) (dim_scores : list (string * Q))
    (st : SessionState) :
  let run := auto_create_cases_from_dq results_df dim_scores st in
  ∃ new,
    cases run.2 = cases st ++ new
    ∧ case_counter run.2 = (case_counter st + length new)%nat
    ∧ (∀ n, run.1 = Ok n → n = length new)
    ∧ (results_df = [] → run = (Ok 0%nat, st))
    ∧ ∀ c, c ∈ new →
        status c = "Open" ∧ source c = "DQ Engine"
        ∧ type_ c ∈ _CASE_TYPES
        ∧ (title c ∉ title <$> cases st)
        ∧ ((∃ dim score,
              (dim, score) ∈ dim_scores ∧ score < 80
              ∧ title c = dq_title dim score
              ∧ type_ c = _map_dim_to_case_type dim
              ∧ priority c = (if PyNum.ltb score 50 then "Critical"
                              else if PyNum.ltb score 70 then "High"
                              else "Medium"))
           ∨ (type_ c = "Duplicate Records" ∧ priority c = "High"
              ∧ (0 < affected_records c)%nat)).
Proof.
  intros run. subst run. unfold auto_create_cases_from_dq.
  destruct results_df as [|row0 rows0] eqn:Hdf.
  { exists []. cbn [fst snd length]. rewrite app_nil_r, Nat.add_0_r.
    split; [done|]. split; [done|]. split; [by intros n [= <-]|].
    split; [done|]. intros c Hc. by apply elem_of_nil in Hc. }
  assert (results_df ≠ []) as Hne by (by rewrite Hdf).
  rewrite <- Hdf. clear Hdf. cbv zeta.
  destruct (dq_fold_spec (title <$> cases st) results_df dim_scores 0 st)
    as (new & Hcases & Hcounter & Hok & Hall).
  assert (∀ c, c ∈ new →
            status c = "Open" ∧ source c = "DQ Engine"
            ∧ type_ c ∈ _CASE_TYPES
            ∧ (title c ∉ title <$> cases st)
            ∧ ((∃ dim score,
                  (dim, score) ∈ dim_scores ∧ score < 80
                  ∧ title c = dq_title dim score
                  ∧ type_ c = _map_dim_to_case_type dim
                  ∧ priority c = (if PyNum.ltb score 50 then "Critical"
                                  else if PyNum.ltb score 70 then "High"
                                  else "Medium"))
               ∨ (type_ c = "Duplicate Records" ∧ priority c = "High"
                  ∧ (0 < affected_records c)%nat))) as Hnew.
  { intros c Hc. rewrite Forall_forall in Hall.
    destruct (Hall c Hc) as (dim & score & Hin & Hlow & Ht & Hfresh & Hs & Hsrc
                             & Hty & Hprio).
    split; [done|]. split; [done|]. split.
    { rewrite Hty. apply map_dim_in_case_types. }
    split; [done|]. left. exists dim, score. split; [done|].
    split; [by apply SurvivorsProps.ltb_lt|]. by repeat split. }
  destruct (foldl (dq_case_step (title <$> cases st) results_df) (Ok 0%nat, st)
                  dim_scores) as [[created|e] st1] eqn:Hfold;
    cbn [fst snd] in *; cbv beta iota.
  2:{ exists new. cbn [fst snd]. split; [done|]. split; [done|].
      split; [done|]. split; [intros Hnil; by destruct Hne|done]. }
  destruct (Hok created eq_refl) as [-> _].
  destruct (count_contains true "uniqueness" (Failed_Rules <$> results_df))
    as [n|e].
  2:{ exists new. cbn [fst snd]. split; [done|]. split; [done|]. split; [done|].
      split; [intros Hnil; by destruct Hne|done]. }
  destruct (0 <? n)%nat eqn:Hn.
  2:{ exists new. cbn [fst snd]. split; [done|]. split; [done|].
      split; [by intros k [= <-]|]. split; [intros Hnil; by destruct Hne|done]. }
  apply Nat.ltb_lt in Hn.
  destruct (decide ("Duplicate Records Detected (" +:+ PyStr.of_nat n +:+ " rows)"
                    ∈ title <$> cases st)) as [Hold|Hfresh].
  { rewrite bool_decide_eq_true_2 by done.
    exists new. cbn [fst snd]. split; [done|]. split; [done|].
    split; [by intros k [= <-]|]. split; [intros Hnil; by destruct Hne|done]. }
  rewrite bool_decide_eq_false_2 by done. rewrite create_case_state.
  cbn [fst snd cases case_counter].
  eexists (new ++ [_]). split.
  { rewrite Hcases, <- app_assoc. reflexivity. }
  split; [rewrite Hcounter, length_app; simpl; lia|].
  split; [intros k [= <-]; rewrite length_app; simpl; lia|].
  split; [intros Hnil; by destruct Hne|].
  intros c [Hc|Hc%list_elem_of_singleton]%elem_of_app; [by apply Hnew|].
  subst c. cbn. split; [done|]. split; [done|]. split.
  { unfold _CASE_TYPES. left. }
  split; [done|]. right. by repeat split.
Qed.

(** Running it again.  After a call of [auto_create_cases_from_dq] that
    returned, a second call with the same table and scores creates
    nothing and leaves the session as it is. *)
Theorem dq_cases_are_created_once
    (results_df : list DQRow) (dim_scores : list (string * Q))
    (st st1 : SessionState) (n : nat) :
  auto_create_cases_from_dq results_df dim_scores st = (Ok n, st1) →
  auto_create_cases_from_dq results_df dim_scores st1 = (Ok 0%nat, st1).
Proof.
  unfold auto_create_cases_from_dq.
  destruct results_df as [|row0 rows0] eqn:Hdf; [by intros [= _ <-]|].
  rewrite <- Hdf. clear Hdf. cbv zeta.
  destruct (dq_fold_spec (title <$> cases st) results_df dim_scores 0 st)
    as (new & Hcases & Hcounter & Hok & _).
  destruct (foldl (dq_case_step (title <$> cases st) results_df) (Ok 0%nat, st)
                  dim_scores) as [[created|e] stA] eqn:Hfold;
    cbn [fst snd] in *; cbv beta iota; [|done].
  destruct (Hok created eq_refl) as [_ Htitles].
  destruct (count_contains true "uniqueness" (Failed_Rules <$> results_df))
    as [k|e]; [|done].
  set (dup_title := "Duplicate Records Detected (" +:+ PyStr.of_nat k +:+ " rows)").
  intros Hfirst.
  assert (cases stA `prefix_of` cases st1
          ∧ ((0 <? k)%nat = true → dup_title ∈ title <$> cases st1)) as [Hpre Hdup].
  { destruct (0 <? k)%nat; [|by injection Hfirst as _ <-].
    destruct (decide (dup_title ∈ title <$> cases st)) as [Hold|Hnew].
    - rewrite bool_decide_eq_true_2 in Hfirst by done.
      injection Hfirst as _ <-. split; [done|]. intros _.
      rewrite Hcases, fmap_app, elem_of_app. by left.
    - rewrite bool_decide_eq_false_2 in Hfirst by done.
      rewrite create_case_state in Hfirst. injection Hfirst as _ <-.
      cbn [cases]. split; [by apply prefix_app_r|]. intros _.
      rewrite fmap_app, elem_of_app. right. rewrite list_fmap_singleton.
      by apply list_elem_of_singleton. }
  destruct Hpre as [more Hmore].
  rewrite dq_fold_nothing_new.
  2:{ intros dim score Hin Hlow. rewrite Hmore, Hcases, !fmap_app, !elem_of_app.
      destruct (Htitles dim score Hin Hlow) as [?|?]; [by left; left|by left; right]. }
  destruct (0 <? k)%nat; [|done].
  by rewrite bool_decide_eq_true_2 by (by apply Hdup).
Qed.

End WithWorld.

Section WithExternals.
Context `{Externals}.

(** The group ids of a run: one per duplicate key and one per fuzzy
    group. *)
Lemma run_group_keys (df : DataFrame) (match_columns : list string)
    (fuzzy : bool) (threshold : Q) out stash (keys : list string) :
  detect_duplicates df match_columns fuzzy threshold = Ok (out, stash) →
  match_keys df match_columns = Ok keys →
  group_keys (filter (λ p : nat * DupRow, _is_duplicate (ann p.2) = true)
                     (imap pair (dup_rows out)))
  ≡ₚ ((λ k, exact_gid (S k)) <$> seq 0 (length (dup_keys keys)))
     ++ ((λ k, fuzzy_gid (length (dup_keys keys) + S k))
         <$> seq 0 (length (default [] stash))).
Proof.
  intros Hrun Hkeys.
  destruct (detect_duplicates_well_annotated _ _ _ _ _ _ Hrun) as [Hwell _].
  pose proof (length_match_keys _ _ _ Hkeys) as Hlen.
  destruct (phases_groups keys df match_columns fuzzy threshold Hlen)
    as (Hnd & Hfuzzy & _).
  destruct (detect_duplicates_inv _ _ _ _ _ _ Hrun) as (keys' & Hkeys' & Hstash & Hout).
  rewrite Hkeys in Hkeys'. injection Hkeys' as <-.
  pose proof (phases_groups_nonempty keys df match_columns fuzzy threshold)
    as Hfull.
  rewrite <- Hstash in Hnd, Hfuzzy, Hfull.
  assert (length (dup_rows out) = length keys) as Hlen_out.
  { rewrite Hout. simpl.
    rewrite length_zip_with, length_recency, length_phases. lia. }
  set (dup_only := filter (λ p : nat * DupRow, _is_duplicate (ann p.2) = true)
                          (imap pair (dup_rows out))).
  assert (∀ g, g ∈ group_keys dup_only
               ↔ ∃ i r, dup_rows out !! i = Some r
                        ∧ _dup_group_id (ann r) = Some g) as Hkeys_of.
  { intros g. rewrite elem_of_group_keys. split.
    - intros (p & [_ Hp%SurvivorsProps.elem_of_imap_pair]%list_elem_of_filter & Hg).
      by exists p.1, p.2.
    - intros (i & r & Hr & Hg). exists (i, r). split; [|done].
      apply list_elem_of_filter. split.
      + apply (Hwell r); [by eapply list_elem_of_lookup_2|]. by rewrite Hg.
      + by apply SurvivorsProps.elem_of_imap_pair. }
  apply NoDup_Permutation.
  - apply NoDup_group_keys.
  - apply NoDup_app. split; [|split].
    + apply NoDup_fmap_2; [|apply NoDup_seq].
      intros a b Hab%exact_gid_inj. lia.
    + intros g (a & -> & _)%list_elem_of_fmap (b & Heq & _)%list_elem_of_fmap.
      by apply exact_gid_not_fuzzy in Heq.
    + apply NoDup_fmap_2; [|apply NoDup_seq].
      intros a b Hab%fuzzy_gid_inj. lia.
  - intros g. rewrite Hkeys_of, elem_of_app, !list_elem_of_fmap. split.
    + intros (i & r & Hr & Hg).
      destruct (run_classify _ _ _ _ _ _ _ _ _ Hrun Hkeys Hr)
        as (key & row & Hkey & _ & _ & _ & Hkind).
      destruct Hkind as [(k & Hk & Hg' & _)
                        |[(_ & k & grp & Hgrp & _ & Hg' & _)
                         |(_ & _ & Hg' & _)]]; rewrite Hg' in Hg.
      * left. exists k. split; [by injection Hg|].
        apply elem_of_seq. apply lookup_lt_Some in Hk. lia.
      * right. exists k. split; [by injection Hg|].
        apply elem_of_seq. apply lookup_lt_Some in Hgrp. lia.
      * done.
    + intros [(k & -> & Hk%elem_of_seq)|(k & -> & Hk%elem_of_seq)].
      * destruct (lookup_lt_is_Some_2 (dup_keys keys) k) as [key Hkey]; [lia|].
        assert (key ∈ keys) as Hin.
        { apply PandasProps.occurrences_pos.
          assert (2 ≤ occurrences key keys)%nat; [|lia].
          apply elem_of_dup_keys. by eapply list_elem_of_lookup_2. }
        apply list_elem_of_lookup_1 in Hin as [i Hi].
        destruct (lookup_lt_is_Some_2 (dup_rows out) i) as [r Hr].
        { apply lookup_lt_Some in Hi. lia. }
        exists i, r. split; [done|].
        destruct (run_classify _ _ _ _ _ _ _ _ _ Hrun Hkeys Hr)
          as (key' & row & Hkey' & _ & _ & _ & Hkind).
        rewrite Hi in Hkey'. injection Hkey' as <-.
        destruct Hkind as [(k' & Hk' & Hg' & _)|[(Hocc & _)|(Hocc & _)]].
        -- assert (k' = k) as ->; [|done].
           eapply (NoDup_lookup (dup_keys keys));
             [apply (PandasProps.NoDup_repeated keys)|done..].
        -- assert (2 ≤ occurrences key keys)%nat; [|lia].
           apply elem_of_dup_keys. by eapply list_elem_of_lookup_2.
        -- assert (2 ≤ occurrences key keys)%nat; [|lia].
           apply elem_of_dup_keys. by eapply list_elem_of_lookup_2.
      * destruct (lookup_lt_is_Some_2 (default [] stash) k) as [grp Hgrp]; [lia|].
        assert (∃ i, i ∈ grp) as [i Hi].
        { destruct grp as [|i grp]; [|exists i; left].
          exfalso. apply (Hfull []); [|done]. by eapply list_elem_of_lookup_2. }
        destruct (Hfuzzy k grp i Hgrp Hi) as (_ & _ & key & _ & _ & Hkey & Hocc & _).
        destruct (lookup_lt_is_Some_2 (dup_rows out) i) as [r Hr].
        { apply lookup_lt_Some in Hkey. lia. }
        exists i, r. split; [done|].
        destruct (run_classify _ _ _ _ _ _ _ _ _ Hrun Hkeys Hr)
          as (key' & row & Hkey' & _ & _ & _ & Hkind).
        rewrite Hkey in Hkey'. injection Hkey' as <-.
        destruct Hkind as [(k' & Hk' & _)
                          |[(_ & k' & grp' & Hgrp' & Hi' & Hg' & _)
                           |(_ & Hout' & _)]].
        -- assert (2 ≤ occurrences key keys)%nat; [|lia].
           apply elem_of_dup_keys. by eapply list_elem_of_lookup_2.
        -- assert (k' = k) as ->; [|done].
           by eapply (NoDup_concat_unique _ k' k grp' grp i Hnd).
        -- exfalso. apply Hout'. apply StudioProps.elem_of_concat.
           exists grp. split; [|done]. by eapply list_elem_of_lookup_2.
Qed.

Context `{World}.

(** One case per duplicate group.  After a run of [detect_duplicates],
    on a session that holds no case with the title of a duplicate group
    on these match columns, [_auto_create_cases_for_dup_groups] creates
    as many cases as the run has groups: one per repeated match key and
    one per fuzzy group.  Each of them is open, of the type Duplicate
    Records and the priority High, and names in its title and in
    [affected_records] the number of rows that carry its group id; and
    every group id of the result has its case. *)
Theorem one_case_per_duplicate_group
    (df : DataFrame) (match_columns : list string) (fuzzy : bool)
    (threshold : Q) out stash (keys : list string) (match_type : string)
    (st : SessionState) :
  detect_duplicates df match_columns fuzzy threshold = Ok (out, stash) →
  match_keys df match_columns = Ok keys →
  (∀ gid n, dup_group_title gid n match_columns ∉ title <$> cases st) →
  let run := _auto_create_cases_for_dup_groups out match_columns match_type st in
  run.1 = (length (dup_keys keys) + length (default [] stash))%nat
  ∧ ∃ new,
      cases run.2 = cases st ++ new
      ∧ length new = run.1
      ∧ (∀ c, c ∈ new →
           status c = "Open" ∧ type_ c = "Duplicate Records"
           ∧ priority c = "High" ∧ source c = "Dynamic Duplicate Studio"
           ∧ ∃ gid,
               extra c !! "group_id" = Some gid
               ∧ title c = dup_group_title gid (affected_records c) match_columns
               ∧ affected_records c
                 = length (filter (λ r : DupRow, _dup_group_id (ann r) = Some gid)
                                  (dup_rows out))
               ∧ (0 < affected_records c)%nat)
      ∧ (∀ r gid, r ∈ dup_rows out → _dup_group_id (ann r) = Some gid →
           ∃ c, c ∈ new ∧ extra c !! "group_id" = Some gid).
Proof.
  intros Hrun Hkeys Hfresh run. subst run.
  destruct (detect_duplicates_well_annotated _ _ _ _ _ _ Hrun) as [Hwell _].
  pose proof (run_group_keys _ _ _ _ _ _ _ Hrun Hkeys) as Hperm.
  apply Permutation_length in Hperm.
  rewrite length_app, !length_fmap, !length_seq in Hperm.
  unfold _auto_create_cases_for_dup_groups. cbv zeta.
  rewrite dup_fold_spec. cbn [fst snd cases case_counter].
  set (dup_only := filter (λ p : nat * DupRow, _is_duplicate (ann p.2) = true)
                          (imap pair (dup_rows out))) in *.
  rewrite StudioProps.filter_all by (intros gid _; apply Hfresh).
  split; [lia|].
  eexists. split; [reflexivity|]. split; [by rewrite length_imap|]. split.
  - intros c (k & gid & -> & Hk)%elem_of_lookup_imap.
    split; [done|]. split; [done|]. split; [done|]. split; [done|].
    exists gid. split; [apply lookup_insert_eq|]. split; [done|].
    change (affected_records (dup_case dup_only match_columns match_type
                                (case_counter st + k) gid))
      with (length (loop_group out gid)).
    rewrite length_loop_group by done. split; [done|].
    rewrite <- length_loop_group by done.
    apply list_elem_of_lookup_2, elem_of_group_keys in Hk as (p & Hp & Hg).
    assert (p ∈ loop_group out gid) as Hin by (by apply list_elem_of_filter).
    destruct (loop_group out gid); [by apply elem_of_nil in Hin|simpl; lia].
  - intros r gid Hr Hg.
    assert (gid ∈ group_keys dup_only) as Hin.
    { apply list_elem_of_lookup_1 in Hr as [i Hi].
      apply elem_of_group_keys. exists (i, r). split; [|done].
      apply list_elem_of_filter. split.
      - apply (Hwell r); [by eapply list_elem_of_lookup_2|]. by rewrite Hg.
      - by apply SurvivorsProps.elem_of_imap_pair. }
    apply list_elem_of_lookup_1 in Hin as [k Hk].
    exists (dup_case dup_only match_columns match_type (case_counter st + k) gid).
    split; [|apply lookup_insert_eq].
    apply elem_of_lookup_imap. by exists k, gid.
Qed.

End WithExternals.

Lemma dq_cases_are_created_once_witness :
  let run := @auto_create_cases_from_dq demo_world
               [ {| Issue_categories := Some "Validity";
                    Failed_Rules := Some "not_null" |} ]
               [("Validity", 40)] init_case_management_state in
  @auto_create_cases_from_dq demo_world
    [ {| Issue_categories := Some "Validity"; Failed_Rules := Some "not_null" |} ]
    [("Validity", 40)] run.2
  = (Ok 0%nat, run.2).
Proof.
  intros run.
  apply (@dq_cases_are_created_once demo_world
           [ {| Issue_categories := Some "Validity";
                Failed_Rules := Some "not_null" |} ]
           [("Validity", 40)] init_case_management_state run.2 1).
  subst run. vm_compute. reflexivity.
Defined.

(** A dimension at 40 and one row with a uniqueness failure: a Critical
    case and the case of the duplicates. *)
Example dq_cases_on_a_table :
  (λ run : Res nat * SessionState,
     (run.1, (λ c, (case_id c, title c, type_ c, priority c, affected_records c))
             <$> cases run.2))
    (@auto_create_cases_from_dq demo_world
       [ {| Issue_categories := Some "Validity"; Failed_Rules := Some "Uniqueness" |};
         {| Issue_categories := None; Failed_Rules := None |} ]
       [("Validity", 40); ("Accuracy", 90)] init_case_management_state)
  = (Ok 2%nat,
     [("CASE-0001", "DQ Issue: Validity score x%", "Invalid Format", "Critical", 1%nat);
      ("CASE-0002", "Duplicate Records Detected (1 rows)", "Duplicate Records",
       "High", 1%nat)]).
Proof. vm_compute. reflexivity. Qed.

Lemma one_case_per_duplicate_group_witness :
  ∃ out stash,
    abb_run = Ok (out, stash)
    ∧ (@_auto_create_cases_for_dup_groups demo_world out ["k"] "Exact"
         init_case_management_state).1 = 2%nat.
Proof.
  destruct abb_run as [[out stash]|e] eqn:Hrun; [|by vm_compute in Hrun].
  assert (@match_keys demo_externals abb ["k"] = Ok ["a"; "a"; "b"; "b"; "b"])
    as Hkeys by (vm_compute; reflexivity).
  destruct (@one_case_per_duplicate_group demo_externals demo_world abb ["k"]
              false (85 # 100) out stash ["a"; "a"; "b"; "b"; "b"] "Exact"
              init_case_management_state Hrun Hkeys) as [Hcount _].
  { intros gid n Hin. by apply elem_of_nil in Hin. }
  exists out, stash. split; [done|]. rewrite Hcount.
  vm_compute in Hrun. injection Hrun as <- <-. reflexivity.
Defined.

(** The two cases of [abb]: the group of [b] comes first. *)
Example dup_cases_on_abb :
  (run ← abb_run;
   Ok ((λ c, (case_id c, title c, affected_records c))
       <$> cases (@_auto_create_cases_for_dup_groups demo_world run.1 ["k"]
                    "Exact" init_case_management_state).2))
  = Ok [("CASE-0001", "Dup Group DG-0001: 3 records on [k]", 3%nat);
        ("CASE-0002", "Dup Group DG-0002: 2 records on [k]", 2%nat)].
Proof. vm_compute. reflexivity. Qed.

End CaseAutoProps.

(** ** The rulebook builder *)

Module BuilderProps.
Import DQCore Builder.

Section WithAliases.
Variable rule_alias_map : gmap string string.
Variable now_iso : string.

Lemma length_omap_le {A B} (f : A → option B) (l : list A) :
  (length (omap f l) ≤ length l)%nat.
Proof.
  induction l as [|x l IH]; [done|]. cbn [omap list_omap].
  destruct (f x); simpl; lia.
Qed.

(** What holds of a rule the builder makes from a row. *)
Lemma rule_of_row_spec (sheet : Sheet) (base_columns : list string)
    (col_name_field rule_type_field : string) (dimension_field : option string)
    (row : gmap string SheetCell) (rule : Rule) :
  (∀ field, dimension_field = Some field → field ∈ sheet_columns sheet) →
  rule_of_row rule_alias_map sheet base_columns col_name_field rule_type_field
              dimension_field row = Some rule →
  (∃ text, message rule = TextValue text) ∧ is_Some (severity rule)
  ∧ dimension rule
    = TextValue (match dimension_field with
                 | Some field => cell_str (default NaN (row !! field))
                 | None => if bool_decide (column rule = None) then "Uniqueness"
                           else "General"
                 end)
  ∧ ((rule_type rule = Some "uniqueness_combination" ∧ column rule = None
      ∧ expression rule = None
      ∧ ∃ cols, rule_columns rule = Some cols ∧ (2 ≤ length cols)%nat
                ∧ cols ⊆ base_columns)
     ∨ (∃ col rt, column rule = Some col ∧ col ∈ base_columns
                  ∧ rule_columns rule = None ∧ rule_type rule = Some rt)).
Proof.
  intros Hfield. unfold rule_of_row. cbv zeta.
  assert (∀ dflt, dimension_of sheet row dimension_field dflt
                  = match dimension_field with
                    | Some field => cell_str (default NaN (row !! field))
                    | None => dflt
                    end) as Hdim.
  { intros dflt. unfold dimension_of, row_get_default.
    destruct dimension_field as [field|]; [|done].
    by rewrite bool_decide_eq_true_2 by (by apply Hfield). }
  destruct (blank (row_get sheet row col_name_field)); [done|].
  destruct (PyStr.contains "+" (cell_str (row_get sheet row col_name_field))).
  - unfold _build_combination_rule. cbv zeta.
    destruct (length _ <? 2)%nat eqn:Hlen; [done|].
    apply Nat.ltb_ge in Hlen. intros [= <-]. cbn.
    split; [by eexists|]. split; [done|]. split.
    { rewrite Hdim. by destruct dimension_field. }
    left. split; [done|]. split; [done|]. split; [done|].
    eexists. split; [done|]. split; [done|].
    intros c [Hc _]%list_elem_of_filter. done.
  - destruct (bool_decide_reflect
                (PyStr.strip (cell_str (row_get sheet row col_name_field))
                 ∈ base_columns)) as [Hin|]; [|done].
    unfold _build_single_rule. cbv zeta.
    destruct (blank (row_get sheet row rule_type_field)); [done|].
    intros [= <-]. cbn.
    split; [by eexists|]. split; [done|]. split.
    { rewrite Hdim. by destruct dimension_field. }
    right. by eexists _, _.
Qed.

(** The rulebook of a rules sheet.  [build_from_rules_dataset] returns
    exactly when the sheet has a column [column_name] or [column] and a
    column [rule_type] or [rule]; otherwise it raises a [ValueError].
    The rulebook has at most one rule per row of the sheet and
    [total_rules] is their number.  A rule made from a row names only
    columns of the data: it is either a rule on one column of
    [base_columns], or, for a cell with a plus sign, a
    [uniqueness_combination] rule over at least two columns of
    [base_columns], whatever the rule cell of the row says.  Its
    message is a text, and its dimension is the text of the dimension
    cell of the row, the text of a missing cell included; the defaults
    General and Uniqueness are used only when the sheet has no
    dimension column. *)
Theorem rulebook_from_a_sheet (sheet : Sheet) (base_columns : list string) :
  ((∃ b, build_from_rules_dataset rule_alias_map now_iso sheet base_columns = Ok b)
   ↔ ("column_name" ∈ sheet_columns sheet ∨ "column" ∈ sheet_columns sheet)
     ∧ ("rule_type" ∈ sheet_columns sheet ∨ "rule" ∈ sheet_columns sheet))
  ∧ (∀ e, build_from_rules_dataset rule_alias_map now_iso sheet base_columns
          = Raise e → ∃ msg, e = ValueError msg)
  ∧ ∀ b, build_from_rules_dataset rule_alias_map now_iso sheet base_columns = Ok b →
      total_rules b = length (rules (built b))
      ∧ (length (rules (built b)) ≤ length (sheet_rows sheet))%nat
      ∧ ∀ rule, rule ∈ rules (built b) →
          ∃ row, row ∈ sheet_rows sheet
            ∧ (∃ text, message rule = TextValue text)
            ∧ is_Some (severity rule)
            ∧ dimension rule
              = TextValue (match _detect_dimension_field sheet with
                           | Some field => cell_str (default NaN (row !! field))
                           | None => if bool_decide (column rule = None)
                                     then "Uniqueness" else "General"
                           end)
            ∧ ((rule_type rule = Some "uniqueness_combination"
                ∧ column rule = None ∧ expression rule = None
                ∧ ∃ cols, rule_columns rule = Some cols ∧ (2 ≤ length cols)%nat
                          ∧ cols ⊆ base_columns)
               ∨ (∃ col rt, column rule = Some col ∧ col ∈ base_columns
                            ∧ rule_columns rule = None
                            ∧ rule_type rule = Some rt)).
Proof.
  unfold build_from_rules_dataset, _detect_column_field, _detect_rule_field.
  destruct (bool_decide_reflect ("column_name" ∈ sheet_columns sheet)) as [Hc1|Hc1];
    [|destruct (bool_decide_reflect ("column" ∈ sheet_columns sheet)) as [Hc2|Hc2]];
    (destruct (bool_decide_reflect ("rule_type" ∈ sheet_columns sheet)) as [Hr1|Hr1];
     [|destruct (bool_decide_reflect ("rule" ∈ sheet_columns sheet)) as [Hr2|Hr2]]);
    cbn.
  all: split; [split; [intros [b Hb]; try done; tauto
                      |intros [Hc Hr]; try (by eexists); exfalso; tauto]|].
  all: split; [intros e He; try done; injection He as <-; by eexists|].
  all: intros b Hb; try done; injection Hb as <-; cbn.
  all: split; [done|]; split; [apply length_omap_le|].
  all: intros rule (row & Hrow & Hrule)%list_elem_of_omap.
  all: exists row; split; [done|].
  all: eapply rule_of_row_spec; [|exact Hrule].
  all: unfold _detect_dimension_field; intros field;
       repeat case_bool_decide; intros [= <-]; done.
Qed.

End WithAliases.

(** The demo sheet against data with the columns [id], [a] and [b] and
    no aliases: the row on [ghost] and the row without column give no
    rule, the combination keeps [a] and [b] and ignores its rule cell,
    and the missing dimension cell of the first row reads as the text
    of NaN. *)
Example rulebook_of_demo_sheet :
  (b ← build_from_rules_dataset ∅ "t" demo_sheet ["id"; "a"; "b"];
   Ok (rules (built b), total_rules b))
  = Ok ([ {| rule_type := Some "not_null"; column := Some "id";
              rule_columns := None; expression := None;
              message := TextValue "id: not_null validation failed";
              dimension := TextValue "nan"; severity := Some "MEDIUM" |};
           {| rule_type := Some "uniqueness_combination"; column := None;
              rule_columns := Some ["a"; "b"]; expression := None;
              message := TextValue "Combination a + b should be unique";
              dimension := TextValue "Uniqueness"; severity := Some "HIGH" |} ],
        2%nat).
Proof. by vm_compute. Qed.

End BuilderProps.

(** ** The tracker of uniqueness failures *)

Module TrackersProps.
Import Pandas DQCore Trackers Demo RuleTypes DQCoreProps ExecutorProps.

Local Arguments _is_null_or_empty : simpl never.

Lemma note_fold (idx : nat) (details : list RuleResult)
    (failures : gmap string (list nat)) (col : string) (i : nat) :
  i ∈ default [] (foldl (note_failure idx) failures details !! col)
  ↔ i ∈ default [] (failures !! col)
    ∨ (i = idx ∧ ∃ rd, rd ∈ details ∧ res_rule_type rd = Some "uniqueness"
                       ∧ detail_column rd = col ∧ col ≠ "").
Proof.
  revert failures. induction details as [|rd details IH]; intros failures.
  - simpl. split; [by left|]. intros [?|(_ & rd & Hin & _)]; [done|].
    by apply elem_of_nil in Hin.
  - cbn [foldl]. rewrite IH. clear IH. unfold note_failure at 1.
    destruct (bool_decide_reflect (res_rule_type rd = Some "uniqueness"))
      as [Hty|Hty]; cbn [andb].
    2:{ split.
        - intros [?|(-> & rd' & Hin & ?)]; [by left|]. right. split; [done|].
          exists rd'. split; [by right|done].
        - intros [?|(-> & rd' & Hin & Hty' & ?)]; [by left|]. right.
          split; [done|]. exists rd'.
          apply elem_of_cons in Hin as [->|Hin]; [done|]. done. }
    destruct (PyStr.truthy (detail_column rd)) eqn:Htruthy.
    2:{ assert (detail_column rd = "") as Hempty
          by (by destruct (detail_column rd)).
        split.
        - intros [?|(-> & rd' & Hin & ?)]; [by left|]. right. split; [done|].
          exists rd'. split; [by right|done].
        - intros [?|(-> & rd' & Hin & Hty' & Hcol & Hne)]; [by left|]. right.
          split; [done|]. exists rd'.
          apply elem_of_cons in Hin as [->|Hin]; [congruence|]. done. }
    assert (detail_column rd ≠ "") as Hne
      by (intros Heq; by rewrite Heq in Htruthy).
    destruct (decide (detail_column rd = col)) as [Heq|Hother].
    + rewrite Heq, lookup_insert_eq. cbn [from_option id]. rewrite elem_of_app.
      rewrite list_elem_of_singleton. split.
      * intros [[?| ->]|(-> & rd' & Hin & ?)]; [by left| |].
        -- right. split; [done|]. exists rd. split; [left|]. by rewrite <- Heq.
        -- right. split; [done|]. exists rd'. split; [by right|done].
      * intros [?|(-> & rd' & Hin & ?)]; [by left; left|].
        apply elem_of_cons in Hin as [->|Hin]; [by left; right|].
        right. split; [done|]. by exists rd'.
    + rewrite lookup_insert_ne by done. split.
      * intros [?|(-> & rd' & Hin & ?)]; [by left|]. right. split; [done|].
        exists rd'. split; [by right|done].
      * intros [?|(-> & rd' & Hin & Hty' & Hcol & ?)]; [by left|]. right.
        split; [done|]. exists rd'.
        apply elem_of_cons in Hin as [->|Hin]; [done|]. done.
Qed.

Lemma tracker_fold (l : list (nat * AnnotatedRow))
    (failures : gmap string (list nat)) (col : string) (i : nat) :
  i ∈ default [] (foldl (λ failures '(idx, row),
                           foldl (note_failure idx) failures
                                 (_failed_rules_details row))
                        failures l !! col)
  ↔ i ∈ default [] (failures !! col)
    ∨ ∃ row rd, (i, row) ∈ l ∧ rd ∈ _failed_rules_details row
                ∧ res_rule_type rd = Some "uniqueness"
                ∧ detail_column rd = col ∧ col ≠ "".
Proof.
  revert failures. induction l as [|[idx row] l IH]; intros failures.
  - simpl. split; [by left|]. intros [?|(row & rd & Hin & _)]; [done|].
    by apply elem_of_nil in Hin.
  - cbn [foldl]. rewrite IH, note_fold. clear IH. split.
    + intros [[?|(-> & rd & Hrd)]|(row' & rd & Hin & Hrd)].
      * by left.
      * right. exists row, rd. split; [left|done].
      * right. exists row', rd. split; [by right|done].
    + intros [?|(row' & rd & Hin & Hrd)]; [by left; left|].
      apply elem_of_cons in Hin as [[= -> ->]|Hin].
      * left. right. split; [done|]. by exists rd.
      * right. by exists row', rd.
Qed.

Section WithExternals.
Context `{Externals}.

(** The result of a rule that is not a combination rule. *)
Lemma single_rule_shape (self : Engine) (row : Row) (rule : Rule) (idx : nat)
    (r : RuleResult) :
  _execute_single_rule self row rule idx = Ok r →
  (rule_type rule = Some "uniqueness_combination"
   ∧ res_rule_type r = Some "uniqueness_combination")
  ∨ (rule_type rule ≠ Some "uniqueness_combination"
     ∧ res_rule_type r = rule_type rule
     ∧ res_column r = column rule ∧ res_columns r = None
     ∧ (passed r = false →
          ∃ c, column rule = Some c ∧ c ∈ column_names (df self))).
Proof.
  unfold _execute_single_rule.
  destruct (bool_decide_reflect (rule_type rule = Some "uniqueness_combination"))
    as [Hty|Hty].
  { intros [= <-]. left. split; [done|].
    unfold _execute_combination_uniqueness.
    by destruct (length (default [] (rule_columns rule)) <? 2)%nat. }
  intros Hr. right. split; [done|].
  destruct (column rule) as [col|]; [|by injection Hr as <-].
  destruct (bool_decide_reflect (col ∈ column_names (df self))) as [Hin|];
    [|by injection Hr as <-].
  destruct (match rule_type rule with
            | Some rt => dispatch self rt col (row !! col) (expression rule) idx
            | None => Ok true
            end) as [ok|e]; simpl in Hr; injection Hr as <-; cbn;
    (split; [done|]; split; [done|]; split; [done|]; intros _; by exists col).
Qed.

(** The result of a uniqueness rule on a column of the frame. *)
Lemma uniqueness_result (frame : DataFrame) (rb : Rulebook) (row : Row)
    (rule : Rule) (idx : nat) (col : string) (r : RuleResult) :
  rule_type rule = Some "uniqueness" → column rule = Some col →
  col ∈ column_names frame →
  rows frame !! idx = Some row →
  _execute_single_rule (RuleExecutorEngine frame rb) row rule idx = Ok r →
  passed r = false
  ↔ _is_null_or_empty (row !! col) = false
    ∧ (2 ≤ occurrences (row !! col) (Pandas.column frame col))%nat.
Proof.
  intros Hty Hcol Hin Hrow. unfold _execute_single_rule.
  rewrite Hty, Hcol. rewrite bool_decide_eq_false_2 by done.
  cbn [df RuleExecutorEngine]. rewrite (bool_decide_eq_true_2 _ Hin).
  unfold dispatch.
  change (String.eqb "uniqueness" "not_null") with false.
  change (String.eqb "uniqueness" "uniqueness") with true.
  cbv iota. rewrite duplicate_cache_lookup by done. simpl.
  intros [= <-]. cbn [passed].
  rewrite negb_false_iff, bool_decide_eq_true, elem_of_column_dup_indices.
  assert (Pandas.column frame col !! idx = Some (row !! col)) as Hcell.
  { unfold Pandas.column. by rewrite list_lookup_fmap, Hrow. }
  split.
  - intros (v & Hv & Hnull & Hocc). rewrite Hcell in Hv. injection Hv as Hv.
    rewrite Hv. split; [done|lia].
  - intros [Hnull Hocc].
    destruct (row !! col) as [v|] eqn:Hval; [|done].
    exists v. split; [done|]. split; [done|lia].
Qed.

(** The annexure of uniqueness failures.  For the table of a run and a
    column name that is not empty, the tracker lists a row under the
    column exactly when the rulebook has a uniqueness rule on that
    column, the column is a column of the frame, the value of the row
    there is not null or blank, and the value stands in at least two
    rows. *)
Theorem uniqueness_tracker_lists_repeated_values
    (frame : DataFrame) (rb : Rulebook) (table : list AnnotatedRow)
    (col : string) (i : nat) :
  execute_all_rules (RuleExecutorEngine frame rb) = Ok table →
  col ≠ "" →
  i ∈ default [] (_build_uniqueness_failures table !! col)
  ↔ (∃ rule, rule ∈ rules rb ∧ rule_type rule = Some "uniqueness"
             ∧ column rule = Some col)
    ∧ col ∈ column_names frame
    ∧ ∃ row, rows frame !! i = Some row
             ∧ _is_null_or_empty (row !! col) = false
             ∧ (2 ≤ occurrences (row !! col) (Pandas.column frame col))%nat.
Proof.
  intros Hrun Hne. unfold _build_uniqueness_failures.
  rewrite tracker_fold, lookup_empty. cbn [from_option id]. split.
  - intros [Hnil|(ar & rd & Har%SurvivorsProps.elem_of_imap_pair & Hrd & Hty
                  & Hcol & _)]; [by apply elem_of_nil in Hnil|].
    simpl in Har.
    destruct (run_row_details _ _ _ _ Hrun Har)
      as (row & results & Hrow & Hall & _ & ->).
    cbn [_failed_rules_details] in Hrd.
    apply list_elem_of_filter in Hrd as [Hfail Hrd].
    apply list_elem_of_lookup_1 in Hrd as [k Hk].
    destruct (Forall2_lookup_r _ _ _ _ _ Hall Hk) as (rule & Hrule & Hexec).
    cbn [rulebook RuleExecutorEngine] in Hrule.
    destruct (single_rule_shape _ _ _ _ _ Hexec)
      as [[_ Hcombo]|(Hnot & Hrt & Hrc & Hrcs & Hpass)]; [congruence|].
    destruct (Hpass Hfail) as (c & Hc & Hin). cbn [df RuleExecutorEngine] in Hin.
    assert (c = col) as ->.
    { unfold detail_column in Hcol. rewrite Hrc, Hc, Hrcs in Hcol.
      destruct (PyStr.truthy c); [done|]. simpl in Hcol. congruence. }
    assert (rule_type rule = Some "uniqueness") as Hty' by congruence.
    split; [exists rule; split; [by eapply list_elem_of_lookup_2|done]|].
    split; [done|]. exists row. cbn [df RuleExecutorEngine] in Hrow.
    split; [done|].
    by apply (uniqueness_result frame rb row rule i col rd).
  - intros ((rule & Hrule & Hty & Hcol) & Hin & row & Hrow & Hnull & Hocc).
    right.
    destruct (lookup_lt_is_Some_2 table i) as [ar Har].
    { rewrite (proj1 (run_rows _ _ Hrun)). cbn [df RuleExecutorEngine].
      by eapply lookup_lt_Some. }
    destruct (run_row_details _ _ _ _ Hrun Har)
      as (row' & results & Hrow' & Hall & _ & Hdet).
    cbn [df RuleExecutorEngine] in Hrow'. rewrite Hrow in Hrow'.
    injection Hrow' as <-.
    apply list_elem_of_lookup_1 in Hrule as [k Hk].
    destruct (Forall2_lookup_l _ _ _ _ _ Hall Hk) as (rd & Hrd & Hexec).
    destruct (single_rule_shape _ _ _ _ _ Hexec)
      as [[Hcombo _]|(Hnot & Hrt & Hrc & Hrcs & _)]; [congruence|].
    exists ar, rd. split; [by apply SurvivorsProps.elem_of_imap_pair|].
    split.
    { rewrite Hdet. cbn [_failed_rules_details].
      apply list_elem_of_filter. split.
      - by apply (uniqueness_result frame rb row rule i col rd).
      - by eapply list_elem_of_lookup_2. }
    split; [congruence|]. split; [|done].
    unfold detail_column. rewrite Hrc, Hcol.
    destruct col; [done|]. done.
Qed.

End WithExternals.

Lemma uniqueness_tracker_lists_repeated_values_witness :
  ∃ table,
    @execute_all_rules demo_externals
      (@RuleExecutorEngine demo_externals demo_frame
         {| rules := [demo_rule "uniqueness" None] |}) = Ok table
    ∧ "id" ≠ ""
    ∧ (1%nat ∈ default [] (_build_uniqueness_failures table !! "id")
       ↔ (∃ rule, rule ∈ [demo_rule "uniqueness" None]
                  ∧ rule_type rule = Some "uniqueness"
                  ∧ column rule = Some "id")
         ∧ "id" ∈ column_names demo_frame
         ∧ ∃ row, rows demo_frame !! 1%nat = Some row
                  ∧ @_is_null_or_empty demo_externals (row !! "id") = false
                  ∧ (2 ≤ occurrences (row !! "id")
                           (Pandas.column demo_frame "id"))%nat).
Proof.
  destruct (@execute_all_rules demo_externals
              (@RuleExecutorEngine demo_externals demo_frame
                 {| rules := [demo_rule "uniqueness" None] |}))
    as [table|e] eqn:Hrun; [|by vm_compute in Hrun].
  exists table. split; [done|].
  assert ("id" ≠ "") as Hne by done. split; [exact Hne|].
  exact (@uniqueness_tracker_lists_repeated_values demo_externals demo_frame
           {| rules := [demo_rule "uniqueness" None] |} table "id" 1%nat
           Hrun Hne).
Defined.

(** On [demo_frame] with a uniqueness rule on [id], the tracker lists
    the two rows that hold the value [a]. *)
Example uniqueness_tracker_on_demo_frame :
  (table ← @execute_all_rules demo_externals
             (@RuleExecutorEngine demo_externals demo_frame
                {| rules := [demo_rule "uniqueness" None] |});
   Ok (map_to_list (_build_uniqueness_failures table)))
  = Ok [("id", [0%nat; 1%nat])].
Proof. by vm_compute. Qed.

End TrackersProps.

(** ** The size of a file for display *)

Module FileSizeProps.
Import FileSize.

Local Open Scope Q_scope.

Lemma div_pow_0 (size : Q) : size == size / inject_Z (1024 ^ Z.of_nat 0).
Proof. change (inject_Z (1024 ^ Z.of_nat 0)) with 1. field. Qed.

Lemma scaled_spec (units : list string) (size : Q) :
  ∃ k : nat,
    (k ≤ length units)%nat
    ∧ (scaled units size).2 = nth k units "TB"
    ∧ (scaled units size).1 == size / inject_Z (1024 ^ Z.of_nat k)
    ∧ ((k < length units)%nat → (scaled units size).1 < 1024)
    ∧ ((0 < k)%nat → 1 <= (scaled units size).1)
    ∧ (k = 0%nat → (scaled units size).1 = size).
Proof.
  revert size. induction units as [|unit units IH]; intros size.
  - exists 0%nat. cbn. split; [lia|]. split; [done|].
    split; [apply div_pow_0|]. split; [intros; lia|]. split; [intros; lia|done].
  - cbn [scaled]. unfold PyNum.ltb.
    destruct (Qle_bool 1024 size) eqn:Hle; cbn [negb].
    + apply Qle_bool_iff in Hle.
      destruct (IH (size / 1024)) as (k & Hk & Hunit & Hval & Hlt & Hge & _).
      exists (S k). cbn [length nth]. split; [lia|]. split; [done|].
      split; [|split; [|split; [|done]]].
      * rewrite Hval. rewrite Nat2Z.inj_succ, Z.pow_succ_r by lia.
        rewrite inject_Z_mult.
        assert (¬ inject_Z (1024 ^ Z.of_nat k) == 0) as Hnz.
        { change 0 with (inject_Z 0). rewrite inject_Z_injective.
          apply Z.pow_nonzero; lia. }
        change (inject_Z 1024) with 1024. by field.
      * intros Hlen. apply Hlt. lia.
      * intros _. destruct k as [|k].
        -- rewrite Hval. change (inject_Z (1024 ^ Z.of_nat 0)) with 1.
           assert (size / 1024 / 1 == size * (1 # 1024)) as -> by field. lra.
        -- apply Hge. lia.
    + exists 0%nat. cbn. split; [lia|]. split; [done|].
      split; [apply div_pow_0|]. split; [|split; [intros; lia|done]]. intros _.
      destruct (Qlt_le_dec size 1024) as [Hlt|Hge]; [done|].
      apply Qle_bool_iff in Hge. cbn in Hge. congruence.
Qed.

Lemma hundredths_near (x : Q) :
  Qabs (inject_Z (hundredths x) / 100 - x) <= 1 # 200.
Proof.
  unfold hundredths.
  pose proof (ReportingProps.round_half_even_near (x * 100)) as Hnear.
  set (h := inject_Z (PyNum.round_half_even (x * 100))) in *. clearbody h.
  apply Qabs_Qle_condition in Hnear as [Hlo Hhi].
  apply Qabs_Qle_condition. split.
  - assert (h / 100 - x == (h - x * 100) * (1 # 100)) as -> by field. lra.
  - assert (h / 100 - x == (h - x * 100) * (1 # 100)) as -> by field. lra.
Qed.

Lemma hundredths_between (x : Q) (a b : Z) :
  inject_Z a <= x → x <= inject_Z b →
  (100 * a ≤ hundredths x ≤ 100 * b)%Z.
Proof.
  intros Ha Hb. unfold hundredths.
  apply RunProps.round_half_even_between.
  - rewrite inject_Z_mult. change (inject_Z 100) with 100. lra.
  - rewrite inject_Z_mult. change (inject_Z 100) with 100. lra.
Qed.

(** The size of a file for display, for a size that is a float exactly.
    The text is a number with two decimals, a blank and the unit.  The
    number is the nearest hundredth (a tie going to the even one) of
    the size divided by 1024 as many times as the unit stands after B
    in the list B, KB, MB, GB, TB.  It is at most 1024.00 for every
    unit except TB (1024.00 itself is shown for the sizes that round
    up to it) and at least 1.00 for every unit except B.  A size below
    1024 bytes, a negative one included, is shown in B as it is. *)
Theorem file_size_is_scaled (size_bytes : Z) :
  (Z.abs size_bytes < 2 ^ 53)%Z →
  ∃ (k : nat) (shown : Q),
    (k ≤ 4)%nat
    ∧ format_file_size size_bytes
      = two_decimals (size_bytes <? 0)%Z (hundredths shown) +:+ " "
        +:+ nth k ["B"; "KB"; "MB"; "GB"] "TB"
    ∧ shown == inject_Z size_bytes / inject_Z (1024 ^ Z.of_nat k)
    ∧ Qabs (inject_Z (hundredths shown) / 100 - shown) <= 1 # 200
    ∧ ((k < 4)%nat → (hundredths shown ≤ 102400)%Z)
    ∧ ((0 < k)%nat → (100 ≤ hundredths shown)%Z)
    ∧ ((size_bytes < 1024)%Z →
         k = 0%nat ∧ hundredths shown = (100 * size_bytes)%Z).
Proof.
  intros _. unfold format_file_size, fmt_2f.
  destruct (scaled_spec ["B"; "KB"; "MB"; "GB"] (inject_Z size_bytes))
    as (k & Hk & Hunit & Hval & Hlt & Hge & Hsame).
  destruct (scaled _ _) as [shown unit]. cbn [fst snd length] in *.
  exists k, shown. subst unit. split; [done|].
  assert (1 <= 1024 ^ Z.of_nat k)%Z as Hpow.
  { apply (Z.pow_le_mono_r 1024 0 (Z.of_nat k)); lia. }
  assert (0 < inject_Z (1024 ^ Z.of_nat k)) as Hpos.
  { change 0 with (inject_Z 0). rewrite <- Zlt_Qlt. lia. }
  assert (shown * inject_Z (1024 ^ Z.of_nat k) == inject_Z size_bytes) as Hmul.
  { rewrite Hval. field. lra. }
  assert (PyNum.ltb shown 0 = (size_bytes <? 0)%Z) as ->.
  { unfold PyNum.ltb. destruct (Z.ltb_spec size_bytes 0) as [Hneg|Hnn].
    - apply negb_true_iff, not_true_iff_false. intros Hle%Qle_bool_iff.
      assert (inject_Z size_bytes < 0) as Hs
        by (change 0 with (inject_Z 0); rewrite <- Zlt_Qlt; lia).
      assert (0 <= shown * inject_Z (1024 ^ Z.of_nat k))
        by (apply Qmult_le_0_compat; lra).
      lra.
    - apply negb_false_iff, Qle_bool_iff.
      assert (0 <= inject_Z size_bytes) as Hs
        by (change 0 with (inject_Z 0); rewrite <- Zle_Qle; lia).
      rewrite Hval. apply Qle_shift_div_l; lra. }
  split; [done|]. split; [done|]. split; [apply hundredths_near|].
  split; [|split].
  - intros Hk4. specialize (Hlt Hk4).
    destruct (hundredths_between shown (Qfloor shown) 1024) as [_ Hu];
      [apply Qfloor_le|change (inject_Z 1024) with 1024; lra|lia].
  - intros Hk0. specialize (Hge Hk0).
    destruct (hundredths_between shown 1 (Qfloor shown + 1)) as [Hl _];
      [done|apply Qlt_le_weak, Qlt_floor|lia].
  - intros Hsmall.
    assert (k = 0%nat) as ->.
    { destruct k as [|k]; [done|]. exfalso.
      specialize (Hge ltac:(lia)).
      assert (1024 <= 1024 ^ Z.of_nat (S k))%Z as Hbig.
      { rewrite Nat2Z.inj_succ, Z.pow_succ_r by lia.
        assert (1 <= 1024 ^ Z.of_nat k)%Z
          by (apply (Z.pow_le_mono_r 1024 0 (Z.of_nat k)); lia).
        lia. }
      assert (inject_Z (1024 ^ Z.of_nat (S k)) <= inject_Z size_bytes) as Hle.
      { rewrite <- Hmul.
        assert (1 * inject_Z (1024 ^ Z.of_nat (S k))
                <= shown * inject_Z (1024 ^ Z.of_nat (S k)))
          by (apply Qmult_le_compat_r; lra).
        lra. }
      rewrite <- Zle_Qle in Hle. lia. }
    split; [done|]. rewrite (Hsame eq_refl).
    destruct (hundredths_between (inject_Z size_bytes) size_bytes size_bytes)
      as [Hl Hu]; [apply Qle_refl..|lia].
Qed.

Lemma file_size_is_scaled_witness :
  (Z.abs 1048575 < 2 ^ 53)%Z
  ∧ ∃ (k : nat) (shown : Q),
      (k ≤ 4)%nat
      ∧ format_file_size 1048575
        = two_decimals (1048575 <? 0)%Z (hundredths shown) +:+ " "
          +:+ nth k ["B"; "KB"; "MB"; "GB"] "TB"
      ∧ shown == inject_Z 1048575 / inject_Z (1024 ^ Z.of_nat k)
      ∧ Qabs (inject_Z (hundredths shown) / 100 - shown) <= 1 # 200
      ∧ ((k < 4)%nat → (hundredths shown ≤ 102400)%Z)
      ∧ ((0 < k)%nat → (100 ≤ hundredths shown)%Z)
      ∧ ((1048575 < 1024)%Z →
           k = 0%nat ∧ hundredths shown = (100 * 1048575)%Z).
Proof.
  assert (Z.abs 1048575 < 2 ^ 53)%Z as Hsmall by (vm_compute; reflexivity).
  split; [exact Hsmall|]. exact (file_size_is_scaled 1048575 Hsmall).
Defined.

(** The last size below one megabyte is shown as 1024.00 KB; half a
    kilobyte above one kilobyte as 1.50 KB; one eighth of a kilobyte
    above it, a tie, as 1.12 KB; a negative size in bytes. *)
Example file_sizes :
  format_file_size <$> [0; 1023; 1024; 1048575; 1536; 1152; -5; 1099511627776]%Z
  = ["0.00 B"; "1023.00 B"; "1.00 KB"; "1024.00 KB"; "1.50 KB"; "1.12 KB";
     "-5.00 B"; "1.00 TB"].
Proof. vm_compute. reflexivity. Qed.

End FileSizeProps.
